(* ===== verification/_CoqProject ===== *)
-Q . S2P
Prelude.v
CryptoIface.v
Env.v
Spec.v
KeyCache.v
PqcRegistry.v
PqcKem.v
PqcSig.v
Server.v
TdePage.v
TdeWal.v
BufMgr.v
KeyProvider.v
MasterKeyFile.v
KeyManage.v
WalKeys.v
WalSign.v
Gf256.v
Envelope.v
AuditLog.v
AuditChain.v
Escrow.v
PqcCommonFe.v
DumpCrypt.v
MasterKeyTool.v
CryptoPolicy.v
CString.v
Base64.v
ScramSecret.v
Scram.v
FeScram.v
Auth.v
Credentials.v
Rotation.v
SignQueue.v
Compliance.v
HbaFile.v
Hba.v
Archive.v
ArchiveData.v
Tls.v
Tools.v
PeerName.v
FePassword.v
