(* ===== verification/Prelude.v ===== *)
(** * FortressQL: a verification library for the encryption and login layer

    FortressQL is PostgreSQL with post-quantum cryptography.  What it adds, and
    what this library models, is: encryption of data pages and WAL under keys
    that an ML-KEM key pair protects; signed WAL segments; an SQL extension with
    hybrid encryption, an audit log and key escrow; encrypted and signed dumps;
    a tool and a policy parameter to administer them; TLS with post-quantum
    groups; and logins with SCRAM-SHA-384 or a certificate with a post-quantum
    signature.  The server
    and the clients it is built into are modelled where these parts call them
    or are called by them.

    ** Shape of the model

    Every C function is a Rocq function of the same name over the same data:
    structs are records, enumerations inductive types, buffers lists of bytes,
    w-bit integers [Z] with the wrap-around written out.  Effects are a state
    monad [M S A] (this file): a program returns a value ([Ok]), raises the
    error of an [ereport(ERROR)] ([Err]), or ends the process ([Fatal]: FATAL,
    pg_fatal, a NULL dereference, a read outside an object).  The state at the
    point of an error is kept, so what a failing function leaves behind is part
    of the model.  A component runs on its own state, and [zoom] with a lens
    runs it inside the state of its client.

    - [CryptoIface.v]: OpenSSL and liboqs as a class [Crypto] with its documented
      laws [CryptoLaws], and an instance that satisfies them, on which the
      theorems with hypotheses are applied at concrete inputs (witnesses).
    - [Env.v]: files, variables, randomness, log, and a list of faults that
      decides which calls fail.  A theorem over all environments covers every
      combination of failures.
    - [Spec.v]: a program logic whose triples are the contracts between
      components.
    - [Server.v]: the static variables of a server process as one record.

    ** Parts, with their sources under src/src (the extension: src/contrib)

    Keys and data at rest:
    - [KeyCache.v]: backend/crypto/tde/tde_keycache.c, the shared array of keys
      of tablespaces.  Its operations refine a finite map, and an invariant
      holds in all reachable states.
    - [KeyProvider.v], [MasterKeyFile.v], [KeyManage.v]: tde_key_provider.c and
      tde_keymanage.c.  A generated file unwraps to the same key; whatever is
      accepted was authenticated under the secret that the provider's key
      decapsulates from the file; rotation writes a file that wraps the new key
      or keeps the key in memory, but can destroy the file.
    - [TdePage.v], [TdeWal.v]: tde_page.c and tde_wal.c.  Decryption undoes
      encryption, a page with a key is never left in clear by a successful
      call, inputs of IVs are distinct, and versions of a page share a
      keystream.
    - [BufMgr.v]: the hooks of storage/buffer/bufmgr.c with the checksum of
      storage/checksum_impl.h.  What a flush writes a read gives back; after
      a rotation pages are flushed in clear.
    - [MasterKeyTool.v]: bin/pg_tde_master_key/pg_tde_master_key.c.  The server
      unwraps what the tool wrote with the key the tool printed.
    - [Tools.v]: the key files in pg_upgrade (pg_upgrade.c, check.c) and
      pg_basebackup.c, and the options of pg_dump.c for encryption.  Whatever
      fails, a migration has copied the keys or warned; a server of the
      upgraded cluster unwraps the master key of the old one.

    Post-quantum wrappers:
    - [PqcRegistry.v], [PqcKem.v], [PqcSig.v]: backend/crypto/pqc/pqc_common.c,
      pqc_stats.c, pqc_kem.c and pqc_sig.c.  The registry is filled from liboqs,
      names are found without regard to case, sessions agree and verify.
    - [PqcCommonFe.v]: common/pqc-common.c, the same for client programs.

    Write-ahead log:
    - [WalKeys.v], [WalSign.v]: pqc_wal_keys.c, pqc_wal_verify.c,
      pqc_preflight.c and the signing in access/transam/xlog.c, with
      walreceiver.c and ipci.c where they call it.  Keys survive a restart, the
      queue of finished segments refines a bounded list, the name of a
      signature file determines its segment, and a segment is signed as a hash
      but verified as raw bytes.
    - [SignQueue.v]: a round of finished segments and deferred signing.  Where
      nothing fails every finished segment ends up with a signature that the
      public key verifies, if the signatures of the key fit the buffer, which
      has the size of one of ML-DSA-65; otherwise nothing is signed.

    The extension (pgcrypto_pqc.c):
    - [Envelope.v]: encryption of values and columns.  Decryption gives back
      what was encrypted, and what it accepts is an encryption of its result
      under the algorithm that the envelope names.
    - [AuditLog.v], [AuditChain.v]: the hook never fails a statement, the log
      it writes verifies, and what deletions and new keys do to verification.
    - [Gf256.v], [Escrow.v]: the loops compute in a field; enough shares give
      back what was read of the key (whose memory has been released by then),
      and fewer are equally distributed whatever it was.
    - [Rotation.v]: rotation of the WAL signing keys and of the master key, and
      the functions that report on keys and algorithms.  After a rotation the
      backend signs with the new key, an interrupted one leaves files of
      different pairs.
    - [Credentials.v]: pqc_migrate_credentials.  A forced reset locks its roles
      out, also once they have a new password.
    - [Compliance.v]: the report and the view of pgcrypto_pqc--1.2--1.3.sql with
      utils/adt/bool.c.  Neither can report compliance, as they ask for policies
      that do not exist.

    Dumps and policy:
    - [DumpCrypt.v]: bin/pg_dump/compress_pqc.c.  A dump is restored, a restore
      accepts only the stream the encryptor makes of the data it returns,
      nonces differ, signatures verify.
    - [Archive.v], [ArchiveData.v]: the custom format of bin/pg_dump
      (pg_backup_archiver.c, pg_backup_custom.c, compress_none.c).  An archive
      is opened with the header and the entries of the dump, equal in every
      field written, and the data of every entry comes back, by its position or, from an input that cannot be
      positioned, by reading on.  Builds with and without USE_PQC do not read
      each other's archives.
    - [CryptoPolicy.v]: backend/libpq/crypto-policy.c with the part of
      utils/misc/guc.c it uses.  The policy outranks the configuration, also
      once it is set back to custom, and a session outranks the policy.

    Logins:
    - [CString.v], [Base64.v]: what the code uses of the C library, and
      common/base64.c, with its round trip.
    - [ScramSecret.v]: common/scram-common.c, backend/libpq/crypt.c and the
      secrets of auth-scram.c.  Secrets are parsed back, and a password verifies
      against what was stored for it.
    - [Scram.v], [FeScram.v]: the server (auth-scram.c, auth-sasl.c) and libpq
      (fe-auth-scram.c, fe-auth.c).  Both are composed message by message: the
      right password logs in and the client has checked the server; over TLS
      with channel binding a SHA-384 login fails, and so does one with a secret
      of the other hash.
    - [FePassword.v]: the secret a client computes for a new password
      (fe-auth.c, fe-auth-scram.c).  The server takes it over and verifies the
      password against it; under the policies for FIPS a client that leaves
      the choice to the server cannot compute one.
    - [Auth.v]: auth.c, auth-pqc.c and the options and user name maps of
      hba.c.  Whoever is let in by SCRAM has sent a first message, and a second
      with the nonce of this exchange and a proof that the stored key of an
      unexpired secret of the role confirms, bound to the channel where the
      mechanism says so; a pqc-cert line lets in exactly the holders of a
      verified certificate with a listed signature that names the role.
    - [HbaFile.v]: the tokenizer of hba.c, with inclusions, continuation lines
      and read errors.  It always ends, a file of lines with quoted tokens is
      read back whatever bytes but NUL and newline they have, and a file that
      includes itself is an error.
    - [Hba.v]: the parser of hba.c, the replacement of the lines in use, the
      choice of a line for a connection, and ifaddr.c.  The lines are replaced
      by those read of a file if all of them parse or not at all; where reading
      fails midway these are the lines before the failure.  The first
      matching line is taken, a CIDR field matches the addresses of its
      network, and nobody is let in except by a line of the file.
    - [Tls.v]: the context of the server (be-secure-openssl.c,
      be-secure-common.c, common/percentrepl.c, postmaster.c) and the groups of
      the client (fe-secure-openssl.c).  A reload installs a complete context or
      keeps the old one, what the postmaster knows of its context is true in
      every state it reaches, and under the policies for FIPS the server has no
      group in common with the lists a client with default settings sets.
    - [PeerName.v]: the names in certificates (fe-secure-common.c,
      fe-secure-openssl.c, be-secure-openssl.c).  With verify-full libpq goes
      on exactly with servers whose certificate is for the host, and whoever
      logs in with a certificate has one that names the role in full.

    ** Assumptions

    - Primitives are deterministic functions of their inputs and of the number
      of the random draw.  Laws of [CryptoLaws] are correctness (lengths,
      decapsulation and verification undo their counterparts, the keystream is
      as long as asked), never secrecy.  ML-KEM is taken to decapsulate
      without error; its failure probability is not modelled.  Authenticity
      theorems say which bytes were accepted (the tag is the tag of that
      ciphertext), not that forging them is hard.
    - A cipher update that fails leaves its output buffer untouched.
    - A function that takes a lock for its whole body is one step, so
      interleavings are sequences of calls.
    - Strings are in the C locale; conversions of [snprintf] truncate as in C;
      casts to [int] wrap ([c_int]) and a negative size ends the process.
    - SQL statements run through SPI run as a whole or raise an error; jsonb is
      a class with a law on normal forms.  Uninitialised memory is a parameter,
      and so is what is found in memory that was released ([Released] of
      [AuditLog.v]).
    - Assertions are off, as in production builds.
    - SASLprep, regular expressions, role membership, OpenSSL's names of objects
      and the methods of external services are parameters without laws.  So are
      the resolver and the interfaces of the machine, the place of included
      files and the files of a directory (of which termination is assumed where
      a theorem claims it), and the methods the server was built with.
    - Of OpenSSL's TLS, which files, names and lists it accepts is a parameter
      ([OpenSSL] of [Tls.v]); where a theorem needs it, a list of nothing but
      names is taken to stand for these names ([PlainGroups]).  A certificate is
      given by its names; conversions of addresses are a parameter ([Inet]).
    - For archives [localtime], [mktime], the numbers of encodings, the
      compression libraries and what C leaves undefined of a shift are
      parameters; of dates it is assumed that [mktime] undoes [localtime] at
      the date of the dump, of a compressor that it gives back what it was
      given (proved of the one without compression).

    ** Fuel

    Loops are structural where the C loop consumes a list or counts.  The others
    take fuel and are proved to have enough: the hash loop over a segment and
    the scan of the list of audited events run on one more than the length of
    their input; the scans of SCRAM attributes on the length of the message
    ([skip_attrs_ends], [find_proof_ends]); [%d] on ten digits, which an [int]
    has at most.  The tokenizer runs on the number of lines of a file, on one
    more than the length of a line for its fields and its tokens, and on the
    ten levels the code allows for inclusions; more rounds are proved to change
    nothing.  The loops over the blocks of an archive return [None] when they
    have not ended; the theorems give them one more than the bytes of the
    archive, and [skip_never_ends] shows a damaged archive for which no fuel is
    enough.  The loop over dependencies runs on the bytes left
    ([read_deps_ends]), and the loop that copies a key file on one more than
    its bytes ([copy_loop_fuel]).

    ** Not modelled

    - Secrets left in memory, allocation limits, lifetimes other than those of
      memory that is read after its release, interrupts, texts of messages and
      the details of the log.
    - Forming tuples; saved values of parameters in a transaction; parsing of
      command lines; of the authentication files what [fgets] makes of NUL
      bytes, the options of LDAP, RADIUS, PAM and GSSAPI (the rest of a line
      with them is a parameter), and the views over these files.
    - Of archives: the other formats, the code that calls zlib, LZ4 and
      Zstandard (compress_gzip.c, compress_lz4.c, compress_zstd.c), parallel dump
      and restore, and the commands run on restore.
    - Of TLS: the handshake and the transfer of data, which OpenSSL does, the
      rest of the setup of the client, and Windows.
    - Of pg_upgrade, pg_basebackup and pg_dump: everything but the keys and the
      options for encryption.
    - The stubs of builds without USE_PQC, and functions that only free memory.
    - PostgreSQL outside these parts, which the repository does not change.

    This file holds bytes, machine integers, encodings, the monad with its
    lenses, invariants, tactics and shared lemmas. *)
From Stdlib Require Import ZArith Lia Bool String Ascii List Morphisms Setoid.
Import ListNotations.
Local Open Scope Z_scope.

(** ** Bytes and machine integers

    A byte is a [Z] in [0, 256); a buffer is a list of bytes.  Unsigned
    w-bit values are [Z] with the wrap-around written out. *)

Abbreviation bytes := (list Z).

Definition is_byte (b : Z) : bool := (0 <=? b) && (b <? 256).

Definition wf_bytes (l : bytes) : bool := forallb is_byte l.

Definition u8 (x : Z) : Z := x mod 2 ^ 8.
Definition u16 (x : Z) : Z := x mod 2 ^ 16.
Definition u32 (x : Z) : Z := x mod 2 ^ 32.
Definition u64 (x : Z) : Z := x mod 2 ^ 64.

(** The conversion of a wider integer to [int]. *)
Definition c_int (n : Z) : Z := (n + 2 ^ 31) mod 2 ^ 32 - 2 ^ 31.

(** To [int64], and to a [char], which is signed. *)
Definition c_long (n : Z) : Z := (n + 2 ^ 63) mod 2 ^ 64 - 2 ^ 63.
Definition c_char (n : Z) : Z := (n + 2 ^ 7) mod 2 ^ 8 - 2 ^ 7.

Definition isspace (c : Z) : bool := (c =? 32) || ((9 <=? c) && (c <=? 13)).

(** [blen] is the length of a buffer as a C size. *)
Definition blen (l : bytes) : Z := Z.of_nat (length l).

(** The bytes of an integer in memory order of a little-endian machine
    ([memcpy] from an integer), and in network order. *)
Fixpoint le_bytes (n : nat) (x : Z) : bytes :=
  match n with
  | O => []
  | S n' => x mod 256 :: le_bytes n' (x / 256)
  end.

Fixpoint le_val (l : bytes) : Z :=
  match l with
  | [] => 0
  | b :: l' => b + 256 * le_val l'
  end.

Definition be_bytes (n : nat) (x : Z) : bytes := rev (le_bytes n x).
Definition be_val (l : bytes) : Z := le_val (rev l).

(** [memset(p, 0, n)] and [explicit_bzero(p, n)]. *)
Definition zeros (n : nat) : bytes := repeat 0 n.

(** A slice [p + off .. p + off + len] of a buffer. *)
Definition sub (off len : nat) (l : bytes) : bytes := firstn len (skipn off l).

(** Byte-wise exclusive or, as long as the shorter argument. *)
Fixpoint xor_bytes (a b : bytes) : bytes :=
  match a, b with
  | x :: a', y :: b' => Z.lxor x y :: xor_bytes a' b'
  | _, _ => []
  end.

(** [memcmp(a, b, n) == 0] on buffers. *)
Fixpoint bytes_eqb (a b : bytes) : bool :=
  match a, b with
  | [], [] => true
  | x :: a', y :: b' => (x =? y) && bytes_eqb a' b'
  | _, _ => false
  end.

(** The bytes of a C string literal, without its terminator. *)
Fixpoint bytes_of_string (s : string) : bytes :=
  match s with
  | EmptyString => []
  | String c s' => Z.of_nat (nat_of_ascii c) :: bytes_of_string s'
  end.

(** ** Outcomes

    [ereport(ERROR)] unwinds to the closest [PG_TRY]; [ereport(PANIC)] and
    [ereport(FATAL)] end the process and are caught by nothing.  A front-end
    program ends with [pg_fatal]/[exit(1)], which is [Fatal] too, and so is the
    end of a process that reads through a NULL pointer. *)

Inductive errcode :=
| ERRCODE_INTERNAL_ERROR
| ERRCODE_DATA_CORRUPTED
| ERRCODE_OUT_OF_MEMORY
| ERRCODE_CONFIGURATION_LIMIT_EXCEEDED
| ERRCODE_CONFIG_FILE_ERROR
| ERRCODE_INVALID_PARAMETER_VALUE
| ERRCODE_FEATURE_NOT_SUPPORTED
| ERRCODE_OBJECT_NOT_IN_PREREQUISITE_STATE
| ERRCODE_EXTERNAL_ROUTINE_EXCEPTION
| ERRCODE_INSUFFICIENT_PRIVILEGE
| ERRCODE_UNDEFINED_OBJECT
| ERRCODE_DATA_EXCEPTION
| ERRCODE_INVALID_BINARY_REPRESENTATION
| ERRCODE_NULL_VALUE_NOT_ALLOWED
| ERRCODE_SYSTEM_ERROR
| ERRCODE_WRONG_OBJECT_TYPE
| ERRCODE_DIVISION_BY_ZERO
| ERRCODE_CANT_CHANGE_RUNTIME_PARAM
| ERRCODE_PROTOCOL_VIOLATION
| ERRCODE_INVALID_PASSWORD
| ERRCODE_INVALID_AUTHORIZATION_SPECIFICATION
| ERRCODE_FILE_ACCESS.

Inductive outcome (A : Type) :=
| Ok (a : A)
| Err (e : errcode)
| Fatal.
Arguments Ok {A} a.
Arguments Err {A} e.
Arguments Fatal {A}.

(** ** The monad

    A program of type [M S A] runs on a state [S].  The state reached before
    an [ERROR] is kept: a [longjmp] undoes no assignment. *)

Definition M (S A : Type) : Type := S -> outcome A * S.

Definition ret {S A} (a : A) : M S A := fun s => (Ok a, s).
Definition raise {S A} (e : errcode) : M S A := fun s => (Err e, s).
Definition fatal {S A} : M S A := fun s => (Fatal, s).

Definition bind {S A B} (m : M S A) (k : A -> M S B) : M S B :=
  fun s =>
    match m s with
    | (Ok a, s') => k a s'
    | (Err e, s') => (Err e, s')
    | (Fatal, s') => (Fatal, s')
    end.

Definition get {S} : M S S := fun s => (Ok s, s).
Definition put {S} (s' : S) : M S unit := fun s => (Ok tt, s').
Definition gets {S A} (f : S -> A) : M S A := fun s => (Ok (f s), s).
Definition modify {S} (f : S -> S) : M S unit := fun s => (Ok tt, f s).

(** [PG_TRY { m } PG_CATCH { h }]: the handler runs in the state in which
    the error was raised. *)
Definition pg_try {S A} (m : M S A) (h : errcode -> M S A) : M S A :=
  fun s =>
    match m s with
    | (Err e, s') => h e s'
    | r => r
    end.

Arguments ret {S A} a s /.
Arguments raise {S A} e s /.
Arguments fatal {S A} s /.
Arguments bind {S A B} m k s /.
Arguments get {S} s /.
Arguments put {S} s' s /.
Arguments gets {S A} f s /.
Arguments modify {S} f s /.
Arguments pg_try {S A} m h s /.

Declare Scope pg_scope.
Delimit Scope pg_scope with pg.
Notation "'let!' x ':=' m 'in' k" := (bind m (fun x => k))
  (at level 10, x pattern, m at level 100, k at level 200)
  : pg_scope.
Notation "'do!' m 'in' k" := (bind m (fun _ => k))
  (at level 10, m at level 100, k at level 200)
  : pg_scope.

(** [when c m] is [if (c) m;]. *)
Definition when {S} (c : bool) (m : M S unit) : M S unit :=
  if c then m else ret tt.

(** ** Parts of a state

    A component runs on its own state; [zoom] runs it inside a larger one. *)

Record lens (S T : Type) := Lens {
  view : S -> T;
  over : T -> S -> S
}.
Arguments Lens {S T} view over.
Arguments view {S T} l s.
Arguments over {S T} l t s.

Class LensLaws {S T} (l : lens S T) : Prop := {
  view_over : forall t s, view l (over l t s) = t;
  over_view : forall s, over l (view l s) s = s;
  over_over : forall t t' s, over l t (over l t' s) = over l t s
}.

Definition zoom {S T A} (l : lens S T) (m : M T A) : M S A :=
  fun s => let '(o, t) := m (view l s) in (o, over l t s).

Arguments zoom {S T A} l m s /.

Definition fstL {A B} : lens (A * B) A :=
  Lens fst (fun a s => (a, snd s)).
Definition sndL {A B} : lens (A * B) B :=
  Lens snd (fun b s => (fst s, b)).

(** A part of a part. *)
Definition composeL {S T U} (l : lens S T) (l' : lens T U) : lens S U :=
  Lens (fun s => view l' (view l s)) (fun u s => over l (over l' u (view l s)) s).

#[export] Instance composeL_laws {S T U} (l : lens S T) (l' : lens T U)
    `{!LensLaws l} `{!LensLaws l'} : LensLaws (composeL l l').
Proof.
  split; intros; cbn; rewrite ?view_over, ?over_view, ?over_over, ?view_over; auto.
Qed.

#[export] Instance fstL_laws {A B} : LensLaws (@fstL A B).
Proof. split; intros; destruct s; reflexivity. Qed.

#[export] Instance sndL_laws {A B} : LensLaws (@sndL A B).
Proof. split; intros; destruct s; reflexivity. Qed.

(** ** Hoare triples

    [triple P m Q]: from a state in [P], [m] ends with an outcome and a state
    in [Q].  Programs are total functions, so there is no partiality here. *)

Definition triple {S A} (P : S -> Prop) (m : M S A)
    (Q : outcome A -> S -> Prop) : Prop :=
  forall s, P s -> Q (fst (m s)) (snd (m s)).

(** [preserves I m]: [m] keeps the invariant [I] however it ends. *)
Definition preserves {S A} (I : S -> Prop) (m : M S A) : Prop :=
  triple I m (fun _ => I).

Section Triples.
  Context {S : Type}.

Lemma triple_bind {A B} (P : S -> Prop) (m : M S A) (k : A -> M S B)
    (R Q : _ -> S -> Prop) :
  triple P m R ->
  (forall a, triple (R (Ok a)) (k a) Q) ->
  (forall s e, R (Err e) s -> Q (Err e) s) ->
  (forall s, R Fatal s -> Q Fatal s) ->
  triple P (bind m k) Q.
Proof.
  intros Hm Hk He Hf s Hs. specialize (Hm s Hs). unfold bind.
  destruct (m s) as [[a|e|] s']; cbn in *; auto. exact (Hk a s' Hm).
Qed.

Lemma triple_conseq {A} (P P' : S -> Prop) (m : M S A) (Q Q' : _ -> S -> Prop) :
  triple P' m Q' -> (forall s, P s -> P' s) ->
  (forall o s, Q' o s -> Q o s) -> triple P m Q.
Proof. intros H HP HQ s Hs. apply HQ, H, HP, Hs. Qed.

Lemma preserves_ret {A} (I : S -> Prop) (a : A) : preserves I (ret a).
Proof. intros s Hs; exact Hs. Qed.

Lemma preserves_raise {A} (I : S -> Prop) e : preserves I (@raise S A e).
Proof. intros s Hs; exact Hs. Qed.

Lemma preserves_fatal {A} (I : S -> Prop) : preserves I (@fatal S A).
Proof. intros s Hs; exact Hs. Qed.

Lemma preserves_get (I : S -> Prop) : preserves I (@get S).
Proof. intros s Hs; exact Hs. Qed.

Lemma preserves_gets {A} (I : S -> Prop) (f : S -> A) : preserves I (gets f).
Proof. intros s Hs; exact Hs. Qed.

Lemma preserves_modify (I : S -> Prop) (f : S -> S) :
  (forall s, I s -> I (f s)) -> preserves I (modify f).
Proof. intros H s Hs; exact (H s Hs). Qed.

Lemma preserves_bind {A B} (I : S -> Prop) (m : M S A) (k : A -> M S B) :
  preserves I m -> (forall a, preserves I (k a)) -> preserves I (bind m k).
Proof. intros Hm Hk. eapply triple_bind; [exact Hm|exact Hk|auto|auto]. Qed.

(** A first program that keeps the precondition, with failures covered. *)
Lemma triple_prefix {A B} (I : S -> Prop) (m : M S A) (k : A -> M S B) (Q : _ -> S -> Prop) :
  preserves I m -> (forall a, triple I (k a) Q) ->
  (forall o s, (match o with Ok _ => False | _ => True end) -> I s -> Q o s) ->
  triple I (bind m k) Q.
Proof.
  intros Hm Hk Hq. eapply triple_bind; [exact Hm|exact Hk|intros s e; apply (Hq (Err e)); exact Logic.I|
    intros s; apply (Hq Fatal); exact Logic.I].
Qed.

Lemma preserves_when (I : S -> Prop) c (m : M S unit) :
  preserves I m -> preserves I (when c m).
Proof. destruct c; [auto|intros _; apply preserves_ret]. Qed.

Lemma preserves_pg_try {A} (I : S -> Prop) (m : M S A) h :
  preserves I m -> (forall e, preserves I (h e)) -> preserves I (pg_try m h).
Proof.
  intros Hm Hh s Hs. specialize (Hm s Hs). unfold pg_try.
  destruct (m s) as [[a|e|] s']; cbn in *; auto. exact (Hh e s' Hm).
Qed.

(** Equality of programs: same outcome and same state from every state. *)
Definition meq {A} (m m' : M S A) : Prop := forall s, m s = m' s.

#[export] Instance meq_equiv {A} : Equivalence (@meq A).
Proof.
  split; [intros m s; reflexivity|intros m m' H s; symmetry; apply H|].
  intros m1 m2 m3 H12 H23 s. rewrite H12. apply H23.
Qed.

#[export] Instance bind_proper {A B} :
  Proper (meq ==> pointwise_relation A meq ==> meq) (@bind S A B).
Proof.
  intros m m' Hm k k' Hk s. unfold bind. rewrite (Hm s).
  destruct (m' s) as [[a|e|] s']; [apply Hk|reflexivity..].
Qed.

#[export] Instance preserves_proper {A} (I : S -> Prop) :
  Proper (meq ==> iff) (@preserves S A I).
Proof. intros m m' H; split; intros Hm s Hs; [rewrite <- H|rewrite H]; auto. Qed.

Lemma bind_assoc {A B C} (m : M S A) (k : A -> M S B) (h : B -> M S C) :
  meq (bind (bind m k) h) (bind m (fun a => bind (k a) h)).
Proof. intros s. unfold bind. destruct (m s) as [[a|e|] s']; reflexivity. Qed.

Lemma bind_ret_l {A B} (a : A) (k : A -> M S B) : meq (bind (ret a) k) (k a).
Proof. intros s. reflexivity. Qed.

(** Inversion of a bind that returned normally. *)
Lemma bind_ok_inv {A B} (m : M S A) (k : A -> M S B) s b s' :
  bind m k s = (Ok b, s') ->
  exists a s1, m s = (Ok a, s1) /\ k a s1 = (Ok b, s').
Proof.
  unfold bind. destruct (m s) as [[a|e|] s1]; intros H; try discriminate.
  exists a, s1; split; [reflexivity|exact H].
Qed.

Lemma bind_cases {A B} (m : M S A) (k : A -> M S B) s o s' :
  bind m k s = (o, s') ->
  (exists a s1, m s = (Ok a, s1) /\ k a s1 = (o, s')) \/
  (exists e, m s = (Err e, s') /\ o = Err e) \/ (m s = (Fatal, s') /\ o = Fatal).
Proof. unfold bind. destruct (m s) as [[a|e|] s1]; intros H; [left|right; left|right; right];
  try injection H as <- <-; eauto. Qed.

Lemma bind_step {A B} (m : M S A) (k : A -> M S B) s a s1 :
  m s = (Ok a, s1) -> bind m k s = k a s1.
Proof. unfold bind. intros ->. reflexivity. Qed.

Lemma bind_err {A B} (m : M S A) (k : A -> M S B) s e s1 :
  m s = (Err e, s1) -> bind m k s = (Err e, s1).
Proof. unfold bind. intros ->. reflexivity. Qed.

Lemma bind_fatal {A B} (m : M S A) (k : A -> M S B) s s1 :
  m s = (Fatal, s1) -> bind m k s = (Fatal, s1).
Proof. unfold bind. intros ->. reflexivity. Qed.

Lemma pg_try_ok {A} (m : M S A) h s a s1 :
  m s = (Ok a, s1) -> pg_try m h s = (Ok a, s1).
Proof. unfold pg_try. intros ->. reflexivity. Qed.

Lemma pg_try_err {A} (m : M S A) h s e s1 :
  m s = (Err e, s1) -> pg_try m h s = h e s1.
Proof. unfold pg_try. intros ->. reflexivity. Qed.
End Triples.

Lemma preserves_zoom {S T A} (l : lens S T) `{!LensLaws l} (I : T -> Prop)
    (m : M T A) :
  preserves I m -> preserves (fun s => I (view l s)) (zoom l m).
Proof.
  intros H s Hs. specialize (H (view l s) Hs). unfold zoom.
  destruct (m (view l s)) as [o t]; cbn in *. rewrite view_over. exact H.
Qed.

(** A program of one component leaves what a disjoint lens sees alone. *)
Lemma preserves_zoom_frame {S T A} (l : lens S T) (J : S -> Prop) (m : M T A) :
  (forall t s, J s -> J (over l t s)) -> preserves J (zoom l m).
Proof.
  intros H s Hs. unfold zoom. destruct (m (view l s)) as [o t]; cbn. auto.
Qed.

Create HintDb pg.
#[export] Hint Resolve preserves_ret preserves_raise preserves_fatal
  preserves_get preserves_gets : pg.

(** [mstep] opens one layer of a program whose invariant is to be preserved. *)
Ltac mstep :=
  match goal with
  | |- preserves _ (bind _ _) => apply preserves_bind; [|intros ?]
  | |- preserves _ (when _ _) => apply preserves_when
  | |- preserves _ (pg_try _ _) => apply preserves_pg_try; [|intros ?]
  | |- preserves _ (modify _) => apply preserves_modify; intros ? ?
  | |- preserves _ (if ?c then _ else _) => destruct c
  | |- preserves _ (let '(_, _) := ?p in _) => destruct p
  | |- preserves _ (match ?o with Some _ => _ | None => _ end) => destruct o
  end.
Ltac msteps := repeat (mstep || solve [auto with pg]).

(** [minv H] peels the binds of a program that returned normally. *)
Ltac minv H :=
  let a := fresh "a" in let s := fresh "s" in let Hm := fresh "Hm" in
  apply bind_ok_inv in H; destruct H as (a & s & Hm & H).

(** [mcases H] splits on how the first program of a bind ended. *)
Ltac mcases H :=
  let a := fresh "a" in let s := fresh "s" in let e := fresh "e" in let Hm := fresh "Hm" in
  apply bind_cases in H; destruct H as [(a & s & Hm & H) | [(e & Hm & ->) | [Hm ->]]].

(** [mrun H] runs the first program of a bind, whose result is [H]. *)
Ltac mrun H := rewrite (bind_step _ _ _ _ _ H); cbv beta iota.

(** ** Lemmas on bytes and encodings *)

Lemma c_int_small n : 0 <= n < 2 ^ 31 -> c_int n = n.
Proof. intros Hn. unfold c_int. rewrite Z.mod_small; lia. Qed.

Lemma is_byte_iff b : is_byte b = true <-> 0 <= b < 256.
Proof. unfold is_byte. lia. Qed.

Lemma wf_bytes_app a b : wf_bytes (a ++ b) = wf_bytes a && wf_bytes b.
Proof. apply forallb_app. Qed.

Lemma wf_bytes_firstn n l : wf_bytes l = true -> wf_bytes (firstn n l) = true.
Proof.
  revert l; induction n as [|n IH]; intros [|x l]; cbn; auto.
  rewrite !andb_true_iff. intros [? ?]; auto.
Qed.

Lemma wf_bytes_skipn n l : wf_bytes l = true -> wf_bytes (skipn n l) = true.
Proof.
  revert l; induction n as [|n IH]; intros [|x l]; cbn; auto.
  rewrite andb_true_iff. intros [? ?]; auto.
Qed.

Lemma length_le_bytes n x : length (le_bytes n x) = n.
Proof. revert x; induction n; cbn; auto. Qed.

Lemma length_be_bytes n x : length (be_bytes n x) = n.
Proof. unfold be_bytes. rewrite length_rev. apply length_le_bytes. Qed.

Lemma wf_le_bytes n x : wf_bytes (le_bytes n x) = true.
Proof.
  revert x; induction n as [|n IH]; intros x; cbn; auto.
  rewrite IH, andb_true_r. apply is_byte_iff, Z.mod_pos_bound; lia.
Qed.

Lemma wf_be_bytes n x : wf_bytes (be_bytes n x) = true.
Proof.
  unfold be_bytes, wf_bytes. apply forallb_forall. intros y Hy.
  apply in_rev in Hy. revert y Hy. apply forallb_forall, wf_le_bytes.
Qed.

Lemma le_val_le_bytes n x :
  0 <= x < 256 ^ Z.of_nat n -> le_val (le_bytes n x) = x.
Proof.
  revert x; induction n as [|n IH]; intros x Hx.
  - cbn in *. lia.
  - cbn [le_bytes le_val]. rewrite Nat2Z.inj_succ, Z.pow_succ_r in Hx by lia.
    rewrite IH.
    + pose proof (Z.div_mod x 256); lia.
    + split; [apply Z.div_pos; lia|apply Z.div_lt_upper_bound; lia].
Qed.

Lemma be_val_be_bytes n x :
  0 <= x < 256 ^ Z.of_nat n -> be_val (be_bytes n x) = x.
Proof. unfold be_val, be_bytes. rewrite rev_involutive. apply le_val_le_bytes. Qed.

Lemma le_bytes_le_val l :
  wf_bytes l = true -> le_bytes (length l) (le_val l) = l.
Proof.
  induction l as [|b l IH]; cbn [le_bytes le_val length wf_bytes forallb]; auto.
  rewrite andb_true_iff, is_byte_iff.
  intros [Hb Hl]. rewrite (Z.mul_comm 256), Z_mod_plus_full, Z.mod_small by lia.
  rewrite Z.div_add, Z.div_small, Z.add_0_l by lia. rewrite IH by auto. reflexivity.
Qed.

Lemma le_val_bound l :
  wf_bytes l = true -> 0 <= le_val l < 256 ^ blen l.
Proof.
  unfold blen. induction l as [|b l IH]; cbn [le_val length wf_bytes forallb].
  - cbn. lia.
  - rewrite andb_true_iff, is_byte_iff. intros [Hb Hl].
    rewrite Nat2Z.inj_succ, Z.pow_succ_r by lia. specialize (IH Hl). lia.
Qed.

Lemma le_bytes_inj n x y :
  0 <= x < 256 ^ Z.of_nat n -> 0 <= y < 256 ^ Z.of_nat n ->
  le_bytes n x = le_bytes n y -> x = y.
Proof.
  intros Hx Hy E. rewrite <- (le_val_le_bytes n x), <- (le_val_le_bytes n y), E; auto.
Qed.

Lemma be_bytes_inj n x y :
  0 <= x < 256 ^ Z.of_nat n -> 0 <= y < 256 ^ Z.of_nat n ->
  be_bytes n x = be_bytes n y -> x = y.
Proof.
  intros Hx Hy E. rewrite <- (be_val_be_bytes n x), <- (be_val_be_bytes n y), E; auto.
Qed.

Lemma bytes_eqb_eq a b : bytes_eqb a b = true <-> a = b.
Proof.
  revert b; induction a as [|x a IH]; intros [|y b]; cbn; split; intros H;
    try discriminate; auto.
  - apply andb_true_iff in H as [Hx Ha].
    apply Z.eqb_eq in Hx. apply IH in Ha. congruence.
  - injection H as -> ->. rewrite Z.eqb_refl. cbn. apply IH; auto.
Qed.

Lemma bytes_eqb_refl a : bytes_eqb a a = true.
Proof. apply bytes_eqb_eq; reflexivity. Qed.

Lemma length_zeros n : length (zeros n) = n.
Proof. apply repeat_length. Qed.

(** *** Exclusive or *)

Lemma length_xor_bytes a b : length (xor_bytes a b) = Nat.min (length a) (length b).
Proof. revert b; induction a as [|x a IH]; intros [|y b]; cbn; auto. Qed.

Lemma xor_bytes_involutive a k :
  (length a <= length k)%nat -> xor_bytes (xor_bytes a k) k = a.
Proof.
  revert k; induction a as [|x a IH]; intros [|y k] H; cbn in *; auto; try lia.
  rewrite Z.lxor_assoc, Z.lxor_nilpotent, Z.lxor_0_r, IH by lia. reflexivity.
Qed.

(** Two texts under one keystream: the keystream cancels. *)
Lemma xor_bytes_cancel a b k :
  (length a <= length k)%nat -> (length b <= length k)%nat ->
  xor_bytes (xor_bytes a k) (xor_bytes b k) = xor_bytes a b.
Proof.
  revert b k; induction a as [|x a IH]; intros [|y b] [|z k] Ha Hb;
    cbn in *; auto; try lia.
  rewrite IH by lia. f_equal.
  rewrite (Z.lxor_comm y z), Z.lxor_assoc, <- (Z.lxor_assoc z z y),
    Z.lxor_nilpotent, Z.lxor_0_l. reflexivity.
Qed.

Lemma lxor_byte x y : 0 <= x < 256 -> 0 <= y < 256 -> 0 <= Z.lxor x y < 256.
Proof.
  intros Hx Hy. assert (0 <= Z.lxor x y) by (apply Z.lxor_nonneg; lia).
  split; auto. destruct (Z.eq_dec (Z.lxor x y) 0) as [->|Hnz]; [lia|].
  apply (Z.log2_lt_pow2 _ 8); [lia|].
  eapply Z.le_lt_trans; [apply Z.log2_lxor; lia|].
  apply Z.max_lub_lt.
  - destruct (Z.eq_dec x 0) as [->|]; [cbn; lia|apply Z.log2_lt_pow2; lia].
  - destruct (Z.eq_dec y 0) as [->|]; [cbn; lia|apply Z.log2_lt_pow2; lia].
Qed.

Lemma wf_xor_bytes a b :
  wf_bytes a = true -> wf_bytes b = true -> wf_bytes (xor_bytes a b) = true.
Proof.
  revert b; induction a as [|x a IH]; intros [|y b]; cbn; auto.
  rewrite !andb_true_iff, !is_byte_iff. intros [? ?] [? ?].
  split; [apply lxor_byte; auto|auto].
Qed.

(** *** Slices *)

Lemma firstn_app_exact {A} (a b : list A) n :
  length a = n -> firstn n (a ++ b) = a.
Proof.
  intros <-. rewrite firstn_app, firstn_all, Nat.sub_diag, app_nil_r. reflexivity.
Qed.

Lemma skipn_app_exact {A} (a b : list A) n :
  length a = n -> skipn n (a ++ b) = b.
Proof. intros <-. rewrite skipn_app, skipn_all, Nat.sub_diag. reflexivity. Qed.

Lemma sub_app_r off len (a b : bytes) n :
  length a = n -> sub (n + off) len (a ++ b) = sub off len b.
Proof.
  intros H. unfold sub. rewrite skipn_app, skipn_all2 by lia.
  replace (n + off - length a)%nat with off by lia. reflexivity.
Qed.

Lemma sub_0_app len (a b : bytes) : length a = len -> sub 0 len (a ++ b) = a.
Proof. apply firstn_app_exact. Qed.

Lemma length_sub off len (l : bytes) :
  length (sub off len l) = Nat.min len (length l - off).
Proof. unfold sub. rewrite length_firstn, length_skipn. reflexivity. Qed.

Create Rewrite HintDb len.
#[export] Hint Rewrite length_le_bytes length_be_bytes length_zeros
  @length_app @length_firstn @length_skipn length_xor_bytes length_sub
  @length_rev @length_map : len.

(** [len_solve] decides goals on lengths of buffers built from parts. *)
Ltac len_solve := autorewrite with len in *; cbn [length] in *; lia.
