(* ===== verification/CryptoIface.v ===== *)
(** * The cryptographic libraries the code calls

    OpenSSL and liboqs are not part of the repository.  [Crypto] is what the
    code sees of them: deterministic functions of their inputs and, where a
    primitive is randomised, of the number of the draw.  [CryptoLaws] states
    the documented behaviour the theorems rely on.  AES-CTR and AES-GCM are
    given by their keystream and tag, so that decryption undoing encryption is
    a theorem and not a law. *)
From Stdlib Require Import ZArith Lia Bool String List.
From S2P Require Import Prelude.
Import ListNotations.
Local Open Scope Z_scope.

(** ** liboqs objects *)

Record OQS_KEM := mkOQS_KEM {
  kem_length_public_key : nat;
  kem_length_secret_key : nat;
  kem_length_ciphertext : nat;
  kem_length_shared_secret : nat;
  OQS_KEM_keypair : nat -> bytes * bytes;           (* draw |-> (pk, sk) *)
  OQS_KEM_encaps : bytes -> nat -> bytes * bytes;   (* pk, draw |-> (ct, ss) *)
  OQS_KEM_decaps : bytes -> bytes -> bytes          (* ct, sk |-> ss *)
}.

Record OQS_SIG := mkOQS_SIG {
  sig_length_public_key : nat;
  sig_length_secret_key : nat;
  sig_length_signature : nat;
  OQS_SIG_keypair : nat -> bytes * bytes;
  OQS_SIG_sign : bytes -> bytes -> nat -> bytes;    (* message, sk, draw *)
  OQS_SIG_verify : bytes -> bytes -> bytes -> bool  (* message, signature, pk *)
}.

Class Crypto := {
  RAND : nat -> nat -> bytes;                       (* draw, length *)
  SHA256 : bytes -> bytes;
  SHA384 : bytes -> bytes;
  HKDF_SHA256 : bytes -> bytes -> bytes -> nat -> bytes;  (* salt, key, info, length *)
  AES256_CTR : bytes -> bytes -> nat -> bytes;      (* key, iv, length: keystream *)
  AES256_GCM : bytes -> bytes -> nat -> bytes;      (* key, iv, length: keystream *)
  AES256_GCM_tag : bytes -> bytes -> bytes -> bytes;  (* key, iv, ciphertext *)
  OQS_KEM_new : string -> option OQS_KEM;
  OQS_SIG_new : string -> option OQS_SIG;
  ED25519_keypair : nat -> bytes * bytes;           (* draw |-> (pk, sk) *)
  ED25519_sign : bytes -> bytes -> bytes;           (* sk, message *)
  ED25519_verify : bytes -> bytes -> bytes -> bool  (* pk, message, signature *)
}.

(** The liboqs names of the algorithms the repository uses. *)
Definition kem_names : list string :=
  ["ML-KEM-512"; "ML-KEM-768"; "ML-KEM-1024"]%string.

Definition sig_names : list string :=
  ["ML-DSA-44"; "ML-DSA-65"; "ML-DSA-87";
   "SLH-DSA-SHA2-128s-FIPS205"; "SLH-DSA-SHA2-128f-FIPS205";
   "SLH-DSA-SHA2-192s-FIPS205"; "SLH-DSA-SHA2-192f-FIPS205";
   "SLH-DSA-SHA2-256s-FIPS205"; "SLH-DSA-SHA2-256f-FIPS205";
   "SLH-DSA-SHAKE-128s-FIPS205"; "SLH-DSA-SHAKE-128f-FIPS205";
   "SLH-DSA-SHAKE-192s-FIPS205"; "SLH-DSA-SHAKE-192f-FIPS205";
   "SLH-DSA-SHAKE-256s-FIPS205"; "SLH-DSA-SHAKE-256f-FIPS205"]%string.

(** Correctness of a key encapsulation mechanism and of a signature scheme. *)
Record kem_laws (k : OQS_KEM) : Prop := {
  kem_pk_length : forall d, length (fst (OQS_KEM_keypair k d)) = kem_length_public_key k;
  kem_sk_length : forall d, length (snd (OQS_KEM_keypair k d)) = kem_length_secret_key k;
  kem_ct_length : forall pk d, length (fst (OQS_KEM_encaps k pk d)) = kem_length_ciphertext k;
  kem_ss_length : forall pk d, length (snd (OQS_KEM_encaps k pk d)) = kem_length_shared_secret k;
  kem_decaps_length : forall ct sk, length (OQS_KEM_decaps k ct sk) = kem_length_shared_secret k;
  kem_ss_is_32 : kem_length_shared_secret k = 32%nat;
  kem_bytes : forall d, wf_bytes (fst (OQS_KEM_keypair k d)) = true /\
                        wf_bytes (snd (OQS_KEM_keypair k d)) = true;
  kem_ct_bytes : forall pk d, wf_bytes (fst (OQS_KEM_encaps k pk d)) = true;
  kem_sizes : 0 < Z.of_nat (kem_length_public_key k) <= 8192 /\
              0 < Z.of_nat (kem_length_secret_key k) <= 3168 /\
              0 < Z.of_nat (kem_length_ciphertext k) <= 8192;
  kem_correct : forall d d',
    let '(pk, sk) := OQS_KEM_keypair k d in
    let '(ct, ss) := OQS_KEM_encaps k pk d' in
    OQS_KEM_decaps k ct sk = ss
}.

Record sig_laws (g : OQS_SIG) : Prop := {
  sig_pk_length : forall d, length (fst (OQS_SIG_keypair g d)) = sig_length_public_key g;
  sig_sk_length : forall d, length (snd (OQS_SIG_keypair g d)) = sig_length_secret_key g;
  sig_length_bound : forall m sk d, (length (OQS_SIG_sign g m sk d) <= sig_length_signature g)%nat;
  sig_nonempty : forall m sk d, OQS_SIG_sign g m sk d <> [];
  sig_sizes : 0 < Z.of_nat (sig_length_public_key g) <= 8192 /\
              0 < Z.of_nat (sig_length_secret_key g) <= 8192 /\
              0 < Z.of_nat (sig_length_signature g) <= 65536;
  sig_correct : forall m d d',
    let '(pk, sk) := OQS_SIG_keypair g d in
    OQS_SIG_verify g m (OQS_SIG_sign g m sk d') pk = true
}.

Class CryptoLaws `{Crypto} : Prop := {
  RAND_length : forall d n, length (RAND d n) = n;
  RAND_bytes_wf : forall d n, wf_bytes (RAND d n) = true;
  SHA256_length : forall m, length (SHA256 m) = 32%nat;
  SHA256_wf : forall m, wf_bytes (SHA256 m) = true;
  SHA384_length : forall m, length (SHA384 m) = 48%nat;
  HKDF_length : forall salt k info n, length (HKDF_SHA256 salt k info n) = n;
  CTR_length : forall k iv n, length (AES256_CTR k iv n) = n;
  CTR_wf : forall k iv n, wf_bytes (AES256_CTR k iv n) = true;
  GCM_length : forall k iv n, length (AES256_GCM k iv n) = n;
  GCM_wf : forall k iv n, wf_bytes (AES256_GCM k iv n) = true;
  GCM_tag_length : forall k iv c, length (AES256_GCM_tag k iv c) = 16%nat;
  GCM_tag_wf : forall k iv c, wf_bytes (AES256_GCM_tag k iv c) = true;
  KEM_laws : forall name k, In name kem_names -> OQS_KEM_new name = Some k -> kem_laws k;
  SIG_laws : forall name g, In name sig_names -> OQS_SIG_new name = Some g -> sig_laws g;
  ED25519_pk_length : forall d, length (fst (ED25519_keypair d)) = 32%nat;
  ED25519_sk_length : forall d, length (snd (ED25519_keypair d)) = 32%nat;
  ED25519_sig_length : forall sk m, length (ED25519_sign sk m) = 64%nat;
  ED25519_correct : forall d m,
    ED25519_verify (fst (ED25519_keypair d)) m (ED25519_sign (snd (ED25519_keypair d)) m) = true
}.

(** ** Symmetric encryption *)

Section Symmetric.
  Context `{Crypto}.

(** AES-256-CTR over a buffer: the same function in both directions. *)
Definition ctr_crypt (key iv text : bytes) : bytes :=
  xor_bytes text (AES256_CTR key iv (length text)).

Definition gcm_crypt (key iv text : bytes) : bytes :=
  xor_bytes text (AES256_GCM key iv (length text)).

(** [EVP_EncryptUpdate] and [EVP_CTRL_GCM_GET_TAG]. *)
Definition gcm_seal (key iv text : bytes) : bytes * bytes :=
  let ct := gcm_crypt key iv text in (ct, AES256_GCM_tag key iv ct).

(** The check [EVP_DecryptFinal_ex] makes of the tag that was set. *)
Definition gcm_tag_ok (key iv ct tag : bytes) : bool :=
  bytes_eqb tag (AES256_GCM_tag key iv ct).
End Symmetric.

Section SymmetricLemmas.
  Context `{CL : CryptoLaws}.

Lemma length_ctr_crypt key iv text : length (ctr_crypt key iv text) = length text.
Proof. unfold ctr_crypt. rewrite length_xor_bytes, CTR_length. lia. Qed.

Lemma ctr_crypt_involutive key iv text :
  ctr_crypt key iv (ctr_crypt key iv text) = text.
Proof.
  unfold ctr_crypt at 1. rewrite length_ctr_crypt. unfold ctr_crypt.
  apply xor_bytes_involutive. rewrite CTR_length. lia.
Qed.

Lemma length_gcm_crypt key iv text : length (gcm_crypt key iv text) = length text.
Proof. unfold gcm_crypt. rewrite length_xor_bytes, GCM_length. lia. Qed.

Lemma gcm_crypt_involutive key iv text :
  gcm_crypt key iv (gcm_crypt key iv text) = text.
Proof.
  unfold gcm_crypt at 1. rewrite length_gcm_crypt. unfold gcm_crypt.
  apply xor_bytes_involutive. rewrite GCM_length. lia.
Qed.

Lemma wf_gcm_crypt key iv text :
  wf_bytes text = true -> wf_bytes (gcm_crypt key iv text) = true.
Proof. intros. apply wf_xor_bytes; [auto|apply GCM_wf]. Qed.

Lemma wf_ctr_crypt key iv text :
  wf_bytes text = true -> wf_bytes (ctr_crypt key iv text) = true.
Proof. intros. apply wf_xor_bytes; [auto|apply CTR_wf]. Qed.

Lemma gcm_open_seal key iv text :
  gcm_tag_ok key iv (fst (gcm_seal key iv text)) (snd (gcm_seal key iv text)) = true /\
  gcm_crypt key iv (fst (gcm_seal key iv text)) = text.
Proof.
  cbn. split; [apply bytes_eqb_refl|apply gcm_crypt_involutive].
Qed.
End SymmetricLemmas.

#[export] Hint Rewrite @RAND_length @SHA256_length @SHA384_length @HKDF_length
  @CTR_length @GCM_length @GCM_tag_length @length_ctr_crypt @length_gcm_crypt
  using (typeclasses eauto) : len.

(** ** A concrete instance

    A small instance of the interface in which every law holds; the witnesses
    run the model on it.  Key and signature sizes are small so that it computes;
    it has no security and stands for none. *)
Module Toy.

Definition mix (l : bytes) : Z := fold_left (fun a b => (a * 31 + b + 7) mod 251) l 17.

Fixpoint spread (n : nat) (x : Z) : bytes :=
  match n with
  | O => []
  | S n' => x mod 256 :: spread n' ((x * 5 + 3) mod 65521)
  end.

Lemma length_spread n x : length (spread n x) = n.
Proof. revert x; induction n; cbn; auto. Qed.

Lemma wf_spread n x : wf_bytes (spread n x) = true.
Proof.
  revert x; induction n as [|n IH]; intros x; cbn [spread wf_bytes forallb]; auto.
  rewrite andb_true_iff. split; [|apply IH].
  apply is_byte_iff, Z.mod_pos_bound; lia.
Qed.

Definition toy_kem (pk sk ct : nat) : OQS_KEM :=
  {| kem_length_public_key := pk;
     kem_length_secret_key := sk;
     kem_length_ciphertext := ct;
     kem_length_shared_secret := 32;
     OQS_KEM_keypair := fun d =>
       (spread pk (Z.of_nat d mod 256), spread sk (Z.of_nat d mod 256));
     OQS_KEM_encaps := fun p d =>
       (spread ct (Z.of_nat d mod 256),
        spread 32 (hd 0 p * 256 + Z.of_nat d mod 256));
     OQS_KEM_decaps := fun c s => spread 32 (hd 0 s * 256 + hd 0 c) |}.

Definition toy_sig (pk sk sg : nat) : OQS_SIG :=
  {| sig_length_public_key := pk;
     sig_length_secret_key := sk;
     sig_length_signature := sg;
     OQS_SIG_keypair := fun d =>
       (spread pk (Z.of_nat d mod 256), spread sk (Z.of_nat d mod 256));
     OQS_SIG_sign := fun m s _ => spread sg (mix m * 256 + hd 0 s);
     OQS_SIG_verify := fun m s p => bytes_eqb s (spread sg (mix m * 256 + hd 0 p)) |}.

Definition toy_kems (name : string) : option OQS_KEM :=
  if String.eqb name "ML-KEM-512" then Some (toy_kem 6 9 7)
  else if String.eqb name "ML-KEM-768" then Some (toy_kem 8 12 10)
  else if String.eqb name "ML-KEM-1024" then Some (toy_kem 10 15 12)
  else None.

Definition toy_sigs (name : string) : option OQS_SIG :=
  if String.eqb name "ML-DSA-44" then Some (toy_sig 5 6 18)
  else if String.eqb name "ML-DSA-65" then Some (toy_sig 6 7 20)
  else if String.eqb name "ML-DSA-87" then Some (toy_sig 7 8 22)
  else None.

#[export] Instance toy_crypto : Crypto := {|
  RAND := fun d n => spread n (Z.of_nat d * 7 + 1);
  SHA256 := fun m => spread 32 (mix m);
  SHA384 := fun m => spread 48 (mix m);
  HKDF_SHA256 := fun salt k info n => spread n (mix (salt ++ k ++ info));
  AES256_CTR := fun k iv n => spread n (mix (k ++ iv));
  AES256_GCM := fun k iv n => spread n (mix (k ++ iv) + 1);
  AES256_GCM_tag := fun k iv c => spread 16 (mix (k ++ iv ++ c));
  OQS_KEM_new := toy_kems;
  OQS_SIG_new := toy_sigs;
  ED25519_keypair := fun d => (spread 32 (Z.of_nat d mod 256), spread 32 (Z.of_nat d mod 256));
  ED25519_sign := fun sk m => spread 64 (mix m * 256 + hd 0 sk);
  ED25519_verify := fun pk m s => bytes_eqb s (spread 64 (mix m * 256 + hd 0 pk))
|}.

Lemma hd_spread n x : 0 <= x < 256 -> (0 < n)%nat -> hd 0 (spread n x) = x.
Proof. intros Hx Hn. destruct n; [lia|]. cbn. apply Z.mod_small; lia. Qed.

Lemma toy_kem_laws pk sk ct :
  0 < Z.of_nat pk <= 8192 -> 0 < Z.of_nat sk <= 3168 -> 0 < Z.of_nat ct <= 8192 ->
  kem_laws (toy_kem pk sk ct).
Proof.
  intros Hpk Hsk Hct.
  split; cbn [toy_kem kem_length_public_key kem_length_secret_key kem_length_ciphertext
    kem_length_shared_secret OQS_KEM_keypair OQS_KEM_encaps OQS_KEM_decaps fst snd];
    intros; rewrite ?length_spread, ?wf_spread; auto.
  assert (forall d : nat, 0 <= Z.of_nat d mod 256 < 256)
    by (intros; apply Z.mod_pos_bound; lia).
  rewrite !hd_spread; auto; lia.
Qed.

Lemma toy_sig_laws pk sk sg :
  0 < Z.of_nat pk <= 8192 -> 0 < Z.of_nat sk <= 8192 -> 0 < Z.of_nat sg <= 65536 ->
  sig_laws (toy_sig pk sk sg).
Proof.
  intros Hpk Hsk Hsg.
  split; cbn [toy_sig sig_length_public_key sig_length_secret_key sig_length_signature
    OQS_SIG_keypair OQS_SIG_sign OQS_SIG_verify fst snd];
    intros; rewrite ?length_spread; auto; try lia.
  - destruct sg; [lia|discriminate].
  - assert (forall d : nat, 0 <= Z.of_nat d mod 256 < 256)
      by (intros; apply Z.mod_pos_bound; lia).
    rewrite !hd_spread; auto; try lia. apply bytes_eqb_refl.
Qed.

#[export] Instance toy_laws : CryptoLaws.
Proof.
  split; cbn [toy_crypto RAND SHA256 SHA384 HKDF_SHA256 AES256_CTR AES256_GCM
    AES256_GCM_tag OQS_KEM_new OQS_SIG_new ED25519_keypair ED25519_sign ED25519_verify
    fst snd]; intros; rewrite ?length_spread, ?wf_spread; auto.
  - unfold toy_kems in *. repeat
      match goal with E : context [if ?c then _ else _] |- _ => destruct c end;
      try discriminate;
      match goal with E : Some _ = Some _ |- _ => injection E as <- end;
      apply toy_kem_laws; lia.
  - unfold toy_sigs in *. repeat
      match goal with E : context [if ?c then _ else _] |- _ => destruct c end;
      try discriminate;
      match goal with E : Some _ = Some _ |- _ => injection E as <- end;
      apply toy_sig_laws; lia.
  - rewrite !hd_spread; try lia; [apply bytes_eqb_refl|apply Z.mod_pos_bound; lia].
Qed.
End Toy.
