(* ===== verification/Env.v ===== *)
(** * The environment of a process

    What the operating system and the libraries do for the code: files,
    environment variables, randomness, the server log, and calls that fail.
    Every call that can fail consumes one element of [faults]: [None] is
    success and [Some n] is failure after [n] bytes of progress (which only
    writes can show).  When the list is used up, calls succeed.  A theorem over
    all [faults] is a theorem over all ways the environment can fail. *)
From Stdlib Require Import ZArith Lia Bool String Ascii List.
From stdpp Require Import base gmap list strings.
From S2P Require Import Prelude CryptoIface.
Import ListNotations.
Local Open Scope Z_scope.
Local Open Scope pg_scope.

Record file := mkFile {
  f_data : bytes;
  f_mode : Z
}.

Inductive elevel := DEBUG1 | LOG | NOTICE | WARNING | ERROR_REPORT.

Record env := mkEnv {
  faults : list (option nat);
  draws : nat;
  files : gmap string file;
  dirs : gset string;
  vars : gmap string bytes;
  cmds : gmap string (bytes * Z);   (* standard output and exit status *)
  log : list (elevel * string)
}.

Definition set_faults (fs : list (option nat)) (e : env) : env :=
  mkEnv fs (draws e) (files e) (dirs e) (vars e) (cmds e) (log e).
Definition set_draws (d : nat) (e : env) : env :=
  mkEnv (faults e) d (files e) (dirs e) (vars e) (cmds e) (log e).
Definition set_files (m : gmap string file) (e : env) : env :=
  mkEnv (faults e) (draws e) m (dirs e) (vars e) (cmds e) (log e).
Definition set_dirs (d : gset string) (e : env) : env :=
  mkEnv (faults e) (draws e) (files e) d (vars e) (cmds e) (log e).
Definition set_log (l : list (elevel * string)) (e : env) : env :=
  mkEnv (faults e) (draws e) (files e) (dirs e) (vars e) (cmds e) l.

(** ** Calls that can fail *)

(** The result of the next fallible call: [None] for success. *)
Definition next_fault : M env (option nat) :=
  fun e =>
    match faults e with
    | [] => (Ok None, e)
    | f :: fs => (Ok f, set_faults fs e)
    end.

Definition attempt : M env bool :=
  let! f := next_fault in
  ret (match f with None => true | Some _ => false end).

(** [n] calls joined by [&&]: the first failure stops the chain. *)
Fixpoint attempts (n : nat) : M env bool :=
  match n with
  | O => ret true
  | S n' => let! ok := attempt in if ok then attempts n' else ret false
  end.

Definition elog (l : elevel) (msg : string) : M env unit :=
  modify (fun e => set_log (log e ++ [(l, msg)]) e).

(** ** Randomness *)

Section Randomness.
  Context `{Crypto}.

(** A library call that uses randomness takes the next draw. *)
Definition next_draw : M env nat :=
  fun e => (Ok (draws e), set_draws (S (draws e)) e).

(** [RAND_bytes(buf, n)] and [pg_strong_random(buf, n)]. *)
Definition RAND_bytes (n : nat) : M env (option bytes) :=
  let! ok := attempt in
  if ok then let! d := next_draw in ret (Some (RAND d n)) else ret None.
End Randomness.

(** ** Files *)

(** [snprintf] into a buffer of MAXPGPATH = 1024 bytes. *)
Definition path_buf (s : string) : string := String.substring 0 1023 s.

(** [fopen(path, "r")]: the stream is what is left to read. *)
Definition fopen_read (path : string) : M env (option bytes) :=
  let! ok := attempt in
  if ok then gets (fun e => f_data <$> (files e !! path)) else ret None.

(** [fopen(path, "w")] creates or empties the file; a new file gets [mode]. *)
Definition fopen_write (path : string) (mode : Z) : M env bool :=
  let! ok := attempt in
  if ok then
    do! modify (fun e =>
          set_files (<[path := mkFile [] (match files e !! path with
                                          | Some f => f_mode f
                                          | None => mode
                                          end)]> (files e)) e) in
    ret true
  else ret false.

Definition append_file (path : string) (data : bytes) (e : env) : env :=
  match files e !! path with
  | Some f => set_files (<[path := mkFile (f_data f ++ data) (f_mode f)]> (files e)) e
  | None => e
  end.

(** [fwrite(data, len, 1, fp) == 1].  An item of size 0 counts as not
    written; a failure may leave a prefix of the data in the file. *)
Definition fwrite (path : string) (data : bytes) : M env bool :=
  let! f := next_fault in
  match f with
  | Some n => do! modify (append_file path (firstn n data)) in ret false
  | None =>
      do! modify (append_file path data) in
      ret (negb (Nat.eqb (length data) 0))
  end.

(** [fread(buf, len, 1, fp) == 1] with what is left of the stream. *)
Definition fread (len : nat) (stream : bytes) : M env (option (bytes * bytes)) :=
  let! ok := attempt in
  ret (if ok && negb (Nat.eqb len 0) && (len <=? length stream)%nat
       then Some (firstn len stream, skipn len stream) else None).

(** [fread(buf, 1, n, fp)]: up to [n] bytes; a fault shortens the read. *)
Definition fread_upto (n : Z) (stream : bytes) : M env bytes :=
  let! f := next_fault in
  let got := firstn (Z.to_nat n) stream in
  ret (match f with None => got | Some k => firstn k got end).

(** [fwrite(data, 1, len, fp) == len]: an empty buffer is written. *)
Definition fwrite_bytes (path : string) (data : bytes) : M env bool :=
  let! f := next_fault in
  match f with
  | Some n => do! modify (append_file path (firstn n data)) in ret false
  | None => do! modify (append_file path data) in ret true
  end.

(** A sequence of writes joined by [||] in a failure test. *)
Fixpoint fwrites (path : string) (l : list bytes) : M env bool :=
  match l with
  | [] => ret true
  | d :: l' => let! ok := fwrite path d in if ok then fwrites path l' else ret false
  end.

(** A chain of [fread]s of one item each, joined by [||] in a failure test. *)
Fixpoint freads (lens : list nat) (stream : bytes) : M env (option (list bytes)) :=
  match lens with
  | [] => ret (Some [])
  | n :: lens' =>
      let! r := fread n stream in
      match r with
      | None => ret None
      | Some (item, stream') =>
          let! rest := freads lens' stream' in
          ret (option_map (cons item) rest)
      end
  end.

(** [mkdir]: false when it fails with an error other than EEXIST. *)
Definition mkdir (path : string) : M env bool :=
  let! present := gets (fun e => bool_decide (path ∈ dirs e)) in
  if present then ret true
  else
    let! ok := attempt in
    if ok then do! modify (fun e => set_dirs ({[path]} ∪ dirs e) e) in ret true
    else ret false.

(** [stat(path)]: the file, when it is there and the call succeeds. *)
Definition stat (path : string) : M env (option file) :=
  let! ok := attempt in
  if ok then gets (fun e => files e !! path) else ret None.

(** [stat] of a path that may be a directory: whether it is one. *)
Definition stat_isdir (path : string) : M env (option bool) :=
  let! ok := attempt in
  if ok then
    gets (fun e => if bool_decide (path ∈ dirs e) then Some true
                   else match files e !! path with Some _ => Some false | None => None end)
  else ret None.

Definition getenv (name : string) : M env (option bytes) :=
  gets (fun e => vars e !! name).

(** ** C strings *)

(** The string at the start of a buffer: the bytes before the first NUL. *)
Fixpoint cstring (l : bytes) : bytes :=
  match l with
  | [] => []
  | b :: l' => if b =? 0 then [] else b :: cstring l'
  end.

(** *** Strings and paths *)

Lemma append_inj (a b c d : string) :
  String.length a = String.length c -> (a ++ b = c ++ d)%string -> a = c /\ b = d.
Proof.
  revert c. induction a as [|x a IH]; intros [|y c] Hl Heq; cbn in *; try discriminate; [auto|].
  injection Hl as Hl. injection Heq as -> Heq. destruct (IH c Hl Heq) as [-> ->]. auto.
Qed.

Lemma append_length (a b : string) :
  String.length (a ++ b) = (String.length a + String.length b)%nat.
Proof.
  induction a as [|x a IH]; [reflexivity|].
  change (S (String.length (a ++ b)) = S (String.length a + String.length b)). rewrite IH. reflexivity.
Qed.

Lemma substring_all n s : (String.length s <= n)%nat -> String.substring 0 n s = s.
Proof.
  revert n. induction s as [|c s IH]; intros [|n] Hn; cbn in *; try reflexivity; [lia|].
  rewrite IH by lia. reflexivity.
Qed.

(** ** Runs without failures *)

Definition no_faults (e : env) : Prop := faults e = [].

Arguments next_fault e /.
Arguments attempt e /.
Arguments elog l msg e /.
Arguments next_draw e /.
Arguments RAND_bytes {_} n e /.
Arguments fopen_read path e /.
Arguments fopen_write path mode e /.
Arguments fwrite path data e /.
Arguments fread len stream e /.
Arguments mkdir path e /.
Arguments stat path e /.
Arguments getenv name e /.

Lemma attempts_no_faults n e : no_faults e -> attempts n e = (Ok true, e).
Proof.
  intros H. unfold no_faults in H. induction n as [|n IH]; cbn; [reflexivity|].
  rewrite H. exact IH.
Qed.

(** However a chain of calls ends, it only consumes faults. *)
Lemma attempts_run n e :
  exists b fs, attempts n e = (Ok b, set_faults fs e).
Proof.
  revert e. induction n as [|n IH]; intros e; cbn.
  - exists true, (faults e). destruct e; reflexivity.
  - destruct e as [[|f fs] d fi di v c l]; cbn.
    + destruct (IH (mkEnv [] d fi di v c l)) as (b & fs' & ->). eauto.
    + destruct f; cbn; [eexists false, fs; reflexivity|].
      destruct (IH (mkEnv fs d fi di v c l)) as (b & fs' & Heq).
      unfold set_faults in *; cbn in *. rewrite Heq. cbn. eauto.
Qed.

Lemma attempt_run e : exists b fs, attempt e = (Ok b, set_faults fs e).
Proof.
  destruct e as [[|[k|] fs] d fi di v c l]; cbn.
  - exists true, []. reflexivity.
  - exists false, fs. reflexivity.
  - exists true, fs. reflexivity.
Qed.

Lemma attempt_no_faults e : no_faults e -> attempt e = (Ok true, e).
Proof. unfold no_faults. cbn. intros ->. reflexivity. Qed.

Lemma RAND_bytes_ok `{Crypto} n e :
  no_faults e -> RAND_bytes n e = (Ok (Some (RAND (draws e) n)), set_draws (S (draws e)) e).
Proof. intros Hn. unfold RAND_bytes. mrun (attempt_no_faults e Hn). reflexivity. Qed.

(** ** The same for a part of a larger state that is an environment

    [burn l fs s]: calls were made and [fs] are the faults left. *)
Definition burn {S} (l : lens S env) (fs : list (option nat)) (s : S) : S :=
  over l (set_faults fs (view l s)) s.

Section Burn.
  Context {S : Type} (l : lens S env) `{!LensLaws l}.

Lemma view_burn fs s : view l (burn l fs s) = set_faults fs (view l s).
Proof. unfold burn. apply view_over. Qed.

Lemma burn_burn fs fs' s : burn l fs (burn l fs' s) = burn l fs s.
Proof. unfold burn. rewrite view_over, over_over. reflexivity. Qed.

Lemma burn_same s : burn l (faults (view l s)) s = s.
Proof.
  unfold burn. replace (set_faults _ _) with (view l s) by (destruct (view l s); reflexivity).
  apply over_view.
Qed.

Lemma burn_no_faults s : no_faults (view l s) -> burn l [] s = s.
Proof. intros H. rewrite <- (burn_same s) at 2. rewrite H. reflexivity. Qed.

Lemma zoom_attempt_run s :
  exists b fs, zoom l attempt s = (Ok b, burn l fs s) /\
    (no_faults (view l s) -> b = true /\ fs = []).
Proof.
  unfold burn. cbn. unfold no_faults.
  destruct (view l s) as [[|[k|] fs] d fi di v c lg]; cbn.
  - exists true, []. auto.
  - exists false, fs. split; [reflexivity|discriminate].
  - exists true, fs. split; [reflexivity|discriminate].
Qed.

Lemma zoom_attempts_run n s :
  exists b fs, zoom l (attempts n) s = (Ok b, burn l fs s) /\
    (no_faults (view l s) -> b = true /\ fs = []).
Proof.
  destruct (attempts_run n (view l s)) as (b & fs & Hr).
  exists b, fs. split; [unfold zoom; rewrite Hr; reflexivity|].
  intros Hn. rewrite attempts_no_faults in Hr by exact Hn.
  injection Hr as <- He. split; [reflexivity|].
  unfold no_faults in Hn. rewrite <- Hn. rewrite He at 1. reflexivity.
Qed.
End Burn.

(** ** Whole files *)

Definition nonempty (l : bytes) : bool := negb (Nat.eqb (length l) 0).

Lemma fwrites_ok path l e f :
  no_faults e -> files e !! path = Some f -> forallb nonempty l = true ->
  fwrites path l e =
    (Ok true, set_files (<[path := mkFile (f_data f ++ concat l) (f_mode f)]> (files e)) e).
Proof.
  revert e f. induction l as [|d l IH]; intros e f Hn Hf Hl.
  - cbn. rewrite app_nil_r. destruct e as [fs dr fi di v c lg], f; cbn in *.
    rewrite insert_id by assumption. reflexivity.
  - cbn [forallb] in Hl. apply andb_true_iff in Hl as [Hd Hl].
    destruct e as [fs dr fi di v c lg]. unfold no_faults in Hn. cbn in Hn, Hf. subst fs.
    cbn [fwrites]. rewrite (bind_step _ _ _ true
      (set_files (<[path := mkFile (f_data f ++ d) (f_mode f)]> fi) (mkEnv [] dr fi di v c lg)))
      by (cbn; unfold append_file; cbn; rewrite Hf; unfold nonempty in Hd; rewrite Hd; reflexivity).
    cbv beta iota. rewrite (IH _ (mkFile (f_data f ++ d) (f_mode f))); [|reflexivity| |exact Hl].
    + cbn. rewrite insert_insert_eq, <- app_assoc. reflexivity.
    + apply lookup_insert_eq.
Qed.

Lemma fread_ok n a b e :
  no_faults e -> length a = n -> nonempty a = true ->
  fread n (a ++ b) e = (Ok (Some (a, b)), e).
Proof.
  intros Hn <- Ha. cbn. rewrite Hn. cbn. unfold nonempty in Ha. rewrite Ha. cbn [andb].
  replace (length a <=? length (a ++ b))%nat with true
    by (symmetry; apply Nat.leb_le; len_solve).
  rewrite firstn_app_exact, skipn_app_exact by reflexivity. reflexivity.
Qed.

Lemma freads_ok items rest e :
  no_faults e -> forallb nonempty items = true ->
  freads (map (@length Z) items) (concat items ++ rest) e = (Ok (Some items), e).
Proof.
  intros Hn. revert rest. induction items as [|d items IH]; intros rest Hi; [reflexivity|].
  cbn [forallb] in Hi. apply andb_true_iff in Hi as [Hd Hi].
  cbn [map freads concat]. rewrite <- app_assoc.
  mrun (fread_ok _ d (concat items ++ rest) e Hn eq_refl Hd). mrun (IH rest Hi). reflexivity.
Qed.

(** Whatever fails, the items that were read start the stream. *)
Lemma freads_inv lens stream e items e' :
  freads lens stream e = (Ok (Some items), e') ->
  map (@length Z) items = lens /\ exists rest, stream = concat items ++ rest.
Proof.
  revert stream e items e'. induction lens as [|n lens IH]; intros stream e items e' Hr.
  - injection Hr as <- _. split; [reflexivity|]. exists stream. reflexivity.
  - cbn [freads] in Hr. minv Hr. destruct a as [[item stream']|]; [|discriminate].
    minv Hr. destruct a as [rest|]; [|discriminate]. injection Hr as <- _.
    destruct (IH _ _ _ _ Hm0) as (Hl & rest' & Hs). unfold fread in Hm. minv Hm.
    destruct a; cbn [andb] in Hm; [|discriminate].
    destruct (Nat.eqb_spec n 0); [discriminate|]. cbn [negb andb] in Hm.
    destruct (Nat.leb_spec n (length stream)); [|discriminate].
    injection Hm as <- Hs' _. cbn [map concat]. split.
    + rewrite Hl, length_firstn. f_equal. lia.
    + exists rest'. rewrite <- app_assoc, <- Hs, <- Hs'. symmetry. apply firstn_skipn.
Qed.
