(* ===== verification/Spec.v ===== *)
(** * A program logic for the model

    [spec l I t m Q] is what one component promises another: from a state in
    the invariant [I], [m] never ends the process, keeps [I], and a value it
    returns satisfies [Q]; when [t] holds it returns a value whenever no call of
    a library fails.  [l] is the part of the state that is the environment.  The
    rules are proved once here and used by every client. *)
From Stdlib Require Import ZArith Lia Bool List.
From stdpp Require Import base gmap list.
From S2P Require Import Prelude CryptoIface Env.
Import ListNotations.

(** An invariant that says nothing of the environment. *)
Class Stable {S} (l : lens S env) (I : S -> Prop) : Prop :=
  stable : forall e s, I s -> I (over l e s).

Section Spec.
  Context {S : Type} (l : lens S env) `{LL : !LensLaws l} (I : S -> Prop) `{St : !Stable l I}.

Definition spec {A} (t : bool) (m : M S A) (Q : A -> Prop) : Prop :=
  forall s, I s ->
  exists o s', m s = (o, s') /\ I s' /\
    (no_faults (view l s) -> no_faults (view l s') /\ (t = true -> exists a, o = Ok a)) /\
    match o with Ok a => Q a | Err _ => True | Fatal => False end.

Lemma spec_ret {A} t (a : A) (Q : A -> Prop) : Q a -> spec t (ret a) Q.
Proof. intros HQ s Hs. exists (Ok a), s. repeat split; eauto. Qed.

Lemma spec_raise {A} t e (Q : A -> Prop) : t = false -> spec t (raise e) Q.
Proof. intros -> s Hs. exists (Err e), s. repeat split; auto. discriminate. Qed.

Lemma spec_bind {A B} t (m : M S A) (k : A -> M S B) Q R :
  spec t m Q -> (forall a, Q a -> spec t (k a) R) -> spec t (bind m k) R.
Proof.
  intros Hm Hk s Hs. destruct (Hm s Hs) as (o & s1 & H1 & Hs1 & Hn1 & Ho).
  unfold bind. rewrite H1. destruct o as [a|e|]; [|exists (Err e), s1|contradiction].
  - destruct (Hk a Ho s1 Hs1) as (o2 & s2 & H2 & Hs2 & Hn2 & Ho2).
    exists o2, s2. split; [exact H2|]. split; [exact Hs2|]. split; [|exact Ho2].
    intros Hn. apply Hn2, Hn1, Hn.
  - split; [reflexivity|]. split; [exact Hs1|]. split; [|exact Logic.I]. intros Hn.
    destruct (Hn1 Hn) as [Hn' Ht']. split; [exact Hn'|]. intros Ht.
    destruct (Ht' Ht); discriminate.
Qed.

(** Results of a program can be forgotten, and so can its totality. *)
Lemma spec_conseq {A} t t' (m : M S A) (Q R : A -> Prop) :
  spec t m Q -> (t' = true -> t = true) -> (forall a, Q a -> R a) -> spec t' m R.
Proof.
  intros Hm Ht HQ s Hs. destruct (Hm s Hs) as (o & s' & H1 & Hs' & Hn & Ho).
  exists o, s'. split; [exact H1|]. split; [exact Hs'|]. split; [|destruct o; auto].
  intros Hf. destruct (Hn Hf). auto.
Qed.

(** A program that only reads the state. *)
Lemma spec_pure {A} t (m : M S A) (Q : A -> Prop) :
  (forall s, I s -> exists a, m s = (Ok a, s) /\ Q a) -> spec t m Q.
Proof.
  intros Hm s Hs. destruct (Hm s Hs) as (a & Hr & HQ). exists (Ok a), s. repeat split; eauto.
Qed.

(** A call of a library whose failure is raised. *)
Lemma spec_call {A} t (c : M S bool) e (m : M S A) Q :
  (forall s, exists b fs, c s = (Ok b, burn l fs s) /\
     (no_faults (view l s) -> b = true /\ fs = [])) ->
  spec t m Q -> spec t (bind c (fun b => if negb b then raise e else m)) Q.
Proof.
  intros Hc Hm s Hs. destruct (Hc s) as (b & fs & H1 & Hn1). unfold bind. rewrite H1.
  assert (Hs1 : I (burn l fs s)) by (apply stable, Hs). destruct b; cbn [negb].
  - destruct (Hm _ Hs1) as (o & s' & H2 & Hs' & Hn2 & Ho). exists o, s'.
    split; [exact H2|]. split; [exact Hs'|]. split; [|exact Ho].
    intros Hn. apply Hn2. destruct (Hn1 Hn) as [_ ->]. rewrite (view_burn l). reflexivity.
  - exists (Err e), (burn l fs s). split; [reflexivity|]. split; [exact Hs1|].
    split; [|exact Logic.I]. intros Hn. destruct (Hn1 Hn); discriminate.
Qed.

Lemma spec_attempt {A} t e (m : M S A) Q :
  spec t m Q -> spec t (bind (zoom l attempt) (fun b => if negb b then raise e else m)) Q.
Proof. apply spec_call. intros s. apply (zoom_attempt_run l). Qed.

Lemma spec_attempts {A} t n e (m : M S A) Q :
  spec t m Q -> spec t (bind (zoom l (attempts n)) (fun b => if negb b then raise e else m)) Q.
Proof. apply spec_call. intros s. apply (zoom_attempts_run l). Qed.

(** A call tested together with a condition that holds. *)
Lemma spec_attempt_and {A} t b0 e (m : M S A) Q :
  b0 = true -> spec t m Q ->
  spec t (bind (zoom l attempt) (fun b => if negb (b && b0) then raise e else m)) Q.
Proof.
  intros -> Hm s Hs. assert (E : meq (bind (zoom l attempt) (fun b : bool => if negb (b && true) then raise e else m))
    (bind (zoom l attempt) (fun b : bool => if negb b then raise e else m))).
  { apply bind_proper; [reflexivity|]. intros b. rewrite andb_true_r. reflexivity. }
  rewrite (E s). apply spec_attempt; assumption.
Qed.

(** A call whose failure is an answer. *)
Lemma spec_answer t : spec t (zoom l attempt) (fun _ => True).
Proof.
  intros s Hs. destruct (zoom_attempt_run l s) as (b & fs & Hr & Hn).
  do 2 eexists. split; [exact Hr|]. split; [apply stable, Hs|]. split; [|exact Logic.I].
  intros Hf. destruct (Hn Hf) as [-> ->]. rewrite (view_burn l). split; [reflexivity|eauto].
Qed.

Lemma spec_elog t lv msg : spec t (zoom l (elog lv msg)) (fun _ => True).
Proof.
  intros s Hs. do 2 eexists. split; [reflexivity|]. split; [apply stable, Hs|].
  split; [|exact Logic.I]. intros Hf. rewrite view_over. split; [exact Hf|eauto].
Qed.

(** A call that returns NULL only when something failed. *)
Definition returns {B} (c : M S (option B)) (R : B -> Prop) : Prop :=
  forall s, I s -> exists r s', c s = (Ok r, s') /\ I s' /\
    (no_faults (view l s) -> no_faults (view l s') /\ r <> None) /\
    (forall b, r = Some b -> R b).

Lemma spec_returns {A B} t (c : M S (option B)) R e (k : B -> M S A) Q :
  returns c R -> (forall b, R b -> spec t (k b) Q) ->
  spec t (bind c (fun r => match r with None => raise e | Some b => k b end)) Q.
Proof.
  intros Hc Hk s Hs. destruct (Hc s Hs) as (r & s1 & H1 & Hs1 & Hn1 & HR). unfold bind.
  rewrite H1. destruct r as [b|].
  - destruct (Hk b (HR b eq_refl) s1 Hs1) as (o & s2 & H2 & Hs2 & Hn2 & Ho).
    exists o, s2. split; [exact H2|]. split; [exact Hs2|]. split; [|exact Ho].
    intros Hn. apply Hn2, Hn1, Hn.
  - exists (Err e), s1. split; [reflexivity|]. split; [exact Hs1|]. split; [|exact Logic.I].
    intros Hn. destruct (Hn1 Hn); contradiction.
Qed.

Lemma returns_RAND_bytes `{CL : CryptoLaws} n :
  returns (zoom l (RAND_bytes n)) (fun r => length r = n /\ wf_bytes r = true).
Proof.
  intros s Hs. unfold zoom, RAND_bytes, bind.
  destruct (attempt_run (view l s)) as (b & fs & Hr). rewrite Hr. destruct b; cbn.
  - do 2 eexists. split; [reflexivity|]. split; [apply stable, Hs|]. rewrite view_over.
    split; [|intros r [= <-]; auto using RAND_length, RAND_bytes_wf].
    intros Hn. rewrite attempt_no_faults in Hr by exact Hn. injection Hr as Hr.
    split; [|discriminate]. unfold no_faults in *. cbn. rewrite <- Hn, Hr. reflexivity.
  - do 2 eexists. split; [reflexivity|]. split; [apply stable, Hs|]. rewrite view_over.
    split; [|discriminate]. intros Hn. rewrite attempt_no_faults in Hr by exact Hn. discriminate.
Qed.

(** ** Runs in which no call fails *)

Definition calm {A} (m : M S A) (Q : A -> Prop) : Prop :=
  forall s, I s -> no_faults (view l s) ->
  exists a s', m s = (Ok a, s') /\ I s' /\ no_faults (view l s') /\ Q a.

Lemma calm_ret {A} (a : A) (Q : A -> Prop) : Q a -> calm (ret a) Q.
Proof. intros HQ s Hs Hn. exists a, s. auto. Qed.

Lemma calm_bind {A B} (m : M S A) (k : A -> M S B) Q R :
  calm m Q -> (forall a, Q a -> calm (k a) R) -> calm (bind m k) R.
Proof.
  intros Hm Hk s Hs Hn. destruct (Hm s Hs Hn) as (a & s1 & H1 & Hs1 & Hn1 & Ha).
  destruct (Hk a Ha s1 Hs1 Hn1) as (b & s2 & H2 & Hs2 & Hn2 & Hb).
  exists b, s2. rewrite (bind_step _ _ _ _ _ H1). auto.
Qed.

Lemma calm_spec {A} (m : M S A) Q : spec true m Q -> calm m Q.
Proof.
  intros Hm s Hs Hn. destruct (Hm s Hs) as (o & s' & H1 & Hs' & Hf & Ho).
  destruct (Hf Hn) as [Hn' Ha]. destruct (Ha eq_refl) as [a ->]. exists a, s'. auto.
Qed.

Lemma calm_attempts n : calm (zoom l (attempts n)) (fun b => b = true).
Proof.
  intros s Hs Hn. destruct (zoom_attempts_run l n s) as (b & fs & Hr & Hf).
  destruct (Hf Hn) as [-> ->]. exists true, (burn l [] s). split; [exact Hr|].
  split; [apply stable, Hs|]. split; [rewrite (view_burn l); reflexivity|reflexivity].
Qed.

Lemma calm_attempt : calm (zoom l attempt) (fun b => b = true).
Proof.
  intros s Hs Hn. destruct (zoom_attempt_run l s) as (b & fs & Hr & Hf).
  destruct (Hf Hn) as [-> ->]. exists true, (burn l [] s). split; [exact Hr|].
  split; [apply stable, Hs|]. split; [rewrite (view_burn l); reflexivity|reflexivity].
Qed.

(** A last step that leaves the invariant. *)
Definition reaches {A} (m : M S A) (R : A -> S -> Prop) : Prop :=
  forall s, I s -> no_faults (view l s) -> exists a s', m s = (Ok a, s') /\ R a s'.

Lemma reaches_bind {A B} (m : M S A) (k : A -> M S B) Q R :
  calm m Q -> (forall a, Q a -> reaches (k a) R) -> reaches (bind m k) R.
Proof.
  intros Hm Hk s Hs Hn. destruct (Hm s Hs Hn) as (a & s1 & H1 & Hs1 & Hn1 & Ha).
  rewrite (bind_step _ _ _ _ _ H1). apply Hk; assumption.
Qed.

Lemma triple_spec {A B} t (m : M S A) (k : A -> M S B) Q (R : outcome B -> S -> Prop) :
  spec t m Q -> (forall a, Q a -> triple I (k a) R) -> (forall e s, I s -> R (Err e) s) ->
  triple I (bind m k) R.
Proof.
  intros Hm Hk He s Hs. destruct (Hm s Hs) as (o & s1 & H1 & Hs1 & _ & Ho).
  unfold bind. rewrite H1. destruct o as [a|e|]; [apply Hk; assumption|apply He, Hs1|contradiction].
Qed.

(** ** What a specification gives for one run *)

Lemma spec_run {A} t (m : M S A) Q s :
  spec t m Q -> I s -> exists o s', m s = (o, s') /\ o <> Fatal /\ I s' /\
    (forall a, o = Ok a -> Q a) /\
    (t = true -> no_faults (view l s) -> no_faults (view l s') /\ exists a, o = Ok a /\ Q a).
Proof.
  intros Hm Hs. destruct (Hm s Hs) as (o & s' & Hr & Hs' & Hn & Ho). exists o, s'.
  split; [exact Hr|]. split; [destruct o; [discriminate..|contradiction]|].
  split; [exact Hs'|]. split; [intros a ->; exact Ho|]. intros Ht Hf.
  destruct (Hn Hf) as [Hn' Hok]. split; [exact Hn'|]. destruct (Hok Ht) as [a ->]. eauto.
Qed.
End Spec.

(** Steps over the calls whose failure is raised. *)
Ltac spec_calls :=
  repeat first [refine (spec_attempt _ _ _ _ _ _ _) | refine (spec_attempts _ _ _ _ _ _ _ _)].

Lemma calm_zoom {S T A} (l : lens S env) (I : S -> Prop) (J : T -> Prop) (k : lens T S)
    `{LK : !LensLaws k} (m : M S A) Q :
  (forall s' s, J s -> I s' -> J (over k s' s)) -> (forall s, J s -> I (view k s)) ->
  calm l I m Q -> calm (composeL k l) J (zoom k m) Q.
Proof.
  intros HJ HI Hm s Hs Hn. destruct (Hm (view k s) (HI s Hs) Hn) as (a & s' & Hr & Hs' & Hn' & Ha).
  exists a, (over k s' s). unfold zoom. rewrite Hr. split; [reflexivity|].
  split; [apply HJ; assumption|]. split; [cbn; rewrite view_over; exact Hn'|exact Ha].
Qed.

(** The same program inside a larger state. *)
Lemma spec_zoom {S T A} (l : lens S env) (I : S -> Prop) (J : T -> Prop) (k : lens T S)
    `{LK : !LensLaws k} t (m : M S A) Q :
  (forall s' s, J s -> I s' -> J (over k s' s)) -> (forall s, J s -> I (view k s)) ->
  spec l I t m Q -> spec (composeL k l) J t (zoom k m) Q.
Proof.
  intros HJ HI Hm s Hs. destruct (Hm (view k s) (HI s Hs)) as (o & s' & Hr & Hs' & Hn & Ho).
  exists o, (over k s' s). unfold zoom. rewrite Hr. split; [reflexivity|].
  split; [apply HJ; assumption|]. split; [|exact Ho]. cbn. rewrite view_over. exact Hn.
Qed.
