(* ===== verification/KeyCache.v ===== *)
(** * The shared-memory key cache (src/backend/crypto/tde/tde_keycache.c)

    The cache is an array of 256 entries of which the first [num_entries] are
    in use.  The file models the segment, its lock and the six functions, then
    relates them to a finite map from tablespace OIDs to keys. *)
From Stdlib Require Import ZArith Lia Bool List.
From stdpp Require Import base gmap list.
From S2P Require Import Prelude.
Import ListNotations.
Local Open Scope Z_scope.
Local Open Scope pg_scope.

Definition TDE_AES_KEY_LEN : nat := 32.
Definition TDE_MAX_CACHED_KEYS : nat := 256.

Abbreviation Oid := Z (only parsing).
Definition InvalidOid : Oid := 0.

Record TdeKeyEntry := mkTdeKeyEntry {
  spc_oid : Oid;
  key : bytes;
  version : Z;
  active : bool
}.

(** The lightweight lock of the segment, as its holder sees it. *)
Inductive LWLock := LW_FREE | LW_SHARED | LW_EXCLUSIVE.

Record TdeKeyCache := mkTdeKeyCache {
  lock : LWLock;
  num_entries : nat;
  entries : list TdeKeyEntry
}.

(** The shared segment outlives a process; [attached] is whether this
    process has set its pointer [TdeKeyCacheShmem]. *)
Record shmem := mkShmem {
  segment : option TdeKeyCache;
  attached : bool
}.

Definition TdeKeyCacheShmem (s : shmem) : option TdeKeyCache :=
  if attached s then segment s else None.

(** ** Operations *)

Definition zero_entry : TdeKeyEntry :=
  mkTdeKeyEntry 0 (zeros TDE_AES_KEY_LEN) 0 false.

Definition zero_entries : list TdeKeyEntry :=
  replicate TDE_MAX_CACHED_KEYS zero_entry.

Definition store (c : TdeKeyCache) : M shmem unit :=
  fun s => (Ok tt, mkShmem (Some c) (attached s)).

Arguments store c s /.

Definition set_lock (l : LWLock) (c : TdeKeyCache) : TdeKeyCache :=
  mkTdeKeyCache l (num_entries c) (entries c).

(** Sizes of the C structs on a 64-bit build: an LWLock takes 16 bytes, an
    entry 4 + 32 + 4 + 1 bytes padded to 44. *)
Definition MAXALIGN (n : Z) : Z := Z.land (n + 7) (Z.lnot 7).

Definition sizeof_TdeKeyCache : Z :=
  16 + 4 + Z.of_nat TDE_MAX_CACHED_KEYS * 44.

Definition tde_keycache_shmem_size : Z := MAXALIGN sizeof_TdeKeyCache.

Definition tde_keycache_shmem_init : M shmem unit :=
  let! s := get in
  match segment s with
  | Some c => put (mkShmem (Some c) true)
  | None => put (mkShmem (Some (mkTdeKeyCache LW_FREE 0 zero_entries)) true)
  end.

Definition tde_keycache_init : M shmem unit :=
  let! p := gets TdeKeyCacheShmem in
  match p with
  | None => raise ERRCODE_INTERNAL_ERROR
  | Some _ => ret tt
  end.

(** The lookup loop from index [i] with [todo] iterations left. *)
Fixpoint lookup_loop (spcOid : Oid) (es : list TdeKeyEntry) (todo i : nat)
    : option TdeKeyEntry :=
  match todo with
  | O => None
  | S todo' =>
      match es !! i with
      | Some entry =>
          if (spc_oid entry =? spcOid) && active entry then Some entry
          else lookup_loop spcOid es todo' (S i)
      | None => None
      end
  end.

Definition tde_keycache_lookup (spcOid : Oid) : M shmem (option TdeKeyEntry) :=
  let! p := gets TdeKeyCacheShmem in
  match p with
  | None => raise ERRCODE_INTERNAL_ERROR
  | Some c =>
      do! store (set_lock LW_SHARED c) in
      let found := lookup_loop spcOid (entries c) (num_entries c) 0 in
      do! store (set_lock LW_FREE c) in
      ret found
  end.

(** The insertion loop ends at an entry of the same tablespace or with the
    first inactive slot seen ([inactive_slot], -1 as [None]). *)
Inductive scan_result :=
| Existing (i : nat)
| Scanned (inactive_slot : option nat).

Fixpoint insert_loop (spcOid : Oid) (es : list TdeKeyEntry) (todo i : nat)
    (inactive_slot : option nat) : scan_result :=
  match todo with
  | O => Scanned inactive_slot
  | S todo' =>
      match es !! i with
      | Some cached =>
          if spc_oid cached =? spcOid then Existing i
          else
            insert_loop spcOid es todo' (S i)
              (match inactive_slot with
               | Some j => Some j
               | None => if negb (active cached) then Some i else None
               end)
      | None => Scanned inactive_slot
      end
  end.

Definition update_entry (e cached : TdeKeyEntry) : TdeKeyEntry :=
  mkTdeKeyEntry (spc_oid cached) (key e) (version e) (active e).

Definition tde_keycache_insert (entry : TdeKeyEntry) : M shmem unit :=
  let! p := gets TdeKeyCacheShmem in
  match p with
  | None => raise ERRCODE_INTERNAL_ERROR
  | Some c =>
      do! store (set_lock LW_EXCLUSIVE c) in
      match insert_loop (spc_oid entry) (entries c) (num_entries c) 0 None with
      | Existing i =>
          store (mkTdeKeyCache LW_FREE (num_entries c)
                   (alter (update_entry entry) i (entries c)))
      | Scanned inactive_slot =>
          let '(n, free_slot) :=
            if (num_entries c <? TDE_MAX_CACHED_KEYS)%nat
            then (S (num_entries c), Some (num_entries c))
            else (num_entries c, inactive_slot) in
          match free_slot with
          | None =>
              do! store (mkTdeKeyCache LW_FREE n (entries c)) in
              raise ERRCODE_CONFIGURATION_LIMIT_EXCEEDED
          | Some i =>
              store (mkTdeKeyCache LW_FREE n (<[i := entry]> (entries c)))
          end
      end
  end.

Definition tde_keycache_invalidate : M shmem unit :=
  let! p := gets TdeKeyCacheShmem in
  match p with
  | None => raise ERRCODE_INTERNAL_ERROR
  | Some c =>
      do! store (set_lock LW_EXCLUSIVE c) in
      store (mkTdeKeyCache LW_FREE 0 zero_entries)
  end.

(** ** The invariant *)

(** [slot c i e]: entry [e] is in use at index [i]. *)
Definition slot (c : TdeKeyCache) (i : nat) (e : TdeKeyEntry) : Prop :=
  (i < num_entries c)%nat /\ entries c !! i = Some e.

Definition wf_entry (e : TdeKeyEntry) : Prop := length (key e) = TDE_AES_KEY_LEN.

(** No lock is left held, the array has its size, the used prefix is within
    it, and no tablespace has two entries. *)
Record wf_cache (c : TdeKeyCache) : Prop := {
  wf_lock : lock c = LW_FREE;
  wf_array : length (entries c) = TDE_MAX_CACHED_KEYS;
  wf_num : (num_entries c <= TDE_MAX_CACHED_KEYS)%nat;
  wf_distinct : forall i j e e',
    slot c i e -> slot c j e' -> spc_oid e = spc_oid e' -> i = j;
  wf_keys : Forall wf_entry (entries c)
}.

Definition wf_shmem (s : shmem) : Prop :=
  match segment s with
  | Some c => wf_cache c
  | None => attached s = false
  end.

(** ** The loops *)

Lemma lookup_loop_spec oid es todo i :
  (i + todo <= length es)%nat ->
  match lookup_loop oid es todo i with
  | Some e => exists j, (i <= j < i + todo)%nat /\ es !! j = Some e /\
                spc_oid e = oid /\ active e = true
  | None => forall j e, (i <= j < i + todo)%nat -> es !! j = Some e ->
              spc_oid e = oid -> active e = false
  end.
Proof.
  revert i. induction todo as [|todo IH]; intros i Hle; cbn; [intros; lia|].
  destruct (es !! i) as [e|] eqn:Hi; [|apply lookup_ge_None in Hi; lia].
  destruct (spc_oid e =? oid) eqn:Ho; cbn; [destruct (active e) eqn:Ha|].
  - exists i. repeat split; auto; lia.
  - specialize (IH (S i) ltac:(lia)). destruct lookup_loop.
    + destruct IH as (j & ? & ?); exists j; split; [lia|auto].
    + intros j e' Hj Hje Hoe. destruct (decide (i = j)) as [->|]; [congruence|].
      apply (IH j); auto; lia.
  - specialize (IH (S i) ltac:(lia)). destruct lookup_loop.
    + destruct IH as (j & ? & ?); exists j; split; [lia|auto].
    + intros j e' Hj Hje Hoe. destruct (decide (i = j)) as [->|]; [|apply (IH j); auto; lia].
      simplify_eq. lia.
Qed.

(** What the insertion loop has established when it runs to its end. *)
Lemma insert_loop_spec oid es todo i sl :
  (i + todo <= length es)%nat ->
  match insert_loop oid es todo i sl with
  | Existing j => exists e, (i <= j < i + todo)%nat /\ es !! j = Some e /\
                    spc_oid e = oid
  | Scanned sl' =>
      (forall j e, (i <= j < i + todo)%nat -> es !! j = Some e -> spc_oid e <> oid) /\
      match sl' with
      | None => sl = None /\
          forall j e, (i <= j < i + todo)%nat -> es !! j = Some e -> active e = true
      | Some k => sl = Some k \/
          exists e, (i <= k < i + todo)%nat /\ es !! k = Some e /\ active e = false
      end
  end.
Proof.
  revert i sl. induction todo as [|todo IH]; intros i sl Hle; cbn.
  { split; [intros; lia|]. destruct sl; auto. split; [auto|intros; lia]. }
  destruct (es !! i) as [e|] eqn:Hi; [|apply lookup_ge_None in Hi; lia].
  destruct (spc_oid e =? oid) eqn:Ho; [exists e; repeat split; auto; lia|].
  match goal with |- context [insert_loop _ _ _ _ ?x] =>
    specialize (IH (S i) x ltac:(lia)) end.
  destruct insert_loop as [j|sl'].
  { destruct IH as (e' & ? & ?); exists e'; split; [lia|auto]. }
  destruct IH as [Hne Hsl]. split.
  { intros j e' Hj Hje. destruct (decide (i = j)) as [->|]; [simplify_eq; lia|].
    apply (Hne j); auto; lia. }
  destruct sl' as [k|].
  - destruct Hsl as [Hsl|(e' & ? & ?)].
    + destruct sl as [k'|]; [auto|]. destruct (active e) eqn:Ha; simplify_eq/=.
      right; exists e; repeat split; auto; lia.
    + right; exists e'; split; [lia|auto].
  - destruct Hsl as [Hsl Hall]. destruct sl as [k'|]; [discriminate|].
    destruct (active e) eqn:Ha; [|discriminate]. split; [auto|].
    intros j e' Hj Hje. destruct (decide (i = j)) as [->|]; [congruence|].
    apply (Hall j); auto; lia.
Qed.

(** ** Insertion

    Every branch of an insertion either writes [entry] at one index or fails
    and leaves the array alone. *)

Definition put_slot (c : TdeKeyCache) (n i : nat) (e : TdeKeyEntry) : TdeKeyCache :=
  mkTdeKeyCache LW_FREE n (<[i := e]> (entries c)).

Definition fresh (c : TdeKeyCache) (oid : Oid) : Prop :=
  forall i e, slot c i e -> spc_oid e <> oid.

Inductive insert_case (c : TdeKeyCache) (e : TdeKeyEntry)
    : outcome unit -> TdeKeyCache -> Prop :=
| insert_update i old :
    slot c i old -> spc_oid old = spc_oid e ->
    insert_case c e (Ok tt) (put_slot c (num_entries c) i e)
| insert_append :
    fresh c (spc_oid e) -> (num_entries c < TDE_MAX_CACHED_KEYS)%nat ->
    insert_case c e (Ok tt) (put_slot c (S (num_entries c)) (num_entries c) e)
| insert_evict i old :
    fresh c (spc_oid e) -> num_entries c = TDE_MAX_CACHED_KEYS ->
    slot c i old -> active old = false ->
    insert_case c e (Ok tt) (put_slot c (num_entries c) i e)
| insert_full :
    fresh c (spc_oid e) -> num_entries c = TDE_MAX_CACHED_KEYS ->
    (forall i old, slot c i old -> active old = true) ->
    insert_case c e (Err ERRCODE_CONFIGURATION_LIMIT_EXCEEDED) c.

Lemma alter_update_entry e (es : list TdeKeyEntry) i old :
  es !! i = Some old -> spc_oid old = spc_oid e ->
  alter (update_entry e) i es = <[i := e]> es.
Proof.
  intros Hi Ho. apply list_eq. intros j. destruct (decide (i = j)) as [->|Hne].
  - rewrite list_lookup_alter_eq, Hi. rewrite list_lookup_insert_eq.
    + cbn. unfold update_entry. rewrite Ho. destruct e; reflexivity.
    + eapply lookup_lt_Some; eauto.
  - rewrite list_lookup_alter_ne, list_lookup_insert_ne; auto.
Qed.

Lemma insert_run c e :
  wf_cache c ->
  exists o c', tde_keycache_insert e (mkShmem (Some c) true)
               = (o, mkShmem (Some c') true) /\ insert_case c e o c'.
Proof.
  intros Hwf. destruct c as [lk n es].
  pose proof (wf_lock _ Hwf) as Hlk. pose proof (wf_array _ Hwf) as Hlen.
  pose proof (wf_num _ Hwf) as Hn. cbn in Hlk, Hlen, Hn. subst lk.
  unfold tde_keycache_insert, bind, gets, store, modify, raise; cbn -[Nat.ltb].
  pose proof (insert_loop_spec (spc_oid e) es n 0 None ltac:(cbn; lia)) as Hs.
  destruct (insert_loop (spc_oid e) es n 0 None) as [i|sl].
  { destruct Hs as (old & Hi & Hl & Ho). do 2 eexists. split; [reflexivity|].
    rewrite (alter_update_entry e es i old Hl Ho).
    apply (insert_update (mkTdeKeyCache LW_FREE n es) e i old); auto.
    split; cbn; [lia|auto]. }
  destruct Hs as [Hne Hsl].
  assert (Hf : fresh (mkTdeKeyCache LW_FREE n es) (spc_oid e)).
  { intros i e' [Hi Hl]. cbn in *. apply (Hne i); auto; lia. }
  destruct (Nat.ltb_spec n TDE_MAX_CACHED_KEYS) as [Hlt|Hge].
  { do 2 eexists. split; [reflexivity|].
    apply (insert_append (mkTdeKeyCache LW_FREE n es) e); auto. }
  assert (Hfull : n = TDE_MAX_CACHED_KEYS) by lia.
  destruct sl as [k|].
  - destruct Hsl as [?|(old & Hk & Hl & Ha)]; [discriminate|].
    do 2 eexists. split; [reflexivity|].
    apply (insert_evict (mkTdeKeyCache LW_FREE n es) e k old); auto. split; cbn; [lia|auto].
  - destruct Hsl as [_ Hall]. do 2 eexists. split; [reflexivity|].
    apply (insert_full (mkTdeKeyCache LW_FREE n es) e); auto.
    intros i old [Hi Hl]; cbn in *. apply (Hall i); auto; lia.
Qed.

(** The slots after a write at index [i]: the new entry and the others. *)
Lemma put_slot_iff c n i e j e' :
  wf_cache c -> (i < TDE_MAX_CACHED_KEYS)%nat ->
  n = num_entries c \/ (n = S (num_entries c) /\ i = num_entries c) ->
  (i < n)%nat ->
  slot (put_slot c n i e) j e' <->
  (j = i /\ e' = e) \/ (j <> i /\ slot c j e').
Proof.
  intros Hwf Hi Hn Hin. unfold slot, put_slot; cbn.
  pose proof (wf_array _ Hwf) as Hlen.
  destruct (decide (j = i)) as [->|Hne].
  - rewrite list_lookup_insert_eq by lia. naive_solver.
  - rewrite list_lookup_insert_ne by auto.
    split; [intros [? ?]; right; split; [auto|split; [lia|auto]]|].
    intros [[? _]|[_ [? ?]]]; [done|split; [lia|auto]].
Qed.

(** The write position of a successful insertion, in one shape for the three
    branches: only slots of the same tablespace or an inactive one are lost. *)
Lemma insert_case_ok c e c' :
  wf_cache c -> insert_case c e (Ok tt) c' ->
  exists n i, c' = put_slot c n i e /\ (i < TDE_MAX_CACHED_KEYS)%nat /\
    (n = num_entries c \/ (n = S (num_entries c) /\ i = num_entries c)) /\
    (i < n <= TDE_MAX_CACHED_KEYS)%nat /\
    (forall j e', slot c j e' -> spc_oid e' = spc_oid e -> j = i) /\
    (forall old, slot c i old -> spc_oid old = spc_oid e \/ active old = false).
Proof.
  intros Hwf H. pose proof (wf_num _ Hwf) as Hnum.
  inversion H as [i old Hs Ho|Hf Hlt|i old Hf Hn Hs Ha|]; subst.
  - pose proof Hs as [Hi Hl]. do 2 eexists; repeat split; try reflexivity; auto; try lia.
    + intros j e' Hj He'. apply (wf_distinct _ Hwf j i e' old); auto; congruence.
    + intros old' [_ Hl']. left. congruence.
  - do 2 eexists; repeat split; try reflexivity; auto; try lia.
    + intros j e' Hj He'. exfalso. apply (Hf j e'); auto.
    + intros old' [Hi _]. lia.
  - pose proof Hs as [Hi Hl]. do 2 eexists; repeat split; try reflexivity; auto; try lia.
    + intros j e' Hj He'. exfalso. apply (Hf j e'); auto.
    + intros old' [_ Hl']. right. congruence.
Qed.

Lemma insert_case_wf c e o c' :
  wf_cache c -> wf_entry e -> insert_case c e o c' -> wf_cache c'.
Proof.
  intros Hwf He H. destruct o as [[]|err|]; [|inversion H; subst; auto|inversion H].
  destruct (insert_case_ok _ _ _ Hwf H) as (n & i & -> & Hi & Hn & Hin & Hsame & _).
  split; cbn; auto; try lia.
  - rewrite length_insert. apply wf_array; auto.
  - intros j k e1 e2 H1 H2 Ho.
    apply put_slot_iff in H1; auto; [|lia]. apply put_slot_iff in H2; auto; [|lia].
    destruct H1 as [[-> ->]|[? H1]], H2 as [[-> ->]|[? H2]]; auto.
    + symmetry; eapply Hsame; eauto.
    + eapply Hsame; eauto.
    + eapply (wf_distinct _ Hwf); eauto.
  - apply Forall_insert; auto. apply wf_keys; auto.
Qed.

(** ** Lookup *)

Definition key_of (c : TdeKeyCache) (oid : Oid) : option TdeKeyEntry :=
  lookup_loop oid (entries c) (num_entries c) 0.

(** A lookup leaves the segment as it was, lock included. *)
Lemma lookup_run c oid :
  lock c = LW_FREE ->
  tde_keycache_lookup oid (mkShmem (Some c) true)
  = (Ok (key_of c oid), mkShmem (Some c) true).
Proof. destruct c as [lk n es]. cbn. intros ->. reflexivity. Qed.

Lemma key_of_iff c oid e :
  wf_cache c ->
  key_of c oid = Some e <->
  exists i, slot c i e /\ spc_oid e = oid /\ active e = true.
Proof.
  intros Hwf. unfold key_of.
  pose proof (wf_num _ Hwf). pose proof (wf_array _ Hwf).
  pose proof (lookup_loop_spec oid (entries c) (num_entries c) 0 ltac:(lia)) as Hs.
  destruct lookup_loop as [e0|]; split.
  - intros [= ->]. destruct Hs as (i & ? & ? & ? & ?). exists i. repeat split; auto; lia.
  - intros (i & Hi & Ho & Ha). destruct Hs as (j & Hj & Hl & Ho' & Ha').
    assert (i = j) by (apply (wf_distinct _ Hwf i j e e0); auto;
      [split; [lia|auto]|congruence]).
    subst. destruct Hi as [_ Hi]. congruence.
  - discriminate.
  - intros (i & [Hi Hl] & Ho & Ha). rewrite (Hs i e) in Ha; auto; [discriminate|lia].
Qed.

Lemma key_of_wf c oid e : wf_cache c -> key_of c oid = Some e -> wf_entry e.
Proof.
  intros Hwf Hk. apply key_of_iff in Hk as (i & [_ Hi] & _); auto.
  apply (Forall_lookup_1 _ _ _ _ (wf_keys _ Hwf) Hi).
Qed.

Lemma option_ext {A} (x y : option A) : (forall a, x = Some a <-> y = Some a) -> x = y.
Proof.
  intros H. destruct x as [a|]; [symmetry; apply H; reflexivity|].
  destruct y as [a|]; [apply H; reflexivity|reflexivity].
Qed.

(** What an insertion that succeeds does to every later lookup. *)
Lemma key_of_insert c e c' oid :
  wf_cache c -> wf_entry e -> insert_case c e (Ok tt) c' ->
  key_of c' oid =
    if decide (oid = spc_oid e)
    then (if active e then Some e else None)
    else key_of c oid.
Proof.
  intros Hwf He H. pose proof (insert_case_wf _ _ _ _ Hwf He H) as Hwf'.
  destruct (insert_case_ok _ _ _ Hwf H) as (n & i & -> & Hi & Hn & Hin & Hsame & Hold).
  apply option_ext. intros e'. rewrite key_of_iff by auto.
  setoid_rewrite put_slot_iff; [|auto..|lia].
  destruct (decide (oid = spc_oid e)) as [->|Hne].
  - split.
    + intros (j & [[-> ->]|[Hj Hs]] & Ho & Ha); [rewrite Ha; auto|].
      exfalso. eauto.
    + destruct (active e) eqn:Ha; [|discriminate]. intros [= ->]. exists i; auto.
  - rewrite key_of_iff by auto. split.
    + intros (j & [[-> ->]|[Hj Hs]] & Ho & Ha); [congruence|]. exists j; auto.
    + intros (j & Hs & Ho & Ha). exists j. split; [|auto]. right. split; [|auto].
      intros ->. destruct (Hold _ Hs); congruence.
Qed.

(** ** Reachable states *)

(** One call of the component by some process. *)
Inductive kc_step : shmem -> shmem -> Prop :=
| kc_shmem_init s o s' :
    tde_keycache_shmem_init s = (o, s') -> kc_step s s'
| kc_init s o s' : tde_keycache_init s = (o, s') -> kc_step s s'
| kc_lookup s oid o s' : tde_keycache_lookup oid s = (o, s') -> kc_step s s'
| kc_insert s e o s' :
    wf_entry e -> tde_keycache_insert e s = (o, s') -> kc_step s s'
| kc_invalidate s o s' : tde_keycache_invalidate s = (o, s') -> kc_step s s'
| kc_detach s : kc_step s (mkShmem (segment s) false).

Definition boot : shmem := mkShmem None false.

Inductive kc_reachable : shmem -> Prop :=
| reach_boot : kc_reachable boot
| reach_step s s' : kc_reachable s -> kc_step s s' -> kc_reachable s'.

Lemma zero_cache_wf : wf_cache (mkTdeKeyCache LW_FREE 0 zero_entries).
Proof.
  split; cbn -[zero_entries]; try reflexivity; try lia.
  - intros i j e e' [Hi _]; cbn in Hi; lia.
  - apply Forall_replicate. reflexivity.
Qed.

Lemma kc_step_wf s s' : wf_shmem s -> kc_step s s' -> wf_shmem s'.
Proof.
  intros Hwf Hstep.
  destruct Hstep as [s o s' H|s o s' H|s oid o s' H|s e o s' He H|s o s' H|s];
    destruct s as [[c|] []]; cbn in Hwf; try discriminate; try exact Hwf;
    try (cbn in H; simplify_eq; first [exact Hwf|reflexivity|exact zero_cache_wf]).
  - rewrite lookup_run in H by (apply wf_lock; auto). simplify_eq. exact Hwf.
  - destruct (insert_run c e Hwf) as (o' & c' & Hr & Hc).
    rewrite Hr in H. simplify_eq. cbn. eapply insert_case_wf; eauto.
Qed.

(** ** The abstract cache

    The contract of the component: a finite map from tablespaces to keys with
    room for 256 of them.  A new tablespace takes a free place, or the place
    of some inactive key, or is refused. *)

Definition value (e : TdeKeyEntry) : bytes * Z * bool := (key e, version e, active e).

Abbreviation kmap := (gmap Z (bytes * Z * bool)).

Inductive kc_op :=
| OpLookup (oid : Oid)
| OpInsert (e : TdeKeyEntry)
| OpInvalidate.

Inductive kc_answer :=
| Found (e : option TdeKeyEntry)
| Done
| Refused.

(** The abstract machine: an operation, its answer and the next map. *)
Inductive spec_step : kmap -> kc_op -> kc_answer -> kmap -> Prop :=
| spec_hit m oid k v :
    m !! oid = Some (k, v, true) ->
    spec_step m (OpLookup oid) (Found (Some (mkTdeKeyEntry oid k v true))) m
| spec_miss m oid :
    (forall k v, m !! oid <> Some (k, v, true)) ->
    spec_step m (OpLookup oid) (Found None) m
| spec_update m e :
    is_Some (m !! spc_oid e) ->
    spec_step m (OpInsert e) Done (<[spc_oid e := value e]> m)
| spec_add m e :
    m !! spc_oid e = None -> (size m < TDE_MAX_CACHED_KEYS)%nat ->
    spec_step m (OpInsert e) Done (<[spc_oid e := value e]> m)
| spec_replace m e oid k v :
    m !! spc_oid e = None -> size m = TDE_MAX_CACHED_KEYS ->
    m !! oid = Some (k, v, false) ->
    spec_step m (OpInsert e) Done (<[spc_oid e := value e]> (delete oid m))
| spec_refuse m e :
    m !! spc_oid e = None -> size m = TDE_MAX_CACHED_KEYS ->
    (forall oid k v a, m !! oid = Some (k, v, a) -> a = true) ->
    spec_step m (OpInsert e) Refused m
| spec_flush m : spec_step m OpInvalidate Done ∅.

(** The implementation run on one operation. *)
Definition answer_of {A} (f : A -> kc_answer) (r : outcome A) : kc_answer :=
  match r with Ok a => f a | _ => Refused end.

Definition run_op (op : kc_op) (s : shmem) : kc_answer * shmem :=
  match op with
  | OpLookup oid =>
      let '(r, s') := tde_keycache_lookup oid s in (answer_of Found r, s')
  | OpInsert e =>
      let '(r, s') := tde_keycache_insert e s in (answer_of (fun _ => Done) r, s')
  | OpInvalidate =>
      let '(r, s') := tde_keycache_invalidate s in (answer_of (fun _ => Done) r, s')
  end.

Fixpoint run_ops (ops : list kc_op) (s : shmem) : list kc_answer * shmem :=
  match ops with
  | [] => ([], s)
  | op :: ops' =>
      let '(a, s1) := run_op op s in
      let '(rs, s2) := run_ops ops' s1 in (a :: rs, s2)
  end.

Inductive spec_steps : kmap -> list kc_op -> list kc_answer -> kmap -> Prop :=
| spec_nil m : spec_steps m [] [] m
| spec_cons m op a m1 ops rs m2 :
    spec_step m op a m1 -> spec_steps m1 ops rs m2 ->
    spec_steps m (op :: ops) (a :: rs) m2.

Definition wf_op (op : kc_op) : Prop :=
  match op with OpInsert e => wf_entry e | _ => True end.

(** The abstraction function: the used prefix as a map. *)
Definition pairs (c : TdeKeyCache) : list (Z * (bytes * Z * bool)) :=
  (fun e => (spc_oid e, value e)) <$> take (num_entries c) (entries c).

Definition abs (c : TdeKeyCache) : kmap := list_to_map (pairs c).

Lemma elem_of_pairs c oid v :
  (oid, v) ∈ pairs c <-> exists i e, slot c i e /\ spc_oid e = oid /\ value e = v.
Proof.
  unfold pairs. rewrite list_elem_of_fmap. split.
  - intros (e & [= -> ->] & He). apply list_elem_of_lookup in He as [i Hi].
    apply lookup_take_Some in Hi as [Hl Hi]. exists i, e. repeat split; auto.
  - intros (i & e & [Hi Hl] & <- & <-). exists e. split; [reflexivity|].
    apply list_elem_of_lookup. exists i. apply lookup_take_Some; auto.
Qed.

Lemma NoDup_pairs c : wf_cache c -> NoDup (pairs c).*1.
Proof.
  intros Hwf. unfold pairs. rewrite <- list_fmap_compose. apply NoDup_alt.
  intros i j oid Hi Hj. apply list_lookup_fmap_Some in Hi as (e & -> & Hi).
  apply list_lookup_fmap_Some in Hj as (e' & Ho & Hj).
  apply lookup_take_Some in Hi as [? ?]. apply lookup_take_Some in Hj as [? ?].
  apply (wf_distinct _ Hwf i j e e'); [split..|]; auto.
Qed.

Lemma abs_lookup c oid v :
  wf_cache c ->
  abs c !! oid = Some v <-> exists i e, slot c i e /\ spc_oid e = oid /\ value e = v.
Proof.
  intros Hwf. unfold abs. rewrite <- elem_of_list_to_map by (apply NoDup_pairs; auto).
  apply elem_of_pairs.
Qed.

Lemma abs_fresh c oid : wf_cache c -> fresh c oid <-> abs c !! oid = None.
Proof.
  intros Hwf. split.
  - intros Hf. apply eq_None_not_Some. intros [v Hv].
    apply abs_lookup in Hv as (i & e & Hs & Ho & _); auto. eapply Hf; eauto.
  - intros Hn i e Hs Ho. assert (abs c !! oid = Some (value e)); [|congruence].
    apply abs_lookup; eauto.
Qed.

Lemma abs_size c : wf_cache c -> size (abs c) = num_entries c.
Proof.
  intros Hwf. unfold abs. rewrite map_size_list_to_map by (apply NoDup_pairs; auto).
  unfold pairs. rewrite length_fmap, length_take.
  pose proof (wf_array _ Hwf). pose proof (wf_num _ Hwf). lia.
Qed.

(** Writing a slot is an insertion into the map, after the deletion of the
    tablespace that held the slot. *)
Lemma abs_put_slot c n i e :
  wf_cache c -> wf_cache (put_slot c n i e) -> (i < TDE_MAX_CACHED_KEYS)%nat ->
  n = num_entries c \/ (n = S (num_entries c) /\ i = num_entries c) -> (i < n)%nat ->
  (forall j e', slot c j e' -> spc_oid e' = spc_oid e -> j = i) ->
  (forall m : kmap,
     (forall oid v, oid <> spc_oid e ->
        m !! oid = Some v <-> exists j e', j <> i /\ slot c j e' /\
                                spc_oid e' = oid /\ value e' = v) ->
     abs (put_slot c n i e) = <[spc_oid e := value e]> m).
Proof.
  intros Hwf Hwf' Hi Hn Hin Hsame m Hm. apply map_eq. intros oid. apply option_ext.
  intros v. rewrite abs_lookup by auto. setoid_rewrite put_slot_iff; [|auto..].
  rewrite lookup_insert_Some. split.
  - intros (j & e' & [[-> ->]|[Hj Hs]] & Ho & Hv); [left; auto|]. right.
    assert (oid <> spc_oid e) by (intros ->; eauto).
    split; [auto|]. apply Hm; eauto 7.
  - intros [[<- <-]|[Hne Hl]]; [exists i, e; auto|].
    apply Hm in Hl as (j & e' & Hj & Hs & Ho & Hv); [|auto]. exists j, e'. auto.
Qed.

Lemma insert_case_refines c e o c' :
  wf_cache c -> wf_entry e -> insert_case c e o c' ->
  spec_step (abs c) (OpInsert e) (answer_of (fun _ => Done) o) (abs c').
Proof.
  intros Hwf He H. pose proof (insert_case_wf _ _ _ _ Hwf He H) as Hwf'.
  pose proof (wf_num _ Hwf) as Hnum.
  inversion H as [i old Hs Ho|Hf Hlt|i old Hf Hn Hs Ha|Hf Hn Hall]; subst; cbn [answer_of].
  - rewrite (abs_put_slot c (num_entries c) i e) with (m := abs c); auto;
      try (pose proof Hs as [? ?]; lia).
    + apply spec_update. exists (value old). apply abs_lookup; eauto.
    + intros j e' Hj Hj'. apply (wf_distinct _ Hwf j i e' old); auto; congruence.
    + intros oid v Hne. rewrite abs_lookup by auto. split.
      * intros (j & e' & Hj & Hoj & Hv). exists j, e'. split; [|auto].
        intros ->. destruct Hs as [_ Hs], Hj as [_ Hj]. congruence.
      * intros (j & e' & ? & ?). eauto.
  - rewrite (abs_put_slot c (S (num_entries c)) (num_entries c) e) with (m := abs c);
      auto; try lia.
    + apply spec_add; [apply abs_fresh; auto|rewrite abs_size; auto].
    + intros j e' Hj Hj'. exfalso. eapply Hf; eauto.
    + intros oid v Hne. rewrite abs_lookup by auto. split.
      * intros (j & e' & Hj & Hoj & Hv). exists j, e'. split; [|auto].
        destruct Hj; lia.
      * intros (j & e' & ? & ?). eauto.
  - assert (Hold : abs c !! spc_oid old = Some (value old)) by (apply abs_lookup; eauto).
    rewrite (abs_put_slot c (num_entries c) i e) with (m := delete (spc_oid old) (abs c));
      auto; try (pose proof Hs as [? ?]; lia).
    + eapply spec_replace; [apply abs_fresh; auto|rewrite abs_size; auto|].
      rewrite Hold. unfold value. rewrite Ha. reflexivity.
    + intros j e' Hj Hj'. exfalso. eapply Hf; eauto.
    + intros oid v Hne. rewrite lookup_delete_Some, abs_lookup by auto. split.
      * intros (Hne' & j & e' & Hj & Hoj & Hv). exists j, e'. split; [|auto].
        intros ->. destruct Hs as [_ Hs], Hj as [_ Hj]. congruence.
      * intros (j & e' & Hji & Hj & Hoj & Hv). split; [|eauto].
        intros Heq. apply Hji. apply (wf_distinct _ Hwf j i e' old); auto; congruence.
  - apply spec_refuse; [apply abs_fresh; auto|rewrite abs_size; auto|].
    intros oid k v a Hl. apply abs_lookup in Hl as (i & e' & Hs & _ & [= <- <- <-]); eauto.
Qed.

Lemma lookup_refines c oid :
  wf_cache c -> spec_step (abs c) (OpLookup oid) (Found (key_of c oid)) (abs c).
Proof.
  intros Hwf. destruct (key_of c oid) as [e|] eqn:Hk.
  - apply key_of_iff in Hk as (i & Hs & <- & Ha); auto.
    destruct e as [o k v a]; cbn in *; subst. apply spec_hit.
    apply abs_lookup; eauto.
  - apply spec_miss. intros k v Hl.
    apply abs_lookup in Hl as (i & e & Hs & Ho & Hv); auto.
    assert (key_of c oid = Some e); [|congruence]. apply key_of_iff; auto.
    exists i. unfold value in Hv. simplify_eq. auto.
Qed.

Lemma run_op_refines op c :
  wf_cache c -> wf_op op ->
  exists a c', run_op op (mkShmem (Some c) true) = (a, mkShmem (Some c') true) /\
    wf_cache c' /\ spec_step (abs c) op a (abs c').
Proof.
  intros Hwf Hop. destruct op as [oid|e|]; cbn [run_op].
  - rewrite lookup_run by (apply wf_lock; auto). do 2 eexists. split; [reflexivity|].
    split; [auto|]. apply lookup_refines; auto.
  - destruct (insert_run c e Hwf) as (o & c' & -> & Hc). do 2 eexists.
    split; [reflexivity|]. split; [eapply insert_case_wf|eapply insert_case_refines]; eauto.
  - do 2 eexists. split; [reflexivity|]. split; [exact zero_cache_wf|apply spec_flush].
Qed.

Lemma run_ops_refines ops c :
  wf_cache c -> Forall wf_op ops ->
  exists rs c', run_ops ops (mkShmem (Some c) true) = (rs, mkShmem (Some c') true) /\
    spec_steps (abs c) ops rs (abs c').
Proof.
  intros Hwf Hops. revert c Hwf. induction Hops as [|op ops Hop _ IH]; intros c Hwf.
  - exists [], c. split; [reflexivity|constructor].
  - destruct (run_op_refines op c Hwf Hop) as (a & c1 & Hr & Hwf1 & Hs).
    destruct (IH c1 Hwf1) as (rs & c2 & Hrs & Hss).
    exists (a :: rs), c2. cbn [run_ops]. rewrite Hr, Hrs. split; [reflexivity|].
    econstructor; eauto.
Qed.

Lemma kc_reachable_wf s : kc_reachable s -> wf_shmem s.
Proof. induction 1 as [|s s' _ IH Hstep]; [reflexivity|eapply kc_step_wf; eauto]. Qed.

Lemma attached_cases s c :
  wf_shmem s -> TdeKeyCacheShmem s = Some c ->
  s = mkShmem (Some c) true /\ wf_cache c.
Proof.
  destruct s as [[c'|] []]; cbn; try discriminate. intros Hwf [= ->]. auto.
Qed.

(** ** Properties *)

(** C1: refinement.  From the state the postmaster sets up, the answers of any
    sequence of lookups, insertions and flushes are answers the abstract map
    of at most 256 keys gives to the same sequence, and the final array
    abstracts to the final map. *)
Theorem keycache_refines ops :
  Forall wf_op ops ->
  exists rs c,
    run_ops ops (snd (tde_keycache_shmem_init boot)) = (rs, mkShmem (Some c) true) /\
    spec_steps ∅ ops rs (abs c).
Proof.
  intros Hops.
  exact (run_ops_refines ops (mkTdeKeyCache LW_FREE 0 zero_entries) zero_cache_wf Hops).
Qed.

Definition sample_entry (oid : Oid) (a : bool) : TdeKeyEntry :=
  mkTdeKeyEntry oid (repeat 7 TDE_AES_KEY_LEN) 1 a.

Lemma keycache_refines_witness :
  exists rs c,
    run_ops [OpInsert (sample_entry 5 true); OpLookup 5; OpInvalidate; OpLookup 5]
      (snd (tde_keycache_shmem_init boot)) = (rs, mkShmem (Some c) true) /\
    spec_steps ∅ [OpInsert (sample_entry 5 true); OpLookup 5; OpInvalidate; OpLookup 5]
      rs (abs c).
Proof. apply keycache_refines. repeat constructor. Defined.

(** C23: invariant.  In every state reachable by calls of the component, from
    any processes and with any outcomes, the lock is free between calls, the
    used prefix lies inside the array of 256 entries, no tablespace has two
    entries and every key has 32 bytes. *)
Theorem keycache_reachable_invariant s c :
  kc_reachable s -> segment s = Some c ->
  lock c = LW_FREE /\
  length (entries c) = TDE_MAX_CACHED_KEYS /\
  (num_entries c <= TDE_MAX_CACHED_KEYS)%nat /\
  NoDup (spc_oid <$> take (num_entries c) (entries c)) /\
  Forall (fun e => length (key e) = TDE_AES_KEY_LEN) (entries c).
Proof.
  intros Hr Hc. apply kc_reachable_wf in Hr. unfold wf_shmem in Hr. rewrite Hc in Hr.
  repeat split; try apply Hr. pose proof (NoDup_pairs c Hr) as Hnd. unfold pairs in Hnd.
  rewrite <- list_fmap_compose in Hnd. exact Hnd.
Qed.

Lemma keycache_reachable_invariant_witness :
  let s := snd (tde_keycache_insert (sample_entry 5 true)
                  (snd (tde_keycache_shmem_init boot))) in
  exists c, segment s = Some c /\ num_entries c = 1%nat /\
    NoDup (spc_oid <$> take (num_entries c) (entries c)).
Proof.
  eexists. split; [reflexivity|]. split; [reflexivity|].
  eapply (keycache_reachable_invariant
            (snd (tde_keycache_insert (sample_entry 5 true)
                    (snd (tde_keycache_shmem_init boot))))); [|reflexivity].
  eapply reach_step; [eapply reach_step; [apply reach_boot|eapply kc_shmem_init; reflexivity]|].
  eapply (kc_insert _ (sample_entry 5 true)); [reflexivity|].
  rewrite <- surjective_pairing. reflexivity.
Defined.

(** In a reachable state of an attached process an insertion
    ends in one of two ways: it succeeds, and then a lookup of that tablespace
    finds exactly the inserted entry (nothing when it is inactive) while the
    lookup of every other tablespace is what it was; or it raises the limit
    error, and then the segment is unchanged and holds 256 active keys of
    other tablespaces. *)
Theorem keycache_insert_lookup s c e :
  kc_reachable s -> TdeKeyCacheShmem s = Some c -> wf_entry e ->
  exists o c', tde_keycache_insert e s = (o, mkShmem (Some c') true) /\
    ((o = Ok tt /\
      forall oid, fst (tde_keycache_lookup oid (mkShmem (Some c') true)) =
        if decide (oid = spc_oid e)
        then Ok (if active e then Some e else None)
        else fst (tde_keycache_lookup oid s)) \/
     (o = Err ERRCODE_CONFIGURATION_LIMIT_EXCEEDED /\ c' = c /\
      num_entries c = TDE_MAX_CACHED_KEYS /\
      forall i old, slot c i old -> active old = true /\ spc_oid old <> spc_oid e)).
Proof.
  intros Hr Hc He. apply kc_reachable_wf in Hr.
  apply attached_cases in Hc as [-> Hwf]; [|auto].
  destruct (insert_run c e Hwf) as (o & c' & Hrun & Hcase).
  exists o, c'. split; [exact Hrun|].
  destruct o as [[]|err|]; [left|right|inversion Hcase].
  - split; [reflexivity|]. intros oid.
    rewrite !lookup_run by (eapply wf_lock; eauto using insert_case_wf). cbn [fst].
    rewrite (key_of_insert c e c' oid) by auto. destruct (decide _); reflexivity.
  - inversion Hcase; subst. repeat split; eauto.
Qed.

Lemma keycache_insert_lookup_witness :
  exists o c', tde_keycache_insert (sample_entry 5 true)
                 (snd (tde_keycache_shmem_init boot)) = (o, mkShmem (Some c') true) /\
    o = Ok tt.
Proof.
  destruct (keycache_insert_lookup (snd (tde_keycache_shmem_init boot))
              (mkTdeKeyCache LW_FREE 0 zero_entries) (sample_entry 5 true))
    as (o & c' & Hrun & [[Ho _]|[_ [_ [Hn _]]]]).
  - eapply reach_step; [apply reach_boot|eapply kc_shmem_init; reflexivity].
  - reflexivity.
  - reflexivity.
  - exists o, c'. split; [exact Hrun|exact Ho].
  - discriminate Hn.
Defined.

(** A flush leaves no key behind: every one of the 256 entries is
    zero, used or not, and every later lookup misses.  In a process that has
    not attached the segment it raises an error and changes nothing. *)
Theorem keycache_invalidate_wipes s :
  wf_shmem s ->
  match TdeKeyCacheShmem s with
  | Some _ =>
      exists c, tde_keycache_invalidate s = (Ok tt, mkShmem (Some c) true) /\
        (forall i e, entries c !! i = Some e -> key e = zeros TDE_AES_KEY_LEN) /\
        length (entries c) = TDE_MAX_CACHED_KEYS /\
        (forall oid, tde_keycache_lookup oid (mkShmem (Some c) true)
                     = (Ok None, mkShmem (Some c) true))
  | None => tde_keycache_invalidate s = (Err ERRCODE_INTERNAL_ERROR, s)
  end.
Proof.
  intros Hwf. destruct s as [[c|] []]; cbn in Hwf; try discriminate; cbn -[zero_entries];
    try reflexivity.
  eexists. split; [reflexivity|]. split; [|split; [reflexivity|intros oid; reflexivity]].
  intros i e Hi. apply lookup_replicate in Hi as [-> _]. reflexivity.
Qed.

Lemma keycache_invalidate_wipes_witness :
  exists c, tde_keycache_invalidate (snd (tde_keycache_shmem_init boot))
            = (Ok tt, mkShmem (Some c) true) /\
    length (entries c) = TDE_MAX_CACHED_KEYS.
Proof.
  destruct (keycache_invalidate_wipes (snd (tde_keycache_shmem_init boot)) zero_cache_wf)
    as (c & Hi & _ & Hl & _).
  exists c. split; [exact Hi|exact Hl].
Defined.
