(* ===== verification/PqcRegistry.v ===== *)
(** * The algorithm registry and the statistics counters
    (src/include/crypto/pqc/pqc_common.h, src/backend/crypto/pqc/pqc_common.c,
    src/backend/crypto/pqc/pqc_stats.c)

    A table of eighteen algorithms whose sizes are filled in from liboqs by
    [pqc_init], and the shared counters the key encapsulation and signature
    layers increment. *)
From Stdlib Require Import ZArith Lia Bool String Ascii List.
From stdpp Require Import base gmap list strings.
From S2P Require Import Prelude CryptoIface Env KeyCache.
Import ListNotations.
Local Open Scope Z_scope.
Local Open Scope pg_scope.

(** ** Data *)

(** Enumerators are their C values: other integers reach these functions
    through casts. *)
Abbreviation PqcAlgorithm := Z (only parsing).

Definition PQC_ALG_ML_KEM_512 : PqcAlgorithm := 0.
Definition PQC_ALG_ML_KEM_768 : PqcAlgorithm := 1.
Definition PQC_ALG_ML_KEM_1024 : PqcAlgorithm := 2.
Definition PQC_ALG_ML_DSA_44 : PqcAlgorithm := 3.
Definition PQC_ALG_ML_DSA_65 : PqcAlgorithm := 4.
Definition PQC_ALG_ML_DSA_87 : PqcAlgorithm := 5.
Definition PQC_ALG_SLH_DSA_SHA2_128S : PqcAlgorithm := 6.
Definition PQC_ALG_SLH_DSA_SHA2_128F : PqcAlgorithm := 7.
Definition PQC_ALG_SLH_DSA_SHA2_192S : PqcAlgorithm := 8.
Definition PQC_ALG_SLH_DSA_SHA2_192F : PqcAlgorithm := 9.
Definition PQC_ALG_SLH_DSA_SHA2_256S : PqcAlgorithm := 10.
Definition PQC_ALG_SLH_DSA_SHA2_256F : PqcAlgorithm := 11.
Definition PQC_ALG_SLH_DSA_SHAKE_128S : PqcAlgorithm := 12.
Definition PQC_ALG_SLH_DSA_SHAKE_128F : PqcAlgorithm := 13.
Definition PQC_ALG_SLH_DSA_SHAKE_192S : PqcAlgorithm := 14.
Definition PQC_ALG_SLH_DSA_SHAKE_192F : PqcAlgorithm := 15.
Definition PQC_ALG_SLH_DSA_SHAKE_256S : PqcAlgorithm := 16.
Definition PQC_ALG_SLH_DSA_SHAKE_256F : PqcAlgorithm := 17.
Definition PQC_ALG_COUNT : PqcAlgorithm := 18.

Inductive PqcStatus :=
| PQC_SUCCESS
| PQC_ERROR
| PQC_ERROR_NOT_SUPPORTED
| PQC_ERROR_INVALID_PARAM
| PQC_ERROR_MEMORY
| PQC_ERROR_CRYPTO_FAILURE.

Inductive PqcAlgType := PQC_TYPE_KEM | PQC_TYPE_SIG.

#[export] Instance PqcAlgType_eq_dec : EqDecision PqcAlgType.
Proof. solve_decision. Defined.

Record PqcAlgorithmInfo := mkInfo {
  alg_id : PqcAlgorithm;
  name : string;
  oqs_name : string;
  type : PqcAlgType;
  nist_level : Z;
  public_key_len : nat;
  secret_key_len : nat;
  ciphertext_len : nat;
  shared_secret_len : nat;
  signature_len : nat
}.

Definition kem_row (a : Z) (n : string) (l : Z) : PqcAlgorithmInfo :=
  mkInfo a n n PQC_TYPE_KEM l 0 0 0 0 0.
Definition sig_row (a : Z) (n o : string) (l : Z) : PqcAlgorithmInfo :=
  mkInfo a n o PQC_TYPE_SIG l 0 0 0 0 0.

Definition pqc_algorithms_static : list PqcAlgorithmInfo := [
  kem_row PQC_ALG_ML_KEM_512 "ML-KEM-512" 1;
  kem_row PQC_ALG_ML_KEM_768 "ML-KEM-768" 3;
  kem_row PQC_ALG_ML_KEM_1024 "ML-KEM-1024" 5;
  sig_row PQC_ALG_ML_DSA_44 "ML-DSA-44" "ML-DSA-44" 2;
  sig_row PQC_ALG_ML_DSA_65 "ML-DSA-65" "ML-DSA-65" 3;
  sig_row PQC_ALG_ML_DSA_87 "ML-DSA-87" "ML-DSA-87" 5;
  sig_row PQC_ALG_SLH_DSA_SHA2_128S "SLH-DSA-SHA2-128s" "SLH-DSA-SHA2-128s-FIPS205" 1;
  sig_row PQC_ALG_SLH_DSA_SHA2_128F "SLH-DSA-SHA2-128f" "SLH-DSA-SHA2-128f-FIPS205" 1;
  sig_row PQC_ALG_SLH_DSA_SHA2_192S "SLH-DSA-SHA2-192s" "SLH-DSA-SHA2-192s-FIPS205" 3;
  sig_row PQC_ALG_SLH_DSA_SHA2_192F "SLH-DSA-SHA2-192f" "SLH-DSA-SHA2-192f-FIPS205" 3;
  sig_row PQC_ALG_SLH_DSA_SHA2_256S "SLH-DSA-SHA2-256s" "SLH-DSA-SHA2-256s-FIPS205" 5;
  sig_row PQC_ALG_SLH_DSA_SHA2_256F "SLH-DSA-SHA2-256f" "SLH-DSA-SHA2-256f-FIPS205" 5;
  sig_row PQC_ALG_SLH_DSA_SHAKE_128S "SLH-DSA-SHAKE-128s" "SLH-DSA-SHAKE-128s-FIPS205" 1;
  sig_row PQC_ALG_SLH_DSA_SHAKE_128F "SLH-DSA-SHAKE-128f" "SLH-DSA-SHAKE-128f-FIPS205" 1;
  sig_row PQC_ALG_SLH_DSA_SHAKE_192S "SLH-DSA-SHAKE-192s" "SLH-DSA-SHAKE-192s-FIPS205" 3;
  sig_row PQC_ALG_SLH_DSA_SHAKE_192F "SLH-DSA-SHAKE-192f" "SLH-DSA-SHAKE-192f-FIPS205" 3;
  sig_row PQC_ALG_SLH_DSA_SHAKE_256S "SLH-DSA-SHAKE-256s" "SLH-DSA-SHAKE-256s-FIPS205" 5;
  sig_row PQC_ALG_SLH_DSA_SHAKE_256F "SLH-DSA-SHAKE-256f" "SLH-DSA-SHAKE-256f-FIPS205" 5].

Record PqcStatCounters := mkCounters {
  kem_encaps_count : Z;
  kem_decaps_count : Z;
  sig_sign_count : Z;
  sig_verify_count : Z;
  tde_encryptions : Z;
  tde_decryptions : Z;
  key_cache_hits : Z;
  key_cache_misses : Z;
  wal_segments_signed : Z;
  encrypt_time_us : Z;
  sign_time_us : Z
}.

Definition zero_counters : PqcStatCounters := mkCounters 0 0 0 0 0 0 0 0 0 0 0.

(** The state of the layer: the environment, the process's registry, and the
    shared counters with this process's pointer to them. *)
Record pqc := mkPqc {
  p_env : env;
  pqc_initialized : bool;
  pqc_algorithms : list PqcAlgorithmInfo;
  stat_segment : option PqcStatCounters;
  stat_attached : bool
}.

Definition envL : lens pqc env :=
  Lens p_env (fun e p => mkPqc e (pqc_initialized p) (pqc_algorithms p)
                           (stat_segment p) (stat_attached p)).

#[export] Instance envL_laws : LensLaws envL.
Proof. split; intros; destruct s; reflexivity. Qed.

Definition pqc_stat_counters (p : pqc) : option PqcStatCounters :=
  if stat_attached p then stat_segment p else None.

Definition set_algorithms (l : list PqcAlgorithmInfo) (p : pqc) : pqc :=
  mkPqc (p_env p) (pqc_initialized p) l (stat_segment p) (stat_attached p).
Definition set_initialized (b : bool) (p : pqc) : pqc :=
  mkPqc (p_env p) b (pqc_algorithms p) (stat_segment p) (stat_attached p).
Definition set_stats (s : option PqcStatCounters) (a : bool) (p : pqc) : pqc :=
  mkPqc (p_env p) (pqc_initialized p) (pqc_algorithms p) s a.

(** ** Names *)

(** Case folding of the C locale: bytes above 127 are never upper case. *)
Definition fold_char (c : ascii) : Z :=
  let ch := Z.of_nat (nat_of_ascii c) in
  if (65 <=? ch) && (ch <=? 90) then ch + 32 else ch.

(** The difference the comparison of two strings stops at, 0 when it reaches
    both ends. *)
Fixpoint pg_strcasecmp (s1 s2 : string) : Z :=
  match s1, s2 with
  | EmptyString, EmptyString => 0
  | EmptyString, String c2 _ => 0 - fold_char c2
  | String c1 _, EmptyString => fold_char c1 - 0
  | String c1 s1', String c2 s2' =>
      if fold_char c1 =? fold_char c2 then pg_strcasecmp s1' s2'
      else fold_char c1 - fold_char c2
  end.

(** ** The registry *)

Definition pqc_get_algorithm_info (alg : PqcAlgorithm) : M pqc (option PqcAlgorithmInfo) :=
  if (alg <? 0) || (PQC_ALG_COUNT <=? alg) then ret None
  else gets (fun p => pqc_algorithms p !! Z.to_nat alg).

Definition pqc_algorithm_name (alg : PqcAlgorithm) : M pqc string :=
  let! info := pqc_get_algorithm_info alg in
  ret (match info with Some i => name i | None => "unknown"%string end).

(** The scan of the table; [None] is a NULL name. *)
Definition pqc_algorithm_from_name (nm : option string) : M pqc PqcAlgorithm :=
  match nm with
  | None => ret PQC_ALG_COUNT
  | Some n =>
      gets (fun p =>
        match find (fun i => pg_strcasecmp (name i) n =? 0) (pqc_algorithms p) with
        | Some i => alg_id i
        | None => PQC_ALG_COUNT
        end)
  end.

Definition is_type (t : PqcAlgType) (info : option PqcAlgorithmInfo) : bool :=
  match info with Some i => bool_decide (type i = t) | None => false end.

Definition pqc_algorithm_is_kem (alg : PqcAlgorithm) : M pqc bool :=
  let! info := pqc_get_algorithm_info alg in ret (is_type PQC_TYPE_KEM info).

Definition pqc_algorithm_is_sig (alg : PqcAlgorithm) : M pqc bool :=
  let! info := pqc_get_algorithm_info alg in ret (is_type PQC_TYPE_SIG info).

Section Init.
  Context `{Crypto}.

Definition pqc_populate_kem_info (info : PqcAlgorithmInfo) : M pqc PqcAlgorithmInfo :=
  match OQS_KEM_new (oqs_name info) with
  | None =>
      do! zoom envL (elog WARNING "liboqs does not support KEM algorithm") in
      ret info
  | Some kem =>
      ret (mkInfo (alg_id info) (name info) (oqs_name info) (type info) (nist_level info)
             (kem_length_public_key kem) (kem_length_secret_key kem)
             (kem_length_ciphertext kem) (kem_length_shared_secret kem)
             (signature_len info))
  end.

Definition pqc_populate_sig_info (info : PqcAlgorithmInfo) : M pqc PqcAlgorithmInfo :=
  match OQS_SIG_new (oqs_name info) with
  | None =>
      do! zoom envL
            (if alg_id info <? PQC_ALG_SLH_DSA_SHA2_128S
             then elog WARNING "liboqs does not support signature algorithm"
             else elog DEBUG1 "SLH-DSA algorithm not available in this liboqs build") in
      ret info
  | Some sig =>
      ret (mkInfo (alg_id info) (name info) (oqs_name info) (type info) (nist_level info)
             (sig_length_public_key sig) (sig_length_secret_key sig)
             (ciphertext_len info) (shared_secret_len info)
             (sig_length_signature sig))
  end.

Definition populate_info (info : PqcAlgorithmInfo) : M pqc PqcAlgorithmInfo :=
  match type info with
  | PQC_TYPE_KEM => pqc_populate_kem_info info
  | PQC_TYPE_SIG => pqc_populate_sig_info info
  end.

(** The loop over the table from index [i], each row written back. *)
Fixpoint populate_loop (todo i : nat) : M pqc unit :=
  match todo with
  | O => ret tt
  | S todo' =>
      let! row := gets (fun p => pqc_algorithms p !! i) in
      match row with
      | None => ret tt
      | Some info =>
          let! info' := populate_info info in
          do! modify (fun p => set_algorithms (<[i := info']> (pqc_algorithms p)) p) in
          populate_loop todo' (S i)
      end
  end.

Definition pqc_init : M pqc PqcStatus :=
  let! init := gets pqc_initialized in
  if init then ret PQC_SUCCESS
  else
    do! populate_loop (Z.to_nat PQC_ALG_COUNT) 0 in
    do! modify (set_initialized true) in
    do! zoom envL (elog LOG "Post-Quantum Cryptography initialized (liboqs)") in
    ret PQC_SUCCESS.
End Init.

Definition pqc_cleanup : M pqc unit :=
  let! init := gets pqc_initialized in
  if negb init then ret tt else modify (set_initialized false).

Definition pqc_is_available : M pqc bool := gets pqc_initialized.

(** The buffer [pqc_secure_free] hands to [pfree]: zeroes in either branch;
    a NULL pointer is left alone. *)
Definition pqc_secure_free (ptr : option bytes) (len : nat) : option bytes :=
  match ptr with
  | None => None
  | Some b => Some (zeros len ++ skipn len b)
  end.

(** ** The counters *)

(** One atomic counter: 64 bits, wrapping around. *)
Definition pg_atomic_fetch_add_u64 (old add : Z) : Z := u64 (old + add).

Definition bump (f : PqcStatCounters -> PqcStatCounters) : M pqc unit :=
  modify (fun p =>
    match pqc_stat_counters p with
    | Some c => set_stats (Some (f c)) true p
    | None => p
    end).

Definition pqc_stat_count_kem_encaps : M pqc unit :=
  bump (fun c => mkCounters (pg_atomic_fetch_add_u64 (kem_encaps_count c) 1)
    (kem_decaps_count c) (sig_sign_count c) (sig_verify_count c) (tde_encryptions c)
    (tde_decryptions c) (key_cache_hits c) (key_cache_misses c) (wal_segments_signed c)
    (encrypt_time_us c) (sign_time_us c)).

Definition pqc_stat_count_kem_decaps : M pqc unit :=
  bump (fun c => mkCounters (kem_encaps_count c)
    (pg_atomic_fetch_add_u64 (kem_decaps_count c) 1) (sig_sign_count c)
    (sig_verify_count c) (tde_encryptions c) (tde_decryptions c) (key_cache_hits c)
    (key_cache_misses c) (wal_segments_signed c) (encrypt_time_us c) (sign_time_us c)).

Definition pqc_stat_count_sig_sign : M pqc unit :=
  bump (fun c => mkCounters (kem_encaps_count c) (kem_decaps_count c)
    (pg_atomic_fetch_add_u64 (sig_sign_count c) 1) (sig_verify_count c)
    (tde_encryptions c) (tde_decryptions c) (key_cache_hits c) (key_cache_misses c)
    (wal_segments_signed c) (encrypt_time_us c) (sign_time_us c)).

Definition pqc_stat_count_sig_verify : M pqc unit :=
  bump (fun c => mkCounters (kem_encaps_count c) (kem_decaps_count c)
    (sig_sign_count c) (pg_atomic_fetch_add_u64 (sig_verify_count c) 1)
    (tde_encryptions c) (tde_decryptions c) (key_cache_hits c) (key_cache_misses c)
    (wal_segments_signed c) (encrypt_time_us c) (sign_time_us c)).

Definition pqc_stat_shmem_size : Z := MAXALIGN (11 * 8).

Definition pqc_stat_shmem_startup : M pqc unit :=
  modify (fun p =>
    match stat_segment p with
    | Some c => set_stats (Some c) true p
    | None => set_stats (Some zero_counters) true p
    end).

(** The row of the view pg_stat_pqc.  Averages and totals are rationals in
    milliseconds given as (numerator, denominator), 0/1 when the code returns
    0.0; the divisors wrap around at 64 bits as the code's sums do. *)
Record pqc_stat_row := mkStatRow {
  st_counts : list Z;
  st_avg_encrypt_ms : Z * Z;
  st_avg_sign_ms : Z * Z;
  st_total_encrypt_ms : Z * Z;
  st_total_sign_ms : Z * Z
}.

(** [Int64GetDatum] of a 64-bit counter: the SQL type is signed. *)
Definition int64 (x : Z) : Z := if x <? 2 ^ 63 then x else x - 2 ^ 64.

Definition avg_ms (time_us ops : Z) : Z * Z :=
  if 0 <? ops then (time_us, ops * 1000) else (0, 1).

Definition pg_stat_get_pqc : M pqc pqc_stat_row :=
  gets (fun p =>
    let c := match pqc_stat_counters p with Some c => c | None => zero_counters end in
    mkStatRow
      (map int64
        [kem_encaps_count c; kem_decaps_count c; sig_sign_count c; sig_verify_count c;
       tde_encryptions c; tde_decryptions c; key_cache_hits c; key_cache_misses c;
       wal_segments_signed c])
      (avg_ms (encrypt_time_us c) (u64 (tde_encryptions c + kem_encaps_count c)))
      (avg_ms (sign_time_us c) (u64 (sig_sign_count c + wal_segments_signed c)))
      (encrypt_time_us c, 1000)
      (sign_time_us c, 1000)).

Definition pg_stat_reset_pqc (superuser : bool) : M pqc unit :=
  if negb superuser then raise ERRCODE_INSUFFICIENT_PRIVILEGE
  else bump (fun _ => zero_counters).

(** ** Lemmas *)

Arguments pqc_get_algorithm_info alg p /.
Arguments pqc_algorithm_from_name nm p /.
Arguments bump f p /.
Arguments pqc_init {_} : simpl never.

(** What [pqc_init] never changes of a row. *)
Definition ident (i : PqcAlgorithmInfo) : Z * string * string * PqcAlgType * Z :=
  (alg_id i, name i, oqs_name i, type i, nist_level i).

(** The rows of the table are those of the source, sizes apart. *)
Definition registry_ok (p : pqc) : Prop :=
  ident <$> pqc_algorithms p = ident <$> pqc_algorithms_static.

Fixpoint no_nul (s : string) : bool :=
  match s with
  | EmptyString => true
  | String c s' => negb (fold_char c =? 0) && no_nul s'
  end.

Fixpoint fold_string (s : string) : list Z :=
  match s with
  | EmptyString => []
  | String c s' => fold_char c :: fold_string s'
  end.

Lemma pg_strcasecmp_refl s : pg_strcasecmp s s = 0.
Proof. induction s as [|c s IH]; cbn; [reflexivity|]. rewrite Z.eqb_refl. exact IH. Qed.

(** Two C strings equal to a third up to case are equal up to case. *)
Lemma pg_strcasecmp_common s1 s2 n :
  no_nul s1 = true -> no_nul s2 = true ->
  pg_strcasecmp s1 n = 0 -> pg_strcasecmp s2 n = 0 -> fold_string s1 = fold_string s2.
Proof.
  revert s1 s2. induction n as [|c n IH]; intros [|c1 s1] [|c2 s2]; cbn;
    rewrite ?andb_true_iff, ?negb_true_iff, ?Z.eqb_neq; intros H1 H2 E1 E2;
    try reflexivity; try lia.
  - destruct (Z.eqb_spec (fold_char c2) (fold_char c)); [|lia]. lia.
  - destruct (Z.eqb_spec (fold_char c1) (fold_char c)); [|lia]. lia.
  - destruct (Z.eqb_spec (fold_char c1) (fold_char c)); [|lia].
    destruct (Z.eqb_spec (fold_char c2) (fold_char c)); [|lia].
    rewrite (IH s1 s2) by tauto. congruence.
Qed.

Lemma registry_ok_row p i row :
  registry_ok p -> pqc_algorithms p !! i = Some row ->
  exists row0, pqc_algorithms_static !! i = Some row0 /\ ident row = ident row0.
Proof.
  intros Hok Hi. assert (Hf : (ident <$> pqc_algorithms p) !! i = Some (ident row))
    by (rewrite list_lookup_fmap, Hi; reflexivity).
  rewrite Hok, list_lookup_fmap in Hf.
  destruct (pqc_algorithms_static !! i) as [row0|]; [|discriminate].
  exists row0. cbn in Hf. split; congruence.
Qed.

Lemma registry_ok_length p : registry_ok p -> length (pqc_algorithms p) = 18%nat.
Proof.
  intros Hok. rewrite <- (length_fmap ident), Hok. reflexivity.
Qed.

(** Facts on the rows of the source, by inspection of the eighteen rows. *)
Lemma static_rows_distinct :
  forallb (fun p : nat * PqcAlgorithmInfo =>
    let '(i, r) := p in
    (alg_id r =? Z.of_nat i) && no_nul (name r) &&
    forallb (fun q : nat * PqcAlgorithmInfo =>
      let '(j, r') := q in
      (i =? j)%nat || negb (bytes_eqb (fold_string (name r)) (fold_string (name r'))))
      (imap pair pqc_algorithms_static)) (imap pair pqc_algorithms_static) = true.
Proof. vm_compute. reflexivity. Qed.

Lemma static_row i r :
  pqc_algorithms_static !! i = Some r ->
  alg_id r = Z.of_nat i /\ no_nul (name r) = true /\
  forall j r', pqc_algorithms_static !! j = Some r' ->
    fold_string (name r) = fold_string (name r') -> i = j.
Proof.
  intros Hi. pose proof static_rows_distinct as H. rewrite forallb_forall in H.
  assert (Hin : forall k q, pqc_algorithms_static !! k = Some q ->
    In (k, q) (imap pair pqc_algorithms_static)).
  { intros k q Hk. apply list_elem_of_In, list_elem_of_lookup. exists k.
    rewrite list_lookup_imap, Hk. reflexivity. }
  specialize (H _ (Hin _ _ Hi)). cbn beta iota in H.
  rewrite !andb_true_iff, Z.eqb_eq, forallb_forall in H. destruct H as [[Ha Hn] Hd].
  split; [exact Ha|]. split; [exact Hn|]. intros j r' Hj Heq.
  specialize (Hd _ (Hin _ _ Hj)). cbn beta iota in Hd. rewrite Heq in Hd.
  rewrite bytes_eqb_refl, orb_false_r in Hd. apply Nat.eqb_eq. exact Hd.
Qed.

Lemma find_unique {A} (f : A -> bool) l i x :
  l !! i = Some x -> f x = true ->
  (forall j y, l !! j = Some y -> f y = true -> j = i) -> find f l = Some x.
Proof.
  intros Hi Hx Huniq. destruct (find f l) as [y|] eqn:Hf.
  - apply find_some in Hf as [Hy Hfy]. apply list_elem_of_In, list_elem_of_lookup in Hy.
    destruct Hy as [j Hj]. rewrite (Huniq j y Hj Hfy) in Hj. congruence.
  - eapply find_none in Hf; [rewrite Hf in Hx; discriminate|].
    apply list_elem_of_In, list_elem_of_lookup. eauto.
Qed.

Lemma registry_name p i row :
  registry_ok p -> pqc_algorithms p !! i = Some row ->
  alg_id row = Z.of_nat i /\ no_nul (name row) = true /\
  forall j row', pqc_algorithms p !! j = Some row' ->
    fold_string (name row) = fold_string (name row') -> i = j.
Proof.
  intros Hok Hi. destruct (registry_ok_row p i row Hok Hi) as (r0 & H0 & Hid).
  destruct (static_row i r0 H0) as (Ha & Hn & Hd). injection Hid as Ei En _ _ _.
  repeat split; try congruence.
  intros j row' Hj Heq. destruct (registry_ok_row p j row' Hok Hj) as (r1 & H1 & Hid').
  injection Hid' as _ En' _ _ _. apply (Hd j r1 H1). congruence.
Qed.

(** ** [pqc_init] *)

Section InitLemmas.
  Context `{Crypto}.

(** The row with the sizes liboqs reports, unchanged when it has no such
    algorithm. *)
Definition filled (i : PqcAlgorithmInfo) : PqcAlgorithmInfo :=
  match type i, OQS_KEM_new (oqs_name i), OQS_SIG_new (oqs_name i) with
  | PQC_TYPE_KEM, Some k, _ =>
      mkInfo (alg_id i) (name i) (oqs_name i) PQC_TYPE_KEM (nist_level i)
        (kem_length_public_key k) (kem_length_secret_key k) (kem_length_ciphertext k)
        (kem_length_shared_secret k) (signature_len i)
  | PQC_TYPE_SIG, _, Some g =>
      mkInfo (alg_id i) (name i) (oqs_name i) PQC_TYPE_SIG (nist_level i)
        (sig_length_public_key g) (sig_length_secret_key g) (ciphertext_len i)
        (shared_secret_len i) (sig_length_signature g)
  | _, _, _ => i
  end.

Lemma ident_filled i : ident (filled i) = ident i.
Proof.
  unfold filled, ident. destruct (type i) eqn:Ht, (OQS_KEM_new (oqs_name i)),
    (OQS_SIG_new (oqs_name i)); cbn; rewrite ?Ht; reflexivity.
Qed.

(** Only the log of the environment changes. *)
Definition logs (e e' : env) : Prop := exists l, e' = set_log l e.

Lemma logs_refl e : logs e e.
Proof. exists (log e). destruct e; reflexivity. Qed.

Lemma logs_trans e1 e2 e3 : logs e1 e2 -> logs e2 e3 -> logs e1 e3.
Proof. intros [l ->] [l' ->]. exists l'. reflexivity. Qed.

Lemma logs_elog lv m e : logs e (snd (elog lv m e)).
Proof. cbn. eexists. reflexivity. Qed.

Lemma populate_info_run info p :
  exists e', populate_info info p = (Ok (filled info), over envL e' p) /\
    logs (p_env p) e'.
Proof.
  destruct p as [e ? ? ? ?].
  unfold populate_info, pqc_populate_kem_info, pqc_populate_sig_info, filled.
  destruct (type info) eqn:Ht.
  - destruct (OQS_KEM_new (oqs_name info)); cbn; rewrite ?Ht; eexists; (split; [reflexivity|]);
      first [apply logs_refl|eexists; reflexivity].
  - destruct (OQS_KEM_new (oqs_name info)), (OQS_SIG_new (oqs_name info)); cbn; try destruct (alg_id info <? _); cbn;
      eexists; (split; [reflexivity|]); first [apply logs_refl|eexists; reflexivity].
Qed.

Lemma populate_loop_run todo i p :
  (i + todo = length (pqc_algorithms p))%nat ->
  exists e', populate_loop todo i p =
    (Ok tt, set_algorithms (take i (pqc_algorithms p) ++
              (filled <$> drop i (pqc_algorithms p))) (over envL e' p)) /\
    logs (p_env p) e'.
Proof.
  revert i p. induction todo as [|todo IH]; intros i p Hlen.
  - exists (p_env p). split; [|apply logs_refl]. cbn.
    rewrite take_ge, drop_ge by lia. cbn. rewrite app_nil_r. destruct p; reflexivity.
  - destruct (lookup_lt_is_Some_2 (pqc_algorithms p) i) as [info Hi]; [lia|].
    cbn [populate_loop]. unfold bind, gets. rewrite Hi.
    destruct (populate_info_run info p) as (e1 & Hr & Hl). unfold bind in *. rewrite Hr.
    cbn [modify]. set (p1 := set_algorithms _ _).
    destruct (IH (S i) p1) as (e2 & Hr2 & Hl2).
    { unfold p1; cbn. rewrite length_insert. lia. }
    exists e2. rewrite Hr2. split; [|eapply logs_trans; [exact Hl|exact Hl2]].
    unfold p1, set_algorithms; cbn. do 2 f_equal.
    rewrite (take_S_r _ _ (filled info)) by (apply list_lookup_insert_eq; lia).
    rewrite take_insert_ge by lia. rewrite drop_insert_lt by lia.
    rewrite (drop_S _ _ _ Hi). rewrite <- app_assoc. reflexivity.
Qed.

Lemma pqc_init_run p :
  pqc_initialized p = false -> length (pqc_algorithms p) = 18%nat ->
  exists e', pqc_init p =
    (Ok PQC_SUCCESS, mkPqc e' true (filled <$> pqc_algorithms p)
                       (stat_segment p) (stat_attached p)) /\
    logs (p_env p) e'.
Proof.
  intros Hi Hlen. unfold pqc_init. unfold bind at 1; cbn [gets]. rewrite Hi.
  destruct (populate_loop_run 18 0 p) as (e1 & Hr & Hl); [lia|].
  change (Z.to_nat PQC_ALG_COUNT) with 18%nat. unfold bind at 1. rewrite Hr. cbn.
  eexists. split; [reflexivity|]. eapply logs_trans; [exact Hl|].
  eexists; reflexivity.
Qed.

Lemma pqc_init_registry_ok p : registry_ok p -> registry_ok (snd (pqc_init p)).
Proof.
  intros Hok. destruct (pqc_initialized p) eqn:Hi.
  - unfold pqc_init. cbn. rewrite Hi. exact Hok.
  - destruct (pqc_init_run p Hi (registry_ok_length p Hok)) as (e' & -> & _).
    unfold registry_ok in *. cbn [snd pqc_algorithms]. rewrite <- Hok.
    rewrite <- list_fmap_compose. apply list_fmap_ext. intros ? ? _. apply ident_filled.
Qed.
End InitLemmas.

(** What the constructors of contexts find in the table. *)
Lemma registry_get p alg row0 :
  registry_ok p -> 0 <= alg -> pqc_algorithms_static !! Z.to_nat alg = Some row0 ->
  exists row, pqc_get_algorithm_info alg p = (Ok (Some row), p) /\ ident row = ident row0.
Proof.
  intros Hok Hpos H0. pose proof (lookup_lt_Some _ _ _ H0) as Hlt.
  change (length pqc_algorithms_static) with 18%nat in Hlt.
  destruct (lookup_lt_is_Some_2 (pqc_algorithms p) (Z.to_nat alg)) as [row Hi].
  { rewrite (registry_ok_length p Hok). exact Hlt. }
  exists row. cbn. unfold PQC_ALG_COUNT.
  replace ((alg <? 0) || (18 <=? alg)) with false by lia. cbn. rewrite Hi.
  split; [reflexivity|]. destruct (registry_ok_row p _ _ Hok Hi) as (r & Hr & Hid).
  congruence.
Qed.

(** The name of a row, in any spelling, leads to the row. *)
Lemma from_name_run p alg row n :
  registry_ok p -> 0 <= alg -> pqc_algorithms p !! Z.to_nat alg = Some row ->
  pg_strcasecmp (name row) n = 0 -> pqc_algorithm_from_name (Some n) p = (Ok alg, p).
Proof.
  intros Hok Hpos Hi Hc. destruct (registry_name p _ _ Hok Hi) as (Ha & Hn & _).
  cbn. rewrite (find_unique _ _ (Z.to_nat alg) row Hi).
  - rewrite Ha. repeat f_equal. lia.
  - lia.
  - intros j r Hj Hcj. destruct (registry_name p j r Hok Hj) as (_ & Hnj & Hdj).
    apply (Hdj _ row Hi). apply (pg_strcasecmp_common _ _ n); auto; lia.
Qed.

(** The liboqs names of the table are those the interface speaks of. *)
Lemma static_oqs_name i r :
  pqc_algorithms_static !! i = Some r ->
  In (oqs_name r) (match type r with PQC_TYPE_KEM => kem_names | PQC_TYPE_SIG => sig_names end).
Proof.
  assert (H : Forall (fun r => In (oqs_name r)
    (match type r with PQC_TYPE_KEM => kem_names | PQC_TYPE_SIG => sig_names end))
    pqc_algorithms_static) by (repeat (constructor; [cbn; tauto|]); constructor).
  intros Hi. exact (Forall_lookup_1 _ _ _ _ H Hi).
Qed.

(** The states [pqc_init] leads to: the log grew and the table was filled. *)
Definition inited (p p' : pqc) : Prop :=
  logs (p_env p) (p_env p') /\ pqc_initialized p' = true /\ registry_ok p' /\
  stat_segment p' = stat_segment p /\ stat_attached p' = stat_attached p.

(** ** Properties *)

(** The state of a process before its first call of the layer. *)
Definition pqc_boot (e : env) (seg : option PqcStatCounters) (att : bool) : pqc :=
  mkPqc e false pqc_algorithms_static seg att.

(** The first [pqc_init] of a process succeeds, writes the
    sizes liboqs reports into every row (rows of algorithms liboqs does not
    have keep size 0), keeps the identity of the rows, and changes nothing else
    but the log; a second call changes nothing at all. *)
Theorem pqc_init_fills_registry `{Crypto} e seg att :
  exists e',
    let p' := mkPqc e' true (filled <$> pqc_algorithms_static) seg att in
    pqc_init (pqc_boot e seg att) = (Ok PQC_SUCCESS, p') /\
    logs e e' /\
    registry_ok p' /\
    pqc_init p' = (Ok PQC_SUCCESS, p').
Proof.
  destruct (pqc_init_run (pqc_boot e seg att) eq_refl eq_refl) as (e' & Hr & Hl).
  exists e'. cbv zeta. split; [exact Hr|]. split; [exact Hl|]. split; [|reflexivity].
  pose proof (pqc_init_registry_ok (pqc_boot e seg att) eq_refl) as Hok.
  rewrite Hr in Hok. exact Hok.
Qed.

(** Looking an algorithm up by name finds exactly the row whose
    name equals it up to ASCII case: the eighteen names are told apart, and any
    spelling in upper or lower case of the name of a row gives that row's
    number, the one [pqc_algorithm_name] prints. *)
Theorem algorithm_from_name_iff p alg row n :
  registry_ok p -> 0 <= alg -> pqc_algorithms p !! Z.to_nat alg = Some row ->
  pqc_algorithm_name alg p = (Ok (name row), p) /\
  (pqc_algorithm_from_name (Some n) p = (Ok alg, p) <-> pg_strcasecmp (name row) n = 0).
Proof.
  intros Hok Hpos Hi. destruct (registry_name p _ _ Hok Hi) as (Ha & Hn & Hd).
  assert (Hlt : alg < 18).
  { apply lookup_lt_Some in Hi. rewrite (registry_ok_length p Hok) in Hi. lia. }
  split.
  { unfold pqc_algorithm_name. cbn. unfold PQC_ALG_COUNT.
    replace ((alg <? 0) || (18 <=? alg)) with false by lia. cbn. rewrite Hi. reflexivity. }
  cbn. split.
  - destruct (find _ _) as [r|] eqn:Hf; [|intros [= E]; unfold PQC_ALG_COUNT in E; lia].
    intros [= E]. apply find_some in Hf as [Hin Hc].
    apply list_elem_of_In, list_elem_of_lookup in Hin as [j Hj].
    destruct (registry_name p j r Hok Hj) as (Hja & _).
    replace row with r; [lia|]. assert (j = Z.to_nat alg) by lia. congruence.
  - apply (from_name_run p alg row n Hok Hpos Hi).
Qed.

Definition env0 : env := mkEnv [] 0 ∅ ∅ ∅ ∅ [].

Lemma algorithm_from_name_iff_witness :
  pqc_algorithm_from_name (Some "ml-dsa-65"%string) (pqc_boot env0 None false)
  = (Ok PQC_ALG_ML_DSA_65, pqc_boot env0 None false).
Proof.
  eapply (algorithm_from_name_iff (pqc_boot env0 None false) PQC_ALG_ML_DSA_65
            (sig_row PQC_ALG_ML_DSA_65 "ML-DSA-65" "ML-DSA-65" 3)); vm_compute;
    try reflexivity; discriminate.
Defined.
