(* ===== verification/PqcKem.v ===== *)
(** * Key encapsulation (src/backend/crypto/pqc/pqc_kem.c)

    The wrappers over liboqs: a context carries the liboqs object, every call
    validates the lengths of its inputs, and successful encapsulations and
    decapsulations are counted. *)
From Stdlib Require Import ZArith Lia Bool String List.
From stdpp Require Import base gmap list strings.
From S2P Require Import Prelude CryptoIface Env KeyCache PqcRegistry.
Import ListNotations.
Local Open Scope Z_scope.
Local Open Scope pg_scope.

Record PqcKemContext := mkKemContext {
  oqs_kem : OQS_KEM;
  kem_alg : PqcAlgorithm
}.

Section Kem.
  Context `{Crypto}.

(** [pqc_init] where the layer is not yet initialised, as both constructors
    of contexts do it. *)
Definition ensure_pqc_init : M pqc unit :=
  let! avail := pqc_is_available in
  if avail then ret tt
  else
    let! st := pqc_init in
    match st with
    | PQC_SUCCESS => ret tt
    | _ => raise ERRCODE_SYSTEM_ERROR
    end.

Definition pqc_kem_new (alg : PqcAlgorithm) : M pqc PqcKemContext :=
  let! info := pqc_get_algorithm_info alg in
  match info with
  | Some i =>
      if negb (is_type PQC_TYPE_KEM info) then raise ERRCODE_INVALID_PARAMETER_VALUE
      else
        do! ensure_pqc_init in
        match OQS_KEM_new (oqs_name i) with
        | None => raise ERRCODE_EXTERNAL_ROUTINE_EXCEPTION
        | Some k => ret (mkKemContext k alg)
        end
  | None => raise ERRCODE_INVALID_PARAMETER_VALUE
  end.

(** Outputs are NULL ([None]) on failure. *)
Definition pqc_kem_keygen (ctx : option PqcKemContext)
    : M pqc (PqcStatus * option (bytes * bytes)) :=
  match ctx with
  | None => raise ERRCODE_INTERNAL_ERROR
  | Some c =>
      let! ok := zoom envL attempt in
      if ok then
        let! d := zoom envL next_draw in
        ret (PQC_SUCCESS, Some (OQS_KEM_keypair (oqs_kem c) d))
      else ret (PQC_ERROR_CRYPTO_FAILURE, None)
  end.

Definition pqc_kem_encaps (ctx : option PqcKemContext)
    (public_key : option bytes) (public_key_len : nat)
    : M pqc (PqcStatus * option (bytes * bytes)) :=
  match ctx, public_key with
  | None, _ => raise ERRCODE_INTERNAL_ERROR
  | Some _, None => raise ERRCODE_INVALID_PARAMETER_VALUE
  | Some c, Some pk =>
      if negb (public_key_len =? kem_length_public_key (oqs_kem c))%nat
      then raise ERRCODE_INVALID_PARAMETER_VALUE
      else
        let! ok := zoom envL attempt in
        if ok then
          let! d := zoom envL next_draw in
          do! pqc_stat_count_kem_encaps in
          ret (PQC_SUCCESS, Some (OQS_KEM_encaps (oqs_kem c) pk d))
        else ret (PQC_ERROR_CRYPTO_FAILURE, None)
  end.

Definition pqc_kem_decaps (ctx : option PqcKemContext)
    (ciphertext : option bytes) (ciphertext_len : nat)
    (secret_key : option bytes) (secret_key_len : nat)
    : M pqc (PqcStatus * option bytes) :=
  match ctx, ciphertext, secret_key with
  | None, _, _ => raise ERRCODE_INTERNAL_ERROR
  | Some c, Some ct, Some sk =>
      if negb (ciphertext_len =? kem_length_ciphertext (oqs_kem c))%nat
      then raise ERRCODE_INVALID_PARAMETER_VALUE
      else if negb (secret_key_len =? kem_length_secret_key (oqs_kem c))%nat
      then raise ERRCODE_INVALID_PARAMETER_VALUE
      else
        let! ok := zoom envL attempt in
        if ok then
          do! pqc_stat_count_kem_decaps in
          ret (PQC_SUCCESS, Some (OQS_KEM_decaps (oqs_kem c) ct sk))
        else ret (PQC_ERROR_CRYPTO_FAILURE, None)
  | Some _, _, _ => raise ERRCODE_INVALID_PARAMETER_VALUE
  end.

(** A size of a row of the right type, 0 otherwise. *)
Definition kem_size (f : PqcAlgorithmInfo -> nat) (alg : PqcAlgorithm) : M pqc nat :=
  let! info := pqc_get_algorithm_info alg in
  ret (match info with
       | Some i => if is_type PQC_TYPE_KEM info then f i else 0%nat
       | None => 0%nat
       end).

Definition pqc_kem_public_key_len := kem_size public_key_len.
Definition pqc_kem_secret_key_len := kem_size secret_key_len.
Definition pqc_kem_ciphertext_len := kem_size ciphertext_len.
Definition pqc_kem_shared_secret_len := kem_size shared_secret_len.
End Kem.

(** ** Lemmas *)

Section KemLemmas.
  Context `{Crypto}.

Lemma ensure_pqc_init_run p :
  registry_ok p -> exists p', ensure_pqc_init p = (Ok tt, p') /\ inited p p'.
Proof.
  intros Hok. unfold ensure_pqc_init, pqc_is_available.
  rewrite (bind_step _ _ p (pqc_initialized p) p) by reflexivity.
  destruct (pqc_initialized p) eqn:Hi.
  - exists p. split; [reflexivity|]. repeat split; auto using logs_refl.
  - destruct (pqc_init_run p Hi (registry_ok_length p Hok)) as (e' & Hr & Hl).
    pose proof (pqc_init_registry_ok p Hok) as Hok'. rewrite Hr in Hok'.
    eexists. rewrite (bind_step _ _ _ _ _ Hr). split; [reflexivity|]. repeat split; auto.
Qed.

Lemma pqc_kem_new_run p alg row0 k :
  registry_ok p -> 0 <= alg -> pqc_algorithms_static !! Z.to_nat alg = Some row0 ->
  type row0 = PQC_TYPE_KEM -> OQS_KEM_new (oqs_name row0) = Some k ->
  exists p', pqc_kem_new alg p = (Ok (mkKemContext k alg), p') /\ inited p p'.
Proof.
  intros Hok Hpos H0 Ht Hk.
  destruct (registry_get p alg row0 Hok Hpos H0) as (row & Hg & Hid).
  injection Hid as _ _ Ho Hty _.
  destruct (ensure_pqc_init_run p Hok) as (p' & Hi & Hp').
  exists p'. split; [|exact Hp']. unfold pqc_kem_new. rewrite (bind_step _ _ _ _ _ Hg).
  cbn [is_type]. rewrite bool_decide_eq_true_2 by congruence. cbn [negb].
  rewrite (bind_step _ _ _ _ _ Hi). rewrite Ho, Hk. reflexivity.
Qed.

(** A call whose table row is missing or of the other type is refused before
    anything happens. *)
Lemma pqc_kem_new_invalid p alg :
  (forall row, pqc_get_algorithm_info alg p = (Ok (Some row), p) -> type row = PQC_TYPE_SIG) ->
  pqc_kem_new alg p = (Err ERRCODE_INVALID_PARAMETER_VALUE, p).
Proof.
  intros Hsig. unfold pqc_kem_new.
  assert (Hg : exists o, pqc_get_algorithm_info alg p = (Ok o, p)).
  { unfold pqc_get_algorithm_info. destruct (_ || _); eexists; reflexivity. }
  destruct Hg as [[row|] Hg]; rewrite (bind_step _ _ _ _ _ Hg); [|reflexivity].
  cbn [is_type]. rewrite bool_decide_eq_false_2 by (rewrite (Hsig row Hg); discriminate).
  reflexivity.
Qed.
End KemLemmas.

(** ** Properties *)

Section KemProperties.
  Context `{CL : CryptoLaws}.

(** A party generates a key pair, a peer encapsulates to the public key and
    the party decapsulates: the two secrets, or [None] when liboqs failed. *)
Definition kem_session (alg : PqcAlgorithm) : M pqc (option (bytes * bytes)) :=
  let! ctx := pqc_kem_new alg in
  let! (_, keys) := pqc_kem_keygen (Some ctx) in
  match keys with
  | None => ret None
  | Some (pk, sk) =>
      let! (_, enc) := pqc_kem_encaps (Some ctx) (Some pk) (length pk) in
      match enc with
      | None => ret None
      | Some (ct, ss) =>
          let! (_, dec) := pqc_kem_decaps (Some ctx) (Some ct) (length ct)
                              (Some sk) (length sk) in
          ret (match dec with None => None | Some ss' => Some (ss, ss') end)
      end
  end.

Lemma keygen_run ctx p :
  exists r p', pqc_kem_keygen (Some ctx) p = (Ok r, p') /\
    (r = (PQC_ERROR_CRYPTO_FAILURE, None) \/
     exists d, r = (PQC_SUCCESS, Some (OQS_KEM_keypair (oqs_kem ctx) d))) /\
    (no_faults (p_env p) -> no_faults (p_env p') /\ snd r <> None).
Proof.
  unfold pqc_kem_keygen. destruct (zoom_attempt_run envL p) as (b & fs & Hr & Hnf).
  mrun Hr. destruct b; cbn; do 2 eexists; (split; [reflexivity|]).
  - split; [right; eexists; reflexivity|]. intros Hp. split; [|discriminate].
    destruct (Hnf Hp) as [_ ->]. reflexivity.
  - split; [left; reflexivity|]. intros Hp. destruct (Hnf Hp); discriminate.
Qed.

Lemma encaps_run ctx pk p :
  length pk = kem_length_public_key (oqs_kem ctx) ->
  exists r p', pqc_kem_encaps (Some ctx) (Some pk) (length pk) p = (Ok r, p') /\
    (r = (PQC_ERROR_CRYPTO_FAILURE, None) \/
     exists d, r = (PQC_SUCCESS, Some (OQS_KEM_encaps (oqs_kem ctx) pk d))) /\
    (no_faults (p_env p) -> no_faults (p_env p') /\ snd r <> None).
Proof.
  intros Hlen. unfold pqc_kem_encaps. rewrite Hlen, Nat.eqb_refl. cbn [negb].
  destruct (zoom_attempt_run envL p) as (b & fs & Hr & Hnf).
  mrun Hr. destruct b; [|cbn; do 2 eexists; (split; [reflexivity|])].
  - unfold pqc_stat_count_kem_encaps. cbn. do 2 eexists. split; [reflexivity|].
    split; [right; eexists; reflexivity|]. intros Hp. split; [|discriminate].
    destruct (Hnf Hp) as [_ ->]. destruct (pqc_stat_counters _); reflexivity.
  - split; [left; reflexivity|]. intros Hp. destruct (Hnf Hp); discriminate.
Qed.

Lemma decaps_run ctx ct sk p :
  length ct = kem_length_ciphertext (oqs_kem ctx) ->
  length sk = kem_length_secret_key (oqs_kem ctx) ->
  exists r p', pqc_kem_decaps (Some ctx) (Some ct) (length ct) (Some sk) (length sk) p
               = (Ok r, p') /\
    (r = (PQC_ERROR_CRYPTO_FAILURE, None) \/
     r = (PQC_SUCCESS, Some (OQS_KEM_decaps (oqs_kem ctx) ct sk))) /\
    (no_faults (p_env p) -> no_faults (p_env p') /\ snd r <> None).
Proof.
  intros Hct Hsk. unfold pqc_kem_decaps. rewrite Hct, Hsk, !Nat.eqb_refl. cbn [negb].
  destruct (zoom_attempt_run envL p) as (b & fs & Hr & Hnf).
  mrun Hr. destruct b; [|cbn; do 2 eexists; (split; [reflexivity|])].
  - unfold pqc_stat_count_kem_decaps. cbn. do 2 eexists. split; [reflexivity|].
    split; [right; reflexivity|]. intros Hp. split; [|discriminate].
    destruct (Hnf Hp) as [_ ->]. destruct (pqc_stat_counters _); reflexivity.
  - split; [left; reflexivity|]. intros Hp. destruct (Hnf Hp); discriminate.
Qed.

(** For each ML-KEM algorithm liboqs provides, in a process
    with an intact registry and however liboqs and the environment fail, a
    session of key generation, encapsulation and decapsulation raises no error:
    it either reports a liboqs failure or both parties hold the same secret of
    32 bytes; and it ends with the secret when no call fails. *)
Theorem kem_session_agrees p alg row0 k :
  registry_ok p -> 0 <= alg -> pqc_algorithms_static !! Z.to_nat alg = Some row0 ->
  type row0 = PQC_TYPE_KEM -> OQS_KEM_new (oqs_name row0) = Some k ->
  exists r p', kem_session alg p = (Ok r, p') /\
    (forall ss ss', r = Some (ss, ss') -> ss' = ss /\ length ss = 32%nat) /\
    (no_faults (p_env p) -> r <> None).
Proof.
  intros Hok Hpos H0 Ht Hk.
  assert (Hlaws : kem_laws k).
  { apply (KEM_laws (oqs_name row0)); [|exact Hk].
    pose proof (static_oqs_name _ _ H0) as Hin. rewrite Ht in Hin. exact Hin. }
  destruct (pqc_kem_new_run p alg row0 k) as (p1 & H1 & Hin1); auto.
  unfold kem_session. mrun H1.
  destruct (keygen_run (mkKemContext k alg) p1) as (r2 & p2 & H2 & Hr2 & Hnf2). mrun H2.
  assert (Hp1 : no_faults (p_env p) -> no_faults (p_env p1)).
  { destruct Hin1 as [[l ->] _]. auto. }
  destruct Hr2 as [->|[d ->]].
  { do 2 eexists. split; [reflexivity|]. split; [discriminate|].
    intros Hp. destruct (Hnf2 (Hp1 Hp)); contradiction. }
  cbv beta iota. cbn [oqs_kem].
  destruct (OQS_KEM_keypair k d) as [pk sk] eqn:Hkp.
  pose proof (kem_pk_length k Hlaws d) as Hpk. pose proof (kem_sk_length k Hlaws d) as Hsk.
  rewrite Hkp in Hpk, Hsk; cbn [fst snd] in Hpk, Hsk.
  destruct (encaps_run (mkKemContext k alg) pk p2 Hpk) as (r3 & p3 & H3 & Hr3 & Hnf3).
  mrun H3. destruct Hr3 as [->|[d' ->]].
  { do 2 eexists. split; [reflexivity|]. split; [discriminate|].
    intros Hp. destruct (Hnf3 (proj1 (Hnf2 (Hp1 Hp)))); contradiction. }
  cbn [oqs_kem]. destruct (OQS_KEM_encaps k pk d') as [ct ss] eqn:Hec.
  pose proof (kem_ct_length k Hlaws pk d') as Hct. pose proof (kem_ss_length k Hlaws pk d') as Hss.
  rewrite Hec in Hct, Hss; cbn [fst snd] in Hct, Hss.
  destruct (decaps_run (mkKemContext k alg) ct sk p3 Hct Hsk) as (r4 & p4 & H4 & Hr4 & Hnf4).
  mrun H4. destruct Hr4 as [ -> | -> ].
  { do 2 eexists. split; [reflexivity|]. split; [discriminate|]. intros Hp.
    destruct (Hnf4 (proj1 (Hnf3 (proj1 (Hnf2 (Hp1 Hp)))))); contradiction. }
  do 2 eexists. split; [reflexivity|]. split; [|discriminate].
  intros s1 s2 [= <- <-]. pose proof (kem_correct k Hlaws d d') as Hc.
  rewrite Hkp, Hec in Hc. split; [exact Hc|]. rewrite Hss. apply kem_ss_is_32; auto.
Qed.
End KemProperties.

Import Toy.

Lemma kem_session_agrees_witness :
  exists r p', kem_session PQC_ALG_ML_KEM_768 (pqc_boot env0 None false) = (Ok r, p') /\
    r <> None.
Proof.
  destruct (kem_session_agrees (pqc_boot env0 None false) PQC_ALG_ML_KEM_768
              (kem_row PQC_ALG_ML_KEM_768 "ML-KEM-768" 3) (Toy.toy_kem 8 12 10))
    as (r & p' & Hr & _ & Hn); [reflexivity|discriminate|reflexivity..|].
  exists r, p'. split; [exact Hr|apply Hn; reflexivity].
Defined.
