(* ===== verification/PqcSig.v ===== *)
(** * Signatures (src/backend/crypto/pqc/pqc_sig.c)

    The signature wrappers over liboqs, in the same shape as the key
    encapsulation ones: validated lengths, counted successes. *)
From Stdlib Require Import ZArith Lia Bool String List.
From stdpp Require Import base gmap list strings.
From S2P Require Import Prelude CryptoIface Env KeyCache PqcRegistry PqcKem.
Import ListNotations.
Local Open Scope Z_scope.
Local Open Scope pg_scope.

Record PqcSigContext := mkSigContext {
  oqs_sig : OQS_SIG;
  sig_alg : PqcAlgorithm
}.

Section Sig.
  Context `{Crypto}.

Definition pqc_sig_new (alg : PqcAlgorithm) : M pqc PqcSigContext :=
  let! info := pqc_get_algorithm_info alg in
  match info with
  | Some i =>
      if negb (is_type PQC_TYPE_SIG info) then raise ERRCODE_INVALID_PARAMETER_VALUE
      else
        do! ensure_pqc_init in
        match OQS_SIG_new (oqs_name i) with
        | None => raise ERRCODE_EXTERNAL_ROUTINE_EXCEPTION
        | Some g => ret (mkSigContext g alg)
        end
  | None => raise ERRCODE_INVALID_PARAMETER_VALUE
  end.

Definition pqc_sig_keygen (ctx : option PqcSigContext)
    : M pqc (PqcStatus * option (bytes * bytes)) :=
  match ctx with
  | None => raise ERRCODE_INTERNAL_ERROR
  | Some c =>
      let! ok := zoom envL attempt in
      if ok then
        let! d := zoom envL next_draw in
        ret (PQC_SUCCESS, Some (OQS_SIG_keypair (oqs_sig c) d))
      else ret (PQC_ERROR_CRYPTO_FAILURE, None)
  end.

(** [message == NULL && message_len > 0] *)
Definition null_message (message : option bytes) (message_len : nat) : bool :=
  match message with None => (0 <? message_len)%nat | Some _ => false end.

Definition the_message (message : option bytes) (message_len : nat) : bytes :=
  match message with None => [] | Some m => firstn message_len m end.

Definition pqc_sig_sign (ctx : option PqcSigContext)
    (message : option bytes) (message_len : nat)
    (secret_key : option bytes) (secret_key_len : nat)
    : M pqc (PqcStatus * option bytes) :=
  match ctx with
  | None => raise ERRCODE_INTERNAL_ERROR
  | Some c =>
      if null_message message message_len then raise ERRCODE_INVALID_PARAMETER_VALUE
      else if negb (secret_key_len =? sig_length_secret_key (oqs_sig c))%nat
      then raise ERRCODE_INVALID_PARAMETER_VALUE
      else
        match secret_key with
        | None => fatal   (* liboqs reads through the NULL pointer *)
        | Some sk =>
            let! ok := zoom envL attempt in
            if ok then
              let! d := zoom envL next_draw in
              do! pqc_stat_count_sig_sign in
              ret (PQC_SUCCESS,
                   Some (OQS_SIG_sign (oqs_sig c) (the_message message message_len) sk d))
            else ret (PQC_ERROR_CRYPTO_FAILURE, None)
        end
  end.

Definition pqc_sig_verify (ctx : option PqcSigContext)
    (message : option bytes) (message_len : nat)
    (signature : bytes) (public_key : option bytes) (public_key_len : nat)
    : M pqc PqcStatus :=
  match ctx with
  | None => raise ERRCODE_INTERNAL_ERROR
  | Some c =>
      if null_message message message_len then raise ERRCODE_INVALID_PARAMETER_VALUE
      else if negb (public_key_len =? sig_length_public_key (oqs_sig c))%nat
      then raise ERRCODE_INVALID_PARAMETER_VALUE
      else
        match public_key with
        | None => fatal   (* liboqs reads through the NULL pointer *)
        | Some pk =>
            if negb (OQS_SIG_verify (oqs_sig c) (the_message message message_len) signature pk)
            then ret PQC_ERROR_CRYPTO_FAILURE
            else do! pqc_stat_count_sig_verify in ret PQC_SUCCESS
        end
  end.

Definition sig_size (f : PqcAlgorithmInfo -> nat) (alg : PqcAlgorithm) : M pqc nat :=
  let! info := pqc_get_algorithm_info alg in
  ret (match info with
       | Some i => if is_type PQC_TYPE_SIG info then f i else 0%nat
       | None => 0%nat
       end).

Definition pqc_sig_public_key_len := sig_size public_key_len.
Definition pqc_sig_secret_key_len := sig_size secret_key_len.
Definition pqc_sig_max_signature_len := sig_size signature_len.
End Sig.

(** ** Lemmas *)

Section SigLemmas.
  Context `{Crypto}.

Lemma pqc_sig_new_run p alg row0 g :
  registry_ok p -> 0 <= alg -> pqc_algorithms_static !! Z.to_nat alg = Some row0 ->
  type row0 = PQC_TYPE_SIG -> OQS_SIG_new (oqs_name row0) = Some g ->
  exists p', pqc_sig_new alg p = (Ok (mkSigContext g alg), p') /\ inited p p'.
Proof.
  intros Hok Hpos H0 Ht Hk.
  destruct (registry_get p alg row0 Hok Hpos H0) as (row & Hg & Hid).
  injection Hid as _ _ Ho Hty _.
  destruct (ensure_pqc_init_run p Hok) as (p' & Hi & Hp').
  exists p'. split; [|exact Hp']. unfold pqc_sig_new. mrun Hg.
  cbn [is_type]. rewrite bool_decide_eq_true_2 by congruence. cbn [negb].
  mrun Hi. rewrite Ho, Hk. reflexivity.
Qed.

Lemma pqc_sig_new_missing p alg row0 :
  registry_ok p -> 0 <= alg -> pqc_algorithms_static !! Z.to_nat alg = Some row0 ->
  type row0 = PQC_TYPE_SIG -> OQS_SIG_new (oqs_name row0) = None ->
  exists p', pqc_sig_new alg p = (Err ERRCODE_EXTERNAL_ROUTINE_EXCEPTION, p') /\ inited p p'.
Proof.
  intros Hok Hpos H0 Ht Hk.
  destruct (registry_get p alg row0 Hok Hpos H0) as (row & Hg & Hid).
  injection Hid as _ _ Ho Hty _.
  destruct (ensure_pqc_init_run p Hok) as (p' & Hi & Hp').
  exists p'. split; [|exact Hp']. unfold pqc_sig_new. mrun Hg.
  cbn [is_type]. rewrite bool_decide_eq_true_2 by congruence. cbn [negb].
  mrun Hi. rewrite Ho, Hk. reflexivity.
Qed.

Lemma the_message_all m : the_message (Some m) (length m) = m.
Proof. apply firstn_all. Qed.

(** The effect of a call on everything but the counters. *)
Definition same_keys (p p' : pqc) : Prop :=
  pqc_initialized p' = pqc_initialized p /\ pqc_algorithms p' = pqc_algorithms p /\
  files (p_env p') = files (p_env p).

Lemma sig_keygen_run ctx p :
  exists r p', pqc_sig_keygen (Some ctx) p = (Ok r, p') /\
    (r = (PQC_ERROR_CRYPTO_FAILURE, None) \/
     exists d, r = (PQC_SUCCESS, Some (OQS_SIG_keypair (oqs_sig ctx) d))) /\
    same_keys p p' /\
    (no_faults (p_env p) -> no_faults (p_env p') /\ snd r <> None).
Proof.
  unfold pqc_sig_keygen. destruct (zoom_attempt_run envL p) as (b & fs & Hr & Hnf).
  mrun Hr. destruct b; cbn; do 2 eexists; (split; [reflexivity|]).
  - split; [right; eexists; reflexivity|]. split; [repeat split|].
    intros Hp. split; [|discriminate]. destruct (Hnf Hp) as [_ ->]. reflexivity.
  - split; [left; reflexivity|]. split; [repeat split|].
    intros Hp. destruct (Hnf Hp); discriminate.
Qed.

Lemma sign_run ctx m sk p :
  length sk = sig_length_secret_key (oqs_sig ctx) ->
  exists r p', pqc_sig_sign (Some ctx) (Some m) (length m) (Some sk) (length sk) p = (Ok r, p') /\
    (r = (PQC_ERROR_CRYPTO_FAILURE, None) \/
     exists d, r = (PQC_SUCCESS, Some (OQS_SIG_sign (oqs_sig ctx) m sk d))) /\
    same_keys p p' /\
    (no_faults (p_env p) -> no_faults (p_env p') /\ snd r <> None).
Proof.
  intros Hlen. unfold pqc_sig_sign. cbn [null_message].
  rewrite the_message_all, Hlen, Nat.eqb_refl. cbn [negb].
  destruct (zoom_attempt_run envL p) as (b & fs & Hr & Hnf).
  mrun Hr. destruct b; [|cbn; do 2 eexists; (split; [reflexivity|])].
  - unfold pqc_stat_count_sig_sign. cbn. do 2 eexists. split; [reflexivity|].
    split; [right; eexists; reflexivity|]. unfold same_keys.
    destruct (pqc_stat_counters _); (split; [repeat split|]);
      intros Hp; (split; [|discriminate]); destruct (Hnf Hp) as [_ ->]; reflexivity.
  - split; [left; reflexivity|]. split; [repeat split|].
    intros Hp. destruct (Hnf Hp); discriminate.
Qed.

Lemma verify_run ctx m sg pk p :
  length pk = sig_length_public_key (oqs_sig ctx) ->
  exists p', pqc_sig_verify (Some ctx) (Some m) (length m) sg (Some pk) (length pk) p
    = (Ok (if OQS_SIG_verify (oqs_sig ctx) m sg pk
           then PQC_SUCCESS else PQC_ERROR_CRYPTO_FAILURE), p') /\
    same_keys p p' /\ p_env p' = p_env p.
Proof.
  intros Hlen. unfold pqc_sig_verify. cbn [null_message].
  rewrite the_message_all, Hlen, Nat.eqb_refl. cbn [negb].
  destruct (OQS_SIG_verify _ _ _ _); cbn [negb].
  - unfold pqc_stat_count_sig_verify. cbn. eexists. split; [reflexivity|].
    unfold same_keys. destruct (pqc_stat_counters p); repeat split.
  - eexists. split; [reflexivity|]. repeat split.
Qed.
End SigLemmas.

(** ** Properties *)

Section SigProperties.
  Context `{CL : CryptoLaws}.

(** Key generation, a signature over [m], and its verification over [m']:
    the status of the verification, or [None] when liboqs failed. *)
Definition sig_session (alg : PqcAlgorithm) (m m' : bytes)
    : M pqc (option (bytes * bytes * PqcStatus)) :=
  let! ctx := pqc_sig_new alg in
  let! (_, keys) := pqc_sig_keygen (Some ctx) in
  match keys with
  | None => ret None
  | Some (pk, sk) =>
      let! (_, sg) := pqc_sig_sign (Some ctx) (Some m) (length m) (Some sk) (length sk) in
      match sg with
      | None => ret None
      | Some s =>
          let! st := pqc_sig_verify (Some ctx) (Some m') (length m') s (Some pk) (length pk) in
          ret (Some (pk, s, st))
      end
  end.

(** For each signature algorithm liboqs provides, in a process
    with an intact registry and however liboqs fails, generating keys, signing
    and verifying raises no error.  The verification answers what liboqs
    answers for that message and signature; for the signed message it is
    success; the signature fits the buffer of the algorithm; and the session
    completes when no call fails. *)
Theorem sig_session_verifies p alg row0 g m m' :
  registry_ok p -> 0 <= alg -> pqc_algorithms_static !! Z.to_nat alg = Some row0 ->
  type row0 = PQC_TYPE_SIG -> OQS_SIG_new (oqs_name row0) = Some g ->
  exists r p', sig_session alg m m' p = (Ok r, p') /\
    (forall pk s st, r = Some (pk, s, st) ->
       st = (if OQS_SIG_verify g m' s pk then PQC_SUCCESS else PQC_ERROR_CRYPTO_FAILURE) /\
       (m' = m -> st = PQC_SUCCESS) /\
       (length s <= sig_length_signature g)%nat) /\
    (no_faults (p_env p) -> r <> None).
Proof.
  intros Hok Hpos H0 Ht Hk.
  assert (Hlaws : sig_laws g).
  { apply (SIG_laws (oqs_name row0)); [|exact Hk].
    pose proof (static_oqs_name _ _ H0) as Hin. rewrite Ht in Hin. exact Hin. }
  destruct (pqc_sig_new_run p alg row0 g) as (p1 & H1 & Hin1); auto.
  unfold sig_session. mrun H1.
  destruct (sig_keygen_run (mkSigContext g alg) p1) as (r2 & p2 & H2 & Hr2 & _ & Hnf2). mrun H2.
  assert (Hp1 : no_faults (p_env p) -> no_faults (p_env p1)).
  { destruct Hin1 as [[l ->] _]. auto. }
  destruct Hr2 as [->|[d ->]].
  { do 2 eexists. split; [reflexivity|]. split; [discriminate|].
    intros Hp. destruct (Hnf2 (Hp1 Hp)); contradiction. }
  cbn [oqs_sig]. destruct (OQS_SIG_keypair g d) as [pk sk] eqn:Hkp.
  pose proof (sig_pk_length g Hlaws d) as Hpk. pose proof (sig_sk_length g Hlaws d) as Hsk.
  rewrite Hkp in Hpk, Hsk; cbn [fst snd] in Hpk, Hsk.
  destruct (sign_run (mkSigContext g alg) m sk p2 Hsk) as (r3 & p3 & H3 & Hr3 & _ & Hnf3).
  mrun H3. destruct Hr3 as [->|[d' ->]].
  { do 2 eexists. split; [reflexivity|]. split; [discriminate|].
    intros Hp. destruct (Hnf3 (proj1 (Hnf2 (Hp1 Hp)))); contradiction. }
  cbn [oqs_sig]. set (s := OQS_SIG_sign g m sk d').
  destruct (verify_run (mkSigContext g alg) m' s pk p3 Hpk) as (p4 & H4 & _).
  mrun H4. do 2 eexists. split; [reflexivity|]. split; [|discriminate].
  intros pk0 s0 st [= <- <- <-]. cbn [oqs_sig]. split; [reflexivity|]. split.
  - intros ->. pose proof (sig_correct g Hlaws m d d') as Hc. rewrite Hkp in Hc.
    fold s in Hc. rewrite Hc. reflexivity.
  - apply (sig_length_bound g Hlaws).
Qed.
End SigProperties.

Import Toy.

Lemma sig_session_verifies_witness :
  exists r p', sig_session PQC_ALG_ML_DSA_65 [1; 2; 3] [1; 2; 3] (pqc_boot env0 None false)
               = (Ok r, p') /\ r <> None.
Proof.
  destruct (sig_session_verifies (pqc_boot env0 None false) PQC_ALG_ML_DSA_65
              (sig_row PQC_ALG_ML_DSA_65 "ML-DSA-65" "ML-DSA-65" 3) (Toy.toy_sig 6 7 20)
              [1; 2; 3] [1; 2; 3])
    as (r & p' & Hr & _ & Hn); [reflexivity|discriminate|reflexivity..|].
  exists r, p'. split; [exact Hr|apply Hn; reflexivity].
Defined.
