(* ===== verification/Server.v ===== *)
(** * The state of a server process

    The static variables of the modules that follow, the configuration they
    read, and the parts they share, as one record with a lens per part. *)
From Stdlib Require Import ZArith Lia Bool String List.
From stdpp Require Import base gmap list strings.
From S2P Require Import Prelude CryptoIface Env KeyCache PqcRegistry.
Import ListNotations.
Local Open Scope Z_scope.

(** Configuration parameters; [None] is a NULL string. *)
Record guc := mkGuc {
  DataDir : string;
  tde_enabled : bool;
  tde_key_provider : Z;
  tde_key_file : option string;
  tde_key_command : option string;
  wal_pqc_signing_algorithm_string : option string;
  wal_pqc_key_path : option string;
  wal_pqc_verify_on_receive : bool
}.

(** Static variables of tde_keymanage.c. *)
Record master_state := mkMaster {
  MasterKey : bytes;
  MasterKeyLoaded : bool;
  MasterKeyExitRegistered : bool
}.

(** Static variables of pqc_wal_keys.c, and the parameter [wal_pqc_signing]
    which that file also assigns.  A length is kept apart from its pointer, as
    in the code. *)
Record wal_state := mkWalState {
  wal_pqc_signing : bool;
  wal_secret_key : option bytes;
  wal_secret_key_len : nat;
  wal_public_key : option bytes;
  wal_public_key_len : nat;
  wal_sig_algorithm : PqcAlgorithm;
  wal_keys_loaded : bool
}.

(** [pqc_sign_queue] of xlog.c: both arrays have eight elements. *)
Record sign_queue := mkQueue {
  q_count : nat;
  q_segno : list Z;
  q_tli : list Z
}.

Record server := mkServer {
  sv_pqc : pqc;
  sv_guc : guc;
  sv_keys : shmem;
  sv_master : master_state;
  sv_wal : wal_state;
  sv_queue : sign_queue
}.

Definition pqcL : lens server pqc :=
  Lens sv_pqc (fun x s => mkServer x (sv_guc s) (sv_keys s) (sv_master s) (sv_wal s) (sv_queue s)).
Definition keysL : lens server shmem :=
  Lens sv_keys (fun x s => mkServer (sv_pqc s) (sv_guc s) x (sv_master s) (sv_wal s) (sv_queue s)).
Definition masterL : lens server master_state :=
  Lens sv_master (fun x s => mkServer (sv_pqc s) (sv_guc s) (sv_keys s) x (sv_wal s) (sv_queue s)).
Definition walL : lens server wal_state :=
  Lens sv_wal (fun x s => mkServer (sv_pqc s) (sv_guc s) (sv_keys s) (sv_master s) x (sv_queue s)).
Definition queueL : lens server sign_queue :=
  Lens sv_queue (fun x s => mkServer (sv_pqc s) (sv_guc s) (sv_keys s) (sv_master s) (sv_wal s) x).

(** The environment of the process. *)
Definition senvL : lens server env :=
  Lens (fun s => p_env (sv_pqc s))
       (fun e s => over pqcL (over envL e (sv_pqc s)) s).

#[export] Instance pqcL_laws : LensLaws pqcL.
Proof. split; intros; destruct s; reflexivity. Qed.
#[export] Instance keysL_laws : LensLaws keysL.
Proof. split; intros; destruct s; reflexivity. Qed.
#[export] Instance masterL_laws : LensLaws masterL.
Proof. split; intros; destruct s; reflexivity. Qed.
#[export] Instance walL_laws : LensLaws walL.
Proof. split; intros; destruct s; reflexivity. Qed.
#[export] Instance queueL_laws : LensLaws queueL.
Proof. split; intros; destruct s; reflexivity. Qed.
#[export] Instance senvL_laws : LensLaws senvL.
Proof. split; intros; destruct s as [[] ? ? ? ? ?]; reflexivity. Qed.

Definition sv_env (s : server) : env := view senvL s.

(** A process of a server that has not used any of the modules. *)
Definition server_boot (g : guc) (e : env) : server :=
  mkServer (pqc_boot e None false) g boot
    (mkMaster (zeros 32) false false)
    (mkWalState false None 0 None 0 PQC_ALG_ML_DSA_65 false)
    (mkQueue 0 (repeat 0 8) (repeat 0 8)).

(** A server with a key for tablespace 5 (and for the WAL, tablespace 0), on
    which witnesses run. *)
Definition sample_guc : guc :=
  mkGuc "/pgdata" true 0 None None (Some "ML-DSA-65"%string) (Some "/keys"%string) true.

Definition sample_keys : shmem :=
  snd (tde_keycache_insert (sample_entry 0 true)
        (snd (tde_keycache_insert (sample_entry 5 true)
                (snd (tde_keycache_shmem_init boot))))).

Definition sample_server : server := over keysL sample_keys (server_boot sample_guc env0).

Lemma sample_keys_reachable : kc_reachable sample_keys.
Proof.
  unfold sample_keys. eapply reach_step; [eapply reach_step; [eapply reach_step;
    [apply reach_boot|eapply kc_shmem_init; reflexivity]|]|].
  - eapply (kc_insert _ (sample_entry 5 true)); [reflexivity|].
    rewrite <- surjective_pairing. reflexivity.
  - eapply (kc_insert _ (sample_entry 0 true)); [reflexivity|].
    rewrite <- surjective_pairing. reflexivity.
Qed.
