(* ===== verification/TdePage.v ===== *)
(** * Data page encryption (src/backend/crypto/tde/tde_page.c and
    [tde_derive_page_iv] of tde_keymanage.c)

    A page keeps its 24-byte header in cleartext and has the rest encrypted in
    place with AES-256-CTR under the key of its tablespace and an IV derived
    from the identity of the page.  The state is the server and the page
    buffer: what a failing call has already written to the buffer stays. *)
From Stdlib Require Import ZArith Lia Bool String List.
From stdpp Require Import base gmap list strings.
From S2P Require Import Prelude CryptoIface Env KeyCache PqcRegistry Server.
Import ListNotations.
Local Open Scope Z_scope.
Local Open Scope pg_scope.

Definition TDE_IV_LEN : nat := 16.
Definition TDE_PAGE_HEADER_SIZE : nat := 24.
Definition TDE_PAGE_HKDF_LABEL : bytes := bytes_of_string "FortressQL-TDE-Page-IV-v1".

(** The identity of a page: RelFileLocator, fork and block. *)
Record page_id := mkPageId {
  pg_spcOid : Z;
  pg_dbOid : Z;
  pg_relNumber : Z;
  pg_forkNum : Z;
  pg_blockNum : Z
}.

(** The HKDF info parameter: each field is copied in memory order. *)
Definition page_info (id : page_id) : bytes :=
  le_bytes 4 (pg_spcOid id) ++ le_bytes 4 (pg_dbOid id) ++
  le_bytes 4 (pg_relNumber id) ++ le_bytes 4 (pg_forkNum id) ++
  le_bytes 4 (pg_blockNum id).

Section Page.
  Context `{Crypto}.

Definition page_iv (tdek : bytes) (id : page_id) : bytes :=
  HKDF_SHA256 TDE_PAGE_HKDF_LABEL tdek (page_info id) TDE_IV_LEN.

(** Context allocation, then the six calls of the derivation. *)
Definition tde_derive_page_iv (tdek : bytes) (id : page_id) : M env bytes :=
  let! pctx := attempt in
  if negb pctx then raise ERRCODE_OUT_OF_MEMORY
  else
    let! ok := attempts 6 in
    if negb ok then raise ERRCODE_INTERNAL_ERROR
    else ret (page_iv tdek id).

Definition pkeysL : lens (server * bytes) shmem := composeL fstL keysL.
Definition penvL : lens (server * bytes) env := composeL fstL senvL.

(** The page after [EVP_EncryptUpdate] over its payload. *)
Definition crypt_payload (tdek : bytes) (id : page_id) (page : bytes) : bytes :=
  firstn TDE_PAGE_HEADER_SIZE page ++
  ctr_crypt tdek (page_iv tdek id) (skipn TDE_PAGE_HEADER_SIZE page).

Definition tde_page_crypt (id : page_id) : M (server * bytes) unit :=
  let! page := gets snd in
  if (length page <=? TDE_PAGE_HEADER_SIZE)%nat then raise ERRCODE_DATA_CORRUPTED
  else
    let! found := zoom pkeysL (tde_keycache_lookup (pg_spcOid id)) in
    match found with
    | None => raise ERRCODE_INTERNAL_ERROR
    | Some entry =>
        let! iv := zoom penvL (tde_derive_page_iv (key entry) id) in
        let! ctx := zoom penvL attempt in
        if negb ctx then raise ERRCODE_OUT_OF_MEMORY
        else
          let! init := zoom penvL attempt in
          if negb init then raise ERRCODE_INTERNAL_ERROR
          else
            let! update := zoom penvL attempt in
            if negb update then raise ERRCODE_INTERNAL_ERROR
            else
              do! zoom sndL (modify (fun pg =>
                    firstn TDE_PAGE_HEADER_SIZE pg ++
                    ctr_crypt (key entry) iv (skipn TDE_PAGE_HEADER_SIZE pg))) in
              let! final := zoom penvL attempt in
              if negb final then raise ERRCODE_INTERNAL_ERROR else ret tt
    end.

(** [ereport(PANIC)] in the handler: the process ends. *)
Definition tde_encrypt_page (id : page_id) : M (server * bytes) unit :=
  pg_try (tde_page_crypt id)
    (fun _ => do! zoom penvL (elog ERROR_REPORT "TDE: page encryption error") in fatal).

Definition tde_decrypt_page (id : page_id) : M (server * bytes) unit :=
  pg_try (tde_page_crypt id)
    (fun _ =>
       do! zoom penvL (elog ERROR_REPORT "TDE: page decryption error") in
       zoom penvL (elog WARNING "TDE: decryption failed, returning page as-is")).
End Page.

(** ** Lemmas *)

Arguments tde_derive_page_iv {_} tdek id e /.
Arguments tde_page_crypt {_} id x : simpl never.

Section PageLemmas.
  Context `{Crypto}.

(** A derivation makes calls and returns the IV or an error. *)
Lemma derive_page_iv_run {S} (l : lens S env) `{!LensLaws l} tdek id s :
  exists fs o, zoom l (tde_derive_page_iv tdek id) s = (o, burn l fs s) /\
    (o = Ok (page_iv tdek id) \/ exists e, o = Err e) /\
    (no_faults (view l s) -> o = Ok (page_iv tdek id) /\ fs = []).
Proof.
  unfold tde_derive_page_iv.
  destruct (attempt_run (view l s)) as (b & fs & Hb).
  pose proof (attempt_no_faults (view l s)) as Hnb.
  unfold zoom. unfold bind at 1. rewrite Hb. destruct b; cbn [negb].
  - destruct (attempts_run 6 (set_faults fs (view l s))) as (b' & fs' & Hb').
    pose proof (attempts_no_faults 6 (set_faults fs (view l s))) as Hnb'.
    unfold bind. rewrite Hb'. exists fs'.
    destruct b'; cbn [negb]; eexists; (split; [reflexivity|]).
    + split; [left; reflexivity|]. intros Hn. split; [reflexivity|].
      specialize (Hnb Hn). rewrite Hb in Hnb. injection Hnb as Hf.
      assert (Hfs : fs = []) by (rewrite <- Hf in Hn; exact Hn).
      rewrite Hb' in Hnb'. specialize (Hnb' Hfs). injection Hnb' as Hf'.
      congruence.
    + split; [right; eexists; reflexivity|]. intros Hn. specialize (Hnb Hn).
      rewrite Hb in Hnb. injection Hnb as Hf.
      assert (Hfs : fs = []) by (rewrite <- Hf in Hn; exact Hn).
      rewrite Hb' in Hnb'. discriminate (Hnb' Hfs).
  - exists fs. eexists. split; [reflexivity|]. split; [right; eexists; reflexivity|].
    intros Hn. specialize (Hnb Hn). rewrite Hb in Hnb. discriminate.
Qed.

(** The key the cache gives this process for a tablespace. *)
Definition tablespace_key (s : server) (oid : Oid) : option TdeKeyEntry :=
  match TdeKeyCacheShmem (sv_keys s) with
  | Some c => key_of c oid
  | None => None
  end.

Definition keys_ready (s : server) : Prop :=
  exists c, sv_keys s = mkShmem (Some c) true /\ wf_cache c.

Lemma lookup_ready s page oid :
  keys_ready s ->
  zoom pkeysL (tde_keycache_lookup oid) (s, page) = (Ok (tablespace_key s oid), (s, page)).
Proof.
  intros (c & Hs & Hwf). unfold zoom, tablespace_key.
  change (view pkeysL (s, page)) with (sv_keys s). rewrite Hs, lookup_run by (apply wf_lock; auto). cbn. rewrite <- Hs.
  destruct s; reflexivity.
Qed.

Definition sburn (fs : list (option nat)) (s : server) : server := burn senvL fs s.

Lemma burn_penv fs s page : burn penvL fs (s, page) = (sburn fs s, page).
Proof. reflexivity. Qed.

Lemma sburn_sburn fs fs' s : sburn fs (sburn fs' s) = sburn fs s.
Proof. apply burn_burn. apply _. Qed.

Lemma keys_ready_sburn fs s : keys_ready s -> keys_ready (sburn fs s).
Proof. intros H0. exact H0. Qed.

Ltac page_attempt :=
  match goal with
  | |- context [bind (zoom penvL attempt) _ (?s, ?pg)] =>
      let b := fresh "b" in let fs := fresh "fs" in
      let Hr := fresh "Hr" in
      destruct (zoom_attempt_run penvL (s, pg)) as (b & fs & Hr & _);
      rewrite (burn_penv fs s pg), ?sburn_sburn in Hr; mrun Hr; destruct b; cbn [negb]
  end.

(** However the environment fails, an encryption step either succeeds and has
    encrypted the payload, or raises an error; then the page is as it was, or
    already encrypted when only the last call failed. *)
Lemma page_crypt_any id s page entry :
  keys_ready s -> tablespace_key s (pg_spcOid id) = Some entry ->
  (TDE_PAGE_HEADER_SIZE < length page)%nat ->
  exists o fs page', tde_page_crypt id (s, page) = (o, (sburn fs s, page')) /\
    ((o = Ok tt /\ page' = crypt_payload (key entry) id page) \/
     (exists e, o = Err e) /\ (page' = page \/ page' = crypt_payload (key entry) id page)).
Proof.
  intros Hk He Hlen. unfold tde_page_crypt. rewrite (bind_step _ _ _ page (s, page)) by reflexivity.
  destruct (Nat.leb_spec (length page) TDE_PAGE_HEADER_SIZE); [lia|].
  pose proof (lookup_ready s page (pg_spcOid id) Hk) as Hl. rewrite He in Hl. mrun Hl.
  destruct (derive_page_iv_run penvL (key entry) id (s, page)) as (fs0 & o & Hd & Ho & _).
  rewrite burn_penv in Hd.
  destruct Ho as [->|[e ->]].
  2:{ exists (Err e), fs0, page. rewrite (bind_err _ _ _ _ _ Hd). split; [reflexivity|].
      right. eauto. }
  mrun Hd.
  page_attempt; [|do 3 eexists; split; [reflexivity|right; eauto]].
  page_attempt; [|do 3 eexists; split; [reflexivity|right; eauto]].
  page_attempt; [|do 3 eexists; split; [reflexivity|right; eauto]].
  match goal with |- context [bind (zoom sndL ?m) _ ?x] =>
    rewrite (bind_step (zoom sndL m) _ x tt (fst x, crypt_payload (key entry) id page))
      by reflexivity end.
  cbn [fst]. page_attempt.
  - do 3 eexists. split; [reflexivity|]. left. auto.
  - do 3 eexists. split; [reflexivity|]. right. eauto.
Qed.

Lemma page_crypt_no_faults id s page entry :
  keys_ready s -> tablespace_key s (pg_spcOid id) = Some entry ->
  (TDE_PAGE_HEADER_SIZE < length page)%nat -> no_faults (sv_env s) ->
  tde_page_crypt id (s, page) = (Ok tt, (s, crypt_payload (key entry) id page)).
Proof.
  intros Hk He Hlen Hnf. unfold tde_page_crypt.
  rewrite (bind_step _ _ _ page (s, page)) by reflexivity.
  destruct (Nat.leb_spec (length page) TDE_PAGE_HEADER_SIZE); [lia|].
  pose proof (lookup_ready s page (pg_spcOid id) Hk) as Hl. rewrite He in Hl. mrun Hl.
  clear Hl He Hk. destruct s as [[[fs d fi di v c lg] ? ? ? ?] ? ? ? ? ?].
  cbn in Hnf. unfold no_faults in Hnf. cbn in Hnf. subst fs. reflexivity.
Qed.
End PageLemmas.

Section PageProperties.
  Context `{CL : CryptoLaws}.

Lemma length_crypt_payload tdek id page :
  length (crypt_payload tdek id page) = length page.
Proof. unfold crypt_payload. len_solve. Qed.

Lemma header_crypt_payload tdek id page :
  (TDE_PAGE_HEADER_SIZE <= length page)%nat ->
  firstn TDE_PAGE_HEADER_SIZE (crypt_payload tdek id page) =
  firstn TDE_PAGE_HEADER_SIZE page.
Proof. intros Hl. apply firstn_app_exact. len_solve. Qed.

Lemma crypt_payload_involutive tdek id page :
  (TDE_PAGE_HEADER_SIZE <= length page)%nat ->
  crypt_payload tdek id (crypt_payload tdek id page) = page.
Proof.
  intros Hl. unfold crypt_payload at 1. rewrite header_crypt_payload by exact Hl.
  unfold crypt_payload. rewrite skipn_app_exact by len_solve.
  rewrite ctr_crypt_involutive. apply firstn_skipn.
Qed.

Lemma page_crypt_no_key id s page :
  wf_shmem (sv_keys s) -> tablespace_key s (pg_spcOid id) = None ->
  exists e, tde_page_crypt id (s, page) = (Err e, (s, page)).
Proof.
  intros Hwf Hk. unfold tde_page_crypt.
  rewrite (bind_step _ _ _ page (s, page)) by reflexivity.
  destruct (length page <=? TDE_PAGE_HEADER_SIZE)%nat; [eexists; reflexivity|].
  destruct (sv_keys s) as [[c|] []] eqn:Hs; try discriminate.
  - pose proof (lookup_ready s page (pg_spcOid id)) as Hl. rewrite Hk in Hl.
    rewrite (bind_step _ _ _ _ _ (Hl ltac:(exists c; split; [exact Hs|exact Hwf]))).
    eexists. reflexivity.
  - exists ERRCODE_INTERNAL_ERROR. apply bind_err. unfold zoom.
    change (view pkeysL (s, page)) with (sv_keys s). rewrite Hs. cbn. rewrite <- Hs.
    destruct s; reflexivity.
  - exists ERRCODE_INTERNAL_ERROR. apply bind_err. unfold zoom.
    change (view pkeysL (s, page)) with (sv_keys s). rewrite Hs. cbn. rewrite <- Hs.
    destruct s; reflexivity.
Qed.

Lemma keys_ready_of_key s oid e :
  wf_shmem (sv_keys s) -> tablespace_key s oid = Some e -> keys_ready s.
Proof.
  unfold tablespace_key. intros Hwf Hk.
  destruct (TdeKeyCacheShmem (sv_keys s)) as [c|] eqn:Hc; [|discriminate].
  apply attached_cases in Hc as [Hs Hw]; [|exact Hwf]. exists c; auto.
Qed.

(** ** Properties *)

(** C2: safety.  Whatever fails, [tde_encrypt_page] never returns to its caller
    with an unencrypted page: it returns only when the tablespace has an active
    key and the payload of the page is its encryption under that key, with the
    header and the size kept; in every other case, a missing key and an
    unattached cache included, the process ends. *)
Theorem encrypt_page_never_plaintext id s page o s' page' :
  wf_shmem (sv_keys s) -> (TDE_PAGE_HEADER_SIZE < length page)%nat ->
  tde_encrypt_page id (s, page) = (o, (s', page')) ->
  (o = Fatal) \/
  (o = Ok tt /\ exists entry,
     tablespace_key s (pg_spcOid id) = Some entry /\
     page' = firstn TDE_PAGE_HEADER_SIZE page ++
             ctr_crypt (key entry) (page_iv (key entry) id)
               (skipn TDE_PAGE_HEADER_SIZE page) /\
     length page' = length page).
Proof.
  intros Hwf Hlen. unfold tde_encrypt_page.
  destruct (tablespace_key s (pg_spcOid id)) as [entry|] eqn:Hk.
  - destruct (page_crypt_any id s page entry (keys_ready_of_key _ _ _ Hwf Hk) Hk Hlen)
      as (o1 & fs & pg1 & Hr & [[-> ->]|[[e ->] Hpg]]).
    + rewrite (pg_try_ok _ _ _ _ _ Hr). intros [= <- <- <-]. right. split; [reflexivity|].
      exists entry. split; [auto|]. split; [reflexivity|apply length_crypt_payload].
    + rewrite (pg_try_err _ _ _ _ _ Hr). intros [= <- _ _]. left. reflexivity.
  - destruct (page_crypt_no_key id s page Hwf Hk) as [e Hr].
    rewrite (pg_try_err _ _ _ _ _ Hr). intros [= <- _ _]. left. reflexivity.
Qed.

(** When no library call fails, encrypting any page longer than
    its header succeeds, keeps the 24 header bytes and the size, and decrypting
    the result gives back the page, the server state being untouched by both. *)
Theorem page_roundtrip id s page entry :
  keys_ready s -> tablespace_key s (pg_spcOid id) = Some entry ->
  (TDE_PAGE_HEADER_SIZE < length page)%nat -> no_faults (sv_env s) ->
  exists page', tde_encrypt_page id (s, page) = (Ok tt, (s, page')) /\
    firstn TDE_PAGE_HEADER_SIZE page' = firstn TDE_PAGE_HEADER_SIZE page /\
    length page' = length page /\
    tde_decrypt_page id (s, page') = (Ok tt, (s, page)).
Proof.
  intros Hk He Hlen Hnf. exists (crypt_payload (key entry) id page).
  unfold tde_encrypt_page, tde_decrypt_page. split; [|split; [|split]].
  - apply pg_try_ok, page_crypt_no_faults; auto.
  - apply header_crypt_payload. lia.
  - apply length_crypt_payload.
  - apply pg_try_ok. rewrite (page_crypt_no_faults id s _ entry); auto.
    + rewrite crypt_payload_involutive by lia. reflexivity.
    + rewrite length_crypt_payload. exact Hlen.
Qed.

(** [tde_decrypt_page] always returns.  The page it leaves is the
    decrypted page, or the page as it was together with a WARNING in the log;
    when only the final library call fails, the page is decrypted and the
    WARNING that says it was returned as it is is emitted all the same. *)
Theorem decrypt_page_total id s page entry :
  keys_ready s -> tablespace_key s (pg_spcOid id) = Some entry ->
  (TDE_PAGE_HEADER_SIZE < length page)%nat ->
  exists s' page', tde_decrypt_page id (s, page) = (Ok tt, (s', page')) /\
    (page' = crypt_payload (key entry) id page \/
     page' = page /\
       last (log (sv_env s')) =
         Some (WARNING, "TDE: decryption failed, returning page as-is"%string)).
Proof.
  intros Hk He Hlen. unfold tde_decrypt_page.
  destruct (page_crypt_any id s page entry Hk He Hlen)
    as (o1 & fs & pg1 & Hr & [[-> ->]|[[e ->] Hpg]]).
  - do 2 eexists. split; [apply (pg_try_ok _ _ _ _ _ Hr)|]. left. reflexivity.
  - do 2 eexists. rewrite (pg_try_err _ _ _ _ _ Hr). split; [reflexivity|].
    destruct Hpg as [->| ->]; [right|left; reflexivity]. split; [reflexivity|].
    cbn. rewrite last_snoc. reflexivity.
Qed.

(** C39: bounds.  The IV of a page depends on its identity and key only, so two
    versions of one page are encrypted with one keystream: when no call fails,
    the exclusive or of the two ciphertexts written to disk is the exclusive or
    of the two plaintexts, in every payload byte. *)
Theorem page_keystream_reuse id s page1 page2 entry :
  keys_ready s -> tablespace_key s (pg_spcOid id) = Some entry ->
  (TDE_PAGE_HEADER_SIZE < length page1)%nat -> length page2 = length page1 ->
  no_faults (sv_env s) ->
  exists ct1 ct2,
    tde_encrypt_page id (s, page1) = (Ok tt, (s, ct1)) /\
    tde_encrypt_page id (s, page2) = (Ok tt, (s, ct2)) /\
    xor_bytes (skipn TDE_PAGE_HEADER_SIZE ct1) (skipn TDE_PAGE_HEADER_SIZE ct2) =
    xor_bytes (skipn TDE_PAGE_HEADER_SIZE page1) (skipn TDE_PAGE_HEADER_SIZE page2).
Proof.
  intros Hk He Hlen Heq Hnf.
  exists (crypt_payload (key entry) id page1), (crypt_payload (key entry) id page2).
  unfold tde_encrypt_page.
  split; [apply pg_try_ok, page_crypt_no_faults; auto|].
  split; [apply pg_try_ok, page_crypt_no_faults; auto; lia|].
  unfold crypt_payload. rewrite !skipn_app_exact by len_solve. unfold ctr_crypt.
  rewrite !length_skipn, Heq. apply xor_bytes_cancel; len_solve.
Qed.

(** Identities as the types of the code bound them. *)
Definition wf_page_id (id : page_id) : bool :=
  forallb (fun x => (0 <=? x) && (x <? 2 ^ 32))
    [pg_spcOid id; pg_dbOid id; pg_relNumber id; pg_forkNum id; pg_blockNum id].

Lemma page_info_inj id id' :
  wf_page_id id = true -> wf_page_id id' = true -> page_info id = page_info id' -> id = id'.
Proof.
  destruct id as [a b c d e], id' as [a' b' c' d' e']. intros H1 H2 E.
  unfold wf_page_id in H1, H2. cbn in H1, H2. rewrite !andb_true_iff in H1, H2.
  unfold page_info in E; cbn [pg_spcOid pg_dbOid pg_relNumber pg_forkNum pg_blockNum] in E.
  repeat (apply app_inj_1 in E as [? E]; [|rewrite !length_le_bytes; reflexivity]).
  f_equal; eapply (le_bytes_inj 4); try eassumption; change (256 ^ Z.of_nat 4) with (2 ^ 32); lia.
Qed.
End PageProperties.

(** ** Witnesses *)

Import Toy.

Definition sample_page : bytes := map Z.of_nat (seq 0 40).
Definition sample_page_id : page_id := mkPageId 5 1 2 0 7.

Lemma sample_ready : keys_ready sample_server.
Proof.
  eexists. split; [reflexivity|]. exact (kc_reachable_wf _ sample_keys_reachable).
Qed.

Lemma sample_key : tablespace_key sample_server 5 = Some (sample_entry 5 true).
Proof. reflexivity. Qed.

Lemma encrypt_page_never_plaintext_witness :
  exists o s' page',
    tde_encrypt_page sample_page_id (sample_server, sample_page) = (o, (s', page')) /\
    (o = Fatal \/ length page' = length sample_page).
Proof.
  destruct (tde_encrypt_page sample_page_id (sample_server, sample_page))
    as [o [s' page']] eqn:Hr.
  exists o, s', page'. split; [reflexivity|].
  destruct (encrypt_page_never_plaintext sample_page_id sample_server sample_page o s' page')
    as [Ho|[_ (entry & _ & _ & Hl)]]; auto.
  - exact (kc_reachable_wf _ sample_keys_reachable).
  - apply Nat.ltb_lt. reflexivity.
Defined.

Lemma page_roundtrip_witness :
  exists page', tde_encrypt_page sample_page_id (sample_server, sample_page)
                = (Ok tt, (sample_server, page')) /\ page' <> sample_page /\
    tde_decrypt_page sample_page_id (sample_server, page')
    = (Ok tt, (sample_server, sample_page)).
Proof.
  destruct (page_roundtrip sample_page_id sample_server sample_page (sample_entry 5 true))
    as (page' & He & _ & _ & Hd);
    [exact sample_ready|exact sample_key|apply Nat.ltb_lt; reflexivity|reflexivity|].
  exists page'. split; [exact He|]. split; [|exact Hd].
  intros ->. vm_compute in He. discriminate He.
Defined.

Lemma decrypt_page_total_witness :
  exists s' page', tde_decrypt_page sample_page_id
    (over senvL (set_faults [None; None; None; None; None; None; None; None; None; None; Some 0%nat]
                   env0) sample_server, sample_page) = (Ok tt, (s', page')).
Proof.
  destruct (decrypt_page_total sample_page_id
    (over senvL (set_faults [None; None; None; None; None; None; None; None; None; None; Some 0%nat]
                   env0) sample_server) sample_page (sample_entry 5 true))
    as (s' & page' & Hr & _); [exact sample_ready|reflexivity|apply Nat.ltb_lt; reflexivity|].
  exists s', page'. exact Hr.
Defined.

Lemma page_keystream_reuse_witness :
  exists ct1 ct2,
    tde_encrypt_page sample_page_id (sample_server, sample_page)
    = (Ok tt, (sample_server, ct1)) /\
    tde_encrypt_page sample_page_id (sample_server, zeros 40)
    = (Ok tt, (sample_server, ct2)) /\
    xor_bytes (skipn 24 ct1) (skipn 24 ct2) = skipn 24 sample_page.
Proof.
  destruct (page_keystream_reuse sample_page_id sample_server sample_page (zeros 40)
              (sample_entry 5 true)) as (ct1 & ct2 & H1 & H2 & Hx);
    [exact sample_ready|exact sample_key|apply Nat.ltb_lt; reflexivity|reflexivity|reflexivity|].
  exists ct1, ct2. split; [exact H1|]. split; [exact H2|]. exact Hx.
Defined.
