(* ===== verification/TdeWal.v ===== *)
(** * WAL page encryption (src/backend/crypto/tde/tde_wal.c)

    A WAL page keeps its header (24 bytes, or 40 for the first page of a
    segment) in cleartext; the rest is encrypted under the key of tablespace 0
    and the flag XLP_ENCRYPTED records it. *)
From Stdlib Require Import ZArith Lia Bool String List.
From stdpp Require Import base gmap list strings.
From S2P Require Import Prelude CryptoIface Env KeyCache PqcRegistry Server TdePage.
Import ListNotations.
Local Open Scope Z_scope.
Local Open Scope pg_scope.

Definition XLP_LONG_HEADER : Z := 2.
Definition XLP_ALL_FLAGS : Z := 15.
Definition XLP_ENCRYPTED : Z := 16.
Definition SizeOfXLogShortPHD : nat := 24.
Definition SizeOfXLogLongPHD : nat := 40.
Definition TDE_WAL_HKDF_LABEL : bytes := bytes_of_string "FortressQL-TDE-WAL-IV-v1".

(** The field [xlp_info]: 16 bits at offset 2. *)
Definition xlp_info (page : bytes) : Z := le_val (sub 2 2 page).
Definition set_xlp_info (v : Z) (page : bytes) : bytes :=
  firstn 2 page ++ le_bytes 2 v ++ skipn 4 page.

Definition XLogPageHeaderSize (page : bytes) : nat :=
  if Z.land (xlp_info page) XLP_LONG_HEADER =? 0
  then SizeOfXLogShortPHD else SizeOfXLogLongPHD.

(** The HKDF info parameter: 8 bytes of segment number, 4 of offset. *)
Definition wal_info (segno offset : Z) : bytes := le_bytes 8 segno ++ le_bytes 4 offset.

Section Wal.
  Context `{Crypto}.

Definition wal_iv (wal_key : bytes) (segno offset : Z) : bytes :=
  HKDF_SHA256 TDE_WAL_HKDF_LABEL wal_key (wal_info segno offset) TDE_IV_LEN.

Definition tde_derive_wal_iv (wal_key : bytes) (segno offset : Z) : M env bytes :=
  let! pctx := attempt in
  if negb pctx then raise ERRCODE_OUT_OF_MEMORY
  else
    let! ok := attempts 6 in
    if negb ok then raise ERRCODE_INTERNAL_ERROR
    else ret (wal_iv wal_key segno offset).

Definition tde_wal_crypt (segno offset : Z) : M (server * bytes) unit :=
  let! page := gets snd in
  let hdr_size := XLogPageHeaderSize page in
  if (length page <=? hdr_size)%nat then raise ERRCODE_DATA_CORRUPTED
  else
    let! found := zoom pkeysL (tde_keycache_lookup InvalidOid) in
    match found with
    | None => raise ERRCODE_INTERNAL_ERROR
    | Some entry =>
        let! iv := zoom penvL (tde_derive_wal_iv (key entry) segno offset) in
        let! ctx := zoom penvL attempt in
        if negb ctx then raise ERRCODE_OUT_OF_MEMORY
        else
          let! init := zoom penvL attempt in
          if negb init then raise ERRCODE_INTERNAL_ERROR
          else
            let! update := zoom penvL attempt in
            if negb update then raise ERRCODE_INTERNAL_ERROR
            else
              do! zoom sndL (modify (fun pg =>
                    firstn hdr_size pg ++ ctr_crypt (key entry) iv (skipn hdr_size pg))) in
              let! final := zoom penvL attempt in
              if negb final then raise ERRCODE_INTERNAL_ERROR else ret tt
    end.

Definition tde_encrypt_wal_page (segno offset : Z) : M (server * bytes) unit :=
  do! tde_wal_crypt segno offset in
  zoom sndL (modify (fun pg => set_xlp_info (Z.lor (xlp_info pg) XLP_ENCRYPTED) pg)).

(** [~XLP_ENCRYPTED] truncated to the 16 bits of the field. *)
Definition tde_decrypt_wal_page (segno offset : Z) : M (server * bytes) unit :=
  let! page := gets snd in
  if Z.land (xlp_info page) XLP_ENCRYPTED =? 0 then ret tt
  else
    do! tde_wal_crypt segno offset in
    zoom sndL (modify (fun pg =>
      set_xlp_info (u16 (Z.land (xlp_info pg) (Z.lnot XLP_ENCRYPTED))) pg)).
End Wal.

(** ** Lemmas *)

Arguments tde_wal_crypt {_} segno offset x : simpl never.

Section WalLemmas.
  Context `{CL : CryptoLaws}.

(** The page with its payload encrypted or decrypted. *)
Definition crypt_wal_payload (tdek : bytes) (segno offset : Z) (page : bytes) : bytes :=
  firstn (XLogPageHeaderSize page) page ++
  ctr_crypt tdek (wal_iv tdek segno offset) (skipn (XLogPageHeaderSize page) page).

Lemma wal_crypt_no_faults segno offset s page entry :
  keys_ready s -> tablespace_key s InvalidOid = Some entry ->
  (XLogPageHeaderSize page < length page)%nat -> no_faults (sv_env s) ->
  tde_wal_crypt segno offset (s, page)
  = (Ok tt, (s, crypt_wal_payload (key entry) segno offset page)).
Proof.
  intros Hk He Hlen Hnf. unfold tde_wal_crypt.
  rewrite (bind_step _ _ _ page (s, page)) by reflexivity. cbv zeta.
  destruct (Nat.leb_spec (length page) (XLogPageHeaderSize page)); [lia|].
  pose proof (lookup_ready s page InvalidOid Hk) as Hl. rewrite He in Hl. mrun Hl.
  clear Hl He Hk. destruct s as [[[fs d fi di v c lg] ? ? ? ?] ? ? ? ? ?].
  cbn in Hnf. unfold no_faults in Hnf. cbn in Hnf. subst fs. reflexivity.
Qed.

Lemma header_size_bounds page : (24 <= XLogPageHeaderSize page <= 40)%nat.
Proof.
  unfold XLogPageHeaderSize, SizeOfXLogShortPHD, SizeOfXLogLongPHD. destruct (_ =? _); lia.
Qed.

Lemma length_crypt_wal tdek segno offset page :
  length (crypt_wal_payload tdek segno offset page) = length page.
Proof. unfold crypt_wal_payload. len_solve. Qed.

Lemma sub_crypt_wal tdek segno offset page off n :
  (off + n <= 24)%nat -> (24 <= length page)%nat ->
  sub off n (crypt_wal_payload tdek segno offset page) = sub off n page.
Proof.
  intros Hn Hlen. pose proof (header_size_bounds page) as Hb. unfold sub.
  rewrite !firstn_skipn_comm. f_equal. unfold crypt_wal_payload.
  rewrite firstn_app. replace (off + n - length _)%nat with 0%nat by len_solve.
  rewrite firstn_O, app_nil_r, firstn_firstn. f_equal. lia.
Qed.

Lemma xlp_info_crypt_wal tdek segno offset page :
  (24 <= length page)%nat ->
  xlp_info (crypt_wal_payload tdek segno offset page) = xlp_info page.
Proof. intros Hl. unfold xlp_info. rewrite sub_crypt_wal by lia. reflexivity. Qed.

Lemma header_size_crypt_wal tdek segno offset page :
  (24 <= length page)%nat ->
  XLogPageHeaderSize (crypt_wal_payload tdek segno offset page) = XLogPageHeaderSize page.
Proof. intros Hl. unfold XLogPageHeaderSize. rewrite xlp_info_crypt_wal by lia. reflexivity. Qed.

Lemma crypt_wal_involutive tdek segno offset page :
  (XLogPageHeaderSize page <= length page)%nat ->
  crypt_wal_payload tdek segno offset (crypt_wal_payload tdek segno offset page) = page.
Proof.
  intros Hl. pose proof (header_size_bounds page) as Hb.
  unfold crypt_wal_payload at 1. rewrite header_size_crypt_wal by lia.
  unfold crypt_wal_payload. rewrite firstn_app_exact, skipn_app_exact by len_solve.
  rewrite ctr_crypt_involutive. apply firstn_skipn.
Qed.

(** *** The flag field *)

Lemma xlp_info_set v page :
  (4 <= length page)%nat -> 0 <= v < 2 ^ 16 -> xlp_info (set_xlp_info v page) = v.
Proof.
  intros Hl Hv. unfold xlp_info, set_xlp_info.
  rewrite (sub_app_r 0 2 _ _ 2) by len_solve. rewrite sub_0_app by len_solve.
  apply le_val_le_bytes. exact Hv.
Qed.

Lemma length_set_xlp_info v page :
  (4 <= length page)%nat -> length (set_xlp_info v page) = length page.
Proof. intros. unfold set_xlp_info. len_solve. Qed.

Lemma set_set_xlp_info v w page :
  (4 <= length page)%nat -> set_xlp_info v (set_xlp_info w page) = set_xlp_info v page.
Proof.
  intros Hl. unfold set_xlp_info at 1. unfold set_xlp_info at 1 2. 
  rewrite firstn_app_exact by len_solve. unfold set_xlp_info. do 2 f_equal.
  rewrite app_assoc. apply skipn_app_exact. len_solve.
Qed.

Lemma set_xlp_info_same page :
  (4 <= length page)%nat -> wf_bytes page = true ->
  set_xlp_info (xlp_info page) page = page.
Proof.
  intros Hl Hwf. unfold set_xlp_info, xlp_info.
  replace (le_bytes 2 (le_val (sub 2 2 page))) with (sub 2 2 page).
  - unfold sub. rewrite <- (firstn_skipn 2 page) at 4. f_equal.
    transitivity (firstn 2 (skipn 2 page) ++ skipn 2 (skipn 2 page));
      [rewrite skipn_skipn; reflexivity|apply firstn_skipn].
  - rewrite <- (le_bytes_le_val (sub 2 2 page)) at 1.
    + f_equal. len_solve.
    + unfold sub. apply wf_bytes_firstn, wf_bytes_skipn. exact Hwf.
Qed.

Lemma firstn_set_xlp_info v h page :
  (4 <= h)%nat -> (4 <= length page)%nat ->
  firstn h (set_xlp_info v page) = set_xlp_info v (firstn h page).
Proof.
  intros Hh Hl. unfold set_xlp_info. rewrite !firstn_app.
  rewrite (firstn_all2 (firstn 2 page)) by len_solve.
  rewrite (firstn_all2 (le_bytes 2 v)) by len_solve.
  rewrite firstn_firstn. replace (Nat.min 2 h) with 2%nat by lia. do 2 f_equal.
  autorewrite with len. rewrite skipn_firstn_comm. f_equal. lia.
Qed.

Lemma skipn_set_xlp_info v h page :
  (4 <= h)%nat -> (4 <= length page)%nat ->
  skipn h (set_xlp_info v page) = skipn h page.
Proof.
  intros Hh Hl. unfold set_xlp_info. rewrite !skipn_app.
  rewrite (skipn_all2 (firstn 2 page)) by len_solve.
  rewrite (skipn_all2 (le_bytes 2 v)) by len_solve.
  autorewrite with len. rewrite skipn_skipn, !app_nil_l. f_equal. lia.
Qed.

Lemma set_xlp_info_app v a b :
  (4 <= length a)%nat -> set_xlp_info v (a ++ b) = set_xlp_info v a ++ b.
Proof.
  intros Hl. unfold set_xlp_info. rewrite firstn_app, skipn_app.
  replace (2 - length a)%nat with 0%nat by lia. replace (4 - length a)%nat with 0%nat by lia.
  cbn [firstn skipn]. rewrite app_nil_r, <- !app_assoc. reflexivity.
Qed.

(** Encryption commutes with a change of the flags that keeps the header size. *)
Lemma crypt_wal_set_info tdek segno offset v page :
  (24 <= length page)%nat -> 0 <= v < 2 ^ 16 ->
  Z.land v XLP_LONG_HEADER = Z.land (xlp_info page) XLP_LONG_HEADER ->
  crypt_wal_payload tdek segno offset (set_xlp_info v page) =
  set_xlp_info v (crypt_wal_payload tdek segno offset page).
Proof.
  intros Hl Hv Hlong. pose proof (header_size_bounds page) as Hb.
  assert (Hh : XLogPageHeaderSize (set_xlp_info v page) = XLogPageHeaderSize page).
  { unfold XLogPageHeaderSize. rewrite xlp_info_set by lia. rewrite Hlong. reflexivity. }
  unfold crypt_wal_payload. rewrite Hh. rewrite set_xlp_info_app by len_solve.
  rewrite firstn_set_xlp_info, skipn_set_xlp_info by lia. reflexivity.
Qed.
End WalLemmas.

(** ** Properties *)

Section WalProperties.
  Context `{CL : CryptoLaws}.

Lemma xlp_info_range page :
  (4 <= length page)%nat -> wf_bytes page = true -> 0 <= xlp_info page < 2 ^ 16.
Proof.
  intros Hl Hwf. unfold xlp_info.
  pose proof (le_val_bound (sub 2 2 page)) as Hb.
  replace (blen (sub 2 2 page)) with 2 in Hb by (unfold blen; len_solve).
  apply Hb. unfold sub. apply wf_bytes_firstn, wf_bytes_skipn. exact Hwf.
Qed.

Lemma lor_encrypted_range v : 0 <= v < 2 ^ 16 -> 0 <= Z.lor v XLP_ENCRYPTED < 2 ^ 16.
Proof.
  intros Hv. split; [apply Z.lor_nonneg; unfold XLP_ENCRYPTED; lia|].
  destruct (Z.eq_dec (Z.lor v XLP_ENCRYPTED) 0) as [->|Hz]; [lia|].
  apply Z.log2_lt_pow2; [pose proof (proj2 (Z.lor_nonneg v XLP_ENCRYPTED)); unfold XLP_ENCRYPTED in *; lia|].
  rewrite Z.log2_lor by (unfold XLP_ENCRYPTED; lia). apply Z.max_lub_lt; [|reflexivity].
  destruct (Z.eq_dec v 0) as [->|]; [reflexivity|apply Z.log2_lt_pow2; lia].
Qed.

(** Setting the flag and clearing it again. *)
Lemma clear_set_encrypted v :
  0 <= v < 2 ^ 16 -> Z.land v XLP_ENCRYPTED = 0 ->
  Z.land (Z.lor v XLP_ENCRYPTED) XLP_ENCRYPTED <> 0 /\
  u16 (Z.land (Z.lor v XLP_ENCRYPTED) (Z.lnot XLP_ENCRYPTED)) = v /\
  Z.land (Z.lor v XLP_ENCRYPTED) XLP_LONG_HEADER = Z.land v XLP_LONG_HEADER.
Proof.
  intros Hv Hz. split; [|split].
  - rewrite Z.land_lor_distr_l, Hz. discriminate.
  - rewrite Z.land_lor_distr_l, Z.land_lnot_diag, Z.lor_0_r.
    rewrite <- Z.ldiff_land. unfold u16.
    replace (Z.ldiff v XLP_ENCRYPTED) with v; [apply Z.mod_small; lia|].
    apply Z.bits_inj'. intros n Hn. rewrite Z.ldiff_spec.
    assert (Hb : Z.testbit (Z.land v XLP_ENCRYPTED) n = false) by (rewrite Hz; apply Z.bits_0).
    rewrite Z.land_spec in Hb. destruct (Z.testbit v n), (Z.testbit XLP_ENCRYPTED n); auto.
  - rewrite Z.land_lor_distr_l. change (Z.land XLP_ENCRYPTED XLP_LONG_HEADER) with 0.
    apply Z.lor_0_r.
Qed.

(** When no library call fails, encrypting a WAL page whose
    XLP_ENCRYPTED flag is clear succeeds, sets the flag (a bit outside
    XLP_ALL_FLAGS), keeps the size and the rest of the header, and decrypting
    the result restores the page byte for byte, flag included; a page whose flag
    is clear is left alone by the decryption. *)
Theorem wal_page_roundtrip segno offset s page entry :
  keys_ready s -> tablespace_key s InvalidOid = Some entry ->
  (XLogPageHeaderSize page < length page)%nat -> wf_bytes page = true ->
  Z.land (xlp_info page) XLP_ENCRYPTED = 0 -> no_faults (sv_env s) ->
  exists page', tde_encrypt_wal_page segno offset (s, page) = (Ok tt, (s, page')) /\
    Z.land (xlp_info page') XLP_ENCRYPTED <> 0 /\
    Z.land (xlp_info page') (Z.lnot XLP_ALL_FLAGS) <> 0 /\
    length page' = length page /\
    firstn (XLogPageHeaderSize page) page' =
      set_xlp_info (Z.lor (xlp_info page) XLP_ENCRYPTED)
        (firstn (XLogPageHeaderSize page) page) /\
    tde_decrypt_wal_page segno offset (s, page') = (Ok tt, (s, page)) /\
    tde_decrypt_wal_page segno offset (s, page) = (Ok tt, (s, page)).
Proof.
  intros Hk He Hlen Hwf Hflag Hnf. pose proof (header_size_bounds page) as Hb.
  set (ct := crypt_wal_payload (key entry) segno offset page).
  assert (Hct : length ct = length page) by apply length_crypt_wal.
  assert (Hinfo : xlp_info ct = xlp_info page) by (apply xlp_info_crypt_wal; lia).
  pose proof (xlp_info_range page ltac:(lia) Hwf) as Hr.
  destruct (clear_set_encrypted _ Hr Hflag) as (Hset & Hclear & Hlong).
  pose proof (lor_encrypted_range _ Hr) as Hr'.
  exists (set_xlp_info (Z.lor (xlp_info page) XLP_ENCRYPTED) ct).
  assert (Hi' : xlp_info (set_xlp_info (Z.lor (xlp_info page) XLP_ENCRYPTED) ct)
                = Z.lor (xlp_info page) XLP_ENCRYPTED) by (apply xlp_info_set; lia).
  assert (Hsize : (XLogPageHeaderSize (set_xlp_info (Z.lor (xlp_info page) XLP_ENCRYPTED) ct)
                   < length (set_xlp_info (Z.lor (xlp_info page) XLP_ENCRYPTED) ct))%nat).
  { rewrite length_set_xlp_info by lia. unfold XLogPageHeaderSize. rewrite Hi', Hlong.
    unfold XLogPageHeaderSize in Hlen. lia. }
  split; [|split; [|split; [|split; [|split; [|split]]]]].
  - unfold tde_encrypt_wal_page. mrun (wal_crypt_no_faults segno offset s page entry Hk He Hlen Hnf).
    fold ct. unfold zoom, modify. cbn [view over sndL snd fst]. rewrite Hinfo. reflexivity.
  - rewrite Hi'. exact Hset.
  - rewrite Hi', Z.land_lor_distr_l. change (Z.land XLP_ENCRYPTED (Z.lnot XLP_ALL_FLAGS)) with 16.
    intros Hz. apply Z.lor_eq_0_iff in Hz as [_ ?]. discriminate.
  - rewrite length_set_xlp_info; lia.
  - rewrite firstn_set_xlp_info by lia. f_equal. apply firstn_app_exact. len_solve.
  - unfold tde_decrypt_wal_page.
    rewrite (bind_step _ _ _ (set_xlp_info (Z.lor (xlp_info page) XLP_ENCRYPTED) ct)
               (s, set_xlp_info (Z.lor (xlp_info page) XLP_ENCRYPTED) ct)) by reflexivity.
    rewrite Hi'. destruct (Z.eqb_spec (Z.land (Z.lor (xlp_info page) XLP_ENCRYPTED) XLP_ENCRYPTED) 0);
      [contradiction|].
    rewrite (bind_step _ _ _ tt (s, set_xlp_info (Z.lor (xlp_info page) XLP_ENCRYPTED) page)).
    + unfold zoom, modify. cbn [view over sndL snd fst]. rewrite xlp_info_set by lia.
      rewrite Hclear, set_set_xlp_info, set_xlp_info_same by (auto; lia). reflexivity.
    + rewrite (wal_crypt_no_faults segno offset s _ entry Hk He); [|exact Hsize|exact Hnf].
      rewrite crypt_wal_set_info by (rewrite ?Hinfo; auto; lia). unfold ct.
      rewrite crypt_wal_involutive by lia. reflexivity.
  - unfold tde_decrypt_wal_page. rewrite (bind_step _ _ _ page (s, page)) by reflexivity.
    rewrite Hflag. reflexivity.
Qed.
End WalProperties.

(** The inputs from which the IVs of encryption are derived are
    all different: two pages of relations have different HKDF info strings, two
    pages of the WAL have, and the info string of a relation page is never that
    of a WAL page (and the HKDF labels differ too). *)
Theorem iv_inputs_distinct :
  (forall id id', wf_page_id id = true -> wf_page_id id' = true ->
     page_info id = page_info id' -> id = id') /\
  (forall segno offset segno' offset',
     0 <= segno < 2 ^ 64 -> 0 <= offset < 2 ^ 32 ->
     0 <= segno' < 2 ^ 64 -> 0 <= offset' < 2 ^ 32 ->
     wal_info segno offset = wal_info segno' offset' ->
     segno = segno' /\ offset = offset') /\
  (forall id segno offset, page_info id <> wal_info segno offset) /\
  TDE_PAGE_HKDF_LABEL <> TDE_WAL_HKDF_LABEL.
Proof.
  split; [exact page_info_inj|]. split; [|split].
  - intros a b c d Ha Hb Hc Hd E. unfold wal_info in E.
    apply app_inj_1 in E as [E1 E2]; [|rewrite !length_le_bytes; reflexivity].
    split; [apply (le_bytes_inj 8)|apply (le_bytes_inj 4)]; auto.
  - intros id a b E. apply (f_equal length) in E. unfold page_info, wal_info in E.
    len_solve.
  - discriminate.
Qed.

Import Toy.

Definition sample_wal_page : bytes := [22; 209; 2; 0] ++ zeros 40 ++ [9; 8; 7].

Lemma wal_page_roundtrip_witness :
  exists page', tde_encrypt_wal_page 3 8192 (sample_server, sample_wal_page)
                = (Ok tt, (sample_server, page')) /\
    tde_decrypt_wal_page 3 8192 (sample_server, page')
    = (Ok tt, (sample_server, sample_wal_page)).
Proof.
  destruct (wal_page_roundtrip 3 8192 sample_server sample_wal_page (sample_entry 0 true))
    as (page' & He & _ & _ & _ & _ & Hd & _);
    [exact sample_ready|reflexivity|apply Nat.ltb_lt; reflexivity|reflexivity..|].
  exists page'. split; [exact He|exact Hd].
Defined.
