(* ===== verification/BufMgr.v ===== *)
(** * The buffer manager's encryption hooks (src/backend/storage/buffer/bufmgr.c)

    Where pages meet the disk: [FlushBuffer] computes the checksum and
    encrypts a private copy, [WaitReadBuffers] decrypts and verifies.  The
    buffers are kept apart (the shared page, the checksum copy of bufpage.c and
    the encryption copy), so that which one is written is part of the model. *)
From Stdlib Require Import ZArith Lia Bool String List.
From stdpp Require Import base gmap list strings.
From S2P Require Import Prelude CryptoIface Env KeyCache PqcRegistry Server TdePage.
Import ListNotations.
Local Open Scope Z_scope.
Local Open Scope pg_scope.

(** ** Page headers and checksums *)

Definition BLCKSZ : Z := 8192.

Definition get16 (off : nat) (page : bytes) : Z := le_val (sub off 2 page).
Definition pd_checksum := get16 8.
Definition pd_flags := get16 10.
Definition pd_lower := get16 12.
Definition pd_upper := get16 14.
Definition pd_special := get16 16.

Definition set_pd_checksum (v : Z) (page : bytes) : bytes :=
  firstn 8 page ++ le_bytes 2 v ++ skipn 10 page.

Definition PageIsNew (page : bytes) : bool := pd_upper page =? 0.

Definition PD_VALID_FLAG_BITS : Z := 7.

(** *** src/include/storage/checksum_impl.h *)

Definition FNV_PRIME : Z := 16777619.

Definition checksumBaseOffsets : list Z :=
  [0x5B1F36E9; 0xB8525960; 0x02AB50AA; 0x1DE66D2A;
   0x79FF467A; 0x9BB9F8A3; 0x217E7CD2; 0x83E13D2C;
   0xF8D4474F; 0xE39EB970; 0x42C6AE16; 0x993216FA;
   0x7B093B5D; 0x98DAFF3C; 0xF718902A; 0x0B1C9CDB;
   0xE58F764B; 0x187636BC; 0x5D7B3BB1; 0xE73DE7DE;
   0x92BEC979; 0xCCA6C0B2; 0x304A0979; 0x85AA43D4;
   0x783125BB; 0x6CA8EAA2; 0xE407EAC6; 0x4B5CFC3E;
   0x9FBF8C76; 0x15CA20BE; 0xF2CA9FD3; 0x959BD756].

Definition CHECKSUM_COMP (checksum value : Z) : Z :=
  let tmp := Z.lxor checksum value in
  Z.lxor (u32 (tmp * FNV_PRIME)) (Z.shiftr tmp 17).

(** One row of 32 words into the 32 running sums. *)
Fixpoint checksum_row (sums : list Z) (data : bytes) : list Z :=
  match sums with
  | [] => []
  | s :: sums' => CHECKSUM_COMP s (le_val (firstn 4 data)) :: checksum_row sums' (skipn 4 data)
  end.

Fixpoint checksum_rows (rows : nat) (sums : list Z) (data : bytes) : list Z :=
  match rows with
  | O => sums
  | S rows' => checksum_rows rows' (checksum_row sums data) (skipn 128 data)
  end.

Definition pg_checksum_block (page : bytes) : Z :=
  let sums := checksum_rows (Z.to_nat (BLCKSZ / 128)) checksumBaseOffsets page in
  let sums := map (fun s => CHECKSUM_COMP s 0) (map (fun s => CHECKSUM_COMP s 0) sums) in
  fold_left Z.lxor sums 0.

Definition pg_checksum_page (page : bytes) (blkno : Z) : Z :=
  let checksum := Z.lxor (pg_checksum_block (set_pd_checksum 0 page)) blkno in
  u16 (checksum mod 65535 + 1).

(** *** src/backend/storage/page/bufpage.c *)

(** The parameters the code consults: data checksums enabled, the two settings
    that tolerate damage, and the flag of the read. *)
Record bufcfg := mkBufcfg {
  DataChecksumsEnabled : bool;
  ignore_checksum_failure : bool;
  zero_damaged_pages : bool;
  read_zero_on_error : bool
}.

Definition header_sane (page : bytes) : bool :=
  (Z.land (pd_flags page) (Z.lnot PD_VALID_FLAG_BITS) =? 0) &&
  (pd_lower page <=? pd_upper page) && (pd_upper page <=? pd_special page) &&
  (pd_special page <=? BLCKSZ) && (pd_special page =? MAXALIGN (pd_special page)).

Definition all_zeroes (page : bytes) : bool := forallb (fun b => b =? 0) page.

Definition PageIsVerifiedExtended (cfg : bufcfg) (page : bytes) (blkno : Z) : M env bool :=
  let isnew := PageIsNew page in
  let checksum_failure :=
    negb isnew && DataChecksumsEnabled cfg &&
    negb (pg_checksum_page page blkno =? pd_checksum page) in
  let sane := negb isnew && header_sane page in
  if sane && negb checksum_failure then ret true
  else if all_zeroes page then ret true
  else if checksum_failure then
    do! elog WARNING "page verification failed" in
    ret (sane && ignore_checksum_failure cfg)
  else ret false.

(** The buffers of a flush. *)
Record bufmem := mkBufmem {
  bufBlock : bytes;
  pageCopy : bytes;
  tde_page_copy : bytes
}.

Inductive page_ptr := P_bufBlock | P_pageCopy | P_tde_page_copy.

Definition deref (p : page_ptr) (m : bufmem) : bytes :=
  match p with
  | P_bufBlock => bufBlock m
  | P_pageCopy => pageCopy m
  | P_tde_page_copy => tde_page_copy m
  end.

Definition assign (p : page_ptr) (b : bytes) (m : bufmem) : bufmem :=
  match p with
  | P_bufBlock => mkBufmem b (pageCopy m) (tde_page_copy m)
  | P_pageCopy => mkBufmem (bufBlock m) b (tde_page_copy m)
  | P_tde_page_copy => mkBufmem (bufBlock m) (pageCopy m) b
  end.

Definition PageSetChecksumCopy (cfg : bufcfg) (blkno : Z) : M bufmem page_ptr :=
  let! page := gets bufBlock in
  if PageIsNew page || negb (DataChecksumsEnabled cfg) then ret P_bufBlock
  else
    do! modify (assign P_pageCopy page) in
    do! modify (fun m => assign P_pageCopy
          (set_pd_checksum (pg_checksum_page (pageCopy m) blkno) (pageCopy m)) m) in
    ret P_pageCopy.

(** ** The hooks *)

Section Hooks.
  Context `{Crypto}.

Definition fkeysL : lens (server * bufmem) shmem := composeL fstL keysL.

(** The server with the page a pointer points to. *)
Definition ptrL (p : page_ptr) : lens (server * bufmem) (server * bytes) :=
  Lens (fun s => (fst s, deref p (snd s)))
       (fun t s => (fst t, assign p (snd t) (snd s))).

(** The part of [FlushBuffer] between the checksum and [smgrwrite]: the bytes
    handed to the storage manager. *)
Definition FlushBuffer (cfg : bufcfg) (id : page_id) : M (server * bufmem) bytes :=
  let! bufToWrite := zoom sndL (PageSetChecksumCopy cfg (pg_blockNum id)) in
  let! enabled := gets (fun s => tde_enabled (sv_guc (fst s))) in
  if negb enabled then gets (fun s => deref bufToWrite (snd s))
  else
    let! found := zoom fkeysL (tde_keycache_lookup (pg_spcOid id)) in
    match found with
    | None => gets (fun s => deref bufToWrite (snd s))
    | Some _ =>
        let! target :=
          match bufToWrite with
          | P_bufBlock =>
              do! zoom sndL (modify (fun m => assign P_tde_page_copy (bufBlock m) m)) in
              ret P_tde_page_copy
          | p => ret p
          end in
        do! zoom (ptrL target) (tde_encrypt_page id) in
        gets (fun s => deref target (snd s))
    end.

(** The part of [WaitReadBuffers] that follows the read of one block into the
    buffer: decryption, verification, and what is done with a bad page. *)
Definition WaitReadBuffers (cfg : bufcfg) (id : page_id) : M (server * bytes) unit :=
  let! enabled := gets (fun s => tde_enabled (sv_guc (fst s))) in
  let! page := gets snd in
  do! (if enabled && negb (PageIsNew page) then
         let! found := zoom pkeysL (tde_keycache_lookup (pg_spcOid id)) in
         match found with
         | Some _ => tde_decrypt_page id
         | None => ret tt
         end
       else ret tt) in
  let! page' := gets snd in
  let! ok := zoom penvL (PageIsVerifiedExtended cfg page' (pg_blockNum id)) in
  if ok then ret tt
  else if read_zero_on_error cfg || zero_damaged_pages cfg then
    do! zoom penvL (elog WARNING "invalid page; zeroing out page") in
    zoom sndL (modify (fun pg => zeros (length pg)))
  else raise ERRCODE_DATA_CORRUPTED.
End Hooks.

(** ** Lemmas *)

Arguments FlushBuffer {_} cfg id s : simpl never.
Arguments WaitReadBuffers {_} cfg id s : simpl never.
Arguments pg_checksum_page : simpl never.

Lemma get16_set_checksum_other off v page :
  (10 <= off)%nat -> (10 <= length page)%nat ->
  get16 off (set_pd_checksum v page) = get16 off page.
Proof.
  intros Ho Hl. unfold get16, set_pd_checksum, sub.
  replace (skipn off (firstn 8 page ++ le_bytes 2 v ++ skipn 10 page)) with (skipn off page);
    [reflexivity|].
  rewrite !skipn_app, (skipn_all2 (firstn 8 page)), (skipn_all2 (le_bytes 2 v)) by len_solve.
  autorewrite with len. rewrite skipn_skipn, !app_nil_l. f_equal. lia.
Qed.

Lemma pd_checksum_set v page :
  (10 <= length page)%nat -> 0 <= v < 2 ^ 16 -> pd_checksum (set_pd_checksum v page) = v.
Proof.
  intros Hl Hv. unfold pd_checksum, get16, set_pd_checksum.
  rewrite (sub_app_r 0 2 _ _ 8) by len_solve. rewrite sub_0_app by len_solve.
  apply le_val_le_bytes. exact Hv.
Qed.

Lemma length_set_pd_checksum v page :
  (10 <= length page)%nat -> length (set_pd_checksum v page) = length page.
Proof. intros. unfold set_pd_checksum. len_solve. Qed.

Lemma set_set_pd_checksum v w page :
  (10 <= length page)%nat ->
  set_pd_checksum v (set_pd_checksum w page) = set_pd_checksum v page.
Proof.
  intros Hl. unfold set_pd_checksum at 1. unfold set_pd_checksum at 1 2.
  rewrite firstn_app_exact by len_solve. unfold set_pd_checksum. do 2 f_equal.
  rewrite app_assoc. apply skipn_app_exact. len_solve.
Qed.

(** The page [PageSetChecksumCopy] prepares for the disk. *)
Definition checksummed (cfg : bufcfg) (blkno : Z) (page : bytes) : bytes :=
  if PageIsNew page || negb (DataChecksumsEnabled cfg) then page
  else set_pd_checksum (pg_checksum_page page blkno) page.

Lemma get16_checksummed cfg blkno page off :
  (10 <= off)%nat -> (10 <= length page)%nat ->
  get16 off (checksummed cfg blkno page) = get16 off page.
Proof.
  intros. unfold checksummed. destruct (_ || _); [reflexivity|].
  apply get16_set_checksum_other; auto.
Qed.

Lemma length_checksummed cfg blkno page :
  (10 <= length page)%nat -> length (checksummed cfg blkno page) = length page.
Proof.
  intros. unfold checksummed. destruct (_ || _); auto using length_set_pd_checksum.
Qed.

Lemma PageIsNew_checksummed cfg blkno page :
  (10 <= length page)%nat -> PageIsNew (checksummed cfg blkno page) = PageIsNew page.
Proof. intros. unfold PageIsNew, pd_upper. rewrite get16_checksummed by lia. reflexivity. Qed.

Lemma header_sane_checksummed cfg blkno page :
  (10 <= length page)%nat -> header_sane (checksummed cfg blkno page) = header_sane page.
Proof.
  intros. unfold header_sane, pd_flags, pd_lower, pd_upper, pd_special.
  rewrite !get16_checksummed by lia. reflexivity.
Qed.

Lemma pg_checksum_range page blkno : 0 <= pg_checksum_page page blkno < 2 ^ 16.
Proof. unfold pg_checksum_page, u16. apply Z.mod_pos_bound. lia. Qed.

Lemma skipn_checksummed cfg blkno page n :
  (10 <= n)%nat -> (10 <= length page)%nat ->
  skipn n (checksummed cfg blkno page) = skipn n page.
Proof.
  intros Hn Hl. unfold checksummed. destruct (_ || _); [reflexivity|].
  unfold set_pd_checksum. rewrite !skipn_app.
  rewrite (skipn_all2 (firstn 8 _)), (skipn_all2 (le_bytes 2 _)) by len_solve.
  autorewrite with len. rewrite skipn_skipn, !app_nil_l. f_equal. lia.
Qed.

(** A page prepared for the disk passes verification. *)
Lemma verify_checksummed cfg blkno page e :
  (10 <= length page)%nat -> PageIsNew page = false -> header_sane page = true ->
  PageIsVerifiedExtended cfg (checksummed cfg blkno page) blkno e = (Ok true, e).
Proof.
  intros Hl Hnew Hsane. unfold PageIsVerifiedExtended.
  rewrite PageIsNew_checksummed, header_sane_checksummed by lia. rewrite Hnew, Hsane.
  cbn [negb andb]. unfold checksummed. rewrite Hnew. cbn [orb].
  destruct (DataChecksumsEnabled cfg) eqn:Hc; cbn [negb andb]; [|reflexivity].
  rewrite pd_checksum_set by (auto using pg_checksum_range).
  replace (pg_checksum_page (set_pd_checksum _ page) blkno) with (pg_checksum_page page blkno).
  - rewrite Z.eqb_refl. reflexivity.
  - unfold pg_checksum_page. rewrite set_set_pd_checksum by lia. reflexivity.
Qed.

Section HookLemmas.
  Context `{CL : CryptoLaws}.

Lemma sub_crypt_payload tdek id page off n :
  (off + n <= 24)%nat -> (24 <= length page)%nat ->
  sub off n (crypt_payload tdek id page) = sub off n page.
Proof.
  intros Hn Hlen. unfold sub. rewrite !firstn_skipn_comm. f_equal. unfold crypt_payload.
  rewrite firstn_app. unfold TDE_PAGE_HEADER_SIZE.
  replace (off + n - length _)%nat with 0%nat by len_solve.
  rewrite firstn_O, app_nil_r, firstn_firstn. f_equal. lia.
Qed.

Lemma PageIsNew_crypt tdek id page :
  (24 <= length page)%nat -> PageIsNew (crypt_payload tdek id page) = PageIsNew page.
Proof.
  intros. unfold PageIsNew, pd_upper, get16. rewrite sub_crypt_payload by lia. reflexivity.
Qed.

Lemma flush_lookup s m oid :
  keys_ready s ->
  zoom fkeysL (tde_keycache_lookup oid) (s, m) = (Ok (tablespace_key s oid), (s, m)).
Proof.
  intros Hk. pose proof (lookup_ready s [] oid Hk) as Hr. unfold zoom in *.
  change (view pkeysL (s, [])) with (sv_keys s) in Hr.
  change (view fkeysL (s, m)) with (sv_keys s).
  destruct (tde_keycache_lookup _ _) as [o t]. injection Hr as -> Hr.
  cbn in *. rewrite Hr. reflexivity.
Qed.

Lemma flush_encrypt id s m p entry :
  keys_ready s -> tablespace_key s (pg_spcOid id) = Some entry -> no_faults (sv_env s) ->
  (TDE_PAGE_HEADER_SIZE < length (deref p m))%nat ->
  zoom (ptrL p) (tde_encrypt_page id) (s, m)
  = (Ok tt, (s, assign p (crypt_payload (key entry) id (deref p m)) m)).
Proof.
  intros Hk He Hnf Hp. unfold zoom, tde_encrypt_page. cbn [view ptrL fst snd].
  rewrite (pg_try_ok _ _ _ _ _ (page_crypt_no_faults id s _ entry Hk He Hp Hnf)).
  reflexivity.
Qed.

(** What a flush of an encrypted tablespace hands to the storage manager when
    nothing fails. *)
Lemma flush_no_faults cfg id s mem entry :
  tde_enabled (sv_guc s) = true -> keys_ready s ->
  tablespace_key s (pg_spcOid id) = Some entry -> no_faults (sv_env s) ->
  (TDE_PAGE_HEADER_SIZE < length (bufBlock mem))%nat ->
  exists mem', FlushBuffer cfg id (s, mem) =
    (Ok (crypt_payload (key entry) id (checksummed cfg (pg_blockNum id) (bufBlock mem))),
     (s, mem')).
Proof.
  intros Hen Hk He Hnf Hlen. unfold FlushBuffer. unfold TDE_PAGE_HEADER_SIZE in Hlen.
  pose proof (fun m => flush_lookup s m (pg_spcOid id) Hk) as Hl. rewrite He in Hl.
  destruct (PageIsNew (bufBlock mem) || negb (DataChecksumsEnabled cfg)) eqn:Hch.
  - rewrite (bind_step _ _ _ P_bufBlock (s, mem)).
    2:{ unfold PageSetChecksumCopy, zoom. cbn. rewrite Hch. destruct mem; reflexivity. }
    rewrite (bind_step _ _ _ true (s, mem)) by (cbn; rewrite Hen; reflexivity). cbn [negb].
    mrun (Hl mem). set (mem1 := assign P_tde_page_copy (bufBlock mem) mem).
    rewrite (bind_step _ _ _ P_tde_page_copy (s, mem1)) by reflexivity.
    mrun (flush_encrypt id s mem1 P_tde_page_copy entry Hk He Hnf Hlen).
    eexists. unfold checksummed. rewrite Hch. reflexivity.
  - set (mem1 := assign P_pageCopy (checksummed cfg (pg_blockNum id) (bufBlock mem)) mem).
    rewrite (bind_step _ _ _ P_pageCopy (s, mem1)).
    2:{ unfold PageSetChecksumCopy, zoom, mem1, checksummed. cbn. rewrite Hch. reflexivity. }
    rewrite (bind_step _ _ _ true (s, mem1)) by (cbn; rewrite Hen; reflexivity). cbn [negb].
    mrun (Hl mem1). rewrite (bind_step _ _ _ P_pageCopy (s, mem1)) by reflexivity.
    assert (Hp : (TDE_PAGE_HEADER_SIZE < length (deref P_pageCopy mem1))%nat).
    { cbn. rewrite length_checksummed; unfold TDE_PAGE_HEADER_SIZE; lia. }
    mrun (flush_encrypt id s mem1 P_pageCopy entry Hk He Hnf Hp). eexists. reflexivity.
Qed.

(** What a flush writes when the tablespace has no active key. *)
Lemma flush_no_key cfg id s mem :
  keys_ready s -> tablespace_key s (pg_spcOid id) = None ->
  exists mem', FlushBuffer cfg id (s, mem) =
    (Ok (checksummed cfg (pg_blockNum id) (bufBlock mem)), (s, mem')).
Proof.
  intros Hk He. unfold FlushBuffer.
  pose proof (fun m => flush_lookup s m (pg_spcOid id) Hk) as Hl. rewrite He in Hl.
  destruct (PageIsNew (bufBlock mem) || negb (DataChecksumsEnabled cfg)) eqn:Hch.
  - rewrite (bind_step _ _ _ P_bufBlock (s, mem)).
    2:{ unfold PageSetChecksumCopy, zoom. cbn. rewrite Hch. destruct mem; reflexivity. }
    rewrite (bind_step _ _ _ (tde_enabled (sv_guc s)) (s, mem)) by reflexivity.
    unfold checksummed. rewrite Hch.
    destruct (tde_enabled (sv_guc s)); cbn [negb]; [mrun (Hl mem)|]; eexists; reflexivity.
  - set (mem1 := assign P_pageCopy (checksummed cfg (pg_blockNum id) (bufBlock mem)) mem).
    rewrite (bind_step _ _ _ P_pageCopy (s, mem1)).
    2:{ unfold PageSetChecksumCopy, zoom, mem1, checksummed. cbn. rewrite Hch. reflexivity. }
    rewrite (bind_step _ _ _ (tde_enabled (sv_guc s)) (s, mem1)) by reflexivity.
    destruct (tde_enabled (sv_guc s)); cbn [negb]; [mrun (Hl mem1)|]; eexists; reflexivity.
Qed.
End HookLemmas.

(** ** Properties *)

Section HookProperties.
  Context `{CL : CryptoLaws}.

(** A flush never changes the page in the shared buffer pool,
    however it ends: the checksum and the ciphertext go to private copies. *)
Theorem flush_keeps_shared_page cfg id s mem :
  bufBlock (snd (snd (FlushBuffer cfg id (s, mem)))) = bufBlock mem.
Proof.
  set (I := fun x : server * bufmem => bufBlock (snd x) = bufBlock mem).
  assert (Hkeep : forall p, p <> P_bufBlock ->
    preserves I (do! zoom (ptrL p) (tde_encrypt_page id) in gets (fun s => deref p (snd s)))).
  { intros p Hp. msteps. apply preserves_zoom_frame. intros t [s0 m0] Hm.
    destruct p; [contradiction|exact Hm..]. }
  assert (H0 : preserves I (FlushBuffer cfg id)).
  { unfold FlushBuffer, PageSetChecksumCopy. apply preserves_bind; [|intros p].
    { intros [s0 m0] Hm. unfold zoom. cbn in *. destruct (_ || _); cbn; auto. }
    apply preserves_bind; [auto with pg|intros en]. destruct (negb en); [auto with pg|].
    apply preserves_bind; [|intros [e|]; [|auto with pg]].
    { apply preserves_zoom_frame. intros ? [? ?] Hm. exact Hm. }
    destruct p; rewrite ?bind_assoc, ?bind_ret_l; try (apply Hkeep; discriminate).
    apply preserves_bind; [|intros _; rewrite bind_ret_l; apply Hkeep; discriminate].
    apply (preserves_zoom sndL (fun m => bufBlock m = bufBlock mem)).
    apply preserves_modify. auto. }
  exact (H0 (s, mem) eq_refl).
Qed.

(** C19: roundtrip.  For an initialised page with a sane header in a tablespace
    with an active key: when no library call fails, the flush writes a
    ciphertext of the page's payload, and reading those bytes back yields the
    flushed page (with its checksum, when checksums are enabled), which passes
    verification.  The checksum is computed before encryption and checked after
    decryption. *)
Theorem flush_read_roundtrip cfg id s mem entry :
  tde_enabled (sv_guc s) = true -> keys_ready s ->
  tablespace_key s (pg_spcOid id) = Some entry -> no_faults (sv_env s) ->
  (TDE_PAGE_HEADER_SIZE < length (bufBlock mem))%nat ->
  PageIsNew (bufBlock mem) = false -> header_sane (bufBlock mem) = true ->
  exists disk mem', FlushBuffer cfg id (s, mem) = (Ok disk, (s, mem')) /\
    skipn TDE_PAGE_HEADER_SIZE disk =
      ctr_crypt (key entry) (page_iv (key entry) id)
        (skipn TDE_PAGE_HEADER_SIZE (bufBlock mem)) /\
    WaitReadBuffers cfg id (s, disk)
    = (Ok tt, (s, checksummed cfg (pg_blockNum id) (bufBlock mem))).
Proof.
  intros Hen Hk He Hnf Hlen Hnew Hsane.
  destruct (flush_no_faults cfg id s mem entry Hen Hk He Hnf Hlen) as (mem' & Hf).
  unfold TDE_PAGE_HEADER_SIZE in Hlen.
  set (w := checksummed cfg (pg_blockNum id) (bufBlock mem)) in *.
  assert (Hw : length w = length (bufBlock mem)) by (apply length_checksummed; lia).
  do 2 eexists. split; [exact Hf|]. split.
  { unfold crypt_payload. rewrite skipn_app_exact by (unfold TDE_PAGE_HEADER_SIZE; len_solve).
    f_equal. apply skipn_checksummed; unfold TDE_PAGE_HEADER_SIZE; lia. }
  set (ct := crypt_payload (key entry) id w).
  assert (Hct : length ct = length w) by apply length_crypt_payload.
  assert (HN : PageIsNew ct = false).
  { unfold ct. rewrite PageIsNew_crypt by lia. unfold w.
    rewrite PageIsNew_checksummed by lia. exact Hnew. }
  unfold WaitReadBuffers.
  rewrite (bind_step _ _ _ true (s, ct)) by (cbn; rewrite Hen; reflexivity).
  rewrite (bind_step _ _ _ ct (s, ct)) by reflexivity. rewrite HN. cbn [negb andb].
  rewrite (bind_step _ _ _ tt (s, w)).
  2:{ pose proof (lookup_ready s ct (pg_spcOid id) Hk) as Hl. rewrite He in Hl. mrun Hl.
      unfold tde_decrypt_page. apply pg_try_ok. unfold TDE_PAGE_HEADER_SIZE in *.
      rewrite (page_crypt_no_faults id s ct entry Hk He) by (unfold TDE_PAGE_HEADER_SIZE; auto; lia).
      unfold ct. rewrite crypt_payload_involutive; [reflexivity|].
      unfold TDE_PAGE_HEADER_SIZE. lia. }
  rewrite (bind_step _ _ _ w (s, w)) by reflexivity.
  rewrite (bind_step _ _ _ true (s, w)); [reflexivity|]. unfold zoom.
  rewrite (verify_checksummed cfg (pg_blockNum id) (bufBlock mem)) by (auto; lia).
  rewrite over_view. reflexivity.
Qed.

(** The read side does not decrypt a page whose header says it is
    new (pd_upper = 0), but the flush encrypts it: a new page written to an
    encrypted tablespace comes back undecrypted, and unless its ciphertext is
    all zeroes the read raises a data corruption error. *)
Theorem new_page_not_readable cfg id s mem entry :
  tde_enabled (sv_guc s) = true -> keys_ready s ->
  tablespace_key s (pg_spcOid id) = Some entry -> no_faults (sv_env s) ->
  (TDE_PAGE_HEADER_SIZE < length (bufBlock mem))%nat ->
  PageIsNew (bufBlock mem) = true ->
  read_zero_on_error cfg || zero_damaged_pages cfg = false ->
  exists disk mem', FlushBuffer cfg id (s, mem) = (Ok disk, (s, mem')) /\
    disk = crypt_payload (key entry) id (bufBlock mem) /\
    WaitReadBuffers cfg id (s, disk) =
      ((if all_zeroes disk then Ok tt else Err ERRCODE_DATA_CORRUPTED), (s, disk)).
Proof.
  intros Hen Hk He Hnf Hlen Hnew Hz.
  destruct (flush_no_faults cfg id s mem entry Hen Hk He Hnf Hlen) as (mem' & Hf).
  unfold TDE_PAGE_HEADER_SIZE in Hlen.
  unfold checksummed in Hf. rewrite Hnew in Hf. cbn [orb] in Hf.
  do 2 eexists. split; [exact Hf|]. split; [reflexivity|].
  set (ct := crypt_payload (key entry) id (bufBlock mem)).
  assert (HN : PageIsNew ct = true).
  { unfold ct. rewrite PageIsNew_crypt by lia. exact Hnew. }
  unfold WaitReadBuffers.
  rewrite (bind_step _ _ _ true (s, ct)) by (cbn; rewrite Hen; reflexivity).
  rewrite (bind_step _ _ _ ct (s, ct)) by reflexivity.
  rewrite HN. cbn [negb andb]. rewrite (bind_step _ _ _ tt (s, ct)) by reflexivity.
  rewrite (bind_step _ _ _ ct (s, ct)) by reflexivity.
  rewrite (bind_step _ _ _ (all_zeroes ct) (s, ct)).
  - destruct (all_zeroes ct); [reflexivity|]. rewrite Hz. reflexivity.
  - unfold PageIsVerifiedExtended, zoom. rewrite HN. cbn [negb andb].
    destruct (all_zeroes ct); cbv beta iota; unfold ret; rewrite over_view; reflexivity.
Qed.
End HookProperties.

(** ** Witnesses *)

Import Toy.

(** A page header with pd_lower = 24 and pd_special = 40. *)
Definition sample_header (upper : Z) : bytes :=
  zeros 12 ++ le_bytes 2 24 ++ le_bytes 2 upper ++ le_bytes 2 40 ++ zeros 6.

Definition sample_mem (upper : Z) : bufmem :=
  mkBufmem (sample_header upper ++ map Z.of_nat (seq 1 16)) [] [].

Definition sample_cfg : bufcfg := mkBufcfg true false false false.

Lemma flush_read_roundtrip_witness :
  exists disk mem', FlushBuffer sample_cfg sample_page_id (sample_server, sample_mem 40)
                    = (Ok disk, (sample_server, mem')) /\
    WaitReadBuffers sample_cfg sample_page_id (sample_server, disk)
    = (Ok tt, (sample_server, checksummed sample_cfg 7 (bufBlock (sample_mem 40)))).
Proof.
  destruct (flush_read_roundtrip sample_cfg sample_page_id sample_server (sample_mem 40)
              (sample_entry 5 true)) as (disk & mem' & Hf & _ & Hr);
    [reflexivity|exact sample_ready|exact sample_key|reflexivity|apply Nat.ltb_lt; reflexivity
    |reflexivity|reflexivity|].
  exists disk, mem'. split; [exact Hf|exact Hr].
Defined.

Lemma new_page_not_readable_witness :
  exists disk mem', FlushBuffer sample_cfg sample_page_id (sample_server, sample_mem 0)
                    = (Ok disk, (sample_server, mem')) /\
    WaitReadBuffers sample_cfg sample_page_id (sample_server, disk)
    = (Err ERRCODE_DATA_CORRUPTED, (sample_server, disk)).
Proof.
  destruct (new_page_not_readable sample_cfg sample_page_id sample_server (sample_mem 0)
              (sample_entry 5 true)) as (disk & mem' & Hf & Hd & Hr);
    [reflexivity|exact sample_ready|exact sample_key|reflexivity|apply Nat.ltb_lt; reflexivity
    |reflexivity|reflexivity|].
  exists disk, mem'. split; [exact Hf|]. subst disk. exact Hr.
Defined.
