(* ===== verification/KeyProvider.v ===== *)
(** * The source of the unwrapping key (src/backend/crypto/tde/tde_key_provider.c)

    The hex-encoded ML-KEM secret key comes from an environment variable, a
    file or the output of a command; surrounding white space is stripped from
    the last two. *)
From Stdlib Require Import ZArith Lia Bool String List.
From stdpp Require Import base gmap list strings.
From S2P Require Import Prelude CryptoIface Env KeyCache PqcRegistry Server.
Import ListNotations.
Local Open Scope Z_scope.
Local Open Scope pg_scope.

Definition TDE_MAX_HEX_KEY_LEN : Z := 8192.

Definition TDE_KEY_PROVIDER_ENV : Z := 0.
Definition TDE_KEY_PROVIDER_FILE : Z := 1.
Definition TDE_KEY_PROVIDER_COMMAND : Z := 2.

(** Blank, tab, newline and carriage return. *)
Definition is_ws (c : Z) : bool := (c =? 32) || (c =? 9) || (c =? 10) || (c =? 13).

Fixpoint skip_ws (str : bytes) : bytes :=
  match str with
  | c :: str' => if is_ws c then skip_ws str' else str
  | [] => []
  end.

(** The loop that moves [end] down from index [e]. *)
Fixpoint trim_end (str : bytes) (e : nat) : nat :=
  match e with
  | O => O
  | S e' => if is_ws (nth e str 0) then trim_end str e' else e
  end.

Definition strip_whitespace (str : bytes) : bytes :=
  let s := skip_ws str in
  match s with
  | [] => []
  | _ => firstn (S (trim_end s (length s - 1))) s
  end.

Definition tde_key_provider_fetch_env : M env bytes :=
  let! hex := getenv "FORTRESSQL_KEM_SECRET_KEY" in
  match hex with
  | None => raise ERRCODE_INVALID_PARAMETER_VALUE
  | Some h => if (length h =? 0)%nat then raise ERRCODE_INVALID_PARAMETER_VALUE else ret h
  end.

(** Group or world read permission: S_IRGRP | S_IROTH. *)
Definition world_readable (mode : Z) : bool := negb (Z.land mode 36 =? 0).

(** What both sources do with the bytes they read. *)
Definition trimmed_key (buf : bytes) (empty_err blank_err : errcode) : M env bytes :=
  if (length buf =? 0)%nat then raise empty_err
  else
    let trimmed := strip_whitespace (cstring buf) in
    if (length trimmed =? 0)%nat then raise blank_err else ret trimmed.

Definition tde_key_provider_fetch_file (tde_key_file : option string) : M env bytes :=
  match tde_key_file with
  | None | Some EmptyString => raise ERRCODE_INVALID_PARAMETER_VALUE
  | Some path =>
      let! st := stat path in
      match st with
      | None => raise ERRCODE_FILE_ACCESS
      | Some f =>
          do! when (world_readable (f_mode f))
                (elog WARNING "TDE key file has group or world read permission") in
          let! fp := fopen_read path in
          match fp with
          | None => raise ERRCODE_FILE_ACCESS
          | Some stream =>
              let! buf := fread_upto TDE_MAX_HEX_KEY_LEN stream in
              trimmed_key buf ERRCODE_DATA_CORRUPTED ERRCODE_DATA_CORRUPTED
          end
      end
  end.

(** [popen] runs the command in a shell: an unknown one exits with 127. *)
Definition popen (command : string) : M env (option (bytes * Z)) :=
  let! ok := attempt in
  if ok then gets (fun e => Some (default ([], 127) (cmds e !! command))) else ret None.

Definition tde_key_provider_fetch_command (tde_key_command : option string) : M env bytes :=
  match tde_key_command with
  | None | Some EmptyString => raise ERRCODE_INVALID_PARAMETER_VALUE
  | Some command =>
      do! elog LOG "executing TDE key command" in
      let! fp := popen command in
      match fp with
      | None => raise ERRCODE_FILE_ACCESS
      | Some (stream, pclose_rc) =>
          let! buf := fread_upto TDE_MAX_HEX_KEY_LEN stream in
          if negb (pclose_rc =? 0) then raise ERRCODE_EXTERNAL_ROUTINE_EXCEPTION
          else trimmed_key buf ERRCODE_EXTERNAL_ROUTINE_EXCEPTION
                 ERRCODE_EXTERNAL_ROUTINE_EXCEPTION
      end
  end.

Definition tde_key_provider_fetch (g : guc) : M env bytes :=
  if tde_key_provider g =? TDE_KEY_PROVIDER_ENV then tde_key_provider_fetch_env
  else if tde_key_provider g =? TDE_KEY_PROVIDER_FILE
       then tde_key_provider_fetch_file (tde_key_file g)
  else if tde_key_provider g =? TDE_KEY_PROVIDER_COMMAND
       then tde_key_provider_fetch_command (tde_key_command g)
  else raise ERRCODE_INVALID_PARAMETER_VALUE.

(** ** Lemmas *)

Lemma trim_end_le str e : (trim_end str e <= e)%nat.
Proof. induction e as [|e IH]; cbn; [lia|]. destruct (is_ws _); lia. Qed.

(** The loop stops at a character that stays, or at the start. *)
Lemma trim_end_stop str e :
  trim_end str e = 0%nat \/ is_ws (nth (trim_end str e) str 0) = false.
Proof.
  induction e as [|e IH]; [left; reflexivity|]. cbn [trim_end].
  destruct (is_ws (nth (S e) str 0)) eqn:Hw; [exact IH|]. right. exact Hw.
Qed.

Lemma skip_ws_head str :
  match skip_ws str with [] => True | c :: _ => is_ws c = false end.
Proof. induction str as [|c str IH]; cbn; auto. destruct (is_ws c) eqn:Hw; auto. Qed.

Lemma skip_ws_app ws str :
  forallb is_ws ws = true -> skip_ws (ws ++ str) = skip_ws str.
Proof.
  induction ws as [|c ws IH]; cbn; auto. rewrite andb_true_iff. intros [-> Hws]. auto.
Qed.

(** The loop walks back over trailing white space. *)
Lemma trim_end_app core ws n :
  forallb is_ws ws = true -> (n <= length ws)%nat -> core <> [] ->
  is_ws (List.last core 0) = false ->
  trim_end (core ++ ws) (length core - 1 + n) = (length core - 1)%nat.
Proof.
  intros Hws Hn Hc Hlast. induction n as [|n IH].
  - rewrite Nat.add_0_r. destruct (length core - 1)%nat as [|m] eqn:Hm; [reflexivity|].
    cbn [trim_end]. rewrite app_nth1 by lia.
    replace (nth (S m) core 0) with (List.last core 0); [rewrite Hlast; reflexivity|].
    destruct core as [|x core _] using rev_ind; [contradiction|].
    rewrite length_app in Hm; cbn in Hm.
    rewrite last_last, app_nth2 by lia.
    replace (S m - length core)%nat with 0%nat by lia. reflexivity.
  - replace (length core - 1 + S n)%nat with (S (length core - 1 + n)) by lia.
    cbn [trim_end]. rewrite app_nth2 by (destruct core; [contradiction|cbn; lia]).
    rewrite forallb_forall in Hws.
    rewrite Hws; [apply IH; lia|]. apply nth_In. destruct core; [contradiction|cbn in *; lia].
Qed.

(** A text that starts and ends with something else than white space. *)
Definition stripped (core : bytes) : bool :=
  match core with
  | [] => false
  | c :: _ => negb (is_ws c) && negb (is_ws (List.last core 0))
  end.

Lemma strip_whitespace_core ws1 core ws2 :
  forallb is_ws ws1 = true -> forallb is_ws ws2 = true -> stripped core = true ->
  strip_whitespace (ws1 ++ core ++ ws2) = core.
Proof.
  intros H1 H2 Hc. destruct core as [|c core]; [discriminate|].
  cbn [stripped] in Hc. rewrite andb_true_iff, !negb_true_iff in Hc. destruct Hc as [Hh Hl].
  unfold strip_whitespace. rewrite skip_ws_app by exact H1.
  assert (Hs : skip_ws ((c :: core) ++ ws2) = (c :: core) ++ ws2)
    by (cbn; rewrite Hh; reflexivity).
  rewrite Hs. change ((c :: core) ++ ws2) with (c :: (core ++ ws2)) at 1. cbv iota.
  replace (length ((c :: core) ++ ws2) - 1)%nat
    with (length (c :: core) - 1 + length ws2)%nat by len_solve.
  rewrite trim_end_app by (auto; discriminate).
  apply firstn_app_exact. cbn. lia.
Qed.

Lemma cstring_no_nul l : forallb (fun b => negb (b =? 0)) l = true -> cstring l = l.
Proof.
  induction l as [|b l IH]; cbn; auto. rewrite andb_true_iff, negb_true_iff.
  intros [-> Hl]. rewrite IH by exact Hl. reflexivity.
Qed.

Lemma trimmed_key_ok ws1 core ws2 err1 err2 e :
  forallb is_ws ws1 = true -> forallb is_ws ws2 = true -> stripped core = true ->
  forallb (fun b => negb (b =? 0)) (ws1 ++ core ++ ws2) = true ->
  trimmed_key (ws1 ++ core ++ ws2) err1 err2 e = (Ok core, e).
Proof.
  intros H1 H2 Hc Hn. unfold trimmed_key. rewrite cstring_no_nul by exact Hn.
  rewrite strip_whitespace_core by auto. destruct core as [|c core]; [discriminate|].
  rewrite !length_app. cbn [length].
  replace (length ws1 + (S (length core) + length ws2))%nat
    with (S (length ws1 + length core + length ws2)) by lia. reflexivity.
Qed.

(** ** Properties *)

(** Each provider delivers the key text: the environment
    variable as it is, the file and the output of a successful command without
    the white space around the key, when the text has no NUL and at most 8192
    bytes, the file exists and no system call fails; only the log changes. *)
Theorem key_provider_delivers g e ws1 core ws2 path f :
  let text := ws1 ++ core ++ ws2 in
  no_faults e -> stripped core = true ->
  forallb is_ws ws1 = true -> forallb is_ws ws2 = true ->
  forallb (fun b => negb (b =? 0)) text = true -> blen text <= TDE_MAX_HEX_KEY_LEN ->
  path <> EmptyString ->
  (tde_key_provider g = TDE_KEY_PROVIDER_ENV /\
     vars e !! "FORTRESSQL_KEM_SECRET_KEY"%string = Some core \/
   tde_key_provider g = TDE_KEY_PROVIDER_FILE /\ tde_key_file g = Some path /\
     files e !! path = Some f /\ f_data f = text \/
   tde_key_provider g = TDE_KEY_PROVIDER_COMMAND /\ tde_key_command g = Some path /\
     cmds e !! path = Some (text, 0)) ->
  exists e', tde_key_provider_fetch g e = (Ok core, e') /\ logs e e'.
Proof.
  intros text Hnf Hc H1 H2 Hn Hlen Hp Hsrc.
  assert (Hne : length core <> 0%nat) by (destruct core; [discriminate|cbn; lia]).
  assert (Htake : firstn (Z.to_nat TDE_MAX_HEX_KEY_LEN) text = text)
    by (apply firstn_all2; unfold blen in Hlen; lia).
  unfold tde_key_provider_fetch. destruct Hsrc as [(-> & Hv)|[(-> & -> & Hf & Hd)|(-> & -> & Hcmd)]];
    cbn [Z.eqb TDE_KEY_PROVIDER_ENV TDE_KEY_PROVIDER_FILE TDE_KEY_PROVIDER_COMMAND Pos.eqb].
  - exists e. split; [|apply logs_refl]. unfold tde_key_provider_fetch_env. cbn.
    rewrite Hv. destruct (Nat.eqb_spec (length core) 0); [contradiction|reflexivity].
  - destruct path as [|a path]; [contradiction|].
    destruct e as [fs d fi di v c lg]. unfold no_faults in Hnf. cbn in Hnf, Hf. subst fs.
    unfold tde_key_provider_fetch_file. cbn -[trimmed_key fread_upto]. rewrite Hf.
    unfold when. destruct (world_readable (f_mode f)); cbn -[trimmed_key fread_upto];
      rewrite Hf; cbn -[trimmed_key fread_upto]; unfold fread_upto; cbn -[trimmed_key Z.to_nat];
      rewrite Hd, Htake; unfold text; rewrite trimmed_key_ok by auto;
      eexists; (split; [reflexivity|eexists; reflexivity]).
  - destruct path as [|a path]; [contradiction|].
    destruct e as [fs d fi di v c lg]. unfold no_faults in Hnf. cbn in Hnf, Hcmd. subst fs.
    unfold tde_key_provider_fetch_command, popen. cbn -[trimmed_key fread_upto]. rewrite Hcmd.
    cbn -[trimmed_key fread_upto]; unfold fread_upto; cbn -[trimmed_key Z.to_nat].
    rewrite Htake. unfold text. rewrite trimmed_key_ok by auto.
    eexists; (split; [reflexivity|eexists; reflexivity]).
Qed.

Lemma key_provider_delivers_witness :
  exists e', tde_key_provider_fetch
    (mkGuc "/d" true TDE_KEY_PROVIDER_FILE (Some "/k"%string) None None None true)
    (set_files {["/k"%string := mkFile [32; 97; 98; 10] 384]} env0) = (Ok [97; 98], e').
Proof.
  destruct (key_provider_delivers
    (mkGuc "/d" true TDE_KEY_PROVIDER_FILE (Some "/k"%string) None None None true)
    (set_files {["/k"%string := mkFile [32; 97; 98; 10] 384]} env0)
    [32] [97; 98] [10] "/k" (mkFile [32; 97; 98; 10] 384)) as (e' & He & _);
    [reflexivity..|discriminate|discriminate|right; left; repeat split; reflexivity|].
  exists e'. exact He.
Defined.
