(* ===== verification/MasterKeyFile.v ===== *)
(** * The master key file and hex text

    The format of master.key, declared alike by
    src/backend/crypto/tde/tde_keymanage.c and
    src/bin/pg_tde_master_key/pg_tde_master_key.c, and the hex encoding both
    use for the ML-KEM secret key. *)
From Stdlib Require Import ZArith Lia Bool String List.
From S2P Require Import Prelude.
Import ListNotations.
Local Open Scope Z_scope.

Definition TDE_MASTER_KEY_MAGIC : Z := 0x54444531.
Definition TDE_VERSION : Z := 1.
Definition TDE_GCM_IV_LEN : nat := 12.
Definition TDE_GCM_TAG_LEN : nat := 16.

Record MasterKeyFileHeader := mkHeader {
  h_magic : Z;
  h_version : Z;
  h_kem_alg : Z;
  h_pubkey_len : Z;
  h_ciphertext_len : Z;
  h_reserved : Z
}.

Definition sizeof_header : nat := 24.

(** The struct in memory, six 32-bit integers, and back. *)
Definition header_bytes (h : MasterKeyFileHeader) : bytes :=
  le_bytes 4 (h_magic h) ++ le_bytes 4 (h_version h) ++ le_bytes 4 (h_kem_alg h) ++
  le_bytes 4 (h_pubkey_len h) ++ le_bytes 4 (h_ciphertext_len h) ++ le_bytes 4 (h_reserved h).

Definition header_of (b : bytes) : MasterKeyFileHeader :=
  mkHeader (le_val (sub 0 4 b)) (le_val (sub 4 4 b)) (le_val (sub 8 4 b))
    (le_val (sub 12 4 b)) (le_val (sub 16 4 b)) (le_val (sub 20 4 b)).

(** The parts of a master key file, in order. *)
Definition file_header (alg : Z) (pubkey ct : bytes) : MasterKeyFileHeader :=
  mkHeader TDE_MASTER_KEY_MAGIC TDE_VERSION (u32 alg) (u32 (blen pubkey)) (u32 (blen ct)) 0.

Definition master_file (alg : Z) (pubkey ct iv enc tag : bytes) : bytes :=
  concat [header_bytes (file_header alg pubkey ct); pubkey; ct; iv; enc; tag].

(** ** Hex *)

Definition hexchars (n : Z) : Z := if n <? 10 then 48 + n else 87 + n.

Fixpoint to_hex (data : bytes) : bytes :=
  match data with
  | [] => []
  | b :: data' =>
      hexchars (Z.land (Z.shiftr b 4) 15) :: hexchars (Z.land b 15) :: to_hex data'
  end.

(** The value of a hexadecimal digit. *)
Definition hex_digit (c : Z) : option Z :=
  if (48 <=? c) && (c <=? 57) then Some (c - 48)
  else if (97 <=? c) && (c <=? 102) then Some (c - 87)
  else if (65 <=? c) && (c <=? 70) then Some (c - 55)
  else None.

Fixpoint skip_space (l : bytes) : bytes :=
  match l with
  | c :: l' => if isspace c then skip_space l' else l
  | [] => []
  end.

(** [sscanf(s, "%2x", &byte) == 1]: white space is skipped, then at most two
    characters are converted: a sign and a digit, the prefix 0x (which glibc
    converts to 0), or one or two digits.  The result is an [unsigned int]. *)
Definition sscanf_2x (s : bytes) : option Z :=
  match skip_space s with
  | [] => None
  | c :: rest =>
      if (c =? 43) || (c =? 45) then
        match rest with
        | d :: _ =>
            match hex_digit d with
            | Some v => Some (if c =? 45 then u32 (- v) else v)
            | None => None
            end
        | [] => None
        end
      else
        match hex_digit c with
        | None => None
        | Some hi =>
            match rest with
            | [] => Some hi
            | d :: _ =>
                if (hi =? 0) && ((d =? 120) || (d =? 88)) then Some 0
                else match hex_digit d with
                     | Some lo => Some (16 * hi + lo)
                     | None => Some hi
                     end
            end
        end
  end.

(** The loop that decodes [n] bytes, reading at every second character. *)
Fixpoint decode_hex (n : nat) (hex : bytes) : option bytes :=
  match n with
  | O => Some []
  | S n' =>
      match sscanf_2x hex with
      | None => None
      | Some byte =>
          match decode_hex n' (skipn 2 hex) with
          | Some l => Some (u8 byte :: l)
          | None => None
          end
      end
  end.

(** ** Lemmas *)

Lemma length_header_bytes h : length (header_bytes h) = sizeof_header.
Proof. reflexivity. Qed.

Definition u32_ok (x : Z) : bool := (0 <=? x) && (x <? 2 ^ 32).

Definition wf_header (h : MasterKeyFileHeader) : bool :=
  forallb u32_ok [h_magic h; h_version h; h_kem_alg h; h_pubkey_len h; h_ciphertext_len h;
                  h_reserved h].

Lemma header_of_bytes h : wf_header h = true -> header_of (header_bytes h) = h.
Proof.
  destruct h as [a b c d e f]. unfold wf_header; cbn [forallb h_magic h_version h_kem_alg
    h_pubkey_len h_ciphertext_len h_reserved]. unfold u32_ok. rewrite !andb_true_iff.
  intros Hwf. unfold header_of, header_bytes; cbn [h_magic h_version h_kem_alg
    h_pubkey_len h_ciphertext_len h_reserved].
  f_equal; apply (le_val_le_bytes 4); lia.
Qed.

Lemma wf_file_header alg pubkey ct : wf_header (file_header alg pubkey ct) = true.
Proof.
  assert (Hu : forall x, u32_ok (u32 x) = true).
  { intros x. unfold u32_ok, u32. pose proof (Z.mod_pos_bound x (2 ^ 32)). lia. }
  unfold wf_header, file_header; cbn [forallb h_magic h_version h_kem_alg h_pubkey_len
    h_ciphertext_len h_reserved]. rewrite !Hu. reflexivity.
Qed.

Lemma hex_digit_hexchars n : 0 <= n < 16 -> hex_digit (hexchars n) = Some n.
Proof.
  intros Hn. unfold hexchars, hex_digit. destruct (Z.ltb_spec n 10).
  - replace (48 <=? 48 + n) with true by lia. replace (48 + n <=? 57) with true by lia.
    cbn [andb]. f_equal. lia.
  - replace (48 <=? 87 + n) with true by lia. replace (87 + n <=? 57) with false by lia.
    replace (97 <=? 87 + n) with true by lia. replace (87 + n <=? 102) with true by lia.
    cbn [andb]. f_equal. lia.
Qed.

(** Two characters the tools print are read back as the byte they encode. *)
Lemma sscanf_2x_hexchars b rest :
  is_byte b = true ->
  sscanf_2x (hexchars (Z.land (Z.shiftr b 4) 15) :: hexchars (Z.land b 15) :: rest) = Some b.
Proof.
  intros Hb. assert (0 <= b < 256) as Hr by (unfold is_byte in Hb; lia).
  replace (Z.land (Z.shiftr b 4) 15) with (b / 16)
    by (rewrite (Z.land_ones _ 4) by lia; rewrite Z.shiftr_div_pow2 by lia;
        change (2 ^ 4) with 16; rewrite (Z.mod_small (b / 16)); [reflexivity | split;
        [apply Z.div_pos | apply Z.div_lt_upper_bound]; lia]).
  rewrite (Z.land_ones _ 4) by lia. change (2 ^ 4) with 16.
  assert (0 <= b / 16 < 16) as Hhi by (split; [apply Z.div_pos | apply Z.div_lt_upper_bound]; lia).
  assert (0 <= b mod 16 < 16) as Hlo by (apply Z.mod_pos_bound; lia).
  assert (Hc : forall n, 0 <= n < 16 -> 48 <= hexchars n < 103 /\ hexchars n <> 88)
    by (intros n Hn; unfold hexchars; destruct (Z.ltb_spec n 10); lia).
  pose proof (Hc _ Hhi). pose proof (Hc _ Hlo).
  unfold sscanf_2x; cbn [skip_space]. unfold isspace.
  replace (hexchars (b / 16) =? 32) with false by lia.
  replace (hexchars (b / 16) <=? 13) with false by lia.
  rewrite andb_false_r; cbn [orb].
  replace (hexchars (b / 16) =? 43) with false by lia.
  replace (hexchars (b / 16) =? 45) with false by lia. cbn [orb].
  rewrite !hex_digit_hexchars by assumption.
  replace (hexchars (b mod 16) =? 120) with false by lia.
  replace (hexchars (b mod 16) =? 88) with false by lia.
  rewrite andb_false_r. f_equal. pose proof (Z.div_mod b 16). lia.
Qed.

Lemma length_to_hex l : length (to_hex l) = (2 * length l)%nat.
Proof. induction l as [|b l IH]; cbn [to_hex length]; lia. Qed.

Lemma decode_to_hex l : wf_bytes l = true -> decode_hex (length l) (to_hex l) = Some l.
Proof.
  induction l as [|b l IH]; cbn [to_hex length decode_hex wf_bytes]; intros H; [reflexivity|].
  apply andb_true_iff in H as [Hb Hl]. rewrite sscanf_2x_hexchars by assumption.
  cbn [skipn]. rewrite IH by assumption. f_equal. f_equal.
  unfold u8. unfold is_byte in Hb. apply Z.mod_small. lia.
Qed.

(** The characters the tools print are never white space. *)
Lemma to_hex_no_space l : wf_bytes l = true -> forallb (fun c => negb (isspace c)) (to_hex l) = true.
Proof.
  intros _. assert (Hc : forall n, isspace (hexchars (Z.land n 15)) = false).
  { intros n. rewrite (Z.land_ones _ 4) by lia. change (2 ^ 4) with 16.
    pose proof (Z.mod_pos_bound n 16). unfold hexchars, isspace.
    destruct (Z.ltb_spec (n mod 16) 10); lia. }
  induction l as [|b l IH]; cbn [to_hex forallb]; [reflexivity|].
  rewrite !Hc, IH. reflexivity.
Qed.
