(* ===== verification/KeyManage.v ===== *)
(** * The master key (src/backend/crypto/tde/tde_keymanage.c)

    Generation of the master key and its file, unwrapping it at startup with
    the ML-KEM secret key the provider delivers, tablespace keys and rotation. *)
From Stdlib Require Import ZArith Lia Bool String List.
From stdpp Require Import base gmap list strings.
From S2P Require Import Prelude CryptoIface Env KeyCache PqcRegistry PqcKem Server TdePage BufMgr KeyProvider MasterKeyFile.
Import ListNotations.
Local Open Scope Z_scope.
Local Open Scope pg_scope.

Definition TDE_KEY_DIR : string := "pg_encryption".
Definition TDE_MASTER_KEY_FILE : string := "master.key".

Definition set_master (f : master_state -> master_state) : M server unit :=
  zoom masterL (modify f).

(** The callback run at the exit of the process. *)
Definition tde_wipe_master_key_on_exit : M server unit :=
  set_master (fun m => mkMaster (zeros TDE_AES_KEY_LEN) false (MasterKeyExitRegistered m)).

Definition key_directory (g : guc) : string :=
  path_buf (DataDir g ++ "/global/" ++ TDE_KEY_DIR).

Definition tde_ensure_key_directory : M server unit :=
  let! g := gets sv_guc in
  let! ok := zoom senvL (mkdir (key_directory g)) in
  if ok then ret tt else raise ERRCODE_FILE_ACCESS.

Definition tde_master_key_path (g : guc) : string :=
  path_buf (DataDir g ++ "/global/" ++ TDE_KEY_DIR ++ "/" ++ TDE_MASTER_KEY_FILE).

(** The casts between the enumeration (a 32-bit int) and the header field. *)
Definition enum_of_u32 (x : Z) : PqcAlgorithm := if x <? 2 ^ 31 then x else x - 2 ^ 32.

Definition tde_write_master_key_file (pubkey ct : bytes) (alg : PqcAlgorithm)
    (encrypted_mk gcm_iv gcm_tag : bytes) : M server unit :=
  let! g := gets sv_guc in
  let filepath := tde_master_key_path g in
  zoom senvL (
    let! fp := fopen_write filepath 384 in
    if negb fp then raise ERRCODE_FILE_ACCESS
    else
      let hdr := file_header alg pubkey ct in
      let! ok := fwrites filepath [header_bytes hdr; pubkey; ct; gcm_iv; encrypted_mk; gcm_tag] in
      if negb ok then raise ERRCODE_FILE_ACCESS
      else
        let! synced := attempt in
        do! when (negb synced) (elog WARNING "TDE: could not fsync master key file") in
        let! closed := attempt in
        if negb closed then raise ERRCODE_FILE_ACCESS else ret tt).

(** Marks the key as loaded and registers the exit callback once. *)
Definition master_key_loaded : M server unit :=
  set_master (fun m => mkMaster (MasterKey m) true true).

Section KeyManage.
  Context `{Crypto}.

Definition tde_generate_master_key : M server unit :=
  do! tde_ensure_key_directory in
  let! raw := zoom senvL (RAND_bytes TDE_AES_KEY_LEN) in
  match raw with
  | None => raise ERRCODE_INTERNAL_ERROR
  | Some raw_master_key =>
      let! kem_ctx := zoom pqcL (pqc_kem_new PQC_ALG_ML_KEM_768) in
      let! (_, keys) := zoom pqcL (pqc_kem_keygen (Some kem_ctx)) in
      match keys with
      | None => raise ERRCODE_INTERNAL_ERROR
      | Some (pubkey, seckey) =>
          let! (_, enc) := zoom pqcL (pqc_kem_encaps (Some kem_ctx) (Some pubkey) (length pubkey)) in
          match enc with
          | None => raise ERRCODE_INTERNAL_ERROR
          | Some (kem_ct, shared_secret) =>
              let! iv := zoom senvL (RAND_bytes TDE_GCM_IV_LEN) in
              match iv with
              | None => raise ERRCODE_INTERNAL_ERROR
              | Some gcm_iv =>
                  let! ctx := zoom senvL attempt in
                  if negb ctx then raise ERRCODE_OUT_OF_MEMORY
                  else
                    let! ok := zoom senvL (attempts 6) in
                    if negb ok then raise ERRCODE_INTERNAL_ERROR
                    else
                      let (encrypted_mk, gcm_tag) := gcm_seal shared_secret gcm_iv raw_master_key in
                      do! tde_write_master_key_file pubkey kem_ct PQC_ALG_ML_KEM_768
                            encrypted_mk gcm_iv gcm_tag in
                      do! set_master (fun m => mkMaster raw_master_key (MasterKeyLoaded m)
                                                 (MasterKeyExitRegistered m)) in
                      do! master_key_loaded in
                      zoom senvL (elog LOG "TDE: master key generated and wrapped with ML-KEM-768")
              end
          end
      end
  end.

(** The size limits on the variable-length fields. *)
Definition bad_field_sizes (hdr : MasterKeyFileHeader) : bool :=
  (h_pubkey_len hdr =? 0) || (8192 <? h_pubkey_len hdr) ||
  (h_ciphertext_len hdr =? 0) || (8192 <? h_ciphertext_len hdr).

(** First part of [tde_unwrap_master_key]: the file.  The result is the
    header, the KEM ciphertext, the IV, the encrypted key and the tag. *)
Definition read_master_key_file (filepath : string)
    : M env (MasterKeyFileHeader * (bytes * bytes * bytes * bytes)) :=
  let! fp := fopen_read filepath in
  match fp with
  | None => raise ERRCODE_FILE_ACCESS
  | Some stream =>
      let! h := fread sizeof_header stream in
      match h with
      | None => raise ERRCODE_DATA_CORRUPTED
      | Some (hbytes, stream1) =>
          let hdr := header_of hbytes in
          if negb (h_magic hdr =? TDE_MASTER_KEY_MAGIC) then raise ERRCODE_DATA_CORRUPTED
          else if negb (h_version hdr =? TDE_VERSION) then raise ERRCODE_DATA_CORRUPTED
          else if bad_field_sizes hdr then raise ERRCODE_DATA_CORRUPTED
          else
            let! items := freads [Z.to_nat (h_pubkey_len hdr); Z.to_nat (h_ciphertext_len hdr);
                                  TDE_GCM_IV_LEN; TDE_AES_KEY_LEN; TDE_GCM_TAG_LEN] stream1 in
            match items with
            | Some [_; kem_ct; gcm_iv; encrypted_mk; gcm_tag] =>
                ret (hdr, (kem_ct, gcm_iv, encrypted_mk, gcm_tag))
            | _ => raise ERRCODE_DATA_CORRUPTED
            end
      end
  end.

(** Second part: the secret key from its hex text. *)
Definition decode_secret_key (seckey_hex : bytes) : M env bytes :=
  if negb (length seckey_hex mod 2 =? 0)%nat then raise ERRCODE_INVALID_PARAMETER_VALUE
  else
    match decode_hex (length seckey_hex / 2) seckey_hex with
    | None => raise ERRCODE_INVALID_PARAMETER_VALUE
    | Some seckey => ret seckey
    end.

(** Last part: the decryption into [MasterKey], wiped when any step fails. *)
Definition gcm_unwrap (shared_secret gcm_iv encrypted_mk gcm_tag : bytes) : M server unit :=
  let! ctx := zoom senvL attempt in
  if negb ctx then raise ERRCODE_OUT_OF_MEMORY
  else
    let! init := zoom senvL (attempts 4) in
    let! ok :=
      if negb init then ret false
      else
        do! set_master (fun m => mkMaster (gcm_crypt shared_secret gcm_iv encrypted_mk)
                                   (MasterKeyLoaded m) (MasterKeyExitRegistered m)) in
        let! settag := zoom senvL attempt in
        if negb settag then ret false
        else
          let! final := zoom senvL attempt in
          ret (final && gcm_tag_ok shared_secret gcm_iv encrypted_mk gcm_tag) in
    if negb ok then
      do! set_master (fun m => mkMaster (zeros TDE_AES_KEY_LEN)
                                 (MasterKeyLoaded m) (MasterKeyExitRegistered m)) in
      raise ERRCODE_INTERNAL_ERROR
    else ret tt.

Definition tde_unwrap_master_key : M server unit :=
  let! m := gets sv_master in
  if MasterKeyLoaded m then ret tt
  else
    let! g := gets sv_guc in
    let! (hdr, (kem_ct, gcm_iv, encrypted_mk, gcm_tag)) :=
      zoom senvL (read_master_key_file (tde_master_key_path g)) in
    let! seckey_hex := zoom senvL (tde_key_provider_fetch g) in
    let! seckey := zoom senvL (decode_secret_key seckey_hex) in
    let! kem_ctx := zoom pqcL (pqc_kem_new (enum_of_u32 (h_kem_alg hdr))) in
    let! (_, ss) := zoom pqcL (pqc_kem_decaps (Some kem_ctx) (Some kem_ct)
                                 (Z.to_nat (h_ciphertext_len hdr)) (Some seckey) (length seckey)) in
    match ss with
    | None => raise ERRCODE_INTERNAL_ERROR
    | Some shared_secret =>
        do! gcm_unwrap shared_secret gcm_iv encrypted_mk gcm_tag in
        do! master_key_loaded in
        zoom senvL (elog LOG "TDE: master key successfully unwrapped")
    end.

Definition tde_generate_tablespace_key (spcOid : Oid) : M server unit :=
  let! m := gets sv_master in
  if negb (MasterKeyLoaded m) then raise ERRCODE_INTERNAL_ERROR
  else
    let! r := zoom senvL (RAND_bytes TDE_AES_KEY_LEN) in
    match r with
    | None => raise ERRCODE_INTERNAL_ERROR
    | Some tdek =>
        do! zoom keysL (tde_keycache_insert (mkTdeKeyEntry spcOid tdek 1 true)) in
        zoom senvL (elog LOG "TDE: generated new encryption key for tablespace")
    end.

Definition tde_rotate_master_key : M server unit :=
  let! m := gets sv_master in
  if negb (MasterKeyLoaded m) then raise ERRCODE_INTERNAL_ERROR
  else
    let old_master_key := MasterKey m in
    do! pg_try tde_generate_master_key
          (fun e => do! set_master (fun m => mkMaster old_master_key true
                                               (MasterKeyExitRegistered m)) in
                    raise e) in
    do! zoom keysL tde_keycache_invalidate in
    zoom senvL (elog LOG "TDE: master key rotation complete").
End KeyManage.

Arguments tde_ensure_key_directory : simpl never.
Arguments tde_write_master_key_file : simpl never.
Arguments tde_generate_master_key : simpl never.
Arguments read_master_key_file : simpl never.
Arguments decode_secret_key : simpl never.
Arguments gcm_unwrap : simpl never.
Arguments tde_unwrap_master_key : simpl never.
Arguments tde_generate_tablespace_key : simpl never.
Arguments tde_rotate_master_key : simpl never.

(** ** Lemmas: runs without failures *)

(** A server on which calls succeed; [quiet] steps change neither the
    configuration, the keys nor the master key. *)
Definition ready (s : server) : Prop := no_faults (sv_env s) /\ registry_ok (sv_pqc s).

Definition quiet (s s' : server) : Prop :=
  sv_guc s' = sv_guc s /\ sv_keys s' = sv_keys s /\ sv_master s' = sv_master s /\
  (ready s -> ready s').

Lemma quiet_trans s1 s2 s3 : quiet s1 s2 -> quiet s2 s3 -> quiet s1 s3.
Proof. unfold quiet. intros (? & ? & ? & ?) (? & ? & ? & ?). repeat split; try congruence; firstorder. Qed.

Lemma quiet_env s e : (no_faults (sv_env s) -> no_faults e) -> quiet s (over senvL e s).
Proof. intros He. destruct s as [[] ? ? ? ? ?]. repeat split; try (apply He; apply H). apply H. Qed.

Lemma quiet_pqc s p :
  (ready s -> no_faults (p_env p) /\ registry_ok p) -> quiet s (over pqcL p s).
Proof. intros Hp. repeat split; intros; apply Hp; assumption. Qed.

Lemma senv_same s : over senvL (sv_env s) s = s.
Proof. destruct s as [[] ? ? ? ? ?]. reflexivity. Qed.

Lemma zoom_env_same {A} (m : M env A) s o :
  m (sv_env s) = (o, sv_env s) -> zoom senvL m s = (o, s).
Proof. intros Hm. unfold zoom. change (view senvL s) with (sv_env s). rewrite Hm, senv_same. reflexivity. Qed.

Lemma ensure_key_directory_ok s :
  ready s -> exists s', tde_ensure_key_directory s = (Ok tt, s') /\ quiet s s' /\
    files (sv_env s') = files (sv_env s).
Proof.
  intros Hs. unfold tde_ensure_key_directory. rewrite (bind_step _ _ _ (sv_guc s) s) by reflexivity.
  assert (Hm : exists di, mkdir (key_directory (sv_guc s)) (sv_env s) = (Ok true, set_dirs di (sv_env s))).
  { destruct Hs as [Hn _]. unfold mkdir. destruct (sv_env s) as [fs d fi di v c lg].
    unfold no_faults in Hn. cbn in Hn. subst fs. cbn. case_bool_decide; eexists; reflexivity. }
  destruct Hm as [di Hm].
  rewrite (bind_step _ _ _ true (over senvL (set_dirs di (sv_env s)) s))
    by (unfold zoom; change (view senvL s) with (sv_env s); rewrite Hm; reflexivity).
  eexists. split; [reflexivity|]. split; [apply quiet_env; auto|reflexivity].
Qed.

Section Runs.
  Context `{CL : CryptoLaws}.

Lemma RAND_ok s n :
  ready s -> exists d s', zoom senvL (RAND_bytes n) s = (Ok (Some (RAND d n)), s') /\ quiet s s' /\
    files (sv_env s') = files (sv_env s).
Proof.
  intros [Hn _]. exists (draws (sv_env s)), (over senvL (set_draws (S (draws (sv_env s))) (sv_env s)) s).
  split; [|split; [apply quiet_env; auto|reflexivity]].
  unfold zoom. change (view senvL s) with (sv_env s). destruct (sv_env s) as [fs d fi di v c lg].
  unfold no_faults in Hn. cbn in Hn. subst fs. reflexivity.
Qed.

Lemma attempts_ok s n :
  ready s -> zoom senvL (attempts n) s = (Ok true, s).
Proof.
  intros [Hn _]. apply zoom_env_same, attempts_no_faults, Hn.
Qed.

Lemma attempt_ok s : ready s -> zoom senvL attempt s = (Ok true, s).
Proof.
  intros [Hn _]. apply zoom_env_same, attempt_no_faults, Hn.
Qed.

Lemma kem_new_ok s alg row0 k :
  ready s -> 0 <= alg -> pqc_algorithms_static !! Z.to_nat alg = Some row0 ->
  type row0 = PQC_TYPE_KEM -> OQS_KEM_new (oqs_name row0) = Some k ->
  exists s', zoom pqcL (pqc_kem_new alg) s = (Ok (mkKemContext k alg), s') /\ quiet s s' /\
    files (sv_env s') = files (sv_env s).
Proof.
  intros [Hn Hok] Hp H0 Ht Hk.
  destruct (pqc_kem_new_run (sv_pqc s) alg row0 k) as (p' & Hr & Hi); auto.
  exists (over pqcL p' s). unfold zoom. cbn. rewrite Hr. destruct Hi as ((l & Hl) & _ & Hok' & _).
  split; [reflexivity|]. cbn. rewrite Hl.
  split; [apply quiet_pqc; rewrite Hl; auto|reflexivity].
Qed.

Lemma keygen_ok s ctx :
  ready s -> exists d s',
    zoom pqcL (pqc_kem_keygen (Some ctx)) s =
      (Ok (PQC_SUCCESS, Some (OQS_KEM_keypair (oqs_kem ctx) d)), s') /\ quiet s s' /\
    files (sv_env s') = files (sv_env s).
Proof.
  intros [Hn Hok]. destruct s as [[[fs d fi di v c lg] ini al seg att] g ks ms w q].
  unfold no_faults in Hn. cbn in Hn. subst fs. exists d. eexists. split; [reflexivity|].
  split; [|reflexivity]. repeat split; apply Hok.
Qed.

Lemma encaps_ok s ctx pk :
  ready s -> length pk = kem_length_public_key (oqs_kem ctx) -> exists d s',
    zoom pqcL (pqc_kem_encaps (Some ctx) (Some pk) (length pk)) s =
      (Ok (PQC_SUCCESS, Some (OQS_KEM_encaps (oqs_kem ctx) pk d)), s') /\ quiet s s' /\
    files (sv_env s') = files (sv_env s).
Proof.
  intros [Hn Hok] Hlen. destruct s as [[[fs d fi di v c lg] ini al seg att] g ks ms w q].
  unfold no_faults in Hn. cbn in Hn. subst fs. exists d. eexists.
  unfold pqc_kem_encaps. rewrite Hlen, Nat.eqb_refl. split; [reflexivity|].
  unfold pqc_stat_counters. cbn. destruct att, seg; (split; [|reflexivity]); repeat split; apply Hok.
Qed.

Lemma decaps_ok s ctx ct sk :
  ready s -> length ct = kem_length_ciphertext (oqs_kem ctx) ->
  length sk = kem_length_secret_key (oqs_kem ctx) -> exists s',
    zoom pqcL (pqc_kem_decaps (Some ctx) (Some ct) (length ct) (Some sk) (length sk)) s =
      (Ok (PQC_SUCCESS, Some (OQS_KEM_decaps (oqs_kem ctx) ct sk)), s') /\ quiet s s'.
Proof.
  intros [Hn Hok] Hct Hsk. destruct s as [[[fs d fi di v c lg] ini al seg att] g ks ms w q].
  unfold no_faults in Hn. cbn in Hn. subst fs. eexists.
  unfold pqc_kem_decaps. rewrite Hct, Hsk, !Nat.eqb_refl. split; [reflexivity|].
  unfold pqc_stat_counters. cbn. destruct att, seg; repeat split; apply Hok.
Qed.

Lemma write_master_key_file_ok s pk ct alg enc iv tag :
  ready s -> forallb nonempty [pk; ct; iv; enc; tag] = true ->
  exists mode s', tde_write_master_key_file pk ct alg enc iv tag s = (Ok tt, s') /\ quiet s s' /\
    files (sv_env s') !! tde_master_key_path (sv_guc s)
      = Some (mkFile (master_file alg pk ct iv enc tag) mode).
Proof.
  intros [Hn Hok] Hne. set (path := tde_master_key_path (sv_guc s)).
  set (mode := match files (sv_env s) !! path with Some f => f_mode f | None => 384 end).
  set (e1 := set_files (<[path := mkFile [] mode]> (files (sv_env s))) (sv_env s)).
  set (e2 := set_files (<[path := mkFile (master_file alg pk ct iv enc tag) mode]> (files (sv_env s)))
               (sv_env s)).
  exists mode, (over senvL e2 s). split; [|split; [apply quiet_env; auto|apply lookup_insert_eq]].
  unfold tde_write_master_key_file. rewrite (bind_step _ _ _ (sv_guc s) s) by reflexivity.
  unfold zoom. change (view senvL s) with (sv_env s). fold path.
  rewrite (bind_step _ _ _ true e1) by (cbn -[sv_env]; rewrite Hn; reflexivity). cbn [negb].
  rewrite (bind_step _ _ _ true e2).
  - cbn -[sv_env]. rewrite Hn. cbn -[sv_env]. rewrite ?Hn. reflexivity.
  - rewrite (fwrites_ok path _ e1 (mkFile [] mode)); [|exact Hn|apply lookup_insert_eq|].
    + unfold e1, e2; cbn [files set_files f_data f_mode]. rewrite insert_insert_eq. reflexivity.
    + change (forallb nonempty [pk; ct; iv; enc; tag] = true). exact Hne.
Qed.
(** What generation leaves: a key in memory, and a file that wraps it for the
    holder of the secret key of some key pair. *)
Definition wraps (k : OQS_KEM) (sk raw : bytes) (file : bytes) : Prop :=
  exists d d' iv,
    let '(pk, sk0) := OQS_KEM_keypair k d in
    let '(ct, ss) := OQS_KEM_encaps k pk d' in
    sk = sk0 /\ length iv = TDE_GCM_IV_LEN /\ length raw = TDE_AES_KEY_LEN /\
    file = master_file PQC_ALG_ML_KEM_768 pk ct iv (gcm_crypt ss iv raw)
             (AES256_GCM_tag ss iv (gcm_crypt ss iv raw)).

Lemma wraps_intro k d d' iv raw :
  length iv = TDE_GCM_IV_LEN -> length raw = TDE_AES_KEY_LEN ->
  let pk := fst (OQS_KEM_keypair k d) in
  let ct := fst (OQS_KEM_encaps k pk d') in
  let ss := snd (OQS_KEM_encaps k pk d') in
  wraps k (snd (OQS_KEM_keypair k d)) raw
    (master_file PQC_ALG_ML_KEM_768 pk ct iv (gcm_crypt ss iv raw)
       (AES256_GCM_tag ss iv (gcm_crypt ss iv raw))).
Proof.
  intros Hiv Hraw. cbv zeta. exists d, d', iv.
  destruct (OQS_KEM_keypair k d) as [pk sk]. cbn [fst snd].
  destruct (OQS_KEM_encaps k pk d') as [ct ss]. auto.
Qed.

Lemma nonempty_length l n : length l = n -> n <> 0%nat -> nonempty l = true.
Proof. unfold nonempty. intros -> Hn. destruct n; [contradiction|reflexivity]. Qed.

Lemma generate_ok s k :
  ready s -> OQS_KEM_new "ML-KEM-768" = Some k ->
  exists s' sk raw f, tde_generate_master_key s = (Ok tt, s') /\
    sv_guc s' = sv_guc s /\ sv_keys s' = sv_keys s /\ ready s' /\
    sv_master s' = mkMaster raw true true /\
    files (sv_env s') !! tde_master_key_path (sv_guc s) = Some f /\ wraps k sk raw (f_data f).
Proof.
  intros Hs Hk.
  assert (Hl : kem_laws k) by (apply (KEM_laws "ML-KEM-768"); [cbn; auto|exact Hk]).
  destruct (ensure_key_directory_ok s Hs) as (s1 & H1 & Q1 & _).
  destruct (RAND_ok s1 TDE_AES_KEY_LEN) as (d2 & s2 & H2 & Q2 & _); [apply Q1; auto|].
  destruct (kem_new_ok s2 PQC_ALG_ML_KEM_768 (kem_row PQC_ALG_ML_KEM_768 "ML-KEM-768" 3) k)
    as (s3 & H3 & Q3 & _); [apply Q2, Q1; auto|discriminate|reflexivity..|exact Hk|].
  destruct (keygen_ok s3 (mkKemContext k PQC_ALG_ML_KEM_768)) as (d4 & s4 & H4 & Q4 & _);
    [apply Q3, Q2, Q1; auto|]. cbn [oqs_kem] in H4.
  set (pk := fst (OQS_KEM_keypair k d4)) in *.
  destruct (encaps_ok s4 (mkKemContext k PQC_ALG_ML_KEM_768) pk) as (d5 & s5 & H5 & Q5 & _);
    [apply Q4, Q3, Q2, Q1; auto|apply (kem_pk_length k Hl)|]. cbn [oqs_kem] in H5.
  destruct (RAND_ok s5 TDE_GCM_IV_LEN) as (d6 & s6 & H6 & Q6 & _); [apply Q5, Q4, Q3, Q2, Q1; auto|].
  assert (Hr6 : ready s6) by (apply Q6, Q5, Q4, Q3, Q2, Q1; auto).
  set (ct := fst (OQS_KEM_encaps k pk d5)). set (ss := snd (OQS_KEM_encaps k pk d5)).
  set (raw := RAND d2 TDE_AES_KEY_LEN). set (iv := RAND d6 TDE_GCM_IV_LEN).
  set (enc := gcm_crypt ss iv raw).
  destruct (write_master_key_file_ok s6 pk ct PQC_ALG_ML_KEM_768 enc iv (AES256_GCM_tag ss iv enc))
    as (mode & s7 & H7 & Q7 & Hf7); [exact Hr6| |].
  { pose proof (kem_sizes k Hl). cbn [forallb]. rewrite !andb_true_iff.
    repeat split; (eapply nonempty_length; [first [apply (kem_pk_length k Hl)
      | apply (kem_ct_length k Hl) | apply RAND_length | apply GCM_tag_length
      | unfold enc; rewrite length_gcm_crypt; apply RAND_length]|]); unfold TDE_GCM_IV_LEN, TDE_AES_KEY_LEN; lia. }
  pose proof (quiet_trans _ _ _ Q1 (quiet_trans _ _ _ Q2 (quiet_trans _ _ _ Q3 (quiet_trans _ _ _ Q4
    (quiet_trans _ _ _ Q5 Q6))))) as Q16.
  destruct Q16 as (G6 & K6 & M6 & _). pose proof Q7 as (G7 & K7 & M7 & R7).
  exists (over senvL (set_log (log (sv_env s7) ++ [(LOG, "TDE: master key generated and wrapped with ML-KEM-768"%string)])
            (sv_env s7)) (over masterL (mkMaster raw true true) s7)).
  exists (snd (OQS_KEM_keypair k d4)), raw, (mkFile (master_file PQC_ALG_ML_KEM_768 pk ct iv enc
    (AES256_GCM_tag ss iv enc)) mode). rewrite <- G6, <- K6.
  split; [|split; [exact G7|split; [exact K7|split; [exact (R7 Hr6)|split; [reflexivity|]]]]].
  - unfold tde_generate_master_key. mrun H1. mrun H2. mrun H3. mrun H4.
    rewrite (surjective_pairing (OQS_KEM_keypair k d4)). cbv beta iota. fold pk. mrun H5.
    rewrite (surjective_pairing (OQS_KEM_encaps k pk d5)). cbv beta iota. mrun H6.
    mrun (attempt_ok s6 Hr6). cbn [negb]. mrun (attempts_ok s6 6 Hr6). cbn [negb].
    unfold gcm_seal. fold ct ss raw iv enc. mrun H7. reflexivity.
  - split; [exact Hf7|]. apply wraps_intro; apply RAND_length.
Qed.
Lemma read_master_key_file_ok e path f alg pk ct iv enc tag :
  no_faults e -> files e !! path = Some f -> f_data f = master_file alg pk ct iv enc tag ->
  0 < blen pk <= 8192 -> 0 < blen ct <= 8192 -> length iv = TDE_GCM_IV_LEN ->
  length enc = TDE_AES_KEY_LEN -> length tag = TDE_GCM_TAG_LEN ->
  read_master_key_file path e = (Ok (file_header alg pk ct, (ct, iv, enc, tag)), e).
Proof.
  intros Hn Hf Hd Hpk Hct Hiv Henc Htag. unfold read_master_key_file.
  rewrite (bind_step _ _ _ (Some (f_data f)) e) by (cbn; rewrite Hn; cbn; rewrite Hf; reflexivity).
  cbv beta iota. rewrite Hd. unfold master_file. cbn [concat].
  set (hb := header_bytes (file_header alg pk ct)).
  set (stream := pk ++ ct ++ iv ++ enc ++ tag ++ []).
  assert (Hlen : length hb = sizeof_header) by apply length_header_bytes.
  rewrite (bind_step _ _ _ (Some (hb, stream)) e).
  - cbv beta iota. unfold hb. rewrite header_of_bytes by apply wf_file_header.
    assert (Hu : forall l, 0 < blen l <= 8192 -> u32 (blen l) = blen l)
      by (intros; unfold u32; apply Z.mod_small; lia).
    change (h_magic (file_header alg pk ct)) with TDE_MASTER_KEY_MAGIC.
    change (h_version (file_header alg pk ct)) with TDE_VERSION.
    unfold bad_field_sizes. cbn [file_header h_pubkey_len h_ciphertext_len].
    rewrite !Hu, !Z.eqb_refl by assumption. cbn [negb].
    replace (blen pk =? 0) with false by lia. replace (blen ct =? 0) with false by lia.
    replace (8192 <? blen pk) with false by lia. replace (8192 <? blen ct) with false by lia.
    cbn [orb]. unfold blen. rewrite !Nat2Z.id, <- Hiv, <- Henc, <- Htag.
    pose proof (freads_ok [pk; ct; iv; enc; tag] [] e Hn) as Hr. cbn [map] in Hr.
    replace (concat [pk; ct; iv; enc; tag] ++ []) with stream in Hr
      by (cbn [concat]; rewrite app_nil_r; reflexivity).
    unfold blen in *. rewrite (bind_step _ _ _ _ _ (Hr ltac:(cbn [forallb]; rewrite !andb_true_iff;
      repeat split; (eapply nonempty_length; [reflexivity|]);
      unfold TDE_GCM_IV_LEN, TDE_AES_KEY_LEN, TDE_GCM_TAG_LEN in *; lia))).
    reflexivity.
  - apply fread_ok; [exact Hn|exact Hlen|]. eapply nonempty_length; [exact Hlen|discriminate].
Qed.

Lemma decode_secret_key_ok sk e :
  wf_bytes sk = true -> decode_secret_key (to_hex sk) e = (Ok sk, e).
Proof.
  intros Hwf. unfold decode_secret_key. rewrite length_to_hex.
  rewrite Nat.mul_comm, Nat.Div0.mod_mul, Nat.div_mul by lia. cbn [Nat.eqb negb].
  rewrite decode_to_hex by exact Hwf. reflexivity.
Qed.

Lemma gcm_unwrap_ok s ss iv enc :
  ready s ->
  gcm_unwrap ss iv enc (AES256_GCM_tag ss iv enc) s =
    (Ok tt, over masterL (mkMaster (gcm_crypt ss iv enc) (MasterKeyLoaded (sv_master s))
                            (MasterKeyExitRegistered (sv_master s))) s).
Proof.
  intros Hs. unfold gcm_unwrap, gcm_tag_ok. rewrite bytes_eqb_refl. mrun (attempt_ok s Hs).
  cbn [negb]. mrun (attempts_ok s 4 Hs). cbn [negb].
  destruct s as [[[fs d fi di v c lg] ini al seg att] g ks ms w q].
  destruct Hs as [Hn _]. unfold no_faults in Hn. cbn in Hn. subst fs. reflexivity.
Qed.
Lemma unwrap_ok s k sk raw f e' :
  ready s -> OQS_KEM_new "ML-KEM-768" = Some k -> MasterKeyLoaded (sv_master s) = false ->
  files (sv_env s) !! tde_master_key_path (sv_guc s) = Some f -> wraps k sk raw (f_data f) ->
  tde_key_provider_fetch (sv_guc s) (sv_env s) = (Ok (to_hex sk), e') -> logs (sv_env s) e' ->
  exists s', tde_unwrap_master_key s = (Ok tt, s') /\ sv_master s' = mkMaster raw true true /\
    sv_keys s' = sv_keys s.
Proof.
  intros Hs Hk Hnl Hf (d & d' & iv & Hw) Hprov [l ->].
  assert (Hl : kem_laws k) by (apply (KEM_laws "ML-KEM-768"); [cbn; auto|exact Hk]).
  pose proof (kem_correct k Hl d d') as Hcor. pose proof (kem_bytes k Hl d) as [_ Hskb].
  pose proof (kem_pk_length k Hl d) as Hpkl. pose proof (kem_sk_length k Hl d) as Hskl.
  destruct (OQS_KEM_keypair k d) as [pk sk0] eqn:Hkp. cbn [fst snd] in *.
  pose proof (kem_ct_length k Hl pk d') as Hctl. pose proof (kem_sizes k Hl) as Hsz.
  destruct (OQS_KEM_encaps k pk d') as [ct ss] eqn:Hen. cbn [fst snd] in *.
  destruct Hw as (-> & Hiv & Hraw & Hd).
  set (enc := gcm_crypt ss iv raw) in *.
  unfold tde_unwrap_master_key.
  rewrite (bind_step _ _ _ (sv_master s) s) by reflexivity. rewrite Hnl. cbv iota.
  rewrite (bind_step _ _ _ (sv_guc s) s) by reflexivity.
  pose proof (read_master_key_file_ok (sv_env s) _ f PQC_ALG_ML_KEM_768 pk ct iv enc
    (AES256_GCM_tag ss iv enc) (proj1 Hs) Hf Hd ltac:(unfold blen; lia) ltac:(unfold blen; lia) Hiv
    ltac:(unfold enc; rewrite length_gcm_crypt; exact Hraw) (GCM_tag_length _ _ _)) as Hread.
  mrun (zoom_env_same _ s _ Hread).
  set (s1 := over senvL (set_log l (sv_env s)) s).
  rewrite (bind_step _ _ _ (to_hex sk0) s1)
    by (unfold zoom; change (view senvL s) with (sv_env s); rewrite Hprov; reflexivity).
  rewrite (bind_step _ _ _ sk0 s1)
    by (apply zoom_env_same, decode_secret_key_ok, Hskb).
  change (enum_of_u32 (h_kem_alg (file_header PQC_ALG_ML_KEM_768 pk ct))) with PQC_ALG_ML_KEM_768.
  assert (Q1 : quiet s s1) by (apply quiet_env; auto).
  destruct (kem_new_ok s1 PQC_ALG_ML_KEM_768 (kem_row PQC_ALG_ML_KEM_768 "ML-KEM-768" 3) k)
    as (s2 & H2 & Q2 & _); [apply Q1; auto|discriminate|reflexivity..|exact Hk|]. mrun H2.
  destruct (decaps_ok s2 (mkKemContext k PQC_ALG_ML_KEM_768) ct sk0) as (s3 & H3 & Q3);
    [apply Q2, Q1; auto|assumption..|].
  cbn [file_header h_ciphertext_len oqs_kem] in *.
  replace (Z.to_nat (u32 (blen ct))) with (length ct)
    by (unfold u32, blen; rewrite Z.mod_small by lia; lia).
  mrun H3. rewrite Hcor.
  pose proof (quiet_trans _ _ _ Q1 (quiet_trans _ _ _ Q2 Q3)) as (_ & HK & HM & HR).
  mrun (gcm_unwrap_ok s3 ss iv enc (HR Hs)). unfold enc. rewrite gcm_crypt_involutive.
  eexists. split; [reflexivity|]. split; [reflexivity|exact HK].
Qed.
End Runs.

(** ** Lemmas: any failures *)

(** Steps that change nothing but the cryptographic layer and the environment. *)
Definition framed (s s' : server) : Prop := exists p, s' = over pqcL p s.

Lemma framed_trans s1 s2 s3 : framed s1 s2 -> framed s2 s3 -> framed s1 s3.
Proof. intros [p ->] [q ->]. exists q. reflexivity. Qed.

Lemma framed_pqc {A} (m : M pqc A) s o s' : zoom pqcL m s = (o, s') -> framed s s'.
Proof. unfold zoom. destruct (m _) as [o1 p]. intros [= _ <-]. exists p. reflexivity. Qed.

Lemma framed_env {A} (m : M env A) s o s' : zoom senvL m s = (o, s') -> framed s s'.
Proof. unfold zoom. destruct (m _) as [o1 e]. intros [= _ <-]. eexists. reflexivity. Qed.

Lemma framed_burn fs s : framed s (burn senvL fs s).
Proof. eexists. reflexivity. Qed.

Create HintDb frame.
#[export] Hint Resolve framed_pqc framed_env framed_burn framed_trans : frame.

Section AnyFaults.
  Context `{Crypto}.

Lemma gcm_unwrap_any ss iv enc tag s o s' :
  gcm_unwrap ss iv enc tag s = (o, s') ->
  let m := sv_master s in
  exists s1, framed s s1 /\
    ((o = Ok tt /\ gcm_tag_ok ss iv enc tag = true /\
      s' = over masterL (mkMaster (gcm_crypt ss iv enc) (MasterKeyLoaded m) (MasterKeyExitRegistered m)) s1) \/
     (o <> Ok tt /\
      (s' = s1 \/
       s' = over masterL (mkMaster (zeros TDE_AES_KEY_LEN) (MasterKeyLoaded m) (MasterKeyExitRegistered m)) s1))).
Proof.
  intros Hr m. unfold gcm_unwrap in Hr.
  destruct (zoom_attempt_run senvL s) as (b1 & f1 & H1 & _). rewrite (bind_step _ _ _ _ _ H1) in Hr.
  destruct b1; cbn [negb] in Hr.
  2:{ injection Hr as <- <-. eexists. split; [apply framed_burn|]. right. split; [discriminate|auto]. }
  destruct (zoom_attempts_run senvL 4 (burn senvL f1 s)) as (b2 & f2 & H2 & _).
  rewrite (bind_step _ _ _ _ _ H2), (burn_burn senvL) in Hr.
  destruct b2; cbn [negb] in Hr.
  2:{ injection Hr as <- <-. exists (burn senvL f2 s). split; [apply framed_burn|].
      right. split; [discriminate|]. right. reflexivity. }
  unfold set_master in Hr at 1. cbn [zoom] in Hr.
  set (s2 := over masterL (mkMaster (gcm_crypt ss iv enc) (MasterKeyLoaded m)
               (MasterKeyExitRegistered m)) (burn senvL f2 s)).
  assert (Hx : exists b f, bind (zoom senvL attempt) (fun settag : bool => if negb settag then ret false
       else bind (zoom senvL attempt) (fun final => ret (final && gcm_tag_ok ss iv enc tag))) s2
       = (Ok b, burn senvL f s2) /\ (b = true -> gcm_tag_ok ss iv enc tag = true)).
  { destruct (zoom_attempt_run senvL s2) as (b3 & f3 & H3 & _). mrun H3. destruct b3; cbn [negb].
    - destruct (zoom_attempt_run senvL (burn senvL f3 s2)) as (b4 & f4 & H4 & _). mrun H4.
      rewrite (burn_burn senvL). do 2 eexists. split; [reflexivity|]. intros Hb. apply andb_true_iff in Hb. apply Hb.
    - do 2 eexists. split; [reflexivity|discriminate]. }
  destruct Hx as (b & f & Hx & Hb).
  rewrite (bind_step _ _ _ b (burn senvL f s2)) in Hr.
  2:{ exact Hx. }
  exists (burn senvL f s). split; [apply framed_burn|].
  destruct b; cbn [negb] in Hr; injection Hr as <- <-.
  - left. split; [reflexivity|]. split; [auto|reflexivity].
  - right. split; [discriminate|]. right. reflexivity.
Qed.

(** The parts of a file: a header with the magic number and the version, and
    fields of the lengths it gives or the format fixes. *)
Definition documented (hb pk ct iv enc tag : bytes) : Prop :=
  let hdr := header_of hb in
  length hb = sizeof_header /\ h_magic hdr = TDE_MASTER_KEY_MAGIC /\ h_version hdr = TDE_VERSION /\
  bad_field_sizes hdr = false /\
  length pk = Z.to_nat (h_pubkey_len hdr) /\ length ct = Z.to_nat (h_ciphertext_len hdr) /\
  length iv = TDE_GCM_IV_LEN /\ length enc = TDE_AES_KEY_LEN /\ length tag = TDE_GCM_TAG_LEN.

(** A file that was accepted has the documented layout. *)
Lemma read_master_key_file_inv path e hdr ct iv enc tag e' :
  read_master_key_file path e = (Ok (hdr, (ct, iv, enc, tag)), e') ->
  exists f hb pk rest, files e !! path = Some f /\ hdr = header_of hb /\
    documented hb pk ct iv enc tag /\ f_data f = hb ++ pk ++ ct ++ iv ++ enc ++ tag ++ rest.
Proof.
  intros Hr. unfold read_master_key_file in Hr. minv Hr. destruct a as [stream|]; [|discriminate].
  assert (Hf : exists f, files e !! path = Some f /\ f_data f = stream).
  { unfold fopen_read in Hm. minv Hm. destruct (attempt_run e) as (b & fs & Ha).
    rewrite Ha in Hm0. injection Hm0 as <- <-. destruct b; [|discriminate].
    injection Hm as Hm _. cbn in Hm. destruct (files e !! path) as [f|]; [|discriminate].
    exists f. split; [reflexivity|]. injection Hm as <-. reflexivity. }
  destruct Hf as (f & Hf & <-). minv Hr. destruct a as [[hb stream1]|]; [|discriminate].
  destruct (Z.eqb_spec (h_magic (header_of hb)) TDE_MASTER_KEY_MAGIC) as [Hma|]; [|discriminate].
  destruct (Z.eqb_spec (h_version (header_of hb)) TDE_VERSION) as [Hve|]; [|discriminate].
  cbn [negb] in Hr. destruct (bad_field_sizes _) eqn:Hbad; [discriminate|]. minv Hr.
  destruct a as [items|]; [|discriminate]. destruct (freads_inv _ _ _ _ _ Hm1) as (Hl & rest & Hs).
  destruct items as [|pk [|ct' [|iv' [|enc' [|tag' [|]]]]]]; try discriminate.
  injection Hr as <- <- <- <- <- _. injection Hl as Hpk Hct Hiv Henc Htag.
  assert (Hh : length hb = sizeof_header /\ f_data f = hb ++ stream1).
  { destruct (freads_inv [sizeof_header] (f_data f) s [hb] s0) as (Hl & r & Hd).
    - cbn [freads]. rewrite (bind_step _ _ _ _ _ Hm0). reflexivity.
    - injection Hl as Hl. split; [exact Hl|]. cbn [concat] in Hd. rewrite app_nil_r in Hd.
      unfold fread in Hm0. minv Hm0. destruct (_ && _ && _); [|discriminate].
      injection Hm0 as _ Hsk _. rewrite Hd, skipn_app_exact in Hsk by exact Hl. congruence. }
  destruct Hh as [Hhl Hd]. exists f, hb, pk, rest. unfold documented. repeat split; auto.
  rewrite Hd, Hs. cbn [concat]. rewrite app_nil_r, <- !app_assoc. reflexivity.
Qed.

(** Reading the file only makes calls. *)
Lemma read_master_key_file_env path e :
  exists fs, snd (read_master_key_file path e) = set_faults fs e.
Proof.
  set (I := fun e' => exists fs, e' = set_faults fs e).
  assert (Hatt : preserves I attempt).
  { intros e1 [fs ->]. destruct (attempt_run (set_faults fs e)) as (b & fs' & ->). exists fs'. reflexivity. }
  assert (Hfr : forall n st, preserves I (fread n st)) by (intros; unfold fread; msteps).
  assert (Hfrs : forall l st, preserves I (freads l st)).
  { induction l as [|n l IH]; intros st; cbn [freads]; [msteps|]. apply preserves_bind; [apply Hfr|].
    intros [[item st']|]; [|msteps]. apply preserves_bind; [apply IH|]. msteps. }
  assert (Hp : preserves I (read_master_key_file path)).
  { unfold read_master_key_file, fopen_read. msteps.
    repeat match goal with |- preserves _ (match ?l with [] => _ | _ :: _ => _ end) => destruct l end; auto with pg. }
  apply (Hp e). exists (faults e). destruct e; reflexivity.
Qed.

(** The KEM that the table of a process has for an algorithm. *)
Definition table_kem (p : pqc) (alg : PqcAlgorithm) (k : OQS_KEM) : Prop :=
  exists row, pqc_get_algorithm_info alg p = (Ok (Some row), p) /\ type row = PQC_TYPE_KEM /\
    OQS_KEM_new (oqs_name row) = Some k.

Lemma kem_new_inv alg p ctx p' : pqc_kem_new alg p = (Ok ctx, p') -> table_kem p alg (oqs_kem ctx).
Proof.
  intros Hr. unfold pqc_kem_new in Hr. minv Hr. destruct a as [row|]; [|discriminate].
  assert (s = p) as -> by (unfold pqc_get_algorithm_info in Hm; destruct (_ || _); injection Hm; auto).
  exists row. split; [exact Hm|]. unfold is_type in Hr. case_bool_decide as Ht; [|discriminate]. split; [exact Ht|].
  cbn [negb] in Hr. minv Hr. destruct (OQS_KEM_new (oqs_name row)) as [k|]; [|discriminate].
  injection Hr as <- _. reflexivity.
Qed.

Lemma table_kem_same p p' alg k : pqc_algorithms p' = pqc_algorithms p -> table_kem p' alg k -> table_kem p alg k.
Proof.
  intros E (row & Hg & Ht & Hk). exists row. split; [|auto]. unfold pqc_get_algorithm_info in *.
  destruct (_ || _); [discriminate|]. cbn in *. rewrite E in Hg. congruence.
Qed.

Lemma decaps_inv ctx ct n sk p st ss p' :
  pqc_kem_decaps (Some ctx) (Some ct) n (Some sk) (length sk) p = (Ok (st, Some ss), p') ->
  ss = OQS_KEM_decaps (oqs_kem ctx) ct sk /\ n = kem_length_ciphertext (oqs_kem ctx) /\
  length sk = kem_length_secret_key (oqs_kem ctx).
Proof.
  intros Hr. unfold pqc_kem_decaps in Hr. destruct (Nat.eqb_spec n (kem_length_ciphertext (oqs_kem ctx))); [|discriminate].
  destruct (Nat.eqb_spec (length sk) (kem_length_secret_key (oqs_kem ctx))); [|discriminate]. cbn [negb] in Hr.
  minv Hr. destruct a; [|discriminate]. minv Hr. injection Hr as _ <- _. auto.
Qed.

Lemma framed_preserves_pqc {A} s0 (m : M pqc A) : preserves (framed s0) (zoom pqcL m).
Proof. apply preserves_zoom_frame. intros p s [q ->]. exists p. reflexivity. Qed.

Lemma framed_preserves_env {A} s0 (m : M env A) : preserves (framed s0) (zoom senvL m).
Proof. apply preserves_zoom_frame. intros p s [q ->]. eexists. reflexivity. Qed.

#[local] Hint Resolve framed_preserves_pqc framed_preserves_env : pg.

(** How generation ends: it fails and leaves the keys alone, or it installs a
    new key. *)
Definition generated (s0 : server) (o : outcome unit) (s : server) : Prop :=
  match o with
  | Ok _ => exists s1 raw, framed s0 s1 /\ s = over masterL (mkMaster raw true true) s1
  | _ => framed s0 s
  end.

Lemma generate_any s : generated s (fst (tde_generate_master_key s)) (snd (tde_generate_master_key s)).
Proof.
  assert (Hs : framed s s) by (exists (sv_pqc s); destruct s; reflexivity).
  revert Hs. generalize s at 2 4 5. change (triple (framed s) tde_generate_master_key (generated s)).
  unfold tde_generate_master_key, tde_ensure_key_directory.
  repeat match goal with
  | |- triple _ (bind ?m _) _ =>
      lazymatch m with
      | set_master _ => fail
      | _ => apply triple_prefix; [solve [unfold tde_write_master_key_file; msteps]|intros ?|
               intros [] ? ? ?; [contradiction|assumption..]]
      end
  | |- triple _ (match ?x with _ => _ end) _ => destruct x
  | |- triple _ (raise _) _ => intros ? Hx; exact Hx
  end.
  intros s1 Hs1. exists (over senvL (set_log (log (sv_env s1) ++ [(LOG, "TDE: master key generated and wrapped with ML-KEM-768"%string)]) (sv_env s1)) s1).
  eexists. split; [|reflexivity]. destruct Hs1 as [q ->]. eexists. reflexivity.
Qed.
(** How unwrapping ends when no key was loaded.  A key was taken over only from
    a file of the documented layout: it is the decryption of the encrypted field
    under the secret that the algorithm of the header decapsulates from the
    ciphertext of the file with the secret key the provider gave in hex, and the
    tag of the file is right under that secret. *)
Definition unwrapped (s : server) (o : outcome unit) (s' : server) : Prop :=
  sv_keys s' = sv_keys s /\
  match o with
  | Ok _ =>
      MasterKeyLoaded (sv_master s') = true /\
      exists f hb pk ct iv enc tag rest fs hex e1 sk k,
        files (sv_env s) !! tde_master_key_path (sv_guc s) = Some f /\
        f_data f = hb ++ pk ++ ct ++ iv ++ enc ++ tag ++ rest /\ documented hb pk ct iv enc tag /\
        tde_key_provider_fetch (sv_guc s) (set_faults fs (sv_env s)) = (Ok hex, e1) /\
        (length hex mod 2 = 0)%nat /\ decode_hex (length hex / 2) hex = Some sk /\
        table_kem (sv_pqc s) (enum_of_u32 (h_kem_alg (header_of hb))) k /\
        length ct = kem_length_ciphertext k /\ length sk = kem_length_secret_key k /\
        gcm_tag_ok (OQS_KEM_decaps k ct sk) iv enc tag = true /\
        MasterKey (sv_master s') = gcm_crypt (OQS_KEM_decaps k ct sk) iv enc
  | _ =>
      MasterKeyLoaded (sv_master s') = false /\
      (MasterKey (sv_master s') = MasterKey (sv_master s) \/
       MasterKey (sv_master s') = zeros TDE_AES_KEY_LEN)
  end.

Lemma unwrapped_framed s o s' :
  MasterKeyLoaded (sv_master s) = false -> (forall a, o <> Ok a) -> framed s s' -> unwrapped s o s'.
Proof.
  intros Hl Ho [p ->]. split; [reflexivity|]. destruct o as [a| |]; [destruct (Ho a); reflexivity|cbn; auto..].
Qed.

Lemma zoom_env_inv {A} (m : M env A) s o s' :
  zoom senvL m s = (o, s') -> exists e, m (sv_env s) = (o, e) /\ s' = over senvL e s.
Proof.
  unfold zoom. change (view senvL s) with (sv_env s). destruct (m (sv_env s)) as [o' e].
  intros [= <- <-]. eauto.
Qed.
Lemma zoom_pqc_inv {A} (m : M pqc A) s o s' :
  zoom pqcL m s = (o, s') -> exists p, m (sv_pqc s) = (o, p) /\ s' = over pqcL p s.
Proof.
  unfold zoom. change (view pqcL s) with (sv_pqc s). destruct (m (sv_pqc s)) as [o' p].
  intros [= <- <-]. eauto.
Qed.

Lemma decode_secret_key_inv hex e sk e' : decode_secret_key hex e = (Ok sk, e') ->
  (length hex mod 2 = 0)%nat /\ decode_hex (length hex / 2) hex = Some sk.
Proof.
  unfold decode_secret_key. destruct (Nat.eqb_spec (length hex mod 2) 0); [|discriminate]. cbn [negb].
  destruct (decode_hex _ hex); [|discriminate]. intros [= <- _]. auto.
Qed.

Lemma unwrap_any s o s' :
  MasterKeyLoaded (sv_master s) = false -> tde_unwrap_master_key s = (o, s') ->
  unwrapped s o s'.
Proof.
  intros Hl Hr. unfold tde_unwrap_master_key in Hr.
  rewrite (bind_step _ _ _ (sv_master s) s) in Hr by reflexivity. rewrite Hl in Hr.
  rewrite (bind_step _ _ _ (sv_guc s) s) in Hr by reflexivity.
  mcases Hr; [|apply unwrapped_framed; [auto|discriminate|eauto with frame]..].
  destruct a as [hdr [[[ct iv] enc] tag]]. apply zoom_env_inv in Hm as (e1 & Hread & ->).
  destruct (read_master_key_file_env (tde_master_key_path (sv_guc s)) (sv_env s)) as [fs He1].
  rewrite Hread in He1. cbn [snd] in He1. subst e1.
  apply read_master_key_file_inv in Hread as (f & hb & pk & rest & Hf & -> & Hdoc & Hd).
  assert (F1 : framed s (over senvL (set_faults fs (sv_env s)) s)) by (eexists; reflexivity).
  mcases Hr; [|apply unwrapped_framed; [auto|discriminate|eauto with frame]..]. rename a into hex.
  apply zoom_env_inv in Hm as (e2 & Hfetch & ->). cbn in Hfetch.
  assert (F2 : framed s (over senvL e2 (over senvL (set_faults fs (sv_env s)) s))) by (eexists; reflexivity).
  mcases Hr; [|apply unwrapped_framed; [auto|discriminate|eauto with frame]..]. rename a into sk.
  apply zoom_env_inv in Hm as (e3 & Hdec & ->). apply decode_secret_key_inv in Hdec as [Hev Hdec].
  match type of Hr with bind _ _ ?t = _ => assert (F3 : framed s t) by (eexists; reflexivity);
    assert (Ht : pqc_algorithms (sv_pqc t) = pqc_algorithms (sv_pqc s)) by reflexivity; revert F3 Ht Hr;
    generalize t; clear F1 F2; intros s3 F3 Ht Hr end.
  mcases Hr; [|apply unwrapped_framed; [auto|discriminate|eauto with frame]..]. rename a into ctx.
  apply zoom_pqc_inv in Hm as (p4 & Hkem & ->). apply kem_new_inv, (table_kem_same _ _ _ _ Ht) in Hkem.
  assert (F4 : framed s (over pqcL p4 s3)) by (destruct F3 as [q ->]; eexists; reflexivity).
  mcases Hr; [|apply unwrapped_framed; [auto|discriminate|eauto with frame]..]. destruct a as [st [ss|]].
  2:{ apply framed_pqc in Hm. injection Hr as <- <-. apply unwrapped_framed; [auto|discriminate|eauto with frame]. }
  pose proof Hm as Hm'. apply framed_pqc in Hm'. assert (F5 : framed s s0) by eauto with frame.
  apply zoom_pqc_inv in Hm as (p5 & Hdc & _). apply decaps_inv in Hdc as (-> & Hctl & Hskl). clear F3 F4 Hm'.
  destruct F5 as [p ->]. mcases Hr.
  - apply gcm_unwrap_any in Hm as (sx & [q ->] & [(_ & Htag & ->)|(Hno & _)]);
      [|destruct a; contradiction].
    injection Hr as <- <-. split; [reflexivity|]. split; [reflexivity|].
    exists f, hb, pk, ct, iv, enc, tag, rest, fs, hex, e2, sk, (oqs_kem ctx).
    assert (length ct = kem_length_ciphertext (oqs_kem ctx)) by (rewrite <- Hctl; apply Hdoc). auto 15.
  - apply gcm_unwrap_any in Hm as (sx & [q ->] & [(? & _)|(_ & [->| ->])]); [discriminate|..];
      (split; [reflexivity|]); cbn; auto.
  - apply gcm_unwrap_any in Hm as (sx & [q ->] & [(? & _)|(_ & [->| ->])]); [discriminate|..];
      (split; [reflexivity|]); cbn; auto.
Qed.

Lemma unwrap_outcome s s' :
  MasterKeyLoaded (sv_master s) = false -> tde_unwrap_master_key s = (Ok tt, s') ->
  sv_keys s' = sv_keys s /\ MasterKeyLoaded (sv_master s') = true.
Proof. intros Hl Hr. destruct (unwrap_any _ _ _ Hl Hr) as (Hk & Hld & _). auto. Qed.
End AnyFaults.

Arguments read_master_key_file : simpl never.

(** ** Lemmas: what a generation that succeeded did *)

Section Generated.
  Context `{CL : CryptoLaws}.

Lemma attempt_inv b e e' : attempt e = (Ok b, e') -> exists fs, e' = set_faults fs e.
Proof. intros Hr. destruct (attempt_run e) as (b' & fs & Ha). rewrite Ha in Hr. injection Hr as _ <-. eauto. Qed.

Lemma fwrite_inv path d e e' f : fwrite path d e = (Ok true, e') -> files e !! path = Some f ->
  files e' !! path = Some (mkFile (f_data f ++ d) (f_mode f)).
Proof.
  intros Hr Hf. unfold fwrite in Hr. minv Hr. assert (Hs : files s = files e).
  { unfold next_fault in Hm. destruct (faults e); injection Hm as _ <-; reflexivity. }
  destruct a; [discriminate|]. cbn in Hr. injection Hr as _ <-. unfold append_file. rewrite Hs, Hf.
  cbn. apply lookup_insert_eq.
Qed.

Lemma fwrites_inv path l : forall e e' f, fwrites path l e = (Ok true, e') -> files e !! path = Some f ->
  files e' !! path = Some (mkFile (f_data f ++ concat l) (f_mode f)).
Proof.
  induction l as [|d l IH]; intros e e' f Hr Hf; cbn [fwrites] in Hr.
  - injection Hr as <-. rewrite Hf, app_nil_r. destruct f; reflexivity.
  - minv Hr. destruct a; [|discriminate]. rewrite (IH _ _ _ Hr (fwrite_inv _ _ _ _ _ Hm Hf)).
    cbn [f_data f_mode concat]. rewrite <- app_assoc. reflexivity.
Qed.

Lemma write_inv pk ct alg enc iv tag s s' : tde_write_master_key_file pk ct alg enc iv tag s = (Ok tt, s') ->
  exists mode, files (sv_env s') !! tde_master_key_path (sv_guc s) = Some (mkFile (master_file alg pk ct iv enc tag) mode).
Proof.
  intros Hr. unfold tde_write_master_key_file in Hr. rewrite (bind_step _ _ _ (sv_guc s) s) in Hr by reflexivity.
  cbv zeta in Hr. apply zoom_env_inv in Hr as (e' & Hr & ->). set (path := tde_master_key_path (sv_guc s)) in *.
  minv Hr. destruct a; [|discriminate]. cbn [negb] in Hr.
  assert (Ho : exists mode, files s0 !! path = Some (mkFile [] mode)).
  { unfold fopen_write in Hm. minv Hm. destruct a; [|discriminate]. cbn in Hm. injection Hm as <-.
    eexists. apply lookup_insert_eq. }
  destruct Ho as [mode Ho]. exists mode. minv Hr. destruct a; [|discriminate]. cbn [negb] in Hr.
  apply fwrites_inv with (f := mkFile [] mode) in Hm0; [|exact Ho]. cbn [f_data f_mode app] in Hm0.
  minv Hr. apply attempt_inv in Hm1 as [fs ->]. minv Hr. assert (Hl : files s2 = files s1).
  { unfold when in Hm1. destruct a; injection Hm1 as _ <-; reflexivity. }
  minv Hr. apply attempt_inv in Hm2 as [fs2 ->]. destruct a1; [|discriminate]. injection Hr as <-.
  cbn. rewrite Hl. exact Hm0.
Qed.

Lemma RAND_inv n r s s' : zoom senvL (RAND_bytes n) s = (Ok (Some r), s') ->
  r = RAND (draws (sv_env s)) n /\ sv_guc s' = sv_guc s /\ pqc_algorithms (sv_pqc s') = pqc_algorithms (sv_pqc s).
Proof.
  intros Hr. apply zoom_env_inv in Hr as (e & Hr & ->). split; [|split; reflexivity].
  unfold RAND_bytes in Hr. minv Hr. apply attempt_inv in Hm as [fs ->]. destruct a; [|discriminate].
  injection Hr as <- _. reflexivity.
Qed.

Lemma keygen_inv ctx s st keys s' : zoom pqcL (pqc_kem_keygen (Some ctx)) s = (Ok (st, Some keys), s') ->
  (exists d, keys = OQS_KEM_keypair (oqs_kem ctx) d) /\ sv_guc s' = sv_guc s.
Proof.
  intros Hr. apply zoom_pqc_inv in Hr as (p & Hr & ->). split; [|reflexivity]. unfold pqc_kem_keygen in Hr.
  minv Hr. destruct a; [|discriminate]. minv Hr. injection Hr as _ <- _. eauto.
Qed.

Lemma encaps_inv ctx pk n s st r s' : zoom pqcL (pqc_kem_encaps (Some ctx) (Some pk) n) s = (Ok (st, Some r), s') ->
  (exists d, r = OQS_KEM_encaps (oqs_kem ctx) pk d) /\ sv_guc s' = sv_guc s.
Proof.
  intros Hr. apply zoom_pqc_inv in Hr as (p & Hr & ->). split; [|reflexivity]. unfold pqc_kem_encaps in Hr.
  destruct (negb _); [discriminate|]. minv Hr. destruct a; [|discriminate]. minv Hr. minv Hr. injection Hr as _ <- _. eauto.
Qed.

(** The key in memory is the one drawn first, and the file wraps it. *)
Definition new_key (s s' : server) : Prop :=
  let raw := RAND (draws (sv_env s)) TDE_AES_KEY_LEN in
  sv_master s' = mkMaster raw true true /\
  exists k sk f, table_kem (sv_pqc s) PQC_ALG_ML_KEM_768 k /\
    files (sv_env s') !! tde_master_key_path (sv_guc s) = Some f /\ wraps k sk raw (f_data f).

Lemma generate_inv s s' : tde_generate_master_key s = (Ok tt, s') -> new_key s s'.
Proof.
  intros Hr. unfold tde_generate_master_key in Hr. minv Hr.
  assert (Hd : draws (sv_env s0) = draws (sv_env s) /\ sv_guc s0 = sv_guc s /\
    pqc_algorithms (sv_pqc s0) = pqc_algorithms (sv_pqc s)).
  { unfold tde_ensure_key_directory in Hm. rewrite (bind_step _ _ _ (sv_guc s) s) in Hm by reflexivity. minv Hm.
    apply zoom_env_inv in Hm0 as (e & Hm0 & ->). destruct a0; [|discriminate]. injection Hm as _ <-.
    split; [|split; reflexivity]. unfold mkdir in Hm0. minv Hm0. injection Hm as <- <-.
    case_bool_decide; [injection Hm0 as <-; reflexivity|]. minv Hm0. apply attempt_inv in Hm as [fs ->].
    destruct a0; [|discriminate]. cbn in Hm0. injection Hm0 as <-. reflexivity. }
  destruct Hd as (Hd & G0 & A0). minv Hr. destruct a0 as [raw|]; [|discriminate].
  apply RAND_inv in Hm0 as (-> & G1 & A1). minv Hr. rename a0 into ctx.
  apply zoom_pqc_inv in Hm0 as (p2 & Hk & ->). apply kem_new_inv in Hk.
  apply (table_kem_same (sv_pqc s)) in Hk; [|congruence]. minv Hr. destruct a0 as [st [keys|]]; [|discriminate].
  apply keygen_inv in Hm0 as [[d ->] G3]. destruct (OQS_KEM_keypair (oqs_kem ctx) d) as [pk sk] eqn:Hkp. minv Hr.
  destruct a0 as [st2 [enc|]]; [|discriminate]. apply encaps_inv in Hm0 as [[d' ->] G4].
  destruct (OQS_KEM_encaps (oqs_kem ctx) pk d') as [ct ss] eqn:Hen. minv Hr. destruct a0 as [iv|]; [|discriminate].
  apply RAND_inv in Hm0 as (-> & G5 & _). minv Hr. apply zoom_env_inv in Hm0 as (e6 & _ & ->).
  destruct a0; [|discriminate]. cbn [negb] in Hr. minv Hr. apply zoom_env_inv in Hm0 as (e7 & _ & ->).
  destruct a0; [|discriminate]. cbn [negb] in Hr. unfold gcm_seal in Hr. minv Hr. destruct a0.
  apply write_inv in Hm0 as [mode Hf]. cbn in G3. rewrite Hd in *. injection Hr as <-. split; [reflexivity|].
  exists (oqs_kem ctx), sk. eexists. split; [exact Hk|]. split.
  - rewrite <- G0, <- G1, <- G3, <- G4, <- G5. exact Hf.
  - pose proof (wraps_intro (oqs_kem ctx) d d' (RAND (draws (sv_env s3)) TDE_GCM_IV_LEN)
      (RAND (draws (sv_env s)) TDE_AES_KEY_LEN) (RAND_length _ _) (RAND_length _ _)) as Hw.
    cbv zeta in Hw. rewrite Hkp in Hw. cbn [fst snd] in Hw. rewrite Hen in Hw. exact Hw.
Qed.
End Generated.

(** ** Properties *)

Section KeyManageProperties.
  Context `{CL : CryptoLaws}.

(** C3: roundtrip.  Where nothing fails, a generated master key is recovered
    after a restart: some ML-KEM secret key, given in hex by the provider to a
    process that finds the same file, unwraps the very key that was in memory. *)
Theorem master_key_roundtrip s k :
  ready s -> OQS_KEM_new "ML-KEM-768" = Some k ->
  exists s' d, tde_generate_master_key s = (Ok tt, s') /\ sv_guc s' = sv_guc s /\
    MasterKeyLoaded (sv_master s') = true /\
    let sk := snd (OQS_KEM_keypair k d) in
    forall s2 e2, ready s2 -> MasterKeyLoaded (sv_master s2) = false ->
      files (sv_env s2) !! tde_master_key_path (sv_guc s2)
        = files (sv_env s') !! tde_master_key_path (sv_guc s') ->
      tde_key_provider_fetch (sv_guc s2) (sv_env s2) = (Ok (to_hex sk), e2) ->
      logs (sv_env s2) e2 ->
      exists s3, tde_unwrap_master_key s2 = (Ok tt, s3) /\
        MasterKey (sv_master s3) = MasterKey (sv_master s') /\
        MasterKeyLoaded (sv_master s3) = true.
Proof.
  intros Hs Hk.
  destruct (generate_ok s k Hs Hk) as (s' & sk & raw & f & Hg & HG & _ & _ & HM & Hf & Hw).
  assert (Hd : exists d, sk = snd (OQS_KEM_keypair k d)).
  { destruct Hw as (d & d' & iv & Hw). exists d. destruct (OQS_KEM_keypair k d) as [pk sk0].
    destruct (OQS_KEM_encaps k pk d'). apply Hw. }
  destruct Hd as [d ->]. exists s', d. rewrite HG, HM. split; [exact Hg|].
  split; [reflexivity|]. split; [reflexivity|].
  intros sk s2 e2 Hs2 Hnl Hsame Hp Hlog. rewrite Hf in Hsame.
  destruct (unwrap_ok s2 k sk raw f e2) as (s3 & H3 & HM3 & _); auto.
  exists s3. rewrite HM3. auto.
Qed.

(** C17: safety.  However the environment fails and whatever the file holds, a
    process that had no master key ends in one of two ways.  Either it has a
    master key, marked loaded: the file has the documented layout, the provider
    gave the hex text of a secret key, and the master key is the AES-GCM
    decryption of the 32 encrypted bytes of the file under the secret that the
    algorithm of the header decapsulates with that secret key from the
    ciphertext of the file, under which the tag of the file is right.  Or it
    fails, not loaded, with the key variable untouched or zero.  The tablespace
    keys are not touched. *)
Theorem unwrap_authenticated s o s' :
  MasterKeyLoaded (sv_master s) = false -> tde_unwrap_master_key s = (o, s') ->
  unwrapped s o s'.
Proof. apply unwrap_any. Qed.

(** C29: invariant.  Rotation is all or nothing in memory, however the
    environment fails.  Either it succeeds: the master key is the 32 bytes the
    random generator returned at its next draw, the master key file wraps these
    very bytes for the holder of an ML-KEM-768 secret key, and the cache is
    empty.  Or it fails with the master key and the tablespace keys as they
    were. *)
Theorem rotate_all_or_nothing s o s' :
  keys_ready s -> MasterKeyLoaded (sv_master s) = true -> tde_rotate_master_key s = (o, s') ->
  (o = Ok tt /\ new_key s s' /\ keys_ready s' /\ forall oid, tablespace_key s' oid = None) \/
  (o <> Ok tt /\ sv_master s' = sv_master s /\ sv_keys s' = sv_keys s).
Proof.
  intros (c & Hkeys & Hc) Hl Hr. unfold tde_rotate_master_key in Hr.
  rewrite (bind_step _ _ _ (sv_master s) s) in Hr by reflexivity. rewrite Hl in Hr. cbn [negb] in Hr.
  pose proof (generate_any s) as Hg. destruct (tde_generate_master_key s) as [o1 s1] eqn:Hrun.
  cbn [fst snd] in Hg. destruct o1 as [[]|e|]; cbn [generated] in Hg.
  - left. pose proof (generate_inv _ _ Hrun) as Hnew. assert (K1 : sv_keys s1 = sv_keys s)
      by (destruct Hg as (s2 & raw & [p ->] & ->); reflexivity).
    rewrite (bind_step _ _ _ _ _ (pg_try_ok _ _ _ _ _ Hrun)) in Hr.
    rewrite (bind_step _ _ _ tt (over keysL (mkShmem (Some (mkTdeKeyCache LW_FREE 0 zero_entries)) true) s1)) in Hr
      by (unfold zoom; change (view keysL s1) with (sv_keys s1); rewrite K1, Hkeys; reflexivity).
    injection Hr as <- <-. split; [reflexivity|]. split; [exact Hnew|]. split.
    + eexists. split; [reflexivity|apply zero_cache_wf].
    + intros oid. reflexivity.
  - right. destruct Hg as [p ->]. erewrite bind_err in Hr
      by (rewrite (pg_try_err _ _ _ _ _ Hrun); reflexivity).
    injection Hr as <- <-. split; [discriminate|]. split; [|reflexivity].
    cbn. rewrite <- Hl. destruct (sv_master s); reflexivity.
  - right. destruct Hg as [p ->]. erewrite bind_fatal in Hr by (unfold pg_try; rewrite Hrun; reflexivity).
    injection Hr as <- <-. split; [discriminate|]. split; reflexivity.
Qed.

(** Where nothing fails and the master key is loaded, the
    creation of a tablespace key ends in one of two ways.  The new key is usable
    at once (every lookup gives it, active and at version 1) and the keys of all
    other tablespaces are the same; or the limit error is raised, the cache is
    unchanged and it holds 256 active keys of other tablespaces. *)
Theorem tablespace_key_generated s c oid :
  ready s -> sv_keys s = mkShmem (Some c) true -> wf_cache c ->
  MasterKeyLoaded (sv_master s) = true ->
  exists o s', tde_generate_tablespace_key oid s = (o, s') /\ keys_ready s' /\
    ((o = Ok tt /\
      (exists e, tablespace_key s' oid = Some e /\ active e = true /\ version e = 1 /\
         length (key e) = TDE_AES_KEY_LEN) /\
      (forall oid', oid' <> oid -> tablespace_key s' oid' = tablespace_key s oid')) \/
     (o = Err ERRCODE_CONFIGURATION_LIMIT_EXCEEDED /\ sv_keys s' = sv_keys s /\
      num_entries c = TDE_MAX_CACHED_KEYS /\
      forall i old, slot c i old -> active old = true /\ spc_oid old <> oid)).
Proof.
  intros Hs Hkeys Hc Hl. unfold tde_generate_tablespace_key.
  rewrite (bind_step _ _ _ (sv_master s) s) by reflexivity. rewrite Hl. cbn [negb].
  destruct (RAND_ok s TDE_AES_KEY_LEN Hs) as (d & s1 & H1 & (_ & K1 & _) & _). mrun H1.
  set (e := mkTdeKeyEntry oid (RAND d TDE_AES_KEY_LEN) 1 true).
  assert (He : wf_entry e) by apply RAND_length.
  destruct (insert_run c e Hc) as (o & c' & Hrun & Hcase).
  pose proof (insert_case_wf _ _ _ _ Hc He Hcase) as Hc'.
  assert (Hz : zoom keysL (tde_keycache_insert e) s1 = (o, over keysL (mkShmem (Some c') true) s1)).
  { unfold zoom. change (view keysL s1) with (sv_keys s1). rewrite K1, Hkeys, Hrun. reflexivity. }
  destruct o as [[]|err|]; [| |inversion Hcase].
  - do 2 eexists. split; [mrun Hz; reflexivity|]. split; [eexists; split; [reflexivity|exact Hc']|].
    left. split; [reflexivity|].
    unfold tablespace_key. cbn [sv_keys over senvL keysL pqcL snd TdeKeyCacheShmem attached segment].
    rewrite Hkeys. cbn [TdeKeyCacheShmem attached segment]. split.
    + exists e. split; [|repeat split; apply RAND_length].
      rewrite (key_of_insert c e c' oid Hc He Hcase), decide_True by reflexivity. reflexivity.
    + intros oid' Hne. rewrite (key_of_insert c e c' oid' Hc He Hcase), decide_False by exact Hne.
      reflexivity.
  - do 2 eexists. split; [rewrite (bind_err _ _ _ _ _ Hz); reflexivity|].
    split; [eexists; split; [reflexivity|exact Hc']|]. right.
    inversion Hcase; subst. split; [reflexivity|]. split; [symmetry; exact Hkeys|]. eauto.
Qed.

(** C38: safety.  A successful rotation loses every tablespace key: nothing
    re-wraps or reloads them, and from then on each flush of any page of any
    tablespace hands the page to the storage manager in clear. *)
Theorem rotation_then_plaintext s k :
  ready s -> keys_ready s -> OQS_KEM_new "ML-KEM-768" = Some k ->
  MasterKeyLoaded (sv_master s) = true ->
  exists s', tde_rotate_master_key s = (Ok tt, s') /\
    forall cfg id mem, exists mem',
      FlushBuffer cfg id (s', mem) = (Ok (checksummed cfg (pg_blockNum id) (bufBlock mem)), (s', mem')).
Proof.
  intros Hs (c & Hkeys & Hc) Hk Hl.
  destruct (generate_ok s k Hs Hk) as (s1 & sk & raw & f & Hg & _ & K1 & _).
  eexists. split.
  - unfold tde_rotate_master_key. rewrite (bind_step _ _ _ (sv_master s) s) by reflexivity.
    rewrite Hl. cbn [negb]. mrun (pg_try_ok _ (fun e => do! set_master (fun m => mkMaster (MasterKey (sv_master s))
      true (MasterKeyExitRegistered m)) in raise e) _ _ _ Hg).
    rewrite (bind_step _ _ _ tt (over keysL (mkShmem (Some (mkTdeKeyCache LW_FREE 0 zero_entries)) true) s1)).
    + reflexivity.
    + unfold zoom. change (view keysL s1) with (sv_keys s1). rewrite K1, Hkeys. reflexivity.
  - intros cfg id mem. apply flush_no_key; [|reflexivity].
    eexists. split; [reflexivity|apply zero_cache_wf].
Qed.
(** Twelve calls succeed and the next one, the first write of the new file,
    fails before it writes anything. *)
Definition first_write_fails : list (option nat) := repeat None 12 ++ [Some 0%nat].

(** The file is opened, which empties it, and the first write fails. *)
Lemma write_master_key_file_fails s pk ct alg enc iv tag :
  faults (sv_env s) = [None; Some 0%nat] ->
  exists mode s', tde_write_master_key_file pk ct alg enc iv tag s = (Err ERRCODE_FILE_ACCESS, s') /\
    framed s s' /\
    files (sv_env s') !! tde_master_key_path (sv_guc s) = Some (mkFile [] mode).
Proof.
  intros Hfs. set (path := tde_master_key_path (sv_guc s)).
  set (mode := match files (sv_env s) !! path with Some f => f_mode f | None => 384 end).
  set (e1 := set_faults [] (set_files (<[path := mkFile [] mode]> (files (sv_env s))) (sv_env s))).
  exists mode, (over senvL e1 s).
  split; [|split; [eexists; reflexivity|apply lookup_insert_eq]].
  unfold tde_write_master_key_file. rewrite (bind_step _ _ _ (sv_guc s) s) by reflexivity.
  unfold zoom. change (view senvL s) with (sv_env s). fold path. unfold e1, mode.
  destruct (sv_env s) as [fs d fi di v c lg]. cbn in Hfs. subst fs. cbn.
  unfold append_file. cbn. rewrite lookup_insert_eq. cbn. rewrite insert_insert_eq. reflexivity.
Qed.

Lemma generate_write_fails s k :
  faults (sv_env s) = first_write_fails -> registry_ok (sv_pqc s) ->
  key_directory (sv_guc s) ∈ dirs (sv_env s) -> OQS_KEM_new "ML-KEM-768" = Some k ->
  exists s', tde_generate_master_key s = (Err ERRCODE_FILE_ACCESS, s') /\ framed s s' /\
    exists mode, files (sv_env s') !! tde_master_key_path (sv_guc s) = Some (mkFile [] mode).
Proof.
  intros Hfs Hok Hdir Hk.
  assert (Hl : kem_laws k) by (apply (KEM_laws "ML-KEM-768"); [cbn; auto|exact Hk]).
  unfold tde_generate_master_key. rewrite (bind_step _ _ _ tt s).
  2:{ unfold tde_ensure_key_directory. rewrite (bind_step _ _ _ (sv_guc s) s) by reflexivity.
      rewrite (bind_step _ _ _ true s); [reflexivity|]. apply zoom_env_same. unfold mkdir, gets, bind.
      rewrite bool_decide_eq_true_2 by exact Hdir. reflexivity. }
  clear Hdir. destruct s as [[[fs d fi di v c lg] ini al seg att] g ks ms w q].
  cbn in Hfs. subst fs. rewrite (bind_step _ _ _ (Some (RAND d 32)) (mkServer (mkPqc
    (mkEnv (repeat None 11 ++ [Some 0%nat]) (S d) fi di v c lg) ini al seg att) g ks ms w q)) by reflexivity.
  cbv beta iota.
  destruct (pqc_kem_new_run (mkPqc (mkEnv (repeat None 11 ++ [Some 0%nat]) (S d) fi di v c lg) ini al seg att)
    PQC_ALG_ML_KEM_768 (kem_row PQC_ALG_ML_KEM_768 "ML-KEM-768" 3) k)
    as (p' & H1 & (l & Hp') & _); [exact Hok|discriminate|reflexivity..|exact Hk|].
  destruct p' as [e' ini' al' seg' att']. cbn in Hp'. subst e'.
  rewrite (bind_step _ _ _ (mkKemContext k PQC_ALG_ML_KEM_768) (mkServer (mkPqc
    (mkEnv (repeat None 11 ++ [Some 0%nat]) (S d) fi di v c l) ini' al' seg' att') g ks ms w q))
    by (cbn [zoom view over pqcL sv_pqc]; rewrite H1; reflexivity).
  rewrite (bind_step _ _ _ (PQC_SUCCESS, Some (OQS_KEM_keypair k (S d))) (mkServer (mkPqc
    (mkEnv (repeat None 10 ++ [Some 0%nat]) (S (S d)) fi di v c l) ini' al' seg' att') g ks ms w q))
    by reflexivity.
  pose proof (kem_pk_length k Hl (S d)) as Hpk. destruct (OQS_KEM_keypair k (S d)) as [pk sk].
  cbv beta iota. cbn [fst] in Hpk.
  assert (H2 : exists seg2, zoom pqcL (pqc_kem_encaps (Some (mkKemContext k PQC_ALG_ML_KEM_768)) (Some pk) (length pk))
    (mkServer (mkPqc (mkEnv (repeat None 10 ++ [Some 0%nat]) (S (S d)) fi di v c l) ini' al' seg' att') g ks ms w q)
    = (Ok (PQC_SUCCESS, Some (OQS_KEM_encaps k pk (S (S d)))),
       mkServer (mkPqc (mkEnv (repeat None 9 ++ [Some 0%nat]) (S (S (S d))) fi di v c l) ini' al' seg2 att') g ks ms w q)).
  { cbn [zoom view over pqcL sv_pqc]. unfold pqc_kem_encaps. cbn [oqs_kem]. rewrite Hpk, Nat.eqb_refl.
    cbn. unfold pqc_stat_counters. cbn. destruct att', seg'; eexists; reflexivity. }
  destruct H2 as [seg2 H2]. mrun H2. destruct (OQS_KEM_encaps k pk (S (S d))) as [ct ss]. cbv beta iota.
  rewrite (bind_step _ _ _ (Some (RAND (S (S (S d))) 12)) (mkServer (mkPqc
    (mkEnv (repeat None 8 ++ [Some 0%nat]) (S (S (S (S d)))) fi di v c l) ini' al' seg2 att') g ks ms w q)) by reflexivity.
  set (s7 := mkServer (mkPqc (mkEnv [None; Some 0%nat] (S (S (S (S d)))) fi di v c l) ini' al' seg2 att') g ks ms w q).
  rewrite (bind_step _ _ _ true (sburn (repeat None 7 ++ [Some 0%nat]) s7)) by reflexivity. cbn [negb].
  rewrite (bind_step _ _ _ true s7) by reflexivity. cbn [negb]. unfold gcm_seal.
  destruct (write_master_key_file_fails s7 pk ct PQC_ALG_ML_KEM_768 (gcm_crypt ss (RAND (S (S (S d))) 12)
    (RAND d 32)) (RAND (S (S (S d))) 12) (AES256_GCM_tag ss (RAND (S (S (S d))) 12)
    (gcm_crypt ss (RAND (S (S (S d))) 12) (RAND d 32)))) as (mode & s8 & H8 & [p8 ->] & Hf8); [reflexivity|].
  eexists. split; [rewrite (bind_err _ _ _ _ _ H8); reflexivity|]. split; [eexists; reflexivity|].
  exists mode. exact Hf8.
Qed.
(** An empty file is rejected. *)
Lemma unwrap_empty_file s mode :
  no_faults (sv_env s) -> MasterKeyLoaded (sv_master s) = false ->
  files (sv_env s) !! tde_master_key_path (sv_guc s) = Some (mkFile [] mode) ->
  tde_unwrap_master_key s = (Err ERRCODE_DATA_CORRUPTED, s).
Proof.
  intros Hn Hl Hf. unfold tde_unwrap_master_key.
  rewrite (bind_step _ _ _ (sv_master s) s) by reflexivity. rewrite Hl.
  rewrite (bind_step _ _ _ (sv_guc s) s) by reflexivity. apply bind_err, zoom_env_same.
  unfold read_master_key_file. rewrite (bind_step _ _ _ (Some []) (sv_env s)).
  - rewrite (bind_step _ _ _ None (sv_env s)); [reflexivity|].
    cbn -[sv_env]. rewrite Hn. reflexivity.
  - cbn -[sv_env]. rewrite Hn. cbn -[sv_env]. rewrite Hf. reflexivity.
Qed.

(** A rotation that fails at its first write has already emptied
    the master key file: the running process keeps its key, but every later
    process that finds that file cannot unwrap any key. *)
Theorem failed_rotation_destroys_file s k :
  faults (sv_env s) = first_write_fails -> registry_ok (sv_pqc s) ->
  key_directory (sv_guc s) ∈ dirs (sv_env s) -> OQS_KEM_new "ML-KEM-768" = Some k ->
  MasterKeyLoaded (sv_master s) = true ->
  exists s', tde_rotate_master_key s = (Err ERRCODE_FILE_ACCESS, s') /\
    MasterKey (sv_master s') = MasterKey (sv_master s) /\
    forall s2, no_faults (sv_env s2) -> MasterKeyLoaded (sv_master s2) = false ->
      files (sv_env s2) !! tde_master_key_path (sv_guc s2)
        = files (sv_env s') !! tde_master_key_path (sv_guc s') ->
      tde_unwrap_master_key s2 = (Err ERRCODE_DATA_CORRUPTED, s2).
Proof.
  intros Hfs Hok Hdir Hk Hl.
  destruct (generate_write_fails s k Hfs Hok Hdir Hk) as (s1 & Hg & [p ->] & mode & Hf).
  eexists. split; [|split].
  - unfold tde_rotate_master_key. rewrite (bind_step _ _ _ (sv_master s) s) by reflexivity.
    rewrite Hl. cbn [negb]. apply bind_err. rewrite (pg_try_err _ _ _ _ _ Hg). reflexivity.
  - reflexivity.
  - intros s2 Hn Hnl Hsame. apply (unwrap_empty_file s2 mode Hn Hnl). rewrite Hsame. exact Hf.
Qed.
End KeyManageProperties.

(** ** Witnesses *)

Import Toy.

Definition sample_loaded : server :=
  over masterL (mkMaster (zeros 32) true true) sample_server.

(** A process started later, with the secret key in its environment. *)
Definition restarted (s : server) (hex : bytes) : server :=
  server_boot (sv_guc s)
    (mkEnv [] 0 (files (sv_env s)) ∅ {["FORTRESSQL_KEM_SECRET_KEY"%string := hex]} ∅ []).

Lemma sample_ready_server : ready sample_server.
Proof. split; reflexivity. Qed.

Lemma master_key_roundtrip_witness :
  exists s' hex s3, tde_generate_master_key sample_server = (Ok tt, s') /\
    tde_unwrap_master_key (restarted s' hex) = (Ok tt, s3) /\
    MasterKey (sv_master s3) = MasterKey (sv_master s').
Proof.
  destruct (master_key_roundtrip sample_server (toy_kem 8 12 10)) as (s' & d & Hg & HG & _ & Hu);
    [exact sample_ready_server|reflexivity|].
  set (hex := to_hex (snd (OQS_KEM_keypair (toy_kem 8 12 10) d))) in Hu.
  destruct (Hu (restarted s' hex) (sv_env (restarted s' hex))) as (s3 & H3 & HM & _);
    [split; reflexivity|reflexivity|reflexivity| |apply logs_refl|exists s', hex, s3; auto].
  unfold restarted, server_boot. rewrite HG. reflexivity.
Defined.

(** A process that finds no file, and one that finds the file a generation left
    and is given its secret key. *)
Definition sample_generated : server := snd (tde_generate_master_key sample_server).

Definition sample_restarted : server :=
  restarted sample_generated (to_hex (snd (OQS_KEM_keypair (toy_kem 8 12 10) 1))).

Lemma unwrap_authenticated_witness :
  unwrapped (server_boot sample_guc env0) (Err ERRCODE_FILE_ACCESS) (server_boot sample_guc env0) /\
  exists s', unwrapped sample_restarted (Ok tt) s' /\
    MasterKey (sv_master s') = MasterKey (sv_master sample_generated).
Proof.
  split; [apply unwrap_authenticated; reflexivity|].
  destruct (tde_unwrap_master_key sample_restarted) as [o s'] eqn:Hr.
  assert (Hv : match tde_unwrap_master_key sample_restarted with
    (Ok _, s1) => bytes_eqb (MasterKey (sv_master s1)) (MasterKey (sv_master sample_generated)) | _ => false end = true)
    by (vm_compute; reflexivity).
  rewrite Hr in Hv. destruct o as [[]| |]; [|discriminate..]. exists s'. split; [|apply bytes_eqb_eq, Hv].
  apply unwrap_authenticated; [reflexivity|exact Hr].
Defined.

(** A rotation whose first call fails, and one without failures. *)
Lemma rotate_all_or_nothing_witness :
  (exists o s', tde_rotate_master_key (sburn [Some 0%nat] sample_loaded) = (o, s') /\
     (o = Ok tt \/ MasterKey (sv_master s') = zeros 32)) /\
  exists s', tde_rotate_master_key sample_loaded = (Ok tt, s') /\ new_key sample_loaded s'.
Proof.
  split.
  - destruct (tde_rotate_master_key (sburn [Some 0%nat] sample_loaded)) as [o s'] eqn:Hr.
    exists o, s'. split; [reflexivity|].
    destruct (rotate_all_or_nothing (sburn [Some 0%nat] sample_loaded) o s') as [(-> & _)|(_ & -> & _)];
      [apply keys_ready_sburn; exact sample_ready|reflexivity|exact Hr|left; reflexivity|right; reflexivity].
  - destruct (tde_rotate_master_key sample_loaded) as [o s'] eqn:Hr.
    assert (Hv : match tde_rotate_master_key sample_loaded with (Ok _, _) => true | _ => false end = true)
      by (vm_compute; reflexivity).
    rewrite Hr in Hv. destruct o as [[]| |]; [|discriminate..]. exists s'. split; [reflexivity|].
    destruct (rotate_all_or_nothing sample_loaded (Ok tt) s') as [(_ & Hn & _)|(Hno & _)];
      [exact sample_ready|reflexivity|exact Hr|exact Hn|contradiction].
Defined.

(** The server with an empty cache and a loaded master key. *)
Definition sample_empty : server :=
  over keysL (mkShmem (Some (mkTdeKeyCache LW_FREE 0 zero_entries)) true) sample_loaded.

Lemma tablespace_key_generated_witness :
  exists s' e, tde_generate_tablespace_key 7 sample_empty = (Ok tt, s') /\
    tablespace_key s' 7 = Some e /\ version e = 1.
Proof.
  destruct (tablespace_key_generated sample_empty (mkTdeKeyCache LW_FREE 0 zero_entries) 7)
    as (o & s' & Hr & _ & [(-> & (e & He & _ & Hv & _) & _)|(_ & _ & Hn & _)]);
    [split; reflexivity|reflexivity|apply zero_cache_wf|reflexivity| |discriminate Hn].
  exists s', e. auto.
Defined.

Lemma rotation_then_plaintext_witness :
  exists s' mem', tde_rotate_master_key sample_loaded = (Ok tt, s') /\
    FlushBuffer sample_cfg sample_page_id (s', mkBufmem sample_page [] [])
      = (Ok (checksummed sample_cfg 7 sample_page), (s', mem')).
Proof.
  destruct (rotation_then_plaintext sample_loaded (toy_kem 8 12 10)) as (s' & Hr & Hf);
    [split; reflexivity|exact sample_ready|reflexivity|reflexivity|].
  destruct (Hf sample_cfg sample_page_id (mkBufmem sample_page [] [])) as (mem' & Hm).
  exists s', mem'. split; [exact Hr|exact Hm].
Defined.

Definition sample_failing : server :=
  over senvL (mkEnv first_write_fails 0 ∅ {[key_directory sample_guc]} ∅ ∅ []) sample_loaded.

Lemma failed_rotation_destroys_file_witness :
  exists s', tde_rotate_master_key sample_failing = (Err ERRCODE_FILE_ACCESS, s') /\
    tde_unwrap_master_key (restarted s' []) = (Err ERRCODE_DATA_CORRUPTED, restarted s' []).
Proof.
  destruct (failed_rotation_destroys_file sample_failing (toy_kem 8 12 10)) as (s' & Hr & _ & Hu);
    [reflexivity..|].
  exists s'. split; [exact Hr|]. apply Hu; [reflexivity..].
Defined.
