(* ===== verification/WalKeys.v ===== *)
(** * The keys that sign the WAL (src/backend/crypto/pqc/pqc_wal_keys.c)

    A key pair of a signature algorithm, kept in two files of a directory and
    in static variables of the process. *)
From Stdlib Require Import ZArith Lia Bool String List.
From stdpp Require Import base gmap list strings.
From S2P Require Import Prelude CryptoIface Env KeyCache PqcRegistry PqcKem PqcSig Server KeyManage.
Import ListNotations.
Local Open Scope Z_scope.
Local Open Scope pg_scope.

Definition WAL_SIGNING_KEY_FILE : string := "wal_signing.key".
Definition WAL_SIGNING_PUB_FILE : string := "wal_signing.pub".

Definition sk_path (key_path : string) : string := path_buf (key_path ++ "/" ++ WAL_SIGNING_KEY_FILE).
Definition pk_path (key_path : string) : string := path_buf (key_path ++ "/" ++ WAL_SIGNING_PUB_FILE).

Definition set_wal (f : wal_state -> wal_state) : M server unit := zoom walL (modify f).

(** Assignments to the static variables. *)
Definition set_sk (k : option bytes) (w : wal_state) : wal_state :=
  mkWalState (wal_pqc_signing w) k (wal_secret_key_len w) (wal_public_key w) (wal_public_key_len w)
    (wal_sig_algorithm w) (wal_keys_loaded w).
Definition set_sk_len (n : nat) (w : wal_state) : wal_state :=
  mkWalState (wal_pqc_signing w) (wal_secret_key w) n (wal_public_key w) (wal_public_key_len w)
    (wal_sig_algorithm w) (wal_keys_loaded w).
Definition set_pk (k : option bytes) (w : wal_state) : wal_state :=
  mkWalState (wal_pqc_signing w) (wal_secret_key w) (wal_secret_key_len w) k (wal_public_key_len w)
    (wal_sig_algorithm w) (wal_keys_loaded w).
Definition set_pk_len (n : nat) (w : wal_state) : wal_state :=
  mkWalState (wal_pqc_signing w) (wal_secret_key w) (wal_secret_key_len w) (wal_public_key w) n
    (wal_sig_algorithm w) (wal_keys_loaded w).
Definition set_alg (a : PqcAlgorithm) (w : wal_state) : wal_state :=
  mkWalState (wal_pqc_signing w) (wal_secret_key w) (wal_secret_key_len w) (wal_public_key w)
    (wal_public_key_len w) a (wal_keys_loaded w).
Definition set_loaded (b : bool) (w : wal_state) : wal_state :=
  mkWalState (wal_pqc_signing w) (wal_secret_key w) (wal_secret_key_len w) (wal_public_key w)
    (wal_public_key_len w) (wal_sig_algorithm w) b.
Definition set_signing (b : bool) (w : wal_state) : wal_state :=
  mkWalState b (wal_secret_key w) (wal_secret_key_len w) (wal_public_key w)
    (wal_public_key_len w) (wal_sig_algorithm w) (wal_keys_loaded w).

(** [secure_free] or [pfree] of a key, its pointer and its length reset. *)
Definition drop_sk (w : wal_state) : wal_state := set_sk_len 0 (set_sk None w).
Definition drop_pk (w : wal_state) : wal_state := set_pk_len 0 (set_pk None w).

Definition pqc_wal_resolve_algorithm (algorithm : option string) : M server PqcAlgorithm :=
  let! alg := zoom pqcL (pqc_algorithm_from_name algorithm) in
  let! sig := zoom pqcL (pqc_algorithm_is_sig alg) in
  if negb sig then raise ERRCODE_INVALID_PARAMETER_VALUE else ret alg.

(** The caller's length variable is assigned through [set_len] as soon as the
    size is known, before the checks that can fail. *)
Definition read_key_file (filepath : string) (set_len : nat -> wal_state -> wal_state)
    : M server bytes :=
  let! fp := zoom senvL (fopen_read filepath) in
  match fp with
  | None => raise ERRCODE_FILE_ACCESS
  | Some stream =>
      let! st := zoom senvL attempt in
      if negb st then raise ERRCODE_FILE_ACCESS
      else
        let len := length stream in
        do! set_wal (set_len len) in
        if (len =? 0)%nat then raise ERRCODE_DATA_CORRUPTED
        else if 102400 <? Z.of_nat len then raise ERRCODE_DATA_CORRUPTED
        else
          let! buf := zoom senvL (fread_upto (Z.of_nat len) stream) in
          if negb (length buf =? len)%nat then raise ERRCODE_FILE_ACCESS else ret buf
  end.

Definition write_key_file (filepath : string) (data : bytes) (filemode : Z) : M env unit :=
  let! fd := fopen_write filepath filemode in
  if negb fd then raise ERRCODE_FILE_ACCESS
  else
    let! fp := attempt in
    if negb fp then raise ERRCODE_FILE_ACCESS
    else
      let! ok := fwrite_bytes filepath data in
      if negb ok then raise ERRCODE_FILE_ACCESS
      else
        let! synced := attempt in
        do! when (negb synced) (elog WARNING "could not fsync WAL signing key file") in
        let! closed := attempt in
        if negb closed then raise ERRCODE_FILE_ACCESS else ret tt.

(** What is done with keys of the wrong size. *)
Definition reject_keys : M server unit :=
  do! zoom senvL (elog WARNING "WAL signing key has wrong size; disabling WAL PQC signing") in
  set_wal (fun w => set_loaded false (set_signing false (drop_pk (drop_sk w)))).

Definition empty_path (key_path : option string) : bool :=
  match key_path with None | Some EmptyString => true | _ => false end.

Definition pqc_wal_load_signing_keys (key_path algorithm : option string) : M server unit :=
  if empty_path key_path then raise ERRCODE_INVALID_PARAMETER_VALUE
  else
    let dir := default EmptyString key_path in
    let! alg := pqc_wal_resolve_algorithm algorithm in
    do! set_wal (set_alg alg) in
    do! set_wal (fun w => match wal_secret_key w with Some _ => drop_sk w | None => w end) in
    do! set_wal (fun w => match wal_public_key w with Some _ => drop_pk w | None => w end) in
    let! sk := read_key_file (sk_path dir) set_sk_len in
    do! set_wal (set_sk (Some sk)) in
    let! pk := read_key_file (pk_path dir) set_pk_len in
    do! set_wal (set_pk (Some pk)) in
    let! w := gets sv_wal in
    let! expected_sk := zoom pqcL (pqc_sig_secret_key_len (wal_sig_algorithm w)) in
    let! expected_pk := zoom pqcL (pqc_sig_public_key_len (wal_sig_algorithm w)) in
    if ((0 <? expected_sk)%nat && negb (wal_secret_key_len w =? expected_sk)%nat) then reject_keys
    else if ((0 <? expected_pk)%nat && negb (wal_public_key_len w =? expected_pk)%nat) then reject_keys
    else
      do! set_wal (set_loaded true) in
      zoom senvL (elog LOG "FortressQL: loaded PQC WAL signing keys").

Section WalKeys.
  Context `{Crypto}.

Definition pqc_wal_generate_signing_keys (key_path algorithm : option string) : M server unit :=
  if empty_path key_path then raise ERRCODE_INVALID_PARAMETER_VALUE
  else
    let dir := default EmptyString key_path in
    let! st := zoom senvL (stat_isdir dir) in
    match st with
    | None => raise ERRCODE_FILE_ACCESS
    | Some false => raise ERRCODE_WRONG_OBJECT_TYPE
    | Some true =>
        let! alg := pqc_wal_resolve_algorithm algorithm in
        do! set_wal (set_alg alg) in
        let! ctx := zoom pqcL (pqc_sig_new alg) in
        let! (_, keys) := zoom pqcL (pqc_sig_keygen (Some ctx)) in
        match keys with
        | None => raise ERRCODE_EXTERNAL_ROUTINE_EXCEPTION
        | Some (pk, sk) =>
            do! zoom senvL (write_key_file (sk_path dir) sk 384) in
            do! zoom senvL (write_key_file (pk_path dir) pk 420) in
            do! zoom senvL (elog LOG "FortressQL: generated PQC WAL signing keys") in
            set_wal (fun w => mkWalState (wal_pqc_signing w) (Some sk) (length sk) (Some pk) (length pk)
                                (wal_sig_algorithm w) true)
        end
    end.

(** [None] is the result -1. *)
Definition pqc_wal_sign_data (data : bytes) (sig_out_buflen : nat) : M server (option bytes) :=
  let! w := gets sv_wal in
  if negb (wal_keys_loaded w) then
    do! zoom senvL (elog WARNING "PQC WAL signing keys not loaded, cannot sign") in ret None
  else
    let! ctx := zoom pqcL (pqc_sig_new (wal_sig_algorithm w)) in
    let! (_, sg) := zoom pqcL (pqc_sig_sign (Some ctx) (Some data) (length data)
                                 (wal_secret_key w) (wal_secret_key_len w)) in
    match sg with
    | None =>
        do! zoom senvL (elog WARNING "PQC WAL segment signing failed") in ret None
    | Some sig =>
        if (length sig =? 0)%nat then
          do! zoom senvL (elog WARNING "PQC WAL segment signing produced empty signature") in ret None
        else if (sig_out_buflen <? length sig)%nat then
          do! zoom senvL (elog WARNING "PQC WAL signature length exceeds buffer size") in ret None
        else ret (Some sig)
    end.

(** [true] is the result 0. *)
Definition pqc_wal_verify_data (data sig : bytes) (pubkey : option bytes) (pubkey_len : nat)
    : M server bool :=
  let! w := gets sv_wal in
  let! ctx := zoom pqcL (pqc_sig_new (wal_sig_algorithm w)) in
  let! st := zoom pqcL (pqc_sig_verify (Some ctx) (Some data) (length data) sig pubkey pubkey_len) in
  ret (match st with PQC_SUCCESS => true | _ => false end).

Definition pqc_wal_get_public_key : M server (option bytes * nat) :=
  let! w := gets sv_wal in
  if negb (wal_keys_loaded w) then raise ERRCODE_OBJECT_NOT_IN_PREREQUISITE_STATE
  else ret (wal_public_key w, wal_public_key_len w).
End WalKeys.

Arguments pqc_wal_resolve_algorithm : simpl never.
Arguments read_key_file : simpl never.
Arguments write_key_file : simpl never.
Arguments pqc_wal_load_signing_keys : simpl never.
Arguments pqc_wal_generate_signing_keys : simpl never.
Arguments pqc_wal_sign_data : simpl never.
Arguments pqc_wal_verify_data : simpl never.

(** ** Lemmas *)

(** [sig_alg_named n alg g]: the name [n] is that of the signature algorithm
    [alg], which liboqs provides as [g]. *)
Definition sig_alg_named `{Crypto} (n : string) (alg : PqcAlgorithm) (g : OQS_SIG) : Prop :=
  exists row0, 0 <= alg /\ pqc_algorithms_static !! Z.to_nat alg = Some row0 /\
    type row0 = PQC_TYPE_SIG /\ pg_strcasecmp (name row0) n = 0 /\
    OQS_SIG_new (oqs_name row0) = Some g.

(** The sizes the registry has for the algorithm: 0 before [pqc_init]. *)
Definition sizes_fit (p : pqc) (alg : PqcAlgorithm) (sk_len pk_len : nat) : Prop :=
  forall row, pqc_algorithms p !! Z.to_nat alg = Some row ->
    (secret_key_len row = 0%nat \/ secret_key_len row = sk_len) /\
    (public_key_len row = 0%nat \/ public_key_len row = pk_len).

Definition sizes_agree (p : pqc) (alg : PqcAlgorithm) (g : OQS_SIG) : Prop :=
  sizes_fit p alg (sig_length_secret_key g) (sig_length_public_key g).

Lemma zoom_pqc_run {A} (m : M pqc A) s o p :
  m (sv_pqc s) = (o, p) -> zoom pqcL m s = (o, over pqcL p s).
Proof. intros Hm. unfold zoom. change (view pqcL s) with (sv_pqc s). rewrite Hm. reflexivity. Qed.

Lemma set_wal_step {A} f (k : unit -> M server A) s :
  bind (set_wal f) k s = k tt (over walL (f (sv_wal s)) s).
Proof. reflexivity. Qed.

Lemma registry_row p alg row0 :
  registry_ok p -> 0 <= alg -> pqc_algorithms_static !! Z.to_nat alg = Some row0 ->
  exists row, pqc_get_algorithm_info alg p = (Ok (Some row), p) /\
    pqc_algorithms p !! Z.to_nat alg = Some row /\ ident row = ident row0 /\ 0 <= alg < 18.
Proof.
  intros Hok Hp H0. destruct (registry_get p alg row0 Hok Hp H0) as (row & Hg & Hid).
  pose proof (lookup_lt_Some _ _ _ H0) as Hlt. change (length pqc_algorithms_static) with 18%nat in Hlt.
  exists row. repeat split; try assumption; try lia. unfold pqc_get_algorithm_info in Hg.
  destruct ((alg <? 0) || (PQC_ALG_COUNT <=? alg)); [discriminate|]. injection Hg as Hg. exact Hg.
Qed.

Section WalKeyLemmas.
  Context `{Crypto}.

Lemma resolve_ok s n alg g :
  registry_ok (sv_pqc s) -> sig_alg_named n alg g ->
  pqc_wal_resolve_algorithm (Some n) s = (Ok alg, s).
Proof.
  intros Hok (row0 & Hp & H0 & Ht & Hn & _).
  destruct (registry_row (sv_pqc s) alg row0 Hok Hp H0) as (row & Hg & Hrow & Hid & _).
  injection Hid as _ En _ Ety _.
  pose proof (from_name_run (sv_pqc s) alg row n Hok Hp Hrow ltac:(congruence)) as Hf.
  assert (Hz : forall A (m : M pqc A) o, m (sv_pqc s) = (o, sv_pqc s) -> zoom pqcL m s = (o, s)).
  { intros A m o Hm. unfold zoom. change (view pqcL s) with (sv_pqc s). rewrite Hm.
    destruct s; reflexivity. }
  unfold pqc_wal_resolve_algorithm. mrun (Hz _ _ _ Hf).
  assert (Hs : pqc_algorithm_is_sig alg (sv_pqc s) = (Ok true, sv_pqc s)).
  { unfold pqc_algorithm_is_sig. mrun Hg. cbn [is_type].
    rewrite bool_decide_eq_true_2 by congruence. reflexivity. }
  mrun (Hz _ _ _ Hs). reflexivity.
Qed.

Lemma sig_size_ok s f alg row :
  0 <= alg < 18 -> pqc_algorithms (sv_pqc s) !! Z.to_nat alg = Some row ->
  type row = PQC_TYPE_SIG -> zoom pqcL (sig_size f alg) s = (Ok (f row), s).
Proof.
  intros Ha Hrow Ht. unfold zoom. change (view pqcL s) with (sv_pqc s).
  unfold sig_size. rewrite (bind_step _ _ _ (Some row) (sv_pqc s)).
  - cbn [is_type]. rewrite bool_decide_eq_true_2 by exact Ht. destruct s; reflexivity.
  - cbn. unfold PQC_ALG_COUNT. replace ((alg <? 0) || (18 <=? alg)) with false by lia.
    cbn. rewrite Hrow. reflexivity.
Qed.

Lemma read_key_file_ok s path f set_len :
  no_faults (sv_env s) -> files (sv_env s) !! path = Some f ->
  0 < blen (f_data f) <= 102400 ->
  read_key_file path set_len s
    = (Ok (f_data f), over walL (set_len (length (f_data f)) (sv_wal s)) s).
Proof.
  intros Hn Hf Hlen. unfold blen in Hlen. unfold read_key_file.
  rewrite (bind_step _ _ _ (Some (f_data f)) s).
  2:{ apply zoom_env_same. cbn -[sv_env]. rewrite Hn. cbn -[sv_env]. rewrite Hf. reflexivity. }
  cbv beta iota. rewrite (bind_step _ _ _ true s) by (apply zoom_env_same, attempt_no_faults, Hn).
  cbn [negb]. set (s1 := over walL (set_len (length (f_data f)) (sv_wal s)) s).
  rewrite (bind_step _ _ _ tt s1) by reflexivity.
  replace (length (f_data f) =? 0)%nat with false by (symmetry; apply Nat.eqb_neq; lia).
  replace (102400 <? Z.of_nat (length (f_data f))) with false by lia.
  rewrite (bind_step _ _ _ (f_data f) s1).
  - rewrite Nat.eqb_refl. reflexivity.
  - apply (zoom_env_same _ s1). unfold fread_upto. rewrite Nat2Z.id, firstn_all.
    change (sv_env s1) with (sv_env s). cbn -[sv_env]. rewrite Hn. reflexivity.
Qed.

Lemma write_key_file_ok s path data mode :
  no_faults (sv_env s) ->
  exists m, zoom senvL (write_key_file path data mode) s =
    (Ok tt, over senvL (set_files (<[path := mkFile data m]> (files (sv_env s))) (sv_env s)) s).
Proof.
  intros Hn. unfold zoom. change (view senvL s) with (sv_env s).
  destruct (sv_env s) as [fs d fi di v c lg]. unfold no_faults in Hn. cbn in Hn. subst fs.
  unfold write_key_file, fwrite_bytes, append_file. cbn. rewrite lookup_insert_eq. cbn.
  rewrite insert_insert_eq. eexists. reflexivity.
Qed.
(** Loading where nothing fails and the files have the sizes of the algorithm. *)
Lemma load_ok s dir n alg g fs fp :
  ready s -> dir <> EmptyString -> sig_alg_named n alg g ->
  sizes_fit (sv_pqc s) alg (length (f_data fs)) (length (f_data fp)) ->
  files (sv_env s) !! sk_path dir = Some fs -> files (sv_env s) !! pk_path dir = Some fp ->
  0 < blen (f_data fs) <= 102400 -> 0 < blen (f_data fp) <= 102400 ->
  exists s', pqc_wal_load_signing_keys (Some dir) (Some n) s = (Ok tt, s') /\
    sv_wal s' = mkWalState (wal_pqc_signing (sv_wal s)) (Some (f_data fs)) (length (f_data fs))
                  (Some (f_data fp)) (length (f_data fp)) alg true /\
    ready s' /\ files (sv_env s') = files (sv_env s).
Proof.
  intros [Hn Hok] Hdir Hnamed Hsz Hfs Hfp Hls Hlp.
  unfold pqc_wal_load_signing_keys.
  replace (empty_path (Some dir)) with false by (destruct dir; [contradiction|reflexivity]).
  cbn [default]. mrun (resolve_ok s n alg g Hok Hnamed).
  rewrite !set_wal_step.
  match goal with |- context [bind (read_key_file _ _) _ ?s0] => set (s1 := s0) end.
  change (sv_env s) with (sv_env s1) in *. change (sv_pqc s) with (sv_pqc s1) in *.
  mrun (read_key_file_ok s1 (sk_path dir) fs set_sk_len Hn Hfs Hls).
  rewrite set_wal_step.
  match goal with |- context [bind (read_key_file _ _) _ ?s0] => set (s2 := s0) end.
  change (sv_env s1) with (sv_env s2) in *. change (sv_pqc s1) with (sv_pqc s2) in *.
  mrun (read_key_file_ok s2 (pk_path dir) fp set_pk_len Hn Hfp Hlp).
  rewrite set_wal_step.
  match goal with |- context [bind (gets sv_wal) _ ?s0] => set (s3 := s0) end.
  rewrite (bind_step _ _ _ (sv_wal s3) s3) by reflexivity.
  assert (Ha : wal_sig_algorithm (sv_wal s3) = alg).
  { unfold s3, s2, s1. clear. destruct s as [? ? ? ? [? [] ? [] ? ? ?] ?]; reflexivity. }
  rewrite Ha. destruct Hnamed as (row0 & Hp & H0 & Ht & _ & _).
  destruct (registry_row (sv_pqc s3) alg row0 Hok Hp H0) as (row & Hg & Hrow & Hid & Hlt).
  injection Hid as _ _ _ Ety _. destruct (Hsz row Hrow) as [Hs1 Hs2].
  mrun (sig_size_ok s3 secret_key_len alg row Hlt Hrow ltac:(congruence)).
  mrun (sig_size_ok s3 public_key_len alg row Hlt Hrow ltac:(congruence)).
  change (wal_secret_key_len (sv_wal s3)) with (length (f_data fs)).
  change (wal_public_key_len (sv_wal s3)) with (length (f_data fp)).
  assert (Hz : forall a b, a = 0%nat \/ a = b -> (0 <? a)%nat && negb (b =? a)%nat = false)
    by (intros a b [->| ->]; [reflexivity|rewrite Nat.eqb_refl; destruct (0 <? b)%nat; reflexivity]).
  rewrite !Hz by assumption.
  eexists. split; [reflexivity|]. split; [|split; [split; assumption|reflexivity]].
  unfold s3, s2, s1. clear. destruct s as [? ? ? ? [? [] ? [] ? ? ?] ?]; reflexivity.
Qed.
Lemma sig_new_ok s n alg g :
  registry_ok (sv_pqc s) -> sig_alg_named n alg g ->
  exists s', zoom pqcL (pqc_sig_new alg) s = (Ok (mkSigContext g alg), s') /\ framed s s' /\
    (ready s -> ready s') /\ files (sv_env s') = files (sv_env s).
Proof.
  intros Hok (row0 & Hp & H0 & Ht & _ & Hg).
  destruct (pqc_sig_new_run (sv_pqc s) alg row0 g) as (p' & Hr & (l & Hl) & _ & Hok' & _); auto.
  exists (over pqcL p' s). unfold zoom. cbn. rewrite Hr.
  split; [reflexivity|]. split; [exists p'; reflexivity|]. cbn. rewrite Hl. split; [|reflexivity].
  intros [Hn _]. split; [|exact Hok']. unfold sv_env. cbn. rewrite Hl. exact Hn.
Qed.

Lemma ready_same_keys s p :
  same_keys (sv_pqc s) p -> no_faults (p_env p) -> ready s -> ready (over pqcL p s).
Proof.
  intros (_ & Ha & _) Hn [_ Hok]. split; [exact Hn|]. unfold registry_ok. cbn. rewrite Ha. exact Hok.
Qed.

(** A signature of the loaded key, where nothing fails and it fits. *)
Lemma sign_data_ok s n g data sk buflen :
  ready s -> sig_alg_named n (wal_sig_algorithm (sv_wal s)) g -> sig_laws g ->
  wal_keys_loaded (sv_wal s) = true -> wal_secret_key (sv_wal s) = Some sk ->
  wal_secret_key_len (sv_wal s) = length sk -> length sk = sig_length_secret_key g ->
  (sig_length_signature g <= buflen)%nat ->
  exists d s', pqc_wal_sign_data data buflen s = (Ok (Some (OQS_SIG_sign g data sk d)), s') /\
    framed s s' /\ ready s' /\ files (sv_env s') = files (sv_env s).
Proof.
  intros Hs Hnm Hl Hld Hsk Hskl Hlen Hbuf. unfold pqc_wal_sign_data.
  rewrite (bind_step _ _ _ (sv_wal s) s) by reflexivity. rewrite Hld. cbn [negb].
  destruct (sig_new_ok s n _ g (proj2 Hs) Hnm) as (s1 & H1 & F1 & R1 & E1). mrun H1.
  rewrite Hsk, Hskl.
  destruct (sign_run (mkSigContext g (wal_sig_algorithm (sv_wal s))) data sk (sv_pqc s1) Hlen)
    as (r & p2 & H2 & Hr & Hk & Hnf).
  mrun (zoom_pqc_run _ s1 _ _ H2).
  destruct (Hnf (proj1 (R1 Hs))) as [Hn2 Hne].
  destruct Hr as [->|[d ->]]; [contradiction|]. cbn [oqs_sig].
  pose proof (sig_nonempty g Hl data sk d) as Hnon. pose proof (sig_length_bound g Hl data sk d) as Hb.
  destruct (Nat.eqb_spec (length (OQS_SIG_sign g data sk d)) 0) as [E|_];
    [destruct (OQS_SIG_sign g data sk d); [contradiction|discriminate]|].
  replace (buflen <? length (OQS_SIG_sign g data sk d))%nat with false by (symmetry; apply Nat.ltb_ge; lia).
  exists d. eexists. split; [reflexivity|].
  split; [eapply framed_trans; [exact F1|exists p2; reflexivity]|].
  split; [apply ready_same_keys; auto|]. destruct Hk as (_ & _ & Hf). rewrite <- E1. exact Hf.
Qed.

Lemma verify_data_ok s n g data sg pk :
  ready s -> sig_alg_named n (wal_sig_algorithm (sv_wal s)) g -> length pk = sig_length_public_key g ->
  exists s', pqc_wal_verify_data data sg (Some pk) (length pk) s
      = (Ok (OQS_SIG_verify g data sg pk), s') /\ framed s s' /\ ready s'.
Proof.
  intros Hs Hnm Hlen. unfold pqc_wal_verify_data.
  rewrite (bind_step _ _ _ (sv_wal s) s) by reflexivity.
  destruct (sig_new_ok s n _ g (proj2 Hs) Hnm) as (s1 & H1 & F1 & R1 & E1). mrun H1.
  destruct (verify_run (mkSigContext g (wal_sig_algorithm (sv_wal s))) data sg pk (sv_pqc s1) Hlen)
    as (p2 & H2 & Hk & He).
  mrun (zoom_pqc_run _ s1 _ _ H2).
  cbn [oqs_sig]. eexists. split; [destruct (OQS_SIG_verify g data sg pk); reflexivity|].
  split; [eapply framed_trans; [exact F1|exists p2; reflexivity]|].
  apply ready_same_keys; auto. rewrite He. apply R1, Hs.
Qed.

Lemma wal_generate_ok s dir n alg g :
  ready s -> dir <> EmptyString -> dir ∈ dirs (sv_env s) -> sig_alg_named n alg g ->
  sk_path dir <> pk_path dir ->
  exists s' d fs fp, pqc_wal_generate_signing_keys (Some dir) (Some n) s = (Ok tt, s') /\ ready s' /\
    let (pk, sk) := OQS_SIG_keypair g d in
    sv_wal s' = mkWalState (wal_pqc_signing (sv_wal s)) (Some sk) (length sk) (Some pk) (length pk) alg true /\
    files (sv_env s') !! sk_path dir = Some fs /\ f_data fs = sk /\
    files (sv_env s') !! pk_path dir = Some fp /\ f_data fp = pk.
Proof.
  intros Hs Hdir Hin Hnm Hne. unfold pqc_wal_generate_signing_keys.
  replace (empty_path (Some dir)) with false by (destruct dir; [contradiction|reflexivity]).
  cbn [default]. rewrite (bind_step _ _ _ (Some true) s).
  2:{ apply zoom_env_same. unfold stat_isdir. cbn -[sv_env]. rewrite (proj1 Hs). cbn -[sv_env].
      rewrite bool_decide_eq_true_2 by exact Hin. reflexivity. }
  mrun (resolve_ok s n alg g (proj2 Hs) Hnm). rewrite set_wal_step.
  set (s1 := over walL (set_alg alg (sv_wal s)) s).
  destruct (sig_new_ok s1 n alg g (proj2 Hs) Hnm) as (s2 & H2 & [p2 ->] & R2 & _). mrun H2.
  destruct (sig_keygen_run (mkSigContext g alg) p2) as (r & p3 & H3 & Hr & Hk & Hnf).
  mrun (zoom_pqc_run _ (over pqcL p2 s1) _ _ H3).
  change (over pqcL p3 (over pqcL p2 s1)) with (over pqcL p3 s1).
  destruct (Hnf (proj1 (R2 Hs))) as [Hn3 Hsome]. destruct Hr as [->|[d ->]]; [contradiction|].
  assert (Hs3 : ready (over pqcL p3 s1)) by (apply (ready_same_keys (over pqcL p2 s1)); auto).
  cbn [oqs_sig]. destruct (OQS_SIG_keypair g d) as [pk sk] eqn:Hkp.
  destruct (write_key_file_ok (over pqcL p3 s1) (sk_path dir) sk 384 (proj1 Hs3)) as (m4 & H4). mrun H4.
  match goal with |- context [bind (zoom senvL (write_key_file _ pk _)) _ ?s0] => set (s4 := s0) end.
  destruct (write_key_file_ok s4 (pk_path dir) pk 420 (proj1 Hs3)) as (m5 & H5). mrun H5.
  do 2 eexists. exists (mkFile sk m4), (mkFile pk m5). split; [reflexivity|].
  split; [exact Hs3|]. rewrite Hkp. split; [reflexivity|].
  cbn [files set_files]. split; [|split; [reflexivity|split; [apply lookup_insert_eq|reflexivity]]].
  etransitivity; [apply lookup_insert_ne; congruence|apply lookup_insert_eq].
Qed.
End WalKeyLemmas.

(** ** Lemmas: any failures *)

Lemma read_key_file_any path set_len s buf s' :
  read_key_file path set_len s = (Ok buf, s') ->
  0 < blen buf <= 102400 /\ exists p, s' = over pqcL p (over walL (set_len (length buf) (sv_wal s)) s).
Proof.
  intros Hr. unfold read_key_file in Hr. minv Hr. apply framed_env in Hm as [p1 ->].
  destruct a as [stream|]; [|discriminate]. minv Hr. apply framed_env in Hm as [p2 ->].
  destruct a; [|discriminate]. cbn [negb] in Hr. rewrite set_wal_step in Hr.
  destruct (Nat.eqb_spec (length stream) 0); [discriminate|].
  destruct (Z.ltb_spec 102400 (Z.of_nat (length stream))); [discriminate|].
  minv Hr. apply framed_env in Hm as [p3 ->].
  destruct (Nat.eqb_spec (length a) (length stream)) as [E|]; [|discriminate].
  injection Hr as -> <-. rewrite <- E in *. split; [unfold blen; lia|]. exists p3. reflexivity.
Qed.

Lemma sig_size_pure f alg s o s' :
  zoom pqcL (sig_size f alg) s = (o, s') -> s' = s /\ exists k, o = Ok k.
Proof.
  unfold zoom, sig_size, pqc_get_algorithm_info. cbn [view pqcL].
  destruct ((alg <? 0) || _); cbn; intros [= <- <-]; destruct s; (split; [reflexivity|]);
    cbn; eexists; reflexivity.
Qed.

Lemma sig_size_same f alg s s' :
  pqc_algorithms (sv_pqc s') = pqc_algorithms (sv_pqc s) ->
  fst (zoom pqcL (sig_size f alg) s') = fst (zoom pqcL (sig_size f alg) s).
Proof.
  intros E. unfold zoom, sig_size, pqc_get_algorithm_info. cbn [view pqcL].
  destruct ((alg <? 0) || _); cbn; rewrite ?E; reflexivity.
Qed.

Lemma resolve_pure algorithm s o s' :
  pqc_wal_resolve_algorithm algorithm s = (o, s') -> framed s s'.
Proof.
  intros Hr. unfold pqc_wal_resolve_algorithm in Hr. mcases Hr; eauto with frame.
  mcases Hr; eauto with frame. destruct a0; injection Hr as <- <-; eauto with frame.
Qed.

(** Keys in memory that can be used: both present, with their true lengths,
    which are those the registry has for the algorithm, if it has any. *)
Definition wal_usable (s : server) : Prop :=
  let w := sv_wal s in
  wal_keys_loaded w = true /\
  exists sk pk, wal_secret_key w = Some sk /\ wal_secret_key_len w = length sk /\
    wal_public_key w = Some pk /\ wal_public_key_len w = length pk /\
    0 < blen sk <= 102400 /\ 0 < blen pk <= 102400 /\
    (exists k, fst (zoom pqcL (pqc_sig_secret_key_len (wal_sig_algorithm w)) s) = Ok k /\
       (k = 0%nat \/ k = length sk)) /\
    (exists k, fst (zoom pqcL (pqc_sig_public_key_len (wal_sig_algorithm w)) s) = Ok k /\
       (k = 0%nat \/ k = length pk)).

(** No keys, and signing switched off. *)
Definition wal_disabled (s : server) : Prop :=
  let w := sv_wal s in
  wal_keys_loaded w = false /\ wal_pqc_signing w = false /\
  wal_secret_key w = None /\ wal_secret_key_len w = 0%nat /\
  wal_public_key w = None /\ wal_public_key_len w = 0%nat.

Lemma size_check k n :
  (0 <? k)%nat && negb (n =? k)%nat = false -> k = 0%nat \/ k = n.
Proof.
  destruct (Nat.ltb_spec 0 k); [|left; lia]. destruct (Nat.eqb_spec n k); [right; congruence|discriminate].
Qed.

(** ** Properties *)

Section WalKeyProperties.
  Context `{CL : CryptoLaws}.

Lemma sig_laws_named n alg g : sig_alg_named n alg g -> sig_laws g.
Proof.
  intros (row0 & _ & H0 & Ht & _ & Hg). apply (SIG_laws (oqs_name row0)); [|exact Hg].
  pose proof (static_oqs_name _ _ H0) as Hi. rewrite Ht in Hi. exact Hi.
Qed.

(** However the environment fails and whatever the files hold,
    a load that returns leaves the process in one of two states: both keys in
    memory, with their true lengths and of the sizes of the algorithm; or no
    key and signing switched off.  No other key of the server is touched. *)
Theorem wal_load_outcomes key_path algorithm s s' :
  pqc_wal_load_signing_keys key_path algorithm s = (Ok tt, s') ->
  (wal_usable s' \/ wal_disabled s') /\
  sv_keys s' = sv_keys s /\ sv_master s' = sv_master s.
Proof.
  intros Hr. unfold pqc_wal_load_signing_keys in Hr. destruct (empty_path key_path); [discriminate|].
  cbv zeta in Hr. minv Hr. apply resolve_pure in Hm as [p0 ->]. rewrite !set_wal_step in Hr.
  minv Hr. apply read_key_file_any in Hm as (Hsk & p1 & ->). rewrite set_wal_step in Hr.
  minv Hr. apply read_key_file_any in Hm as (Hpk & p2 & ->). rewrite set_wal_step in Hr.
  match type of Hr with bind (gets sv_wal) _ ?s0 = _ => set (s3 := s0) in * end.
  rewrite (bind_step _ _ _ (sv_wal s3) s3) in Hr by reflexivity.
  minv Hr. pose proof Hm as Hsks. apply sig_size_pure in Hm as (-> & _).
  minv Hr. pose proof Hm as Hpks. apply sig_size_pure in Hm as (-> & _).
  destruct ((0 <? a2)%nat && _) eqn:C1.
  { unfold reject_keys in Hr. minv Hr. apply framed_env in Hm as [p4 ->].
    injection Hr as <-. split; [right; repeat split|split; reflexivity]. }
  destruct ((0 <? a3)%nat && _) eqn:C2.
  { unfold reject_keys in Hr. minv Hr. apply framed_env in Hm as [p4 ->].
    injection Hr as <-. split; [right; repeat split|split; reflexivity]. }
  apply size_check in C1. apply size_check in C2. rewrite set_wal_step in Hr.
  injection Hr as <-. split; [left|split; reflexivity]. split; [reflexivity|].
  exists a0, a1. repeat split; try apply Hsk; try apply Hpk.
  - exists a2. split; [|exact C1]. etransitivity; [apply (sig_size_same _ _ s3); reflexivity|exact (f_equal fst Hsks)].
  - exists a3. split; [|exact C2]. etransitivity; [apply (sig_size_same _ _ s3); reflexivity|exact (f_equal fst Hpks)].
Qed.
(** Where nothing fails, keys that were generated are the keys
    another process loads from the two files, and what the first process signs
    the second one verifies. *)
Theorem wal_keys_roundtrip s dir n alg g :
  ready s -> dir <> EmptyString -> dir ∈ dirs (sv_env s) -> sig_alg_named n alg g ->
  sk_path dir <> pk_path dir ->
  exists s1, pqc_wal_generate_signing_keys (Some dir) (Some n) s = (Ok tt, s1) /\
    forall s2, ready s2 -> sizes_agree (sv_pqc s2) alg g ->
      files (sv_env s2) = files (sv_env s1) ->
      exists s3, pqc_wal_load_signing_keys (Some dir) (Some n) s2 = (Ok tt, s3) /\
        wal_keys_loaded (sv_wal s3) = true /\
        wal_public_key (sv_wal s3) = wal_public_key (sv_wal s1) /\
        forall data buflen, (sig_length_signature g <= buflen)%nat ->
          exists sg s4 s5, pqc_wal_sign_data data buflen s1 = (Ok (Some sg), s4) /\
            pqc_wal_verify_data data sg (wal_public_key (sv_wal s3)) (wal_public_key_len (sv_wal s3)) s3
              = (Ok true, s5).
Proof.
  intros Hs Hdir Hin Hnm Hne.
  pose proof (sig_laws_named _ _ _ Hnm) as Hl.
  destruct (wal_generate_ok s dir n alg g Hs Hdir Hin Hnm Hne) as (s1 & d & fs & fp & H1 & R1 & Hw).
  pose proof (sig_pk_length g Hl d) as Hpk. pose proof (sig_sk_length g Hl d) as Hsk.
  pose proof (sig_sizes g Hl) as Hsz.
  destruct (OQS_SIG_keypair g d) as [pk sk] eqn:Hkp. cbn [fst snd] in Hpk, Hsk.
  destruct Hw as (Hw & Hfs & <- & Hfp & <-). exists s1. split; [exact H1|].
  intros s2 R2 Hag Hfiles. rewrite <- Hfiles in Hfs, Hfp.
  destruct (load_ok s2 dir n alg g fs fp R2 Hdir Hnm) as (s3 & H3 & Hw3 & R3 & _);
    [rewrite Hsk, Hpk; exact Hag|exact Hfs|exact Hfp|unfold blen; lia|unfold blen; lia|].
  exists s3. rewrite Hw3, Hw. split; [exact H3|]. split; [reflexivity|]. split; [reflexivity|].
  intros data buflen Hbuf. cbn [wal_public_key wal_public_key_len].
  destruct (sign_data_ok s1 n g data (f_data fs) buflen R1) as (d' & s4 & H4 & _);
    [rewrite Hw; exact Hnm|exact Hl|rewrite Hw; reflexivity..|exact Hsk|exact Hbuf|].
  destruct (verify_data_ok s3 n g data (OQS_SIG_sign g data (f_data fs) d') (f_data fp) R3)
    as (s5 & H5 & _); [rewrite Hw3; exact Hnm|exact Hpk|].
  do 3 eexists. split; [exact H4|]. rewrite H5. pose proof (sig_correct g Hl data d d') as Hc.
  rewrite Hkp in Hc. rewrite Hc. reflexivity.
Qed.

(** A reload that cannot open the secret key file forgets the key it
    had but keeps the loaded flag: the load raises an error, the process still
    counts as having keys, and every later signature request raises an error
    instead of returning -1. *)
Theorem failed_reload_breaks_signing s dir n alg g data buflen :
  ready s -> dir <> EmptyString -> sig_alg_named n alg g ->
  wal_keys_loaded (sv_wal s) = true -> wal_secret_key (sv_wal s) <> None ->
  files (sv_env s) !! sk_path dir = None ->
  exists s', pqc_wal_load_signing_keys (Some dir) (Some n) s = (Err ERRCODE_FILE_ACCESS, s') /\
    wal_keys_loaded (sv_wal s') = true /\ wal_secret_key (sv_wal s') = None /\
    fst (pqc_wal_sign_data data buflen s') = Err ERRCODE_INVALID_PARAMETER_VALUE.
Proof.
  intros Hs Hdir Hnm Hld Hsk Hf.
  pose proof (sig_laws_named _ _ _ Hnm) as Hl.
  unfold pqc_wal_load_signing_keys.
  replace (empty_path (Some dir)) with false by (destruct dir; [contradiction|reflexivity]).
  cbn [default]. mrun (resolve_ok s n alg g (proj2 Hs) Hnm). rewrite !set_wal_step.
  match goal with |- context [bind (read_key_file _ _) _ ?s0] => set (s1 := s0) end.
  assert (Hw : wal_keys_loaded (sv_wal s1) = true /\ wal_secret_key (sv_wal s1) = None /\
    wal_secret_key_len (sv_wal s1) = 0%nat /\ wal_sig_algorithm (sv_wal s1) = alg).
  { revert Hld Hsk. unfold s1. clear. destruct s as [? ? ? ? [? [] ? [] ? ? ?] ?]; cbn; tauto. }
  destruct Hw as (W1 & W2 & W3 & W4).
  exists s1. split; [|split; [exact W1|split; [exact W2|]]].
  - apply bind_err. unfold read_key_file. rewrite (bind_step _ _ _ None s1); [reflexivity|].
    apply zoom_env_same. change (sv_env s1) with (sv_env s). cbn -[sv_env]. rewrite (proj1 Hs).
    cbn -[sv_env]. rewrite Hf. reflexivity.
  - unfold pqc_wal_sign_data. rewrite (bind_step _ _ _ (sv_wal s1) s1) by reflexivity.
    rewrite W1, W2, W3, W4. cbn [negb].
    destruct (sig_new_ok s1 n alg g (proj2 Hs) Hnm) as (s2 & H2 & _). mrun H2.
    pose proof (sig_sizes g Hl) as Hsz.
    erewrite bind_err; [reflexivity|]. apply zoom_pqc_run. unfold pqc_sig_sign.
    cbn [null_message oqs_sig]. replace (0 =? sig_length_secret_key g)%nat with false
      by (symmetry; apply Nat.eqb_neq; lia). reflexivity.
Qed.
End WalKeyProperties.

(** ** Witnesses *)

Import Toy.

Definition sample_wal_env : env :=
  mkEnv [] 0 {["/keys/wal_signing.key"%string := mkFile (repeat 1 7) 384;
               "/keys/wal_signing.pub"%string := mkFile (repeat 2 6) 420]}
    {["/keys"%string]} ∅ ∅ [].

Definition sample_wal_server : server := over senvL sample_wal_env sample_server.

Lemma sample_alg : sig_alg_named "ml-dsa-65" PQC_ALG_ML_DSA_65 (toy_sig 6 7 20).
Proof.
  exists (sig_row PQC_ALG_ML_DSA_65 "ML-DSA-65" "ML-DSA-65" 3).
  split; [discriminate|]. repeat split.
Qed.

Lemma wal_load_outcomes_witness :
  let s' := snd (pqc_wal_load_signing_keys (Some "/keys"%string) (Some "ml-dsa-65"%string) sample_wal_server) in
  (wal_usable s' \/ wal_disabled s') /\ sv_keys s' = sample_keys.
Proof.
  destruct (wal_load_outcomes (Some "/keys"%string) (Some "ml-dsa-65"%string) sample_wal_server
    (snd (pqc_wal_load_signing_keys (Some "/keys"%string) (Some "ml-dsa-65"%string) sample_wal_server)))
    as (Ho & Hk & _); [vm_compute; reflexivity|].
  split; [exact Ho|exact Hk].
Defined.

Lemma wal_keys_roundtrip_witness :
  exists s1, pqc_wal_generate_signing_keys (Some "/keys"%string) (Some "ml-dsa-65"%string) sample_wal_server
    = (Ok tt, s1) /\
    exists s3, pqc_wal_load_signing_keys (Some "/keys"%string) (Some "ml-dsa-65"%string)
      (over senvL (set_files (files (sv_env s1)) env0) sample_server) = (Ok tt, s3) /\
      wal_public_key (sv_wal s3) = wal_public_key (sv_wal s1).
Proof.
  destruct (wal_keys_roundtrip sample_wal_server "/keys" "ml-dsa-65" PQC_ALG_ML_DSA_65 (toy_sig 6 7 20))
    as (s1 & H1 & Hrest); [split; reflexivity|discriminate|reflexivity|exact sample_alg|discriminate|].
  exists s1. split; [exact H1|].
  destruct (Hrest (over senvL (set_files (files (sv_env s1)) env0) sample_server))
    as (s3 & H3 & _ & Hp & _); [split; reflexivity| |reflexivity|exists s3; auto].
  intros row Hrow. vm_compute in Hrow. injection Hrow as <-. split; left; reflexivity.
Defined.

(** A process with keys whose secret key file has gone. *)
Definition sample_reload : server :=
  over walL (mkWalState true (Some (repeat 1 7)) 7 (Some (repeat 2 6)) 6 PQC_ALG_ML_DSA_65 true) sample_server.

Lemma failed_reload_breaks_signing_witness :
  exists s', pqc_wal_load_signing_keys (Some "/keys"%string) (Some "ml-dsa-65"%string) sample_reload
      = (Err ERRCODE_FILE_ACCESS, s') /\
    fst (pqc_wal_sign_data [1] 20 s') = Err ERRCODE_INVALID_PARAMETER_VALUE.
Proof.
  destruct (failed_reload_breaks_signing sample_reload "/keys" "ml-dsa-65" PQC_ALG_ML_DSA_65
    (toy_sig 6 7 20) [1] 20) as (s' & H1 & _ & _ & H2);
    [split; reflexivity|discriminate|exact sample_alg|reflexivity|discriminate|reflexivity|].
  exists s'. split; [exact H1|exact H2].
Defined.
