(* ===== verification/WalSign.v ===== *)
(** * Signing and verifying WAL segments

    The deferred signing queue and the signer of src/backend/access/transam/xlog.c,
    the verifier src/backend/crypto/pqc/pqc_wal_verify.c, its use by the WAL
    receiver (src/backend/replication/walreceiver.c), and what the server does
    with keys at startup (src/backend/crypto/pqc/pqc_preflight.c,
    src/backend/storage/ipc/ipci.c). *)
From Stdlib Require Import ZArith Lia Bool String Ascii List.
From stdpp Require Import base gmap list strings.
From S2P Require Import Prelude CryptoIface Env KeyCache PqcRegistry PqcKem PqcSig Server TdePage BufMgr KeyManage WalKeys.
Import ListNotations.
Local Open Scope Z_scope.
Local Open Scope pg_scope.

(** ** Segment names *)

Definition hex_char (n : Z) : ascii := ascii_of_N (Z.to_N (if n <? 10 then 48 + n else 55 + n)).

(** The [n] low hexadecimal digits of [x], the most significant first:
    [%08X] of a 32-bit integer is [hexn 8]. *)
Fixpoint hexn (n : nat) (x : Z) : string :=
  match n with
  | O => EmptyString
  | S n' => hexn n' (x / 16) ++ String (hex_char (x mod 16)) EmptyString
  end.

Definition XLogSegmentsPerXLogId (wal_segsz_bytes : Z) : Z := 0x100000000 / wal_segsz_bytes.

Definition XLogFileName (tli segno wal_segsz_bytes : Z) : string :=
  hexn 8 tli ++ hexn 8 (u32 (segno / XLogSegmentsPerXLogId wal_segsz_bytes)) ++
  hexn 8 (u32 (segno mod XLogSegmentsPerXLogId wal_segsz_bytes)).

Definition XLogFilePath (tli segno wal_segsz_bytes : Z) : string :=
  path_buf ("pg_wal/" ++ XLogFileName tli segno wal_segsz_bytes).

Definition sig_path (segpath : string) : string := path_buf (segpath ++ ".sig").

(** ** The queue *)

Definition PQC_SIGN_QUEUE_SIZE : nat := 8.

Definition XLogPqcEnqueueSign (segno tli : Z) : M sign_queue unit :=
  modify (fun q =>
    if (q_count q <? PQC_SIGN_QUEUE_SIZE)%nat then
      let idx := q_count q in
      mkQueue (S idx) (<[idx := segno]> (q_segno q)) (<[idx := tli]> (q_tli q))
    else q).

(** What [XLogWrite] does at the end of a segment. *)
Definition segment_finished (openLogSegNo tli : Z) : M server unit :=
  let! w := gets sv_wal in
  when (wal_pqc_signing w) (zoom queueL (XLogPqcEnqueueSign openLogSegNo tli)).

(** ** Signing *)

(** The loop that reads and hashes the segment; a read that returns nothing
    ends it, at the end of the file or not.  [None] is a failed update. *)
Fixpoint hash_loop (fuel : nat) (stream acc : bytes) : M env (option bytes) :=
  match fuel with
  | O => ret (Some acc)
  | S fuel' =>
      let! chunk := fread_upto 8192 stream in
      if (length chunk =? 0)%nat then ret (Some acc)
      else
        let! ok := attempt in
        if negb ok then ret None
        else hash_loop fuel' (skipn (length chunk) stream) (acc ++ chunk)
  end.

Section WalSign.
  Context `{Crypto} (wal_segment_size : Z).

(** SHA-256 of the file; [None] when a step fails, with its warning. *)
Definition hash_segment (segpath : string) : M env (option bytes) :=
  let! fp := fopen_read segpath in
  match fp with
  | None => do! elog WARNING "PQC WAL sign: could not open segment" in ret None
  | Some stream =>
      let! ctx := attempt in
      if negb ctx then do! elog WARNING "PQC WAL sign: could not create SHA-256 context" in ret None
      else
        let! init := attempt in
        if negb init then do! elog WARNING "PQC WAL sign: SHA-256 init failed" in ret None
        else
          let! r := hash_loop (S (length stream)) stream [] in
          match r with
          | None => do! elog WARNING "PQC WAL sign: SHA-256 update failed" in ret None
          | Some acc =>
              let! final := attempt in
              if negb final then do! elog WARNING "PQC WAL sign: SHA-256 finalize failed" in ret None
              else ret (Some (SHA256 acc))
          end
  end.

Definition write_signature (sigpath : string) (sig : bytes) : M env unit :=
  let! fp := fopen_write sigpath 384 in
  if negb fp then elog WARNING "PQC WAL sign: could not create signature file"
  else
    let! ok := fwrite_bytes sigpath sig in
    if negb ok then elog WARNING "PQC WAL sign: could not write signature file"
    else
      let! closed := attempt in
      if negb closed then elog WARNING "PQC WAL sign: could not close signature file"
      else elog DEBUG1 "PQC WAL sign: signed segment".

Definition XLogPqcSignSegment (segno tli : Z) : M server unit :=
  let segpath := XLogFilePath tli segno wal_segment_size in
  let! h := zoom senvL (hash_segment segpath) in
  match h with
  | None => ret tt
  | Some hash =>
      let! max := zoom pqcL (pqc_sig_max_signature_len PQC_ALG_ML_DSA_65) in
      let max_sig_len := if (max =? 0)%nat then Z.to_nat 8192 else max in
      let! sg := pqc_wal_sign_data hash max_sig_len in
      match sg with
      | None => zoom senvL (elog WARNING "PQC WAL sign: failed to sign segment")
      | Some sig => zoom senvL (write_signature (sig_path segpath) sig)
      end
  end.

(** The loop over the queued segments. *)
Fixpoint sign_loop (todo i : nat) : M server unit :=
  match todo with
  | O => ret tt
  | S todo' =>
      let! q := gets sv_queue in
      do! XLogPqcSignSegment (nth i (q_segno q) 0) (nth i (q_tli q) 0) in
      sign_loop todo' (S i)
  end.

Definition XLogPqcProcessDeferredSigning : M server unit :=
  let! q := gets sv_queue in
  if (q_count q =? 0)%nat then ret tt
  else
    do! zoom queueL (modify (fun q => mkQueue 0 (q_segno q) (q_tli q))) in
    sign_loop (q_count q) 0.

(** ** Verification *)

(** One file read into memory: [None] with a warning. *)
Definition read_whole (path : string) (len : nat) : M env (option bytes) :=
  let! fp := fopen_read path in
  match fp with
  | None => do! elog WARNING "PQC WAL verify: could not open file" in ret None
  | Some stream =>
      let! data := fread_upto (Z.of_nat len) stream in
      if negb (length data =? len)%nat then
        do! elog WARNING "PQC WAL verify: could not read file" in ret None
      else ret (Some data)
  end.

Definition pqc_wal_verify_segment (segpath : string) : M server bool :=
  let sigpath := sig_path segpath in
  let warn msg := do! zoom senvL (elog WARNING msg) in ret false in
  let! seg_stat := zoom senvL (stat segpath) in
  match seg_stat with
  | None => warn "PQC WAL verify: could not stat segment file"%string
  | Some fseg =>
      let! sig_stat := zoom senvL (stat sigpath) in
      match sig_stat with
      | None => warn "PQC WAL verify: signature file not found"%string
      | Some fsig =>
          if (length (f_data fseg) =? 0)%nat then warn "PQC WAL verify: segment file is empty"%string
          else if (length (f_data fsig) =? 0)%nat then warn "PQC WAL verify: signature file is empty"%string
          else
            let! seg := zoom senvL (read_whole segpath (length (f_data fseg))) in
            match seg with
            | None => ret false
            | Some seg_data =>
                let! sg := zoom senvL (read_whole sigpath (length (f_data fsig))) in
                match sg with
                | None => ret false
                | Some sig_data =>
                    let! (pubkey, pubkey_len) := pqc_wal_get_public_key in
                    let! ok := pqc_wal_verify_data seg_data sig_data pubkey pubkey_len in
                    if negb ok then warn "PQC WAL verify: signature verification FAILED"%string
                    else do! zoom senvL (elog DEBUG1 "PQC WAL verify: signature verified") in ret true
                end
            end
      end
  end.

(** What [XLogWalRcvClose] does with a received segment. *)
Definition verify_received (xlogfname : string) : M server unit :=
  let! g := gets sv_guc in
  if wal_pqc_verify_on_receive g && negb (empty_path (wal_pqc_key_path g)) then
    let segpath := path_buf ("pg_wal/" ++ xlogfname) in
    pg_try
      (do! pqc_wal_load_signing_keys (wal_pqc_key_path g)
             (Some (default "ML-DSA-65"%string (wal_pqc_signing_algorithm_string g))) in
       let! ok := pqc_wal_verify_segment segpath in
       if negb ok then
         zoom senvL (elog WARNING "FortressQL: PQC signature verification failed for received WAL segment")
       else zoom senvL (elog LOG "FortressQL: PQC signature verified for WAL segment"))
      (fun _ =>
         do! zoom senvL (elog ERROR_REPORT "error report") in
         zoom senvL (elog WARNING "FortressQL: could not verify PQC signature for WAL segment"))
  else ret tt.

(** ** Startup *)

(** The part of [CreateOrAttachShmemStructs] about encryption. *)
Definition tde_startup (IsUnderPostmaster : bool) : M server unit :=
  let! g := gets sv_guc in
  when (tde_enabled g)
    (do! zoom keysL tde_keycache_shmem_init in
     when (negb IsUnderPostmaster) tde_unwrap_master_key).

Definition PQC_TLS_OFF : Z := 0.

Definition pqc_preflight_check (ssl_pqc_mode : Z) : M server unit :=
  let! g := gets sv_guc in
  do! when (tde_enabled g)
        (do! zoom senvL (elog LOG "FortressQL: TDE enabled, verifying master key configuration") in
         let! st := zoom senvL (stat (path_buf (DataDir g ++ "/global/pg_encryption/master.key"))) in
         match st with
         | None => zoom senvL (elog WARNING "TDE enabled but master key file not found")
         | Some f => when (blen (f_data f) <? 4 * 6)
                       (zoom senvL (elog WARNING "TDE master key file appears truncated"))
         end) in
  let! w := gets sv_wal in
  do! when (wal_pqc_signing w)
        (if empty_path (wal_pqc_key_path g) then
           zoom senvL (elog WARNING "WAL PQC signing enabled but wal_pqc_key_path is not set")
         else
           let dir := default EmptyString (wal_pqc_key_path g) in
           let! st := zoom senvL (stat (sk_path dir)) in
           do! match st with
               | None => zoom senvL (elog WARNING "WAL PQC signing enabled but key file not found")
               | Some f => when (length (f_data f) =? 0)%nat
                             (zoom senvL (elog WARNING "WAL PQC signing key file is empty"))
               end in
           let! st := zoom senvL (stat (pk_path dir)) in
           match st with
           | None => zoom senvL (elog WARNING "WAL PQC signing enabled but public key file not found")
           | Some _ =>
               pg_try
                 (do! pqc_wal_load_signing_keys (wal_pqc_key_path g) (wal_pqc_signing_algorithm_string g) in
                  zoom senvL (elog LOG "FortressQL: WAL signing keys loaded at startup"))
                 (fun _ => zoom senvL (elog WARNING "WAL PQC signing enabled but could not load signing keys"))
           end) in
  do! when (negb (ssl_pqc_mode =? PQC_TLS_OFF))
        (let! prov := zoom senvL attempt in
         if prov then zoom senvL (elog LOG "FortressQL: oqs-provider available for PQC TLS")
         else zoom senvL (elog LOG "FortressQL: oqs-provider not found")) in
  let! _ := zoom pqcL pqc_init in
  let! avail := zoom pqcL pqc_is_available in
  zoom senvL (elog LOG (if avail then "FortressQL: PQC subsystem initialized (liboqs available: yes)"
                        else "FortressQL: PQC subsystem initialized (liboqs available: no)")%string).
End WalSign.

(** GUC check hooks: [true] accepts the value. *)
Definition check_wal_pqc_key_path (w : wal_state) (newval : option string) : bool :=
  negb (wal_pqc_signing w && empty_path newval).

Definition check_ssl_pqc_groups (newval : option string) (above_default : bool) : bool :=
  match newval with
  | Some EmptyString => negb above_default
  | _ => true
  end.

Arguments hash_segment : simpl never.
Arguments write_signature : simpl never.
Arguments XLogPqcSignSegment : simpl never.
Arguments XLogPqcProcessDeferredSigning : simpl never.
Arguments read_whole : simpl never.
Arguments pqc_wal_verify_segment : simpl never.
Arguments pqc_preflight_check : simpl never.

(** ** Lemmas on names *)

Lemma length_hexn n x : String.length (hexn n x) = n.
Proof. revert x. induction n as [|n IH]; intros x; cbn [hexn]; [reflexivity|]. rewrite append_length, IH. cbn. lia. Qed.

Lemma hex_char_inj x y : 0 <= x < 16 -> 0 <= y < 16 -> hex_char x = hex_char y -> x = y.
Proof.
  intros Hx Hy Heq. unfold hex_char in Heq. apply (f_equal N_of_ascii) in Heq.
  assert (Hr : forall z, 0 <= z < 16 -> N.lt (Z.to_N (if z <? 10 then 48 + z else 55 + z)) 256)
    by (intros z Hz; destruct (z <? 10); lia).
  rewrite (N_ascii_embedding _ (Hr x Hx)), (N_ascii_embedding _ (Hr y Hy)) in Heq.
  destruct (Z.ltb_spec x 10), (Z.ltb_spec y 10); lia.
Qed.

Lemma hexn_inj n x y : hexn n x = hexn n y -> x mod 16 ^ Z.of_nat n = y mod 16 ^ Z.of_nat n.
Proof.
  revert x y. induction n as [|n IH]; intros x y Heq; [rewrite !Z.mod_1_r; reflexivity|].
  cbn [hexn] in Heq. apply append_inj in Heq as [Hd Hc]; [|rewrite !length_hexn; reflexivity].
  injection Hc as Hc. apply hex_char_inj in Hc; [|apply Z.mod_pos_bound; lia..].
  apply IH in Hd. rewrite Nat2Z.inj_succ, Z.pow_succ_r by lia.
  rewrite !Z.rem_mul_r by lia. rewrite Hc, Hd. reflexivity.
Qed.

Lemma length_XLogFileName tli segno size : String.length (XLogFileName tli segno size) = 24%nat.
Proof. unfold XLogFileName. rewrite !append_length, !length_hexn. reflexivity. Qed.

Lemma XLogFilePath_eq tli segno size :
  XLogFilePath tli segno size = ("pg_wal/" ++ XLogFileName tli segno size)%string.
Proof.
  apply substring_all. rewrite append_length, length_XLogFileName. cbn. lia.
Qed.

Lemma sig_path_eq tli segno size :
  sig_path (XLogFilePath tli segno size) = ("pg_wal/" ++ XLogFileName tli segno size ++ ".sig")%string.
Proof.
  unfold sig_path, path_buf. rewrite XLogFilePath_eq.
  change (("pg_wal/" ++ XLogFileName tli segno size) ++ ".sig")%string
    with ("pg_wal/" ++ (XLogFileName tli segno size ++ ".sig"))%string.
  apply substring_all. rewrite !append_length, length_XLogFileName. cbn. lia.
Qed.

Lemma sig_path_other tli segno size :
  sig_path (XLogFilePath tli segno size) <> XLogFilePath tli segno size.
Proof.
  rewrite sig_path_eq, XLogFilePath_eq. intros Heq. apply (f_equal String.length) in Heq.
  rewrite !append_length, length_XLogFileName in Heq. cbn in Heq. lia.
Qed.

(** ** Properties: names and the queue *)

(** No two segments of the WAL share a name or a signature file:
    for a segment size from 1 MB to 1 GB and a 64-bit WAL position, the path of
    the .sig file determines the timeline and the segment number. *)
Theorem signature_file_determines_segment tli tli' segno segno' size :
  2 ^ 20 <= size <= 2 ^ 30 ->
  0 <= tli < 2 ^ 32 -> 0 <= tli' < 2 ^ 32 ->
  0 <= segno -> segno / XLogSegmentsPerXLogId size < 2 ^ 32 ->
  0 <= segno' -> segno' / XLogSegmentsPerXLogId size < 2 ^ 32 ->
  sig_path (XLogFilePath tli segno size) = sig_path (XLogFilePath tli' segno' size) ->
  tli = tli' /\ segno = segno'.
Proof.
  intros Hsz Ht Ht' Hs Hd Hs' Hd' Heq. rewrite !sig_path_eq in Heq.
  apply append_inj in Heq as [_ Heq]; [|reflexivity].
  apply append_inj in Heq as [Heq _]; [|rewrite !length_XLogFileName; reflexivity].
  set (per := XLogSegmentsPerXLogId size) in *.
  assert (Hper : 4 <= per <= 4096).
  { unfold per, XLogSegmentsPerXLogId. split; [apply Z.div_le_lower_bound|apply Z.div_le_upper_bound]; lia. }
  unfold XLogFileName in Heq. fold per in Heq.
  apply append_inj in Heq as [H1 Heq]; [|rewrite !length_hexn; reflexivity].
  apply append_inj in Heq as [H2 H3]; [|rewrite !length_hexn; reflexivity].
  apply hexn_inj in H1, H2, H3. change (16 ^ Z.of_nat 8) with (2 ^ 32) in *. unfold u32 in *.
  rewrite !Z.mod_mod in * by lia.
  pose proof (Z.mod_pos_bound segno per). pose proof (Z.mod_pos_bound segno' per).
  pose proof (Z.div_pos segno per). pose proof (Z.div_pos segno' per).
  rewrite (Z.mod_small tli), (Z.mod_small tli') in H1 by lia.
  rewrite (Z.mod_small (segno / per)), (Z.mod_small (segno' / per)) in H2 by lia.
  rewrite (Z.mod_small (segno mod per)), (Z.mod_small (segno' mod per)) in H3 by lia.
  split; [exact H1|].
  rewrite (Z.div_mod segno per), (Z.div_mod segno' per) by lia. rewrite H2, H3. reflexivity.
Qed.

Lemma signature_file_determines_segment_witness :
  sig_path (XLogFilePath 1 7 (2 ^ 24)) = sig_path (XLogFilePath 1 7 (2 ^ 24)) /\ 1 = 1 /\ 7 = 7.
Proof.
  split; [reflexivity|]. apply (signature_file_determines_segment 1 1 7 7 (2 ^ 24));
    [lia|lia|lia|lia|reflexivity|lia|reflexivity|reflexivity].
Defined.

(** The queue as the list of segments it holds. *)
Definition queued (q : sign_queue) : list (Z * Z) := firstn (q_count q) (zip (q_segno q) (q_tli q)).

Definition wf_queue (q : sign_queue) : Prop :=
  (q_count q <= PQC_SIGN_QUEUE_SIZE)%nat /\
  length (q_segno q) = PQC_SIGN_QUEUE_SIZE /\ length (q_tli q) = PQC_SIGN_QUEUE_SIZE.

Lemma enqueue_run q segno tli :
  wf_queue q ->
  let q' := snd (XLogPqcEnqueueSign segno tli q) in
  wf_queue q' /\ queued q' = firstn PQC_SIGN_QUEUE_SIZE (queued q ++ [(segno, tli)]).
Proof.
  destruct q as [c ss ts]. unfold wf_queue, queued. cbn [q_count q_segno q_tli]. intros (Hc & Hs & Ht).
  cbn [XLogPqcEnqueueSign modify snd q_count q_segno q_tli].
  assert (Hz : length (zip ss ts) = PQC_SIGN_QUEUE_SIZE) by (rewrite length_zip_with, Hs, Ht; reflexivity).
  destruct (Nat.ltb_spec c PQC_SIGN_QUEUE_SIZE) as [Hlt|Hge]; cbn [q_count q_segno q_tli].
  - split; [rewrite !length_insert; repeat split; auto; lia|].
    rewrite <- insert_zip_with. rewrite (take_S_r _ c (segno, tli)) by (apply list_lookup_insert_eq; lia).
    rewrite take_insert_ge by lia. symmetry. apply firstn_all2.
    rewrite length_app, length_take. cbn. lia.
  - split; [auto|]. rewrite take_app_le by (rewrite length_take; lia).
    symmetry. apply firstn_all2. rewrite length_take. lia.
Qed.

Fixpoint enqueue_all (l : list (Z * Z)) : M sign_queue unit :=
  match l with
  | [] => ret tt
  | (segno, tli) :: l' => do! XLogPqcEnqueueSign segno tli in enqueue_all l'
  end.

Section QueueProperties.
  Context `{Crypto} (wal_segment_size : Z).

(** Signing a list of segments in order; an error ends it. *)
Fixpoint sign_all (l : list (Z * Z)) : M server unit :=
  match l with
  | [] => ret tt
  | (segno, tli) :: l' => do! XLogPqcSignSegment wal_segment_size segno tli in sign_all l'
  end.

(** Signing leaves everything but the cryptographic layer and the environment
    as it was. *)
Lemma sign_segment_framed segno tli s0 :
  preserves (framed s0) (XLogPqcSignSegment wal_segment_size segno tli).
Proof.
  unfold XLogPqcSignSegment, pqc_wal_sign_data. cbv zeta.
  repeat (mstep || apply framed_preserves_env || apply framed_preserves_pqc ||
          solve [auto with pg]).
Qed.

Lemma sign_loop_all q todo i s :
  sv_queue s = q -> length (q_segno q) = length (q_tli q) -> (i + todo <= length (q_segno q))%nat ->
  sign_loop wal_segment_size todo i s = sign_all (firstn todo (skipn i (zip (q_segno q) (q_tli q)))) s.
Proof.
  intros Hq Hl. revert i s Hq. induction todo as [|todo IH]; intros i s Hq Hi; [reflexivity|].
  destruct (lookup_lt_is_Some_2 (q_segno q) i) as [sg Hsg]; [lia|].
  destruct (lookup_lt_is_Some_2 (q_tli q) i) as [tl Htl]; [lia|].
  rewrite (drop_S _ (sg, tl)) by (apply lookup_zip_with_Some; exists sg, tl; auto).
  cbn [sign_loop firstn sign_all]. rewrite (bind_step _ _ _ (sv_queue s) s) by reflexivity.
  rewrite Hq, (nth_lookup_Some _ _ 0 _ Hsg), (nth_lookup_Some _ _ 0 _ Htl).
  pose proof (sign_segment_framed sg tl s s ltac:(exists (sv_pqc s); destruct s; reflexivity)) as Hf.
  unfold bind. destruct (XLogPqcSignSegment _ _ _ s) as [[[]|e|] s1]; [|reflexivity..].
  apply IH; [|lia]. destruct Hf as [p Hf]. cbn [snd] in Hf. subst s1. exact Hq.
Qed.

Lemma enqueue_all_run l q : wf_queue q ->
  wf_queue (snd (enqueue_all l q)) /\
  queued (snd (enqueue_all l q)) = firstn PQC_SIGN_QUEUE_SIZE (queued q ++ l).
Proof.
  revert q. induction l as [|[sg tl] l IH]; intros q Hwf.
  - split; [exact Hwf|]. cbn [enqueue_all ret snd]. rewrite app_nil_r. symmetry. apply firstn_all2.
    unfold queued. rewrite length_take. destruct Hwf. lia.
  - destruct (enqueue_run q sg tl Hwf) as [Hwf1 Hq1].
    change (snd (enqueue_all ((sg, tl) :: l) q)) with (snd (enqueue_all l (snd (XLogPqcEnqueueSign sg tl q)))).
    destruct (IH _ Hwf1) as [Hwf2 Hq2]. split; [exact Hwf2|]. rewrite Hq2, Hq1.
    rewrite (firstn_app PQC_SIGN_QUEUE_SIZE (firstn _ _)), firstn_firstn, Nat.min_id.
    change ((sg, tl) :: l) with ([(sg, tl)] ++ l). rewrite (app_assoc (queued q)).
    rewrite (firstn_app PQC_SIGN_QUEUE_SIZE (queued q ++ [(sg, tl)]) l). f_equal.
    rewrite length_firstn. f_equal. lia.
Qed.

Lemma process_queue_run s : wf_queue (sv_queue s) ->
  XLogPqcProcessDeferredSigning wal_segment_size s
    = sign_all (queued (sv_queue s)) (over queueL (mkQueue 0 (q_segno (sv_queue s)) (q_tli (sv_queue s))) s).
Proof.
  intros (Hc & Hs & Ht). unfold XLogPqcProcessDeferredSigning.
  rewrite (bind_step _ _ _ (sv_queue s) s) by reflexivity.
  unfold queued. destruct (Nat.eqb_spec (q_count (sv_queue s)) 0) as [E|_].
  - rewrite E. destruct s as [? ? ? ? ? [c ss ts]]. cbn in E |- *. subst c. reflexivity.
  - set (q0 := mkQueue 0 (q_segno (sv_queue s)) (q_tli (sv_queue s))).
    rewrite (bind_step _ _ _ tt (over queueL q0 s)) by reflexivity.
    rewrite (sign_loop_all q0); [reflexivity|reflexivity|..]; cbn [q_segno q_tli q0]; lia.
Qed.

(** C30: refinement.  The signing queue is a bounded list: after any sequence of
    finished segments it holds the first eight of what it held and what was
    added, never writing outside its arrays, and processing it is signing
    exactly those segments in order with the queue empty. *)
Theorem sign_queue_refines l s :
  wf_queue (sv_queue s) ->
  let q' := snd (enqueue_all l (sv_queue s)) in
  wf_queue q' /\
  queued q' = firstn PQC_SIGN_QUEUE_SIZE (queued (sv_queue s) ++ l) /\
  XLogPqcProcessDeferredSigning wal_segment_size (over queueL q' s)
    = sign_all (firstn PQC_SIGN_QUEUE_SIZE (queued (sv_queue s) ++ l))
        (over queueL (mkQueue 0 (q_segno q') (q_tli q')) s).
Proof.
  intros Hwf q'. destruct (enqueue_all_run l _ Hwf) as [Hwf' Hq']. split; [exact Hwf'|]. split; [exact Hq'|].
  rewrite <- Hq'. apply (process_queue_run (over queueL q' s)). exact Hwf'.
Qed.
End QueueProperties.

(** ** Lemmas on hashing *)

Lemma fread_upto_run n stream e :
  exists o e', fread_upto n stream e = (Ok o, e') /\ (length o <= length stream)%nat.
Proof.
  unfold fread_upto, bind. destruct e as [[|[k|] fs] d fi di v c l]; cbn [next_fault faults];
    do 2 eexists; (split; [reflexivity|]); cbn; rewrite ?length_firstn; lia.
Qed.

Lemma hash_loop_step fuel stream acc :
  hash_loop (S fuel) stream acc =
    let! chunk := fread_upto 8192 stream in
    if (length chunk =? 0)%nat then ret (Some acc)
    else
      let! ok := attempt in
      if negb ok then ret None
      else hash_loop fuel (skipn (length chunk) stream) (acc ++ chunk).
Proof. reflexivity. Qed.

(** The fuel is enough: more of it changes nothing, whatever fails. *)
Lemma hash_loop_fuel fuel stream acc e :
  (length stream < fuel)%nat -> hash_loop (S fuel) stream acc e = hash_loop fuel stream acc e.
Proof.
  revert stream acc e. induction fuel as [|fuel IH]; intros stream acc e Hf; [lia|].
  destruct (fread_upto_run 8192 stream e) as (chunk & e1 & Hr & Hl).
  rewrite (hash_loop_step fuel), (hash_loop_step (S fuel)), !(bind_step _ _ _ _ _ Hr).
  destruct (Nat.eqb_spec (length chunk) 0); [reflexivity|].
  destruct (attempt_run e1) as (b & fs & Ha). rewrite !(bind_step _ _ _ _ _ Ha).
  destruct b; cbn [negb]; [|reflexivity]. apply (IH (skipn (length chunk) stream)).
  rewrite length_skipn. lia.
Qed.

Lemma hash_loop_ok fuel stream acc e :
  no_faults e -> (length stream < fuel)%nat ->
  hash_loop fuel stream acc e = (Ok (Some (acc ++ stream)), e).
Proof.
  intros Hn. revert stream acc. induction fuel as [|fuel IH]; intros stream acc Hf; [lia|].
  cbn [hash_loop]. rewrite (bind_step _ _ _ (firstn (Z.to_nat 8192) stream) e)
    by (unfold fread_upto; cbn -[Z.to_nat]; rewrite Hn; reflexivity).
  destruct (Nat.eqb_spec (length (firstn (Z.to_nat 8192) stream)) 0) as [E|E];
    rewrite length_firstn in E.
  - destruct stream; [rewrite app_nil_r; reflexivity|cbn [length] in E; lia].
  - mrun (attempt_no_faults e Hn). cbn [negb]. rewrite IH by (rewrite length_skipn, length_firstn; lia).
    rewrite <- app_assoc. repeat f_equal. rewrite length_firstn.
    transitivity (firstn (Z.to_nat 8192) stream ++ skipn (Z.to_nat 8192) stream);
      [f_equal|apply firstn_skipn].
    destruct (Nat.le_ge_cases (Z.to_nat 8192) (length stream)).
    + rewrite Nat.min_l by lia. reflexivity.
    + rewrite Nat.min_r by lia. rewrite !skipn_all2 by lia. reflexivity.
Qed.

Section SignLemmas.
  Context `{Crypto}.

Lemma hash_segment_ok e path f :
  no_faults e -> files e !! path = Some f ->
  hash_segment path e = (Ok (Some (SHA256 (f_data f))), e).
Proof.
  intros Hn Hf. unfold hash_segment.
  rewrite (bind_step _ _ _ (Some (f_data f)) e) by (cbn; rewrite Hn; cbn; rewrite Hf; reflexivity).
  mrun (attempt_no_faults e Hn). cbn [negb]. mrun (attempt_no_faults e Hn). cbn [negb].
  mrun (hash_loop_ok (S (length (f_data f))) (f_data f) [] e Hn ltac:(lia)).
  mrun (attempt_no_faults e Hn). reflexivity.
Qed.

Lemma write_signature_ok e path sig :
  no_faults e ->
  exists m l, write_signature path sig e =
    (Ok tt, set_log l (set_files (<[path := mkFile sig m]> (files e)) e)).
Proof.
  intros Hn. destruct e as [fs d fi di v c lg]. unfold no_faults in Hn. cbn in Hn. subst fs.
  unfold write_signature, fwrite_bytes, append_file. cbn. rewrite lookup_insert_eq. cbn.
  rewrite insert_insert_eq. do 2 eexists. reflexivity.
Qed.

Lemma read_whole_ok e path f :
  no_faults e -> files e !! path = Some f ->
  read_whole path (length (f_data f)) e = (Ok (Some (f_data f)), e).
Proof.
  intros Hn Hf. unfold read_whole.
  rewrite (bind_step _ _ _ (Some (f_data f)) e) by (cbn; rewrite Hn; cbn; rewrite Hf; reflexivity).
  cbv beta iota. rewrite (bind_step _ _ _ (f_data f) e).
  - rewrite Nat.eqb_refl. reflexivity.
  - unfold fread_upto. rewrite Nat2Z.id, firstn_all. cbn. rewrite Hn. reflexivity.
Qed.

(** The buffer the signer gives the signature. *)
Definition sign_buffer (s : server) : nat :=
  match fst (zoom pqcL (pqc_sig_max_signature_len PQC_ALG_ML_DSA_65) s) with
  | Ok m => if (m =? 0)%nat then Z.to_nat 8192 else m
  | _ => 0%nat
  end.

(** Keys of the algorithm [g] in memory. *)
Definition holds_keys (s : server) (n : string) (g : OQS_SIG) (sk pk : bytes) : Prop :=
  let w := sv_wal s in
  sig_alg_named n (wal_sig_algorithm w) g /\ wal_keys_loaded w = true /\
  wal_secret_key w = Some sk /\ wal_secret_key_len w = length sk /\
  wal_public_key w = Some pk /\ wal_public_key_len w = length pk /\
  length sk = sig_length_secret_key g /\ length pk = sig_length_public_key g.

Lemma verify_segment_ok s n g sk pk path fseg fsig :
  ready s -> holds_keys s n g sk pk ->
  files (sv_env s) !! path = Some fseg -> f_data fseg <> [] ->
  files (sv_env s) !! sig_path path = Some fsig -> f_data fsig <> [] ->
  exists s', pqc_wal_verify_segment path s
    = (Ok (OQS_SIG_verify g (f_data fseg) (f_data fsig) pk), s').
Proof.
  intros Hs (Hnm & Hld & _ & _ & Hpk & Hpkl & _ & Hlen) Hf1 Hn1 Hf2 Hn2.
  unfold pqc_wal_verify_segment. cbv zeta. destruct Hs as [Hn Hok].
  assert (Hst : forall p f, files (sv_env s) !! p = Some f -> zoom senvL (stat p) s = (Ok (Some f), s))
    by (intros p f Hp; apply zoom_env_same; cbn -[sv_env]; rewrite Hn; cbn -[sv_env]; rewrite Hp; reflexivity).
  mrun (Hst _ _ Hf1). mrun (Hst _ _ Hf2).
  assert (Hnz : forall l : bytes, l <> [] -> (length l =? 0)%nat = false)
    by (intros [|] ?; [contradiction|reflexivity]).
  rewrite !Hnz by assumption.
  mrun (zoom_env_same _ s _ (read_whole_ok _ _ _ Hn Hf1)).
  mrun (zoom_env_same _ s _ (read_whole_ok _ _ _ Hn Hf2)).
  rewrite (bind_step _ _ _ (Some pk, length pk) s).
  2:{ unfold pqc_wal_get_public_key. rewrite (bind_step _ _ _ (sv_wal s) s) by reflexivity.
      rewrite Hld, Hpk, Hpkl. reflexivity. }
  destruct (verify_data_ok s n g (f_data fseg) (f_data fsig) pk (conj Hn Hok) Hnm Hlen) as (s1 & H1 & _).
  cbv beta iota. mrun H1. destruct (OQS_SIG_verify g _ _ pk); eexists; reflexivity.
Qed.
End SignLemmas.

(** ** Properties: signing and verifying *)

Section SignProperties.
  Context `{CL : CryptoLaws}.

Lemma sig_laws_of_alg n alg g : sig_alg_named n alg g -> sig_laws g.
Proof.
  intros (row0 & _ & H0 & Ht & _ & Hg). apply (SIG_laws (oqs_name row0)); [|exact Hg].
  pose proof (static_oqs_name _ _ H0) as Hi. rewrite Ht in Hi. exact Hi.
Qed.

(** Signing one segment, where nothing fails. *)
Lemma sign_segment_ok s segno tli size n g sk pk f :
  let path := XLogFilePath tli segno size in
  ready s -> holds_keys s n g sk pk -> files (sv_env s) !! path = Some f ->
  (sig_length_signature g <= sign_buffer s)%nat ->
  exists s' d m, XLogPqcSignSegment size segno tli s = (Ok tt, s') /\ framed s s' /\ ready s' /\
    files (sv_env s') = <[sig_path path := mkFile (OQS_SIG_sign g (SHA256 (f_data f)) sk d) m]> (files (sv_env s)).
Proof.
  intros path Hs (Hnm & Hld & Hsk & Hskl & _ & _ & Hlen & _) Hf Hbuf.
  pose proof (sig_laws_of_alg _ _ _ Hnm) as Hl. unfold XLogPqcSignSegment. cbv zeta. fold path.
  mrun (zoom_env_same _ s _ (hash_segment_ok _ _ _ (proj1 Hs) Hf)).
  unfold sign_buffer in Hbuf.
  destruct (zoom pqcL (pqc_sig_max_signature_len PQC_ALG_ML_DSA_65) s) as [o s0] eqn:Hmax.
  pose proof (sig_size_pure _ _ _ _ _ Hmax) as (-> & max & ->). cbn [fst] in Hbuf. mrun Hmax.
  destruct (sign_data_ok s n g (SHA256 (f_data f)) sk _ Hs Hnm Hl Hld Hsk Hskl Hlen Hbuf)
    as (d & s1 & H1 & F1 & R1 & E1). mrun H1.
  set (sg := OQS_SIG_sign g (SHA256 (f_data f)) sk d).
  destruct (write_signature_ok (sv_env s1) (sig_path path) sg (proj1 R1)) as (m & l & H2).
  set (e2 := set_log l (set_files (<[sig_path path := mkFile sg m]> (files (sv_env s1))) (sv_env s1))) in H2.
  exists (over senvL e2 s1), d, m.
  split; [unfold zoom; change (view senvL s1) with (sv_env s1); rewrite H2; reflexivity|].
  split; [destruct F1 as [p1 ->]; eexists; reflexivity|]. split; [exact R1|].
  change (files (sv_env (over senvL e2 s1))) with (<[sig_path path := mkFile sg m]> (files (sv_env s1))).
  rewrite E1. reflexivity.
Qed.

(** C37: functional.  Where nothing fails and a signature of the key fits the
    buffer, which has the size of one of ML-DSA-65, signing a segment that is
    not empty writes next to it a signature over the SHA-256 of the whole segment; verifying that segment
    then answers whether this signature, made over the hash, is one over the
    raw bytes of the segment.  The two sides do not sign and verify the same
    message. *)
Theorem segment_signed_hash_verified_raw s segno tli size n g sk pk f :
  let path := XLogFilePath tli segno size in
  ready s -> holds_keys s n g sk pk ->
  files (sv_env s) !! path = Some f -> f_data f <> [] ->
  (sig_length_signature g <= sign_buffer s)%nat ->
  exists s' d, XLogPqcSignSegment size segno tli s = (Ok tt, s') /\
    let sg := OQS_SIG_sign g (SHA256 (f_data f)) sk d in
    (exists m, files (sv_env s') !! sig_path path = Some (mkFile sg m)) /\
    exists s'', pqc_wal_verify_segment path s'
      = (Ok (OQS_SIG_verify g (f_data f) sg pk), s'').
Proof.
  intros path Hs Hk Hf Hne Hbuf.
  destruct (sign_segment_ok s segno tli size n g sk pk f Hs Hk Hf Hbuf) as (s' & d & m & Hr & [p ->] & Hs' & Hfiles).
  fold path in Hfiles. exists (over pqcL p s), d. cbv zeta.
  set (sg := OQS_SIG_sign g (SHA256 (f_data f)) sk d) in *.
  assert (Hsig : files (sv_env (over pqcL p s)) !! sig_path path = Some (mkFile sg m))
    by (rewrite Hfiles; apply lookup_insert_eq).
  split; [exact Hr|]. split; [exists m; exact Hsig|].
  apply (verify_segment_ok _ n g sk pk path f (mkFile sg m)); [exact Hs'|exact Hk| |exact Hne|exact Hsig|].
  - rewrite Hfiles. etransitivity; [apply lookup_insert_ne, sig_path_other|exact Hf].
  - apply (sig_nonempty g). exact (sig_laws_of_alg _ _ _ (proj1 Hk)).
Qed.

(** A read error in the middle of the segment is taken for its end:
    when the first read delivers only [k] bytes and the next one fails, the
    hash that is signed is that of those [k] bytes. *)
Theorem short_read_is_signed e path f k :
  faults e = [None; None; None; Some k; None; Some 0%nat] ->
  files e !! path = Some f -> (0 < k <= length (f_data f))%nat -> Z.of_nat k <= 8192 ->
  exists e', hash_segment path e = (Ok (Some (SHA256 (firstn k (f_data f)))), e').
Proof.
  intros Hfs Hf Hk Hk'. destruct e as [fs d fi di v c lg]. cbn in Hfs, Hf. subst fs.
  unfold hash_segment. rewrite (bind_step _ _ _ (Some (f_data f)) (mkEnv [None; None; Some k; None; Some 0%nat] d fi di v c lg))
    by (cbn; rewrite Hf; reflexivity).
  cbv beta iota.
  rewrite (bind_step _ _ _ true (mkEnv [None; Some k; None; Some 0%nat] d fi di v c lg)) by reflexivity.
  cbn [negb]. rewrite (bind_step _ _ _ true (mkEnv [Some k; None; Some 0%nat] d fi di v c lg)) by reflexivity.
  cbn [negb]. rewrite (bind_step _ _ _ (Some (firstn k (f_data f))) (mkEnv [] d fi di v c lg));
    [eexists; reflexivity|].
  destruct (length (f_data f)) as [|len] eqn:Hlen; [lia|]. rewrite hash_loop_step.
  rewrite (bind_step _ _ _ (firstn k (f_data f)) (mkEnv [None; Some 0%nat] d fi di v c lg)).
  - rewrite length_firstn, Nat.min_l by lia. destruct (Nat.eqb_spec k 0); [lia|].
    rewrite (bind_step _ _ _ true (mkEnv [Some 0%nat] d fi di v c lg)) by reflexivity.
    cbn [negb]. rewrite hash_loop_step. reflexivity.
  - unfold fread_upto. cbn -[Z.to_nat]. rewrite firstn_firstn, Nat.min_l by lia. reflexivity.
Qed.

(** The check of a received segment never holds up replay: with
    every failure, missing file, wrong key or wrong signature, no error leaves
    it.  (It can end the process only where liboqs is handed a NULL key.) *)
Theorem received_segment_never_rejected name s err :
  fst (verify_received name s) <> Err err.
Proof.
  unfold verify_received. rewrite (bind_step _ _ _ (sv_guc s) s) by reflexivity.
  destruct (wal_pqc_verify_on_receive (sv_guc s) && _); [|discriminate].
  cbv zeta. unfold pg_try. destruct (bind _ _ s) as [[[]|e|] s1]; discriminate.
Qed.
End SignProperties.

(** ** Properties: startup *)

Section StartupProperties.
  Context `{CL : CryptoLaws}.

Lemma zoom_log s l m : zoom senvL (elog l m) s = (Ok tt, over senvL (snd (elog l m (sv_env s))) s).
Proof. reflexivity. Qed.

Lemma stat_ok s p f :
  no_faults (sv_env s) -> files (sv_env s) !! p = Some f -> zoom senvL (stat p) s = (Ok (Some f), s).
Proof.
  intros Hn Hf. apply zoom_env_same. cbn -[sv_env]. rewrite Hn. cbn -[sv_env]. rewrite Hf. reflexivity.
Qed.

(** A server that starts with WAL signing on and a pair of key files. *)
Definition starts_signing (s : server) (dir n : string) (fs fp : file) : Prop :=
  ready s /\ pqc_algorithms (sv_pqc s) = pqc_algorithms_static /\ pqc_initialized (sv_pqc s) = false /\
  tde_enabled (sv_guc s) = false /\ wal_pqc_signing (sv_wal s) = true /\
  wal_pqc_key_path (sv_guc s) = Some dir /\ dir <> EmptyString /\
  wal_pqc_signing_algorithm_string (sv_guc s) = Some n /\
  files (sv_env s) !! sk_path dir = Some fs /\ files (sv_env s) !! pk_path dir = Some fp /\
  0 < blen (f_data fs) <= 102400 /\ 0 < blen (f_data fp) <= 102400.

Lemma preflight_run s dir n alg g fs fp :
  starts_signing s dir n fs fp -> sig_alg_named n alg g ->
  exists s', pqc_preflight_check PQC_TLS_OFF s = (Ok tt, s') /\
    registry_ok (sv_pqc s') /\
    sv_wal s' = mkWalState true (Some (f_data fs)) (length (f_data fs)) (Some (f_data fp)) (length (f_data fp)) alg true.
Proof.
  intros (Hs & Hst & Hi & Htde & Hsig & Hkp & Hdir & Hn & Hfs & Hfp & Hls & Hlp) Hnm.
  assert (Hemp : empty_path (Some dir) = false) by (destruct dir; [contradiction|reflexivity]).
  assert (Hfit : sizes_fit (sv_pqc s) alg (length (f_data fs)) (length (f_data fp))).
  { intros row Hrow. rewrite Hst in Hrow.
    assert (Hall : Forall (fun r => secret_key_len r = 0%nat /\ public_key_len r = 0%nat) pqc_algorithms_static)
      by (repeat (constructor; [split; reflexivity|]); constructor).
    destruct (Forall_lookup_1 _ _ _ _ Hall Hrow). auto. }
  destruct (load_ok s dir n alg g fs fp Hs Hdir Hnm Hfit Hfs Hfp Hls Hlp) as (s1 & H1 & Hw1 & R1 & _).
  unfold pqc_preflight_check. rewrite (bind_step _ _ _ (sv_guc s) s) by reflexivity.
  rewrite Htde, Hkp, Hn. rewrite (bind_step _ _ _ tt s) by reflexivity.
  rewrite (bind_step _ _ _ (sv_wal s) s) by reflexivity. rewrite Hsig, Hemp. cbn [when default].
  set (s2 := over senvL (snd (elog LOG "FortressQL: WAL signing keys loaded at startup" (sv_env s1))) s1).
  rewrite (bind_step _ _ _ tt s2).
  - rewrite (bind_step _ _ _ tt s2) by reflexivity. destruct (pqc_init (sv_pqc s2)) as [o p3] eqn:Hinit.
    pose proof (pqc_init_registry_ok (sv_pqc s2) (proj2 R1)) as Hok3. rewrite Hinit in Hok3. cbn [snd] in Hok3.
    assert (Ho : exists st, o = Ok st).
    { destruct (pqc_initialized (sv_pqc s2)) eqn:Hi2.
      - unfold pqc_init in Hinit. rewrite (bind_step _ _ _ true (sv_pqc s2)) in Hinit
          by (unfold gets; rewrite Hi2; reflexivity).
        injection Hinit as <- _. eexists. reflexivity.
      - destruct (pqc_init_run (sv_pqc s2) Hi2 (registry_ok_length _ (proj2 R1))) as (e' & Hr & _).
        rewrite Hr in Hinit. injection Hinit as <- _. eexists. reflexivity. }
    destruct Ho as [st ->]. mrun (zoom_pqc_run _ s2 _ _ Hinit).
    eexists. split; [reflexivity|]. split; [exact Hok3|].
    rewrite Hsig in Hw1. etransitivity; [|exact Hw1]. reflexivity.
  - mrun (stat_ok s _ _ (proj1 Hs) Hfs).
    replace (length (f_data fs) =? 0)%nat with false by (symmetry; apply Nat.eqb_neq; unfold blen in *; lia).
    rewrite (bind_step _ _ _ tt s) by reflexivity. mrun (stat_ok s _ _ (proj1 Hs) Hfp).
    apply pg_try_ok. mrun H1. reflexivity.
Qed.

(** At startup the keys are loaded before the registry knows any
    size: files of a wrong size are accepted, the server starts with signing on
    and keys loaded, and every later signature request raises an error. *)
Theorem preflight_accepts_wrong_size s dir n alg g fs fp data buflen :
  starts_signing s dir n fs fp -> sig_alg_named n alg g ->
  length (f_data fs) <> sig_length_secret_key g ->
  exists s', pqc_preflight_check PQC_TLS_OFF s = (Ok tt, s') /\
    wal_pqc_signing (sv_wal s') = true /\ wal_keys_loaded (sv_wal s') = true /\
    fst (pqc_wal_sign_data data buflen s') = Err ERRCODE_INVALID_PARAMETER_VALUE.
Proof.
  intros Hst Hnm Hwrong.
  destruct (preflight_run s dir n alg g fs fp Hst Hnm) as (s' & Hr & Hok & Hw).
  exists s'. rewrite Hw. split; [exact Hr|]. split; [reflexivity|]. split; [reflexivity|].
  unfold pqc_wal_sign_data. rewrite (bind_step _ _ _ (sv_wal s') s') by reflexivity. rewrite Hw.
  cbn [wal_keys_loaded wal_sig_algorithm wal_secret_key wal_secret_key_len negb].
  destruct (sig_new_ok s' n alg g Hok Hnm) as (s2 & H2 & _). mrun H2.
  erewrite bind_err; [reflexivity|]. apply zoom_pqc_run. unfold pqc_sig_sign.
  cbn [null_message oqs_sig]. destruct (Nat.eqb_spec (length (f_data fs)) (sig_length_secret_key g)); [contradiction|].
  reflexivity.
Qed.
(** Nothing loads a tablespace key at startup: a server that
    starts with encryption on has its master key and an empty key cache, so
    that every flush of a page writes it in clear until a key is created. *)
Theorem startup_leaves_no_tablespace_key g e s' :
  tde_enabled g = true -> tde_startup false (server_boot g e) = (Ok tt, s') ->
  MasterKeyLoaded (sv_master s') = true /\ keys_ready s' /\
  (forall oid, tablespace_key s' oid = None) /\
  forall cfg id mem, exists mem',
    FlushBuffer cfg id (s', mem) = (Ok (checksummed cfg (pg_blockNum id) (bufBlock mem)), (s', mem')).
Proof.
  intros Ht Hr. unfold tde_startup in Hr.
  rewrite (bind_step _ _ _ g (server_boot g e)) in Hr by reflexivity. rewrite Ht in Hr. cbn [when negb] in Hr.
  set (c := mkTdeKeyCache LW_FREE 0 zero_entries).
  rewrite (bind_step _ _ _ tt (over keysL (mkShmem (Some c) true) (server_boot g e))) in Hr by reflexivity.
  assert (Hu : sv_keys s' = mkShmem (Some c) true /\ MasterKeyLoaded (sv_master s') = true).
  { apply unwrap_outcome in Hr; [|reflexivity]. exact Hr. }
  destruct Hu as [Hk Hl]. assert (Hready : keys_ready s') by (exists c; split; [exact Hk|apply zero_cache_wf]).
  assert (Hnone : forall oid, tablespace_key s' oid = None)
    by (intros oid; unfold tablespace_key; rewrite Hk; reflexivity).
  split; [exact Hl|]. split; [exact Hready|]. split; [exact Hnone|].
  intros cfg id mem. apply flush_no_key; auto.
Qed.
End StartupProperties.

(** ** Witnesses *)

Import Toy.

Lemma sign_queue_refines_witness :
  queued (snd (enqueue_all [(7, 1); (8, 1)] (sv_queue sample_server))) = [(7, 1); (8, 1)].
Proof.
  destruct (sign_queue_refines (2 ^ 24) [(7, 1); (8, 1)] sample_server) as (_ & Hq & _);
    [repeat split; cbn; unfold PQC_SIGN_QUEUE_SIZE; lia|exact Hq].
Defined.

Definition sample_segment : string := XLogFilePath 1 7 (2 ^ 24).

Definition sample_signer : server :=
  over senvL (set_files {[sample_segment := mkFile [1; 2; 3] 384]} env0) sample_reload.

Lemma sample_signer_keys :
  holds_keys sample_signer "ml-dsa-65" (toy_sig 6 7 20) (repeat 1 7) (repeat 2 6).
Proof. split; [exact sample_alg|]. repeat split. Qed.

Lemma segment_signed_hash_verified_raw_witness :
  exists s' s'', XLogPqcSignSegment (2 ^ 24) 7 1 sample_signer = (Ok tt, s') /\
    pqc_wal_verify_segment sample_segment s' = (Ok false, s'').
Proof.
  destruct (segment_signed_hash_verified_raw sample_signer 7 1 (2 ^ 24) "ml-dsa-65" (toy_sig 6 7 20)
    (repeat 1 7) (repeat 2 6) (mkFile [1; 2; 3] 384)) as (s' & d & Hsign & _ & s'' & Hv);
    [split; reflexivity|exact sample_signer_keys|vm_compute; reflexivity|discriminate|vm_compute; lia|].
  exists s', s''. split; [exact Hsign|exact Hv].
Defined.

Lemma short_read_is_signed_witness :
  exists e', hash_segment sample_segment
    (set_faults [None; None; None; Some 2%nat; None; Some 0%nat] (sv_env sample_signer))
    = (Ok (Some (SHA256 [1; 2])), e').
Proof.
  apply (short_read_is_signed _ sample_segment (mkFile [1; 2; 3] 384) 2);
    [reflexivity|vm_compute; reflexivity|cbn; lia|lia].
Defined.

(** A server whose secret key file has one byte too many. *)
Definition sample_wrong_size : server :=
  let s := server_boot (mkGuc "/pgdata" false 0 None None (Some "ML-DSA-65"%string) (Some "/keys"%string) true)
             (set_files {["/keys/wal_signing.key"%string := mkFile (repeat 1 8) 384;
                          "/keys/wal_signing.pub"%string := mkFile (repeat 2 6) 420]} env0) in
  over walL (set_signing true (sv_wal s)) s.

Lemma preflight_accepts_wrong_size_witness :
  exists s', pqc_preflight_check PQC_TLS_OFF sample_wrong_size = (Ok tt, s') /\
    fst (pqc_wal_sign_data [1] 20 s') = Err ERRCODE_INVALID_PARAMETER_VALUE.
Proof.
  destruct (preflight_accepts_wrong_size sample_wrong_size "/keys" "ML-DSA-65" PQC_ALG_ML_DSA_65
    (toy_sig 6 7 20) (mkFile (repeat 1 8) 384) (mkFile (repeat 2 6) 420) [1] 20) as (s' & Hr & _ & _ & Hs).
  - split; [split; reflexivity|]. repeat (split; [first [reflexivity|discriminate|split; [reflexivity|vm_compute; discriminate]]|]). vm_compute. discriminate.
  - exists (sig_row PQC_ALG_ML_DSA_65 "ML-DSA-65" "ML-DSA-65" 3). split; [discriminate|]. repeat split.
  - discriminate.
  - exists s'. split; [exact Hr|exact Hs].
Defined.

(** The environment of a server whose master key was generated by an earlier
    process. *)
Definition sample_start_env : env :=
  mkEnv [] 0 (files (sv_env (snd (tde_generate_master_key sample_server)))) ∅
    {["FORTRESSQL_KEM_SECRET_KEY"%string := MasterKeyFile.to_hex (snd (OQS_KEM_keypair (toy_kem 8 12 10) 1))]} ∅ [].

Lemma startup_leaves_no_tablespace_key_witness :
  exists s', tde_startup false (server_boot sample_guc sample_start_env) = (Ok tt, s') /\
    MasterKeyLoaded (sv_master s') = true /\ tablespace_key s' 5 = None.
Proof.
  exists (snd (tde_startup false (server_boot sample_guc sample_start_env))).
  assert (Hr : tde_startup false (server_boot sample_guc sample_start_env)
    = (Ok tt, snd (tde_startup false (server_boot sample_guc sample_start_env)))) by (vm_compute; reflexivity).
  split; [exact Hr|].
  destruct (startup_leaves_no_tablespace_key sample_guc sample_start_env _ eq_refl Hr) as (Hl & _ & Hn & _).
  split; [exact Hl|apply Hn].
Defined.
