(* ===== verification/Gf256.v ===== *)
(** * Arithmetic of GF(256) (contrib/pgcrypto_pqc/pgcrypto_pqc.c)

    The field of the key escrow: addition is exclusive or, multiplication is
    the shift-and-reduce loop of the code with the polynomial 0x11B.  The loop
    is proved to be the multiplication of a field, on which the [field] tactic
    then works. *)
From Stdlib Require Import ZArith Lia Bool List Eqdep_dec Field.
From S2P Require Import Prelude.
Import ListNotations.
Local Open Scope Z_scope.

(** ** Definitions *)

(** One doubling: [hi_bit = a & 0x80; a <<= 1; if (hi_bit) a ^= 0x1B;]. *)
Definition xtime (a : Z) : Z :=
  let hi_bit := Z.land a 0x80 in
  let a' := u8 (Z.shiftl a 1) in
  if hi_bit =? 0 then a' else Z.lxor a' 0x1B.

Fixpoint mul_loop (n : nat) (result a b : Z) : Z :=
  match n with
  | O => result
  | S n' =>
      mul_loop n' (if Z.land b 1 =? 0 then result else Z.lxor result a)
        (xtime a) (Z.shiftr b 1)
  end.

Definition gf256_mul (a b : Z) : Z := mul_loop 8 0 a b.

Fixpoint inv_loop (n : nat) (result a : Z) : Z :=
  match n with
  | O => result
  | S n' => inv_loop n' (gf256_mul (gf256_mul result result) a) a
  end.

(** [None] is the division-by-zero error. *)
Definition gf256_inv (a : Z) : option Z :=
  if a =? 0 then None
  else
    let result := inv_loop 6 a a in
    Some (gf256_mul result result).

Definition gf256_div (a b : Z) : option Z :=
  match gf256_inv b with
  | Some i => Some (gf256_mul a i)
  | None => None
  end.

(** The loop over the coefficients from index [i]; [todo] are left. *)
Fixpoint poly_loop (coeffs : bytes) (degree x : Z) (todo : nat) (i : Z) (result x_power : Z) : Z :=
  match todo with
  | O => result
  | S todo' =>
      let result' := Z.lxor result (gf256_mul (nth (Z.to_nat i) coeffs 0) x_power) in
      let x_power' := if i <? degree then gf256_mul x_power x else x_power in
      poly_loop coeffs degree x todo' (i + 1) result' x_power'
  end.

Definition gf256_poly_eval (coeffs : bytes) (degree x : Z) : Z :=
  poly_loop coeffs degree x (Z.to_nat (degree + 1)) 0 0 1.

(** The inner loop: numerator and denominator of the [i]-th basis value. *)
Fixpoint basis_loop (xs : bytes) (i : nat) (todo j : nat) (num den : Z) : Z * Z :=
  match todo with
  | O => (num, den)
  | S todo' =>
      if (i =? j)%nat then basis_loop xs i todo' (S j) num den
      else basis_loop xs i todo' (S j) (gf256_mul num (nth j xs 0))
             (gf256_mul den (Z.lxor (nth i xs 0) (nth j xs 0)))
  end.

Fixpoint lagrange_loop (xs ys : bytes) (n todo i : nat) (secret : Z) : option Z :=
  match todo with
  | O => Some secret
  | S todo' =>
      let '(num, den) := basis_loop xs i n 0 1 1 in
      match gf256_div num den with
      | None => None
      | Some q => lagrange_loop xs ys n todo' (S i) (Z.lxor secret (gf256_mul (nth i ys 0) q))
      end
  end.

Definition gf256_lagrange_interpolate (xs ys : bytes) (n : nat) : option Z :=
  lagrange_loop xs ys n n 0 0.

(** ** Bits *)

Lemma u8_land x : u8 x = Z.land x 255.
Proof. unfold u8. symmetry. apply (Z.land_ones x 8). lia. Qed.

Lemma byte_land a : is_byte a = true <-> Z.land a 255 = a.
Proof.
  rewrite is_byte_iff, <- u8_land. unfold u8. split; [apply Z.mod_small|].
  intros <-. apply Z.mod_pos_bound. lia.
Qed.

Lemma shiftl_lxor a b : Z.shiftl (Z.lxor a b) 1 = Z.lxor (Z.shiftl a 1) (Z.shiftl b 1).
Proof. apply Z.shiftl_lxor. Qed.

Lemma land_lxor_l a b c : Z.land (Z.lxor a b) c = Z.lxor (Z.land a c) (Z.land b c).
Proof.
  apply Z.bits_inj'. intros n _. rewrite !Z.land_spec, !Z.lxor_spec, !Z.land_spec.
  destruct (Z.testbit a n), (Z.testbit b n), (Z.testbit c n); reflexivity.
Qed.

Lemma byte_lxor a b : is_byte a = true -> is_byte b = true -> is_byte (Z.lxor a b) = true.
Proof. rewrite !byte_land. intros Ha Hb. rewrite land_lxor_l, Ha, Hb. reflexivity. Qed.

(** A test of one bit. *)
Lemma land_pow2_test a k : 0 <= k -> (Z.land a (2 ^ k) =? 0) = negb (Z.testbit a k).
Proof.
  intros Hk. rewrite Z.land_comm. destruct (Z.testbit a k) eqn:Hb.
  - apply Z.eqb_neq. intros E. assert (Ht : Z.testbit (Z.land (2 ^ k) a) k = false)
      by (rewrite E; apply Z.bits_0).
    rewrite Z.land_spec, Z.pow2_bits_true, Hb in Ht by lia. discriminate.
  - apply Z.eqb_eq, Z.bits_inj'. intros n Hn. rewrite Z.land_spec, Z.bits_0.
    destruct (Z.eq_dec n k) as [->|Hne]; [rewrite Hb; apply andb_false_r|].
    rewrite Z.pow2_bits_false by lia. reflexivity.
Qed.

Lemma lxor_swap a b c d : Z.lxor (Z.lxor a b) (Z.lxor c d) = Z.lxor (Z.lxor a c) (Z.lxor b d).
Proof.
  rewrite !Z.lxor_assoc. f_equal. rewrite <- !Z.lxor_assoc. f_equal. apply Z.lxor_comm.
Qed.

(** ** Linearity *)

Lemma xtime_lxor a b : xtime (Z.lxor a b) = Z.lxor (xtime a) (xtime b).
Proof.
  unfold xtime. change 0x80 with (2 ^ 7). rewrite !land_pow2_test by lia.
  rewrite Z.lxor_spec, !u8_land, shiftl_lxor, land_lxor_l.
  destruct (Z.testbit a 7), (Z.testbit b 7); cbn [xorb negb].
  - rewrite lxor_swap, Z.lxor_nilpotent, Z.lxor_0_r. reflexivity.
  - rewrite !Z.lxor_assoc. f_equal. apply Z.lxor_comm.
  - rewrite !Z.lxor_assoc. reflexivity.
  - reflexivity.
Qed.

Lemma mul_loop_acc n result a b : mul_loop n result a b = Z.lxor result (mul_loop n 0 a b).
Proof.
  revert result a b. induction n as [|n IH]; intros result a b; cbn [mul_loop];
    [rewrite Z.lxor_0_r; reflexivity|].
  rewrite IH. rewrite (IH (if Z.land b 1 =? 0 then 0 else Z.lxor 0 a)). destruct (Z.land b 1 =? 0).
  - rewrite Z.lxor_0_l. reflexivity.
  - rewrite Z.lxor_0_l, Z.lxor_assoc. reflexivity.
Qed.

Lemma mul_loop_lin_a n a a' b :
  mul_loop n 0 (Z.lxor a a') b = Z.lxor (mul_loop n 0 a b) (mul_loop n 0 a' b).
Proof.
  revert a a' b. induction n as [|n IH]; intros a a' b; cbn [mul_loop]; [reflexivity|].
  rewrite xtime_lxor. destruct (Z.land b 1 =? 0); [apply IH|].
  rewrite !Z.lxor_0_l, (mul_loop_acc n (Z.lxor a a')), (mul_loop_acc n a), (mul_loop_acc n a'), IH.
  apply lxor_swap.
Qed.

Lemma mul_loop_lin_b n a b b' :
  mul_loop n 0 a (Z.lxor b b') = Z.lxor (mul_loop n 0 a b) (mul_loop n 0 a b').
Proof.
  revert a b b'. induction n as [|n IH]; intros a b b'; cbn [mul_loop]; [reflexivity|].
  change 1 with (2 ^ 0) at 1 3 5. rewrite !land_pow2_test, Z.lxor_spec, Z.shiftr_lxor by lia.
  rewrite mul_loop_acc, IH, (mul_loop_acc n (if negb (Z.testbit b 0) then 0 else Z.lxor 0 a)),
    (mul_loop_acc n (if negb (Z.testbit b' 0) then 0 else Z.lxor 0 a)).
  set (r := mul_loop n 0 (xtime a) (Z.shiftr b 1)). set (r' := mul_loop n 0 (xtime a) (Z.shiftr b' 1)).
  rewrite lxor_swap. f_equal.
  destruct (Z.testbit b 0), (Z.testbit b' 0); cbn [xorb negb]; rewrite ?Z.lxor_0_l, ?Z.lxor_0_r;
    rewrite ?Z.lxor_nilpotent; reflexivity.
Qed.

(** ** Bytes from their bits *)

Fixpoint low (m : nat) (a : Z) : Z :=
  match m with
  | O => 0
  | S m' => Z.lxor (low m' a) (if Z.testbit a (Z.of_nat m') then 2 ^ Z.of_nat m' else 0)
  end.

Lemma testbit_low m a n : 0 <= n -> Z.testbit (low m a) n = Z.testbit a n && (n <? Z.of_nat m).
Proof.
  intros Hn. induction m as [|m IH]; cbn [low].
  - rewrite Z.bits_0. change (Z.of_nat 0) with 0. replace (n <? 0) with false by lia.
    symmetry. apply andb_false_r.
  - rewrite Z.lxor_spec, IH. destruct (Z.eq_dec n (Z.of_nat m)) as [->|Hne].
    + replace (Z.of_nat m <? Z.of_nat m) with false by lia.
      replace (Z.of_nat m <? Z.of_nat (S m)) with true by (symmetry; apply Z.ltb_lt; lia).
      destruct (Z.testbit a (Z.of_nat m)); [rewrite Z.pow2_bits_true by lia|rewrite Z.bits_0]; reflexivity.
    + replace (n <? Z.of_nat (S m)) with (n <? Z.of_nat m)
        by (destruct (Z.ltb_spec n (Z.of_nat (S m))), (Z.ltb_spec n (Z.of_nat m)); first [reflexivity|lia]).
      destruct (Z.testbit a (Z.of_nat m)); [rewrite Z.pow2_bits_false by lia|rewrite Z.bits_0];
        apply xorb_false_r.
Qed.

Lemma low_byte a : is_byte a = true -> low 8 a = a.
Proof.
  intros Ha. apply byte_land in Ha. apply Z.bits_inj'. intros n Hn. rewrite testbit_low by exact Hn.
  rewrite <- Ha at 2. rewrite Z.land_spec. f_equal. change 255 with (Z.ones 8).
  destruct (Z.ltb_spec n (Z.of_nat 8)); [rewrite Z.ones_spec_low by lia|rewrite Z.ones_spec_high by lia];
    reflexivity.
Qed.

Definition basis : list Z := map (fun k => 2 ^ Z.of_nat k) (seq 0 8).

(** What holds of 0 and of the single bits and is kept by exclusive or holds
    of every byte. *)
Lemma byte_ind (P : Z -> Prop) :
  P 0 -> (forall x, In x basis -> P x) -> (forall a b, P a -> P b -> P (Z.lxor a b)) ->
  forall a, is_byte a = true -> P a.
Proof.
  intros H0 Hb Hx a Ha. rewrite <- (low_byte a Ha).
  assert (Hm : forall m, (m <= 8)%nat -> P (low m a)); [|apply Hm; lia].
  induction m as [|m IH]; intros Hm; cbn [low]; [exact H0|]. apply Hx; [apply IH; lia|].
  destruct (Z.testbit a (Z.of_nat m)); [|exact H0]. apply Hb, in_map_iff. exists m.
  split; [reflexivity|]. apply in_seq. lia.
Qed.

(** ** The field laws *)

Lemma gf256_mul_lin_a a a' b : gf256_mul (Z.lxor a a') b = Z.lxor (gf256_mul a b) (gf256_mul a' b).
Proof. apply mul_loop_lin_a. Qed.

Lemma gf256_mul_lin_b a b b' : gf256_mul a (Z.lxor b b') = Z.lxor (gf256_mul a b) (gf256_mul a b').
Proof. apply mul_loop_lin_b. Qed.

Lemma gf256_mul_0_l b : gf256_mul 0 b = 0.
Proof. rewrite <- (Z.lxor_nilpotent 0) at 1. rewrite gf256_mul_lin_a. apply Z.lxor_nilpotent. Qed.

Lemma gf256_mul_0_r a : gf256_mul a 0 = 0.
Proof. rewrite <- (Z.lxor_nilpotent 0) at 1. rewrite gf256_mul_lin_b. apply Z.lxor_nilpotent. Qed.

Lemma xtime_byte a : is_byte a = true -> is_byte (xtime a) = true.
Proof.
  intros _. unfold xtime. assert (H8 : forall x, is_byte (u8 x) = true)
    by (intros x; apply is_byte_iff; unfold u8; apply Z.mod_pos_bound; lia).
  destruct (_ =? 0); [apply H8|]. apply byte_lxor; [apply H8|reflexivity].
Qed.

Lemma gf256_mul_byte a b : is_byte a = true -> is_byte (gf256_mul a b) = true.
Proof.
  unfold gf256_mul. assert (Hl : forall n r a b, is_byte r = true -> is_byte a = true ->
    is_byte (mul_loop n r a b) = true); [|intros Ha; apply Hl; [reflexivity|exact Ha]].
  induction n as [|n IH]; intros r x y Hr Hx; cbn [mul_loop]; [exact Hr|].
  apply IH; [|apply xtime_byte; exact Hx]. destruct (_ =? 0); [exact Hr|apply byte_lxor; assumption].
Qed.

(** The laws on the single bits, by evaluation. *)
Lemma basis_comm :
  forallb (fun a => forallb (fun b => gf256_mul a b =? gf256_mul b a) basis) basis = true.
Proof. vm_compute. reflexivity. Qed.

Lemma basis_assoc :
  forallb (fun a => forallb (fun b => forallb (fun c =>
    gf256_mul (gf256_mul a b) c =? gf256_mul a (gf256_mul b c)) basis) basis) basis = true.
Proof. vm_compute. reflexivity. Qed.

Lemma gf256_mul_comm a b : is_byte a = true -> is_byte b = true -> gf256_mul a b = gf256_mul b a.
Proof.
  intros Ha. revert b. apply (byte_ind (fun a => forall b, is_byte b = true -> gf256_mul a b = gf256_mul b a));
    [..|exact Ha].
  - intros b _. rewrite gf256_mul_0_l, gf256_mul_0_r. reflexivity.
  - intros x Hx. apply byte_ind.
    + rewrite gf256_mul_0_l, gf256_mul_0_r. reflexivity.
    + intros y Hy. pose proof basis_comm as H. rewrite forallb_forall in H. specialize (H x Hx).
      rewrite forallb_forall in H. apply Z.eqb_eq. exact (H y Hy).
    + intros y z Hy Hz. rewrite gf256_mul_lin_a, gf256_mul_lin_b, Hy, Hz. reflexivity.
  - intros x y Hx Hy b Hb. rewrite gf256_mul_lin_a, gf256_mul_lin_b, Hx, Hy by exact Hb. reflexivity.
Qed.

Lemma gf256_mul_assoc a b c :
  is_byte a = true -> is_byte b = true -> is_byte c = true ->
  gf256_mul (gf256_mul a b) c = gf256_mul a (gf256_mul b c).
Proof.
  intros Ha. revert b c. apply (byte_ind (fun a => forall b c, is_byte b = true -> is_byte c = true ->
    gf256_mul (gf256_mul a b) c = gf256_mul a (gf256_mul b c))); [..|exact Ha].
  - intros b c _ _. rewrite !gf256_mul_0_l. reflexivity.
  - intros x Hx b c Hb. revert c. apply (byte_ind (fun b => forall c, is_byte c = true ->
      gf256_mul (gf256_mul x b) c = gf256_mul x (gf256_mul b c))); [..|exact Hb].
    + intros c _. rewrite gf256_mul_0_r, gf256_mul_0_l, gf256_mul_0_r. reflexivity.
    + intros y Hy. apply byte_ind.
      * rewrite !gf256_mul_0_r. reflexivity.
      * intros z Hz. pose proof basis_assoc as H. rewrite forallb_forall in H. specialize (H x Hx).
        rewrite forallb_forall in H. specialize (H y Hy). rewrite forallb_forall in H.
        apply Z.eqb_eq. exact (H z Hz).
      * intros z z' Hz Hz'. rewrite !gf256_mul_lin_b, Hz, Hz'. reflexivity.
    + intros y y' Hy Hy' c Hc. rewrite gf256_mul_lin_b, !gf256_mul_lin_a, gf256_mul_lin_b, Hy, Hy' by exact Hc.
      reflexivity.
  - intros x x' Hx Hx' b c Hb Hc. rewrite !gf256_mul_lin_a, Hx, Hx' by assumption. reflexivity.
Qed.

Definition all_bytes : list Z := map Z.of_nat (seq 0 256).

Lemma in_all_bytes a : is_byte a = true -> In a all_bytes.
Proof.
  rewrite is_byte_iff. intros Ha. apply in_map_iff. exists (Z.to_nat a). split; [lia|].
  apply in_seq. lia.
Qed.

Lemma gf256_mul_1_l a : is_byte a = true -> gf256_mul 1 a = a.
Proof.
  apply (byte_ind (fun a => gf256_mul 1 a = a)); [reflexivity| |intros x y Hx Hy; rewrite gf256_mul_lin_b, Hx, Hy; reflexivity].
  intros x Hx. cbn in Hx. repeat (destruct Hx as [<-|Hx]; [reflexivity|]). contradiction.
Qed.

(** The exponentiation of the code gives the inverse of every nonzero byte. *)
Lemma inverses :
  forallb (fun a => (a =? 0) || match gf256_inv a with
                                | Some i => (gf256_mul i a =? 1) && is_byte i
                                | None => false
                                end) all_bytes = true.
Proof. vm_compute. reflexivity. Qed.

Lemma gf256_inv_spec a :
  is_byte a = true -> a <> 0 ->
  exists i, gf256_inv a = Some i /\ gf256_mul i a = 1 /\ is_byte i = true.
Proof.
  intros Ha Hne. pose proof inverses as H. rewrite forallb_forall in H.
  specialize (H a (in_all_bytes a Ha)). replace (a =? 0) with false in H by lia. cbn [orb] in H.
  destruct (gf256_inv a) as [i|]; [|discriminate]. exists i. rewrite andb_true_iff, Z.eqb_eq in H. tauto.
Qed.

(** ** The field *)

Definition gf : Type := {x : Z | is_byte x = true}.
Definition v (a : gf) : Z := proj1_sig a.

Lemma gf_eq (a b : gf) : v a = v b -> a = b.
Proof.
  destruct a as [a Ha], b as [b Hb]. cbn. intros ->. f_equal. apply UIP_dec, bool_dec.
Qed.

Lemma v_byte (a : gf) : is_byte (v a) = true.
Proof. exact (proj2_sig a). Qed.

Definition g0 : gf := exist _ 0 eq_refl.
Definition g1 : gf := exist _ 1 eq_refl.
Definition gadd (a b : gf) : gf := exist _ (Z.lxor (v a) (v b)) (byte_lxor _ _ (v_byte a) (v_byte b)).
Definition gmul (a b : gf) : gf := exist _ (gf256_mul (v a) (v b)) (gf256_mul_byte _ _ (v_byte a)).
Definition gopp (a : gf) : gf := a.
Definition gsub (a b : gf) : gf := gadd a b.

(** A byte as an element; anything else is 0. *)
Definition of_byte (x : Z) : gf :=
  match bool_dec (is_byte x) true with
  | left H => exist _ x H
  | right _ => g0
  end.

Definition ginv (a : gf) : gf := match gf256_inv (v a) with Some i => of_byte i | None => g0 end.
Definition gdiv (a b : gf) : gf := gmul a (ginv b).

Lemma v_of_byte x : is_byte x = true -> v (of_byte x) = x.
Proof. intros H. unfold of_byte. destruct (bool_dec (is_byte x) true); [reflexivity|contradiction]. Qed.

Lemma gf256_inv_v (a : gf) : a <> g0 -> gf256_inv (v a) = Some (v (ginv a)) /\ gmul (ginv a) a = g1.
Proof.
  intros Hne. destruct (gf256_inv_spec (v a) (v_byte a)) as (i & Hi & Hm & Hb).
  { intros E. apply Hne, gf_eq. exact E. }
  assert (Hv : v (ginv a) = i) by (unfold ginv; rewrite Hi; apply v_of_byte, Hb).
  rewrite Hi. split; [congruence|]. apply gf_eq.
  change (gf256_mul (v (ginv a)) (v a) = 1). rewrite Hv. exact Hm.
Qed.

Lemma gf_ring : ring_theory g0 g1 gadd gmul gsub gopp eq.
Proof.
  split; intros; apply gf_eq; cbn.
  - apply Z.lxor_0_l.
  - apply Z.lxor_comm.
  - symmetry. apply Z.lxor_assoc.
  - apply gf256_mul_1_l, v_byte.
  - apply gf256_mul_comm; apply v_byte.
  - symmetry. apply gf256_mul_assoc; apply v_byte.
  - apply gf256_mul_lin_a.
  - reflexivity.
  - apply Z.lxor_nilpotent.
Qed.

Lemma gf_field : field_theory g0 g1 gadd gmul gsub gopp gdiv ginv eq.
Proof.
  split; [exact gf_ring|discriminate|reflexivity|]. intros a Ha. apply gf256_inv_v, Ha.
Qed.

Add Field gf_field_instance : gf_field.

Declare Scope gf_scope.
Delimit Scope gf_scope with gf.
Infix "+" := gadd : gf_scope.
Infix "*" := gmul : gf_scope.
Infix "-" := gsub : gf_scope.
Infix "/" := gdiv : gf_scope.
Local Open Scope gf_scope.

Lemma gmul_eq_0 a b : a * b = g0 -> a = g0 \/ b = g0.
Proof.
  intros H. destruct (Z.eq_dec (v a) 0) as [E|E]; [left; apply gf_eq, E|right].
  assert (Ha : a <> g0) by (intros ->; apply E; reflexivity).
  transitivity (ginv a * (a * b)); [field; exact Ha|rewrite H; ring].
Qed.

Lemma gsub_eq_0 a b : a - b = g0 -> a = b.
Proof. intros H. transitivity ((a - b) + b); [ring|rewrite H; ring]. Qed.

(** ** Polynomial functions

    [polyfun n f]: [f] is a polynomial with [n] coefficients. *)

Inductive polyfun : nat -> (gf -> gf) -> Prop :=
| pf_nil f : (forall z, f z = g0) -> polyfun 0 f
| pf_cons n c g f : polyfun n g -> (forall z, f z = c + z * g z) -> polyfun (S n) f.

Lemma pf_add n f g : polyfun n f -> polyfun n g -> polyfun n (fun z => f z + g z).
Proof.
  intros Hf. revert g. induction Hf as [f Hf|n c f' f Hf' IH Hf]; intros g Hg; inversion Hg as [? Hg0|? c' g' ? Hg' Hgz]; subst.
  - apply pf_nil. intros z. rewrite Hf, Hg0. ring.
  - apply (pf_cons n (c + c') (fun z => f' z + g' z)); [apply IH, Hg'|].
    intros z. rewrite Hf, Hgz. ring.
Qed.

Lemma pf_scale n a f : polyfun n f -> polyfun n (fun z => a * f z).
Proof.
  induction 1 as [f Hf|n c f' f Hf' IH Hf].
  - apply pf_nil. intros z. rewrite Hf. ring.
  - apply (pf_cons n (a * c) (fun z => a * f' z)); [exact IH|]. intros z. rewrite Hf. ring.
Qed.

Lemma pf_weaken n m f : (n <= m)%nat -> polyfun n f -> polyfun m f.
Proof.
  intros Hle Hf. revert m Hle. induction Hf as [f Hf|n c f' f Hf' IH Hf]; intros m Hle.
  - clear Hle. revert f Hf. induction m as [|m IH]; intros f Hf; [apply pf_nil, Hf|].
    apply (pf_cons m g0 f); [apply IH, Hf|]. intros z. rewrite Hf. ring.
  - destruct m as [|m]; [lia|]. apply (pf_cons m c f'); [apply IH; lia|exact Hf].
Qed.

Lemma pf_ext n f g : (forall z, g z = f z) -> polyfun n f -> polyfun n g.
Proof.
  intros E Hf. destruct Hf as [f Hf|n c f' f Hf' Hf];
    [apply pf_nil|apply (pf_cons n c f'); [exact Hf'|]]; intros z; rewrite E; apply Hf.
Qed.

Lemma pf_factor n a f : polyfun n f -> polyfun (S n) (fun z => f z * (z - a)).
Proof.
  intros Hf. apply (pf_ext _ (fun z => (g0 + z * f z) + (gopp a * f z))); [intros z; ring|].
  apply pf_add; [apply (pf_cons n g0 f); [exact Hf|reflexivity]|].
  apply (pf_weaken n); [lia|]. apply pf_scale, Hf.
Qed.

(** Division by a linear factor. *)
Lemma pf_divide n f r :
  polyfun (S n) f -> exists q, polyfun n q /\ forall z, f z = f r + (z - r) * q z.
Proof.
  revert f. induction n as [|n IH]; intros f Hf; inversion Hf as [|? c g ? Hg Hfz]; subst.
  - inversion Hg as [? Hg0|]; subst. exists (fun _ => g0). split; [apply pf_nil; reflexivity|].
    intros z. rewrite !Hfz, !Hg0. ring.
  - destruct (IH g Hg) as (q' & Hq' & Hgz). exists (fun z => g z + r * q' z). split.
    + apply pf_add; [exact Hg|]. apply (pf_weaken n); [lia|]. apply pf_scale, Hq'.
    + intros z. rewrite !Hfz. rewrite (Hgz z) at 1 2. ring.
Qed.

(** A polynomial with [n] coefficients and [n] distinct roots vanishes. *)
Lemma pf_roots n f (x : nat -> gf) :
  polyfun n f -> (forall i j, (i < j < n)%nat -> x i <> x j) ->
  (forall i, (i < n)%nat -> f (x i) = g0) -> forall z, f z = g0.
Proof.
  revert f. induction n as [|n IH]; intros f Hf Hd Hr z.
  - inversion Hf as [? Hf0|]; subst. apply Hf0.
  - destruct (pf_divide n f (x n) Hf) as (q & Hq & Hfz).
    rewrite (Hfz z), (Hr n) by lia. rewrite (IH q Hq); [ring|intros; apply Hd; lia|].
    intros i Hi. assert (Hi0 : (x i - x n) * q (x i) = g0).
    { rewrite <- (Hr i) by lia. rewrite (Hfz (x i)), (Hr n) by lia. ring. }
    apply gmul_eq_0 in Hi0 as [E|E]; [|exact E].
    exfalso. apply (Hd i n); [lia|]. apply gsub_eq_0, E.
Qed.

(** ** Interpolation *)

(** The product of [f k] for [k < n], [k <> i]. *)
Fixpoint prod_but (i n : nat) (f : nat -> gf) : gf :=
  match n with
  | O => g1
  | S m => if (i =? m)%nat then prod_but i m f else prod_but i m f * f m
  end.

Fixpoint sum_to (n : nat) (f : nat -> gf) : gf :=
  match n with
  | O => g0
  | S m => sum_to m f + f m
  end.

Lemma prod_but_zero i n f m : (m < n)%nat -> m <> i -> f m = g0 -> prod_but i n f = g0.
Proof.
  intros Hm Hne Hf. induction n as [|n IH]; [lia|]. cbn [prod_but].
  destruct (Nat.eq_dec m n) as [->|Hmn].
  - destruct (Nat.eqb_spec i n); [congruence|]. rewrite Hf. ring.
  - rewrite IH by lia. destruct (i =? n)%nat; [reflexivity|ring].
Qed.

Lemma prod_but_nonzero i n f :
  (forall k, (k < n)%nat -> k <> i -> f k <> g0) -> prod_but i n f <> g0.
Proof.
  induction n as [|n IH]; intros Hf; cbn [prod_but]; [discriminate|].
  assert (Hp : prod_but i n f <> g0) by (apply IH; intros; apply Hf; lia).
  destruct (Nat.eqb_spec i n); [exact Hp|]. intros E. apply gmul_eq_0 in E as [E|E]; [exact (Hp E)|].
  apply (Hf n); auto.
Qed.

Lemma pf_prod_but i n (x : nat -> gf) :
  polyfun (if (i <? n)%nat then n else S n) (fun z => prod_but i n (fun k => z - x k)).
Proof.
  induction n as [|n IH].
  - apply (pf_cons 0 g1 (fun _ => g0)); [apply pf_nil; reflexivity|]. intros z. cbn. ring.
  - cbn [prod_but]. destruct (Nat.eqb_spec i n) as [->|Hne].
    + rewrite Nat.ltb_irrefl in IH. replace (n <? S n)%nat with true by (symmetry; apply Nat.ltb_lt; lia).
      exact IH.
    + apply pf_factor with (a := x n) in IH. destruct (Nat.ltb_spec i n), (Nat.ltb_spec i (S n)); try lia; exact IH.
Qed.

Lemma pf_sum m n (F : nat -> gf -> gf) :
  (forall i, (i < m)%nat -> polyfun n (F i)) -> polyfun n (fun z => sum_to m (fun i => F i z)).
Proof.
  induction m as [|m IH]; intros HF; cbn [sum_to].
  - apply (pf_weaken 0); [lia|]. apply pf_nil. reflexivity.
  - apply pf_add; [apply IH; intros; apply HF; lia|apply HF; lia].
Qed.

Lemma sum_to_single n m (F : nat -> gf) :
  (m < n)%nat -> (forall i, (i < n)%nat -> i <> m -> F i = g0) -> sum_to n F = F m.
Proof.
  induction n as [|n IH]; intros Hm HF; [lia|]. cbn [sum_to].
  destruct (Nat.eq_dec m n) as [->|Hne].
  - assert (Hz : sum_to n F = g0).
    { clear IH Hm. assert (HF' : forall i, (i < n)%nat -> F i = g0) by (intros; apply HF; lia).
      clear HF. induction n as [|n IH]; [reflexivity|]. cbn [sum_to].
      rewrite IH, HF' by (intros; try apply HF'; lia). ring. }
    rewrite Hz. ring.
  - rewrite IH by (try lia; intros; apply HF; lia). rewrite (HF n) by lia. ring.
Qed.

Lemma sum_to_ext n F G : (forall i, (i < n)%nat -> F i = G i) -> sum_to n F = sum_to n G.
Proof.
  induction n as [|n IH]; intros H; [reflexivity|]. cbn [sum_to].
  rewrite IH, H by (intros; try apply H; lia). reflexivity.
Qed.

Lemma distinct_den n (x : nat -> gf) i :
  (forall i j, (i < j < n)%nat -> x i <> x j) -> (i < n)%nat ->
  prod_but i n (fun k => x i - x k) <> g0.
Proof.
  intros Hd Hi. apply prod_but_nonzero. intros k Hk Hne E. apply gsub_eq_0 in E.
  destruct (Nat.lt_ge_cases i k); [apply (Hd i k); [lia|exact E]|apply (Hd k i); [lia|congruence]].
Qed.

(** Lagrange interpolation at 0 over distinct points gives the value at 0 of
    every polynomial with at most as many coefficients as there are points. *)
Lemma lagrange_at_0 n (p : gf -> gf) (x : nat -> gf) :
  polyfun n p -> (forall i j, (i < j < n)%nat -> x i <> x j) ->
  sum_to n (fun i => p (x i) * (prod_but i n x / prod_but i n (fun k => x i - x k))) = p g0.
Proof.
  intros Hp Hd.
  pose proof (fun i => distinct_den n x i Hd) as Hden.
  set (L := fun i z => p (x i) * ginv (prod_but i n (fun k => x i - x k)) * prod_but i n (fun k => z - x k)).
  assert (Hh : forall z, p z - sum_to n (fun i => L i z) = g0).
  { apply (pf_roots n _ x); [|exact Hd|].
    - apply pf_add; [exact Hp|]. apply pf_sum. intros i Hi.
      unfold L. apply pf_scale. pose proof (pf_prod_but i n x) as Hq.
      replace (i <? n)%nat with true in Hq by (symmetry; apply Nat.ltb_lt; exact Hi). exact Hq.
    - intros m Hm. rewrite (sum_to_single n m (fun i => L i (x m)) Hm).
      + unfold L. field. apply Hden, Hm.
      + intros i Hi Hne. unfold L. rewrite (prod_but_zero i n (fun k => x m - x k) m);
          [ring|exact Hm|congruence|ring]. }
  rewrite (gsub_eq_0 _ _ (Hh g0)). apply sum_to_ext. intros m Hm.
  unfold L. assert (E : prod_but m n (fun k => g0 - x k) = prod_but m n x).
  { clear. induction n as [|n IH]; [reflexivity|]. cbn [prod_but]. rewrite IH.
    destruct (m =? n)%nat; [reflexivity|]. f_equal. change (g0 + x n = x n). ring. }
  rewrite E. field. apply Hden, Hm.
Qed.

(** ** The code computes it *)

Fixpoint horner (p : list gf) (z : gf) : gf :=
  match p with
  | [] => g0
  | c :: p' => c + z * horner p' z
  end.

Lemma pf_horner p : polyfun (length p) (horner p).
Proof. induction p as [|c p IH]; [apply pf_nil; reflexivity|]. apply (pf_cons _ c (horner p)); auto. Qed.

Lemma wf_nth_byte l i : wf_bytes l = true -> is_byte (nth i l 0) = true.
Proof.
  unfold wf_bytes. rewrite forallb_forall. intros H. destruct (Nat.lt_ge_cases i (length l)).
  - apply H, nth_In. assumption.
  - rewrite nth_overflow by assumption. reflexivity.
Qed.

Definition elem (l : bytes) (i : nat) : gf := of_byte (nth i l 0).

Lemma v_elem l i : wf_bytes l = true -> v (elem l i) = nth i l 0.
Proof. intros H. apply v_of_byte, wf_nth_byte, H. Qed.

Lemma poly_loop_horner coeffs degree (x : gf) todo i (result x_power : gf) :
  wf_bytes coeffs = true -> (Z.of_nat i + Z.of_nat todo = degree + 1)%Z ->
  (i + todo <= length coeffs)%nat ->
  poly_loop coeffs degree (v x) todo (Z.of_nat i) (v result) (v x_power)
  = v (result + x_power * horner (map of_byte (firstn todo (skipn i coeffs))) x).
Proof.
  intros Hwf. revert i result x_power. induction todo as [|todo IH]; intros i result x_power Hdeg Hlen.
  - cbn [poly_loop firstn map horner]. apply (f_equal v). ring.
  - cbn [poly_loop]. rewrite Nat2Z.id.
    assert (Hsk : skipn i coeffs = nth i coeffs 0%Z :: skipn (S i) coeffs).
    { clear -Hlen. revert i Hlen. induction coeffs as [|c l IH]; intros i Hlen; [cbn in Hlen; lia|].
      destruct i as [|i]; [reflexivity|]. cbn [skipn nth]. apply IH. cbn in Hlen. lia. }
    rewrite Hsk. cbn [firstn map horner]. fold (elem coeffs i).
    rewrite <- (v_elem coeffs i Hwf).
    change (Z.lxor (v result) (gf256_mul (v (elem coeffs i)) (v x_power)))
      with (v (result + elem coeffs i * x_power)).
    replace (Z.of_nat i + 1)%Z with (Z.of_nat (S i)) by lia.
    destruct (Z.ltb_spec (Z.of_nat i) degree).
    + change (gf256_mul (v x_power) (v x)) with (v (x_power * x)).
      rewrite IH by lia. apply (f_equal v). ring.
    + replace todo with 0%nat by lia. cbn [poly_loop firstn map horner]. apply (f_equal v). ring.
Qed.

Lemma poly_eval_horner coeffs (x : gf) :
  wf_bytes coeffs = true ->
  gf256_poly_eval coeffs (blen coeffs - 1) (v x) = v (horner (map of_byte coeffs) x).
Proof.
  intros Hwf. unfold gf256_poly_eval, blen. replace (Z.of_nat (length coeffs) - 1 + 1)%Z
    with (Z.of_nat (length coeffs)) by lia. rewrite Nat2Z.id.
  pose proof (poly_loop_horner coeffs (Z.of_nat (length coeffs) - 1) x (length coeffs) 0 g0 g1 Hwf
    ltac:(lia) ltac:(lia)) as Hp. cbn [skipn] in Hp. rewrite firstn_all in Hp.
  change (Z.of_nat 0) with 0%Z in Hp. change (v g0) with 0%Z in Hp. change (v g1) with 1%Z in Hp.
  rewrite Hp. apply (f_equal v). ring.
Qed.

Lemma basis_loop_prod xs i todo j :
  wf_bytes xs = true ->
  basis_loop xs i todo j (v (prod_but i j (elem xs))) (v (prod_but i j (fun k => elem xs i - elem xs k)))
  = (v (prod_but i (j + todo) (elem xs)), v (prod_but i (j + todo) (fun k => elem xs i - elem xs k))).
Proof.
  intros Hwf. revert j. induction todo as [|todo IH]; intros j; cbn [basis_loop];
    [rewrite Nat.add_0_r; reflexivity|].
  replace (j + S todo)%nat with (S j + todo)%nat by lia. rewrite <- IH. cbn [prod_but].
  destruct (Nat.eqb_spec i j); [reflexivity|].
  rewrite <- !(v_elem xs _ Hwf). reflexivity.
Qed.

Lemma lagrange_loop_sum xs ys n todo i :
  wf_bytes xs = true -> wf_bytes ys = true -> (i + todo <= n)%nat ->
  (forall k, (k < n)%nat -> prod_but k n (fun m => elem xs k - elem xs m) <> g0) ->
  let F k := elem ys k * (prod_but k n (elem xs) / prod_but k n (fun m => elem xs k - elem xs m)) in
  lagrange_loop xs ys n todo i (v (sum_to i F)) = Some (v (sum_to (i + todo) F)).
Proof.
  intros Hx Hy Hle Hden F. revert i Hle. induction todo as [|todo IH]; intros i Hle; cbn [lagrange_loop];
    [rewrite Nat.add_0_r; reflexivity|].
  pose proof (basis_loop_prod xs i n 0 Hx) as Hb. cbn [prod_but Nat.add] in Hb.
  change (v g1) with 1%Z in Hb. rewrite Hb. unfold gf256_div.
  destruct (gf256_inv_v _ (Hden i ltac:(lia))) as [-> _].
  rewrite <- (v_elem ys i Hy). replace (i + S todo)%nat with (S i + todo)%nat by lia.
  rewrite <- (IH (S i)) by lia. reflexivity.
Qed.

(** Shares of a polynomial: its values at the points [xs]. *)
Definition shares_of (coeffs xs : bytes) : bytes :=
  map (gf256_poly_eval coeffs (blen coeffs - 1)) xs.

Lemma gf256_poly_eval_byte coeffs x :
  wf_bytes coeffs = true -> is_byte x = true -> is_byte (gf256_poly_eval coeffs (blen coeffs - 1) x) = true.
Proof.
  intros Hc Hx. rewrite <- (v_of_byte x Hx), poly_eval_horner by exact Hc. apply v_byte.
Qed.

(** Shamir recovery: interpolating at 0 over at least as many distinct points
    as the polynomial has coefficients never divides by zero and returns the
    constant coefficient, the secret byte. *)
Lemma interpolate_shares coeffs xs :
  coeffs <> [] -> wf_bytes coeffs = true -> wf_bytes xs = true -> NoDup xs ->
  (length coeffs <= length xs)%nat ->
  gf256_lagrange_interpolate xs (shares_of coeffs xs) (length xs) = Some (nth 0 coeffs 0%Z).
Proof.
  intros Hne Hc Hx Hd Hlen. set (n := length xs) in *.
  assert (Hy : wf_bytes (shares_of coeffs xs) = true).
  { unfold wf_bytes, shares_of in *. rewrite forallb_forall in *. intros y Hin.
    apply in_map_iff in Hin as (x & <- & Hin). apply gf256_poly_eval_byte; [|apply Hx, Hin].
    unfold wf_bytes. rewrite forallb_forall. exact Hc. }
  assert (Hdist : forall i j, (i < j < n)%nat -> elem xs i <> elem xs j).
  { intros i j Hij E. apply (f_equal v) in E. rewrite !v_elem in E by exact Hx.
    apply (NoDup_nth xs 0%Z) in E; [lia|exact Hd|unfold n in *; lia..]. }
  set (p := horner (map of_byte coeffs)).
  assert (Hp : polyfun n p).
  { apply (pf_weaken (length coeffs)); [exact Hlen|]. unfold p. rewrite <- (length_map of_byte). apply pf_horner. }
  assert (Hys : forall i, (i < n)%nat -> elem (shares_of coeffs xs) i = p (elem xs i)).
  { intros i Hi. apply gf_eq. rewrite v_elem by exact Hy. unfold shares_of.
    rewrite (nth_indep _ 0%Z (gf256_poly_eval coeffs (blen coeffs - 1) 0%Z)) by (rewrite length_map; exact Hi).
    rewrite map_nth, <- (v_elem xs i Hx). apply poly_eval_horner, Hc. }
  pose proof (lagrange_loop_sum xs (shares_of coeffs xs) n n 0 Hx Hy (le_n n)
    (fun k => distinct_den n (elem xs) k Hdist)) as Hl. cbv zeta in Hl. cbn [sum_to Nat.add] in Hl.
  change (v g0) with 0%Z in Hl. unfold gf256_lagrange_interpolate. rewrite Hl. f_equal.
  rewrite (sum_to_ext n _ (fun i => p (elem xs i) *
    (prod_but i n (elem xs) / prod_but i n (fun k => elem xs i - elem xs k))))
    by (intros i Hi; rewrite Hys by exact Hi; reflexivity).
  rewrite lagrange_at_0 by assumption. unfold p. destruct coeffs as [|c coeffs]; [contradiction|].
  cbn [map horner nth]. rewrite <- (v_of_byte c) by (apply (wf_nth_byte (c :: coeffs) 0 Hc)).
  apply (f_equal v). rewrite (v_of_byte c) by (apply (wf_nth_byte (c :: coeffs) 0 Hc)). ring.
Qed.

(** ** Secrecy *)

(** A polynomial function is that of a list of coefficients. *)
Lemma pf_coeffs n f : polyfun n f -> exists l, length l = n /\ forall z, f z = horner l z.
Proof.
  induction 1 as [f Hf|n c g f Hg (l & Hl & Hgz) Hf].
  - exists []. split; [reflexivity|exact Hf].
  - exists (c :: l). split; [cbn; lia|]. intros z. rewrite Hf, Hgz. reflexivity.
Qed.

(** The monic polynomial with the given roots. *)
Fixpoint with_roots (xs : list gf) (z : gf) : gf :=
  match xs with [] => g1 | x :: xs' => with_roots xs' z * (z - x) end.

Lemma pf_with_roots xs : polyfun (S (length xs)) (with_roots xs).
Proof.
  induction xs as [|x xs IH]; cbn [with_roots length].
  - apply (pf_cons 0 g1 (fun _ => g0)); [apply pf_nil; reflexivity|]. intros z. ring.
  - apply pf_factor, IH.
Qed.

Lemma with_roots_root xs x : In x xs -> with_roots xs x = g0.
Proof.
  induction xs as [|y xs IH]; intros Hin; [destruct Hin|]. cbn.
  destruct Hin as [->|Hin]; [|rewrite IH by exact Hin]; ring.
Qed.

Lemma with_roots_nonzero xs z : ~ In z xs -> with_roots xs z <> g0.
Proof.
  induction xs as [|y xs IH]; intros Hin; cbn; [discriminate|]. intros E.
  apply gmul_eq_0 in E as [E|E]; [revert E; apply IH; intros H; apply Hin; right; exact H|].
  apply Hin. left. symmetry. apply gsub_eq_0, E.
Qed.

Lemma of_byte_v (a : gf) : of_byte (v a) = a.
Proof. apply gf_eq, v_of_byte, v_byte. Qed.

(** Fewer shares than coefficients fit every secret: another polynomial with
    as many coefficients and any constant has the same values there. *)
Lemma shares_fit_any_secret coeffs xs s :
  coeffs <> [] -> wf_bytes coeffs = true -> wf_bytes xs = true -> ~ In 0%Z xs ->
  (length xs < length coeffs)%nat -> is_byte s = true ->
  exists coeffs', length coeffs' = length coeffs /\ wf_bytes coeffs' = true /\
    nth 0 coeffs' 0%Z = s /\ shares_of coeffs' xs = shares_of coeffs xs.
Proof.
  intros Hne Hc Hx H0 Hlen Hs. set (p := horner (map of_byte coeffs)). set (X := map of_byte xs).
  assert (Hnz : with_roots X g0 <> g0).
  { apply with_roots_nonzero. intros Hin. apply in_map_iff in Hin as (x & E & Hin). apply H0.
    apply (f_equal v) in E. rewrite v_of_byte in E; [rewrite E in Hin; exact Hin|].
    apply (proj1 (forallb_forall _ _) Hx), Hin. }
  set (f := fun z => p z + ((of_byte s - p g0) / with_roots X g0) * with_roots X z).
  assert (Hf : polyfun (length coeffs) f).
  { apply pf_add; [unfold p; rewrite <- (length_map of_byte); apply pf_horner|]. apply pf_scale.
    apply (pf_weaken (S (length X))); [unfold X; rewrite length_map; lia|apply pf_with_roots]. }
  destruct (pf_coeffs _ _ Hf) as (l & Hl & Hfl). exists (map v l).
  assert (Hw : wf_bytes (map v l) = true).
  { apply forallb_forall. intros y Hy. apply in_map_iff in Hy as (a & <- & _). apply v_byte. }
  assert (Hml : map of_byte (map v l) = l).
  { rewrite map_map. rewrite <- (map_id l) at 2. apply map_ext, of_byte_v. }
  split; [rewrite length_map; exact Hl|]. split; [exact Hw|]. split.
  - assert (E : f g0 = of_byte s) by (unfold f; field; exact Hnz).
    rewrite Hfl in E. destruct l as [|a l]; [destruct coeffs; [contradiction|discriminate]|].
    cbn [map nth]. rewrite <- (v_of_byte s Hs), <- E. apply (f_equal v). cbn [horner]. ring.
  - unfold shares_of. apply map_ext_in. intros x Hin.
    assert (Hb : is_byte x = true) by (apply (proj1 (forallb_forall _ _) Hx), Hin).
    rewrite <- (v_of_byte x Hb), !poly_eval_horner, Hml by assumption. f_equal. rewrite <- Hfl. unfold f.
    rewrite (with_roots_root X (of_byte x)) by (apply in_map, Hin). fold p. ring.
Qed.

(** Evaluation is linear: the values of a sum of polynomials are the sums of
    their values. *)
Lemma horner_xor a b z :
  length a = length b -> wf_bytes a = true -> wf_bytes b = true ->
  horner (map of_byte (xor_bytes a b)) z = horner (map of_byte a) z + horner (map of_byte b) z.
Proof.
  revert b. induction a as [|x a IH]; intros [|y b] Hl Ha Hb; try discriminate; cbn [xor_bytes map horner].
  { ring. }
  cbn in Ha, Hb. apply andb_true_iff in Ha as [Hx Ha]. apply andb_true_iff in Hb as [Hy Hb].
  rewrite IH by (cbn in Hl; auto; lia).
  assert (E : of_byte (Z.lxor x y) = of_byte x + of_byte y).
  { apply gf_eq. cbn. rewrite !v_of_byte; auto using byte_lxor. }
  rewrite E. ring.
Qed.

Lemma poly_eval_xor a b x :
  length a = length b -> wf_bytes a = true -> wf_bytes b = true -> is_byte x = true ->
  gf256_poly_eval (xor_bytes a b) (blen a - 1) x
    = Z.lxor (gf256_poly_eval a (blen a - 1) x) (gf256_poly_eval b (blen b - 1) x).
Proof.
  intros Hl Ha Hb Hx.
  assert (E : blen a = blen (xor_bytes a b)) by (unfold blen; rewrite length_xor_bytes; lia).
  rewrite E at 1. rewrite <- (v_of_byte x Hx).
  rewrite !poly_eval_horner by auto using wf_xor_bytes. rewrite horner_xor by assumption. reflexivity.
Qed.

Lemma horner_zeros n z : horner (map of_byte (zeros n)) z = g0.
Proof.
  induction n as [|n IH]; [reflexivity|]. cbn [zeros repeat map horner]. fold (zeros n). rewrite IH.
  change (of_byte 0) with g0. ring.
Qed.

(** A polynomial with any constant that vanishes at few points other than 0. *)
Lemma vanishing_poly n xs s :
  wf_bytes xs = true -> ~ In 0%Z xs -> (length xs < n)%nat -> is_byte s = true ->
  exists m, length m = n /\ wf_bytes m = true /\ nth 0 m 0%Z = s /\
    forall x, In x xs -> gf256_poly_eval m (blen m - 1) x = 0%Z.
Proof.
  intros Hx H0 Hl Hs.
  assert (Hz : wf_bytes (zeros n) = true) by (apply forallb_forall; intros y Hy; apply repeat_spec in Hy as ->; reflexivity).
  destruct (shares_fit_any_secret (zeros n) xs s) as (m & Hm & Hw & Hc & Hsh);
    [destruct n; [lia|discriminate]|exact Hz|exact Hx|exact H0|unfold zeros; rewrite repeat_length; exact Hl|exact Hs|].
  exists m. unfold zeros in Hm. rewrite repeat_length in Hm. do 3 (split; [assumption|]). intros x Hin.
  assert (Hb : is_byte x = true) by (apply (proj1 (forallb_forall _ _) Hx), Hin).
  unfold shares_of in Hsh. rewrite (proj1 map_ext_in_iff Hsh x Hin).
  rewrite <- (v_of_byte x Hb), poly_eval_horner, horner_zeros by exact Hz. reflexivity.
Qed.
