(* ===== verification/Envelope.v ===== *)
(** * Hybrid encryption in SQL (contrib/pgcrypto_pqc/pgcrypto_pqc.c)

    The SQL functions over KEM and signatures, and the encryption of values and
    columns: an AES-256-GCM key derived from a fresh encapsulation, and an
    envelope that carries the KEM ciphertext in front. *)
From Stdlib Require Import ZArith Lia Bool String List.
From stdpp Require Import base gmap list strings.
From S2P Require Import Prelude CryptoIface Env Spec KeyCache PqcRegistry PqcKem PqcSig.
Import ListNotations.
Local Open Scope Z_scope.
Local Open Scope pg_scope.

Definition AES_GCM_KEY_LEN : nat := 32.
Definition AES_GCM_IV_LEN : nat := 12.
Definition AES_GCM_TAG_LEN : nat := 16.

Definition parse_algorithm (alg_text : string) : M pqc PqcAlgorithm :=
  let! alg := pqc_algorithm_from_name (Some alg_text) in
  if PQC_ALG_COUNT <=? alg then raise ERRCODE_INVALID_PARAMETER_VALUE else ret alg.

(** The outputs of a call that must succeed. *)
Definition or_fail {A} (m : M pqc (PqcStatus * option A)) : M pqc A :=
  let! (_, r) := m in
  match r with
  | Some a => ret a
  | None => raise ERRCODE_EXTERNAL_ROUTINE_EXCEPTION
  end.

Section Envelope.
  Context `{Crypto}.

(** ** KEM and signature functions *)

Definition pgcrypto_pqc_kem_keygen (alg_text : string) : M pqc (bytes * bytes) :=
  let! alg := parse_algorithm alg_text in
  let! kem := pqc_algorithm_is_kem alg in
  if negb kem then raise ERRCODE_INVALID_PARAMETER_VALUE
  else
    let! ctx := pqc_kem_new alg in
    or_fail (pqc_kem_keygen (Some ctx)).

Definition pqc_kem_encapsulate (pk : bytes) (alg_text : string) : M pqc (bytes * bytes) :=
  let! alg := parse_algorithm alg_text in
  let! ctx := pqc_kem_new alg in
  or_fail (pqc_kem_encaps (Some ctx) (Some pk) (length pk)).

Definition pqc_kem_decapsulate (ct sk : bytes) (alg_text : string) : M pqc bytes :=
  let! alg := parse_algorithm alg_text in
  let! ctx := pqc_kem_new alg in
  or_fail (pqc_kem_decaps (Some ctx) (Some ct) (length ct) (Some sk) (length sk)).

Definition pgcrypto_pqc_sig_keygen (alg_text : string) : M pqc (bytes * bytes) :=
  let! alg := parse_algorithm alg_text in
  let! sig := pqc_algorithm_is_sig alg in
  if negb sig then raise ERRCODE_INVALID_PARAMETER_VALUE
  else
    let! ctx := pqc_sig_new alg in
    or_fail (pqc_sig_keygen (Some ctx)).

Definition pqc_sign (msg sk : bytes) (alg_text : string) : M pqc bytes :=
  let! alg := parse_algorithm alg_text in
  let! ctx := pqc_sig_new alg in
  or_fail (pqc_sig_sign (Some ctx) (Some msg) (length msg) (Some sk) (length sk)).

Definition pqc_verify (msg sig pk : bytes) (alg_text : string) : M pqc bool :=
  let! alg := parse_algorithm alg_text in
  let! ctx := pqc_sig_new alg in
  let! status := pqc_sig_verify (Some ctx) (Some msg) (length msg) sig (Some pk) (length pk) in
  ret (match status with PQC_SUCCESS => true | _ => false end).

(** ** Symmetric part *)

Definition aes_key_of (shared_secret : bytes) : bytes :=
  HKDF_SHA256 (bytes_of_string "FortressQL-PQC-v1") shared_secret
    (bytes_of_string "aes-256-gcm") AES_GCM_KEY_LEN.

Definition derive_aes_key (shared_secret : bytes) : M pqc bytes :=
  let! pctx := zoom envL attempt in
  if negb pctx then raise ERRCODE_EXTERNAL_ROUTINE_EXCEPTION
  else
    let! setup := zoom envL (attempts 5) in
    if negb setup then raise ERRCODE_EXTERNAL_ROUTINE_EXCEPTION
    else
      let! derived := zoom envL attempt in
      if negb derived then raise ERRCODE_EXTERNAL_ROUTINE_EXCEPTION
      else ret (aes_key_of shared_secret).

(** IV, ciphertext and tag in one value. *)
Definition aes_gcm_encrypt (plaintext key : bytes) : M pqc bytes :=
  let! r := zoom envL (RAND_bytes AES_GCM_IV_LEN) in
  match r with
  | None => raise ERRCODE_EXTERNAL_ROUTINE_EXCEPTION
  | Some iv =>
      let! ctx := zoom envL attempt in
      if negb ctx then raise ERRCODE_OUT_OF_MEMORY
      else
        let! ok := zoom envL (attempts 4) in
        if negb ok then raise ERRCODE_EXTERNAL_ROUTINE_EXCEPTION
        else
          let! tagged := zoom envL attempt in
          if negb tagged then raise ERRCODE_EXTERNAL_ROUTINE_EXCEPTION
          else
            let (ct, tag) := gcm_seal key iv plaintext in
            ret (iv ++ ct ++ tag)
  end.

Definition aes_gcm_decrypt (data key : bytes) : M pqc bytes :=
  if (length data <? AES_GCM_IV_LEN + AES_GCM_TAG_LEN)%nat then raise ERRCODE_INVALID_PARAMETER_VALUE
  else
    let iv := sub 0 AES_GCM_IV_LEN data in
    let ct_len := (length data - AES_GCM_IV_LEN - AES_GCM_TAG_LEN)%nat in
    let ciphertext := sub AES_GCM_IV_LEN ct_len data in
    let tag := sub (AES_GCM_IV_LEN + ct_len) AES_GCM_TAG_LEN data in
    let! ctx := zoom envL attempt in
    if negb ctx then raise ERRCODE_OUT_OF_MEMORY
    else
      let! ok := zoom envL (attempts 3) in
      if negb ok then raise ERRCODE_EXTERNAL_ROUTINE_EXCEPTION
      else
        let! settag := zoom envL attempt in
        if negb settag then raise ERRCODE_EXTERNAL_ROUTINE_EXCEPTION
        else
          let! final := zoom envL attempt in
          if negb (final && gcm_tag_ok key iv ciphertext tag) then raise ERRCODE_DATA_CORRUPTED
          else ret (gcm_crypt key iv ciphertext).

(** ** Values *)

(** The result row: encrypted value, KEM ciphertext, public and secret key. *)
Definition pqc_encrypt (plaintext : bytes) (alg_text : string)
    : M pqc (bytes * bytes * bytes * bytes) :=
  let! alg := parse_algorithm alg_text in
  let! ctx := pqc_kem_new alg in
  let! (pk, sk) := or_fail (pqc_kem_keygen (Some ctx)) in
  let! (ct, ss) := or_fail (pqc_kem_encaps (Some ctx) (Some pk) (length pk)) in
  let! aes_key := derive_aes_key ss in
  let! encrypted := aes_gcm_encrypt plaintext aes_key in
  ret (encrypted, ct, pk, sk).

Definition pqc_decrypt (encrypted ct sk : bytes) (alg_text : string) : M pqc bytes :=
  let! alg := parse_algorithm alg_text in
  let! ctx := pqc_kem_new alg in
  let! ss := or_fail (pqc_kem_decaps (Some ctx) (Some ct) (length ct) (Some sk) (length sk)) in
  let! aes_key := derive_aes_key ss in
  aes_gcm_decrypt encrypted aes_key.

(** ** Columns *)

(** [if (!pqc_is_available()) pqc_init();], the result not checked. *)
Definition init_if_needed : M pqc unit :=
  let! avail := pqc_is_available in
  if avail then ret tt else do! pqc_init in ret tt.

(** Four bytes of length in network order, the KEM ciphertext and the value. *)
Definition pqc_encrypt_column (data pk : bytes) (alg_text : string) : M pqc bytes :=
  let! alg := parse_algorithm alg_text in
  let! kem := pqc_algorithm_is_kem alg in
  if negb kem then raise ERRCODE_INVALID_PARAMETER_VALUE
  else
    do! init_if_needed in
    let! ctx := pqc_kem_new alg in
    let! (ct, ss) := or_fail (pqc_kem_encaps (Some ctx) (Some pk) (length pk)) in
    let! aes_key := derive_aes_key ss in
    let! aes_encrypted := aes_gcm_encrypt data aes_key in
    ret (be_bytes 4 (u32 (blen ct)) ++ ct ++ aes_encrypted).

(** liboqs reads the ciphertext once [pqc_kem_decaps] has accepted both
    lengths; reading past the end of the value ends the process. *)
Definition decaps_overrun (ctx : PqcKemContext) (data sk : bytes) (ct_len : Z) : bool :=
  (Z.to_nat ct_len =? kem_length_ciphertext (oqs_kem ctx))%nat &&
  (length sk =? kem_length_secret_key (oqs_kem ctx))%nat && (blen data <? 4 + ct_len).

(** The comparison is made with a 32-bit sum, as the code has it. *)
Definition pqc_decrypt_column (data sk : bytes) (alg_text : string) : M pqc bytes :=
  let! alg := parse_algorithm alg_text in
  let! kem := pqc_algorithm_is_kem alg in
  if negb kem then raise ERRCODE_INVALID_PARAMETER_VALUE
  else
    do! init_if_needed in
    let data_len := blen data in
    if data_len <? 4 then raise ERRCODE_INVALID_PARAMETER_VALUE
    else
      let ct_len := be_val (sub 0 4 data) in
      if data_len <? u32 (4 + ct_len + Z.of_nat AES_GCM_IV_LEN + Z.of_nat AES_GCM_TAG_LEN)
      then raise ERRCODE_INVALID_PARAMETER_VALUE
      else
        let kem_ct := sub 4 (Z.to_nat ct_len) data in
        let! ctx := pqc_kem_new alg in
        if decaps_overrun ctx data sk ct_len then fatal
        else
          let! ss := or_fail (pqc_kem_decaps (Some ctx) (Some kem_ct) (Z.to_nat ct_len)
                                (Some sk) (length sk)) in
          let! aes_key := derive_aes_key ss in
          let aes_blob_len := u64 (data_len - 4 - ct_len) in
          if data_len <? 4 + ct_len + aes_blob_len then fatal
          else aes_gcm_decrypt (sub (4 + Z.to_nat ct_len) (Z.to_nat aes_blob_len) data) aes_key.

(** The text variants copy the value and repeat the same steps. *)
Definition pqc_encrypt_text (plaintext pk : bytes) (alg_text : string) : M pqc bytes :=
  let data_bytea := plaintext in
  pqc_encrypt_column data_bytea pk alg_text.

Definition pqc_decrypt_text (data sk : bytes) (alg_text : string) : M pqc bytes :=
  let! decrypted := pqc_decrypt_column data sk alg_text in
  ret decrypted.
End Envelope.

Arguments parse_algorithm : simpl never.
Arguments derive_aes_key : simpl never.
Arguments aes_gcm_encrypt : simpl never.
Arguments aes_gcm_decrypt : simpl never.
Arguments init_if_needed : simpl never.

(** ** Specifications

    Programs of the layer, with an intact registry as the invariant. *)
#[export] Instance registry_stable : Stable envL registry_ok.
Proof. intros e p Hp. exact Hp. Qed.

Abbreviation pspec := (spec envL registry_ok).

Section OrFail.
  Context `{CL : CryptoLaws}.

Lemma preserves_env {A} (m : M env A) : preserves registry_ok (zoom envL m).
Proof. intros p Hp. unfold zoom. destruct (m (view envL p)). exact Hp. Qed.

Lemma preserves_bump f : preserves registry_ok (bump f).
Proof. apply preserves_modify. intros p Hp. destruct (pqc_stat_counters p); exact Hp. Qed.

(** A call of liboqs that uses randomness and may count itself. *)
Lemma or_fail_spec {A} t (m : M pqc (PqcStatus * option A)) R :
  returns envL registry_ok (bind m (fun x => ret (snd x))) R -> pspec t (or_fail m) R.
Proof.
  intros Hm p Hp. destruct (Hm p Hp) as (r & p1 & H1 & Hp1 & Hn1 & HR).
  unfold or_fail, bind in *. destruct (m p) as [[[st r']|e|] p2]; [|discriminate..].
  cbn in H1. injection H1 as -> ->. destruct r as [a|]; cbn.
  - exists (Ok a), p1. repeat split; eauto; intros; apply Hn1; assumption.
  - exists (@Err A ERRCODE_EXTERNAL_ROUTINE_EXCEPTION), p1. split; [reflexivity|].
    split; [exact Hp1|]. split; [|exact I]. intros Hn. destruct (Hn1 Hn); contradiction.
Qed.
End OrFail.

(** ** Lemmas: the calls *)

Section Calls.
  Context `{CL : CryptoLaws}.

Lemma derive_spec t ss : pspec t (derive_aes_key ss) (fun key => key = aes_key_of ss).
Proof.
  unfold derive_aes_key. spec_calls. apply spec_ret. reflexivity.
Qed.

Lemma gcm_encrypt_spec t text key :
  pspec t (aes_gcm_encrypt text key)
    (fun r => exists iv, length iv = AES_GCM_IV_LEN /\
       r = iv ++ gcm_crypt key iv text ++ AES256_GCM_tag key iv (gcm_crypt key iv text)).
Proof.
  unfold aes_gcm_encrypt. eapply spec_returns; [apply returns_RAND_bytes; apply _|]. intros iv [Hiv _].
  spec_calls. cbn [gcm_seal]. apply spec_ret.
  exists iv. split; [exact Hiv|reflexivity].
Qed.

(** What the three slices of a value are. *)
Lemma gcm_slices data :
  (AES_GCM_IV_LEN + AES_GCM_TAG_LEN <= length data)%nat ->
  let n := (length data - AES_GCM_IV_LEN - AES_GCM_TAG_LEN)%nat in
  exists iv c tag, data = iv ++ c ++ tag /\ length iv = AES_GCM_IV_LEN /\
    length tag = AES_GCM_TAG_LEN /\ sub 0 AES_GCM_IV_LEN data = iv /\
    sub AES_GCM_IV_LEN n data = c /\ sub (AES_GCM_IV_LEN + n) AES_GCM_TAG_LEN data = tag.
Proof.
  intros Hl n. exists (sub 0 12 data), (sub 12 n data), (sub (12 + n) 16 data).
  unfold AES_GCM_IV_LEN, AES_GCM_TAG_LEN in *. repeat split; rewrite ?length_sub; try (subst n; lia).
  unfold sub. rewrite skipn_O. rewrite (firstn_all2 (n := 16)) by (rewrite length_skipn; subst n; lia).
  rewrite (Nat.add_comm 12 n), <- skipn_skipn, !firstn_skipn. reflexivity.
Qed.

Lemma gcm_slices_app iv c tag :
  length iv = AES_GCM_IV_LEN -> length tag = AES_GCM_TAG_LEN ->
  let data := iv ++ c ++ tag in
  let n := (length data - AES_GCM_IV_LEN - AES_GCM_TAG_LEN)%nat in
  sub 0 AES_GCM_IV_LEN data = iv /\ sub AES_GCM_IV_LEN n data = c /\
  sub (AES_GCM_IV_LEN + n) AES_GCM_TAG_LEN data = tag.
Proof.
  intros Hi Ht data n. assert (Hn : n = length c).
  { subst n data. rewrite !length_app. unfold AES_GCM_IV_LEN, AES_GCM_TAG_LEN in *. lia. }
  rewrite Hn. subst data. repeat split.
  - apply sub_0_app, Hi.
  - rewrite <- (Nat.add_0_r AES_GCM_IV_LEN), sub_app_r by exact Hi. apply sub_0_app. reflexivity.
  - rewrite sub_app_r by exact Hi. rewrite <- (Nat.add_0_r (length c)), sub_app_r by reflexivity.
    unfold sub. rewrite skipn_O. apply firstn_all2. lia.
Qed.

Lemma gcm_decrypt_spec data key :
  pspec false (aes_gcm_decrypt data key)
    (fun pt => exists iv c tag, data = iv ++ c ++ tag /\ length iv = AES_GCM_IV_LEN /\
       length tag = AES_GCM_TAG_LEN /\ gcm_tag_ok key iv c tag = true /\ pt = gcm_crypt key iv c).
Proof.
  unfold aes_gcm_decrypt. destruct (_ <? _)%nat eqn:Hl; [apply spec_raise; reflexivity|].
  apply Nat.ltb_ge in Hl. destruct (gcm_slices data Hl) as (iv & c & tag & Hd & Hi & Ht & -> & -> & ->).
  spec_calls. destruct (gcm_tag_ok key iv c tag) eqn:Hok.
  - eapply spec_bind; [apply (spec_answer envL registry_ok)|]. intros b _. rewrite andb_true_r.
    destruct b; [apply spec_ret; eauto 9|apply spec_raise; reflexivity].
  - eapply spec_bind; [apply (spec_answer envL registry_ok)|]. intros b _. rewrite andb_false_r.
    apply spec_raise. reflexivity.
Qed.

Lemma gcm_decrypt_sealed t iv text key :
  length iv = AES_GCM_IV_LEN ->
  let c := gcm_crypt key iv text in
  pspec t (aes_gcm_decrypt (iv ++ c ++ AES256_GCM_tag key iv c) key) (fun pt => pt = text).
Proof.
  intros Hi c. unfold aes_gcm_decrypt.
  destruct (gcm_slices_app iv c (AES256_GCM_tag key iv c) Hi) as (-> & -> & ->);
    [apply GCM_tag_length|].
  replace (_ <? _)%nat with false
    by (symmetry; apply Nat.ltb_ge; rewrite !length_app, GCM_tag_length, Hi; unfold AES_GCM_TAG_LEN; lia).
  unfold gcm_tag_ok. rewrite bytes_eqb_refl.
  spec_calls.
  refine (spec_attempt_and _ _ _ _ _ _ _ eq_refl _). apply spec_ret. subst c. apply gcm_crypt_involutive.
Qed.
End Calls.

(** ** Lemmas: algorithms and the KEM *)

Section KemCalls.
  Context `{CL : CryptoLaws}.

Lemma get_info_total alg p : exists r, pqc_get_algorithm_info alg p = (Ok r, p).
Proof. unfold pqc_get_algorithm_info. destruct (_ || _); eexists; reflexivity. Qed.

Lemma is_kem_total t alg : pspec t (pqc_algorithm_is_kem alg) (fun _ => True).
Proof.
  apply spec_pure. intros p _. destruct (get_info_total alg p) as [r Hr].
  exists (is_type PQC_TYPE_KEM r). unfold pqc_algorithm_is_kem. mrun Hr. auto.
Qed.

(** [n] spells the name of the algorithm [alg]. *)
Definition spells (n : string) (alg : PqcAlgorithm) : Prop :=
  0 <= alg /\ exists row, pqc_algorithms_static !! Z.to_nat alg = Some row /\ pg_strcasecmp (name row) n = 0.

Lemma parse_spells n : pspec false (parse_algorithm n) (spells n).
Proof.
  unfold parse_algorithm. eapply (spec_bind _ _ _ _ _ (fun a => a = PQC_ALG_COUNT \/ spells n a)).
  - apply spec_pure. intros p Hp. eexists. split; [reflexivity|].
    destruct (find _ (pqc_algorithms p)) as [row|] eqn:Hf; [right|left; reflexivity].
    apply find_some in Hf as [Hin Hc]. apply list_elem_of_In, list_elem_of_lookup in Hin as [i Hi].
    destruct (registry_name p i row Hp Hi) as (Ha & _). destruct (registry_ok_row p _ _ Hp Hi) as (r0 & H0 & Hid).
    injection Hid as _ Hnm _ _ _. rewrite Ha. split; [lia|]. rewrite Nat2Z.id. exists r0. split; [exact H0|].
    rewrite <- Hnm. lia.
  - intros a Ha. destruct (Z.leb_spec PQC_ALG_COUNT a); [apply spec_raise; reflexivity|].
    apply spec_ret. destruct Ha as [->|Ha]; [lia|exact Ha].
Qed.

Lemma inited_spec t (m : M pqc unit) :
  (forall p, registry_ok p -> exists p', m p = (Ok tt, p') /\ inited p p') ->
  pspec t m (fun _ => True).
Proof.
  intros Hm p Hp. destruct (Hm p Hp) as (p' & Hr & [l Hl] & _ & Hok & _).
  exists (Ok tt), p'. repeat split; eauto. cbn. rewrite Hl. exact H0.
Qed.

Lemma init_if_needed_spec t : pspec t init_if_needed (fun _ => True).
Proof.
  apply inited_spec. intros p Hok. unfold init_if_needed, pqc_is_available.
  rewrite (bind_step _ _ p (pqc_initialized p) p) by reflexivity.
  destruct (pqc_initialized p) eqn:Hi.
  - exists p. split; [reflexivity|]. repeat split; auto using logs_refl.
  - destruct (pqc_init_run p Hi (registry_ok_length p Hok)) as (e' & Hr & Hl).
    pose proof (pqc_init_registry_ok p Hok) as Hok'. rewrite Hr in Hok'.
    eexists. mrun Hr. split; [reflexivity|]. repeat split; auto.
Qed.

(** Every context is of the ML-KEM algorithm it was asked for. *)
Definition kem_of (alg : PqcAlgorithm) (k : OQS_KEM) : Prop :=
  exists row, pqc_algorithms_static !! Z.to_nat alg = Some row /\ type row = PQC_TYPE_KEM /\
    OQS_KEM_new (oqs_name row) = Some k.

Lemma kem_new_spec alg :
  pspec false (pqc_kem_new alg) (fun ctx => kem_of alg (oqs_kem ctx)).
Proof.
  intros p Hp. destruct (get_info_total alg p) as [[row|] Hg].
  2:{ exists (Err ERRCODE_INVALID_PARAMETER_VALUE), p. unfold pqc_kem_new. mrun Hg.
      repeat split; auto. discriminate. }
  unfold pqc_kem_new. mrun Hg. revert Hg. unfold pqc_get_algorithm_info.
  destruct (_ || _); [discriminate|]. intros [= Hg].
  destruct (registry_ok_row p _ _ Hp Hg) as (r0 & H0 & Hid). injection Hid as _ _ Ho Hty _.
  cbn [is_type]. case_bool_decide as Ht; cbn [negb]; [|exact (spec_raise _ _ false _ _ eq_refl p Hp)].
  revert p Hp Hg. assert (pspec false (do! ensure_pqc_init in
    match OQS_KEM_new (oqs_name row) with
    | None => raise ERRCODE_EXTERNAL_ROUTINE_EXCEPTION
    | Some k => ret (mkKemContext k alg)
    end) (fun ctx => kem_of alg (oqs_kem ctx))) as Hs; [|intros p Hp _; exact (Hs p Hp)].
  eapply spec_bind; [apply inited_spec, ensure_pqc_init_run|]. intros _ _.
  destruct (OQS_KEM_new (oqs_name row)) as [k|] eqn:Hk; [|apply spec_raise; reflexivity].
  apply spec_ret. exists r0. rewrite <- Ho, <- Hty. auto.
Qed.

(** The lemmas on runs of the three KEM calls, as specifications. *)
Lemma or_fail_run {A} t (m : M pqc (PqcStatus * option A)) (R : A -> Prop) :
  preserves registry_ok m ->
  (forall p, exists r p', m p = (Ok r, p') /\
     (r = (PQC_ERROR_CRYPTO_FAILURE, None) \/ exists a, r = (PQC_SUCCESS, Some a) /\ R a) /\
     (no_faults (p_env p) -> no_faults (p_env p') /\ snd r <> None)) ->
  pspec t (or_fail m) R.
Proof.
  intros Hpr Hm. apply or_fail_spec. intros p Hp. destruct (Hm p) as (r & p' & Hr & Hc & Hn).
  pose proof (Hpr p Hp) as Hp'. rewrite Hr in Hp'. mrun Hr. exists (snd r), p'.
  split; [reflexivity|]. split; [exact Hp'|]. split; [exact Hn|].
  destruct Hc as [->|(a & -> & Ha)]; [discriminate|]. intros b [= <-]. exact Ha.
Qed.

Lemma keygen_spec t ctx :
  pspec t (or_fail (pqc_kem_keygen (Some ctx)))
    (fun r => exists d, r = OQS_KEM_keypair (oqs_kem ctx) d).
Proof.
  apply or_fail_run.
  - apply preserves_bind; [apply preserves_env|]. intros [|]; [|apply preserves_ret].
    apply preserves_bind; [apply preserves_env|]. intros d. apply preserves_ret.
  - intros p. destruct (keygen_run ctx p) as (r & p' & Hr & Hc & Hn). exists r, p'.
    split; [exact Hr|]. split; [|exact Hn]. destruct Hc as [?|[d ?]]; eauto.
Qed.

Lemma encaps_spec t ctx pk :
  length pk = kem_length_public_key (oqs_kem ctx) ->
  pspec t (or_fail (pqc_kem_encaps (Some ctx) (Some pk) (length pk)))
    (fun r => exists d, r = OQS_KEM_encaps (oqs_kem ctx) pk d).
Proof.
  intros Hpk. apply or_fail_run.
  - unfold pqc_kem_encaps. destruct (negb _); [apply preserves_raise|].
    apply preserves_bind; [apply preserves_env|]. intros [|]; [|apply preserves_ret].
    apply preserves_bind; [apply preserves_env|]. intros d.
    apply preserves_bind; [apply preserves_bump|]. intros _. apply preserves_ret.
  - intros p. destruct (encaps_run ctx pk p Hpk) as (r & p' & Hr & Hc & Hn). exists r, p'.
    split; [exact Hr|]. split; [|exact Hn]. destruct Hc as [?|[d ?]]; eauto.
Qed.

Lemma decaps_preserves ctx ct ctl sk skl :
  preserves registry_ok (pqc_kem_decaps (Some ctx) (Some ct) ctl (Some sk) skl).
Proof.
  unfold pqc_kem_decaps. destruct (negb _); [apply preserves_raise|].
  destruct (negb _); [apply preserves_raise|].
  apply preserves_bind; [apply preserves_env|]. intros [|]; [|apply preserves_ret].
  apply preserves_bind; [apply preserves_bump|]. intros _. apply preserves_ret.
Qed.

Lemma decaps_spec t ctx ct sk :
  length ct = kem_length_ciphertext (oqs_kem ctx) -> length sk = kem_length_secret_key (oqs_kem ctx) ->
  pspec t (or_fail (pqc_kem_decaps (Some ctx) (Some ct) (length ct) (Some sk) (length sk)))
    (fun ss => ss = OQS_KEM_decaps (oqs_kem ctx) ct sk).
Proof.
  intros Hct Hsk. apply or_fail_run; [apply decaps_preserves|].
  intros p. destruct (decaps_run ctx ct sk p Hct Hsk) as (r & p' & Hr & Hc & Hn).
  exists r, p'. split; [exact Hr|]. split; [|exact Hn]. destruct Hc; eauto.
Qed.

(** Lengths that do not fit are refused. *)
Lemma decaps_refused {A} ctx ct ctl sk (k : bytes -> M pqc A) Q :
  ctl <> kem_length_ciphertext (oqs_kem ctx) \/ length sk <> kem_length_secret_key (oqs_kem ctx) ->
  pspec false (let! ss := or_fail (pqc_kem_decaps (Some ctx) (Some ct) ctl (Some sk) (length sk)) in
              k ss) Q.
Proof.
  intros Hne p Hp. exists (Err ERRCODE_INVALID_PARAMETER_VALUE), p.
  split; [|repeat split; auto; discriminate].
  unfold or_fail, pqc_kem_decaps, bind. destruct (Nat.eqb_spec ctl (kem_length_ciphertext (oqs_kem ctx)));
    cbn [negb]; [|reflexivity].
  destruct (Nat.eqb_spec (length sk) (kem_length_secret_key (oqs_kem ctx))); [tauto|reflexivity].
Qed.
End KemCalls.

(** ** Properties *)

Section EnvelopeProperties.
  Context `{CL : CryptoLaws}.

(** [names n alg k]: [n] spells the name of the ML-KEM algorithm [alg], which
    liboqs implements as [k]. *)
Definition names (n : string) (alg : PqcAlgorithm) (k : OQS_KEM) : Prop :=
  0 <= alg /\ exists row, pqc_algorithms_static !! Z.to_nat alg = Some row /\
    type row = PQC_TYPE_KEM /\ pg_strcasecmp (name row) n = 0 /\ OQS_KEM_new (oqs_name row) = Some k.

Lemma names_laws n alg k : names n alg k -> kem_laws k.
Proof.
  intros (_ & row & H0 & Ht & _ & Hk). apply (KEM_laws (oqs_name row)); [|exact Hk].
  pose proof (static_oqs_name _ _ H0) as Hin. rewrite Ht in Hin. exact Hin.
Qed.

(** The name of any row, in any spelling, leads to the row. *)
Lemma from_name_spec t n alg row0 :
  0 <= alg -> pqc_algorithms_static !! Z.to_nat alg = Some row0 -> pg_strcasecmp (name row0) n = 0 ->
  pspec t (pqc_algorithm_from_name (Some n)) (fun a => a = alg /\ alg < PQC_ALG_COUNT).
Proof.
  intros Hpos H0 Hn. apply spec_pure. intros p Hp. exists alg.
  pose proof (lookup_lt_Some _ _ _ H0) as Hlt. change (length pqc_algorithms_static) with 18%nat in Hlt.
  split; [|split; [reflexivity|unfold PQC_ALG_COUNT; lia]].
  destruct (lookup_lt_is_Some_2 (pqc_algorithms p) (Z.to_nat alg)) as [row Hi].
  { rewrite (registry_ok_length p Hp). exact Hlt. }
  destruct (registry_ok_row p _ _ Hp Hi) as (r & Hr & Hid). rewrite H0 in Hr.
  injection Hr as <-. injection Hid as _ Hnm _ _ _.
  rewrite <- Hnm in Hn. exact (from_name_run p alg row n Hp Hpos Hi Hn).
Qed.

Lemma parse_spec t n alg k : names n alg k -> pspec t (parse_algorithm n) (fun a => a = alg).
Proof.
  intros (Hpos & row0 & H0 & Ht & Hn & Hk). unfold parse_algorithm.
  eapply spec_bind; [apply (from_name_spec _ _ _ _ Hpos H0 Hn)|]. intros ? [-> Hlt].
  replace (PQC_ALG_COUNT <=? alg) with false by lia. apply spec_ret. reflexivity.
Qed.

Lemma is_kem_spec t n alg k : names n alg k -> pspec t (pqc_algorithm_is_kem alg) (fun b => b = true).
Proof.
  intros (Hpos & row0 & H0 & Ht & _ & _). apply spec_pure. intros p Hp. exists true.
  split; [|reflexivity]. destruct (registry_get p alg row0 Hp Hpos H0) as (row & Hg & Hid).
  injection Hid as _ _ _ Hty _. unfold pqc_algorithm_is_kem. mrun Hg. cbn.
  rewrite bool_decide_eq_true_2 by congruence. reflexivity.
Qed.

Lemma kem_new_named t n alg k :
  names n alg k -> pspec t (pqc_kem_new alg) (fun ctx => ctx = mkKemContext k alg).
Proof.
  intros (Hpos & row0 & H0 & Ht & _ & Hk) p Hp.
  destruct (pqc_kem_new_run p alg row0 k Hp Hpos H0 Ht Hk) as (p' & Hr & [l Hl] & _ & Hok & _).
  exists (Ok (mkKemContext k alg)), p'. repeat split; eauto. cbn. rewrite Hl. exact H1.
Qed.

(** The layout [pqc_encrypt_column] writes, with the tag of its parts. *)
Definition column_value (k : OQS_KEM) (pk data blob : bytes) : Prop :=
  exists d iv, let '(ct, ss) := OQS_KEM_encaps k pk d in
    let c := gcm_crypt (aes_key_of ss) iv data in
    length iv = AES_GCM_IV_LEN /\
    blob = be_bytes 4 (blen ct) ++ ct ++ iv ++ c ++ AES256_GCM_tag (aes_key_of ss) iv c.

Lemma encrypt_column_spec t n alg k pk data :
  names n alg k -> length pk = kem_length_public_key k ->
  pspec t (pqc_encrypt_column data pk n) (column_value k pk data).
Proof.
  intros Hn Hpk. pose proof (names_laws _ _ _ Hn) as Hl. unfold pqc_encrypt_column.
  eapply spec_bind; [apply (parse_spec _ _ _ _ Hn)|]. intros ? ->.
  eapply spec_bind; [apply (is_kem_spec _ _ _ _ Hn)|]. intros ? ->. cbn [negb].
  eapply spec_bind; [apply init_if_needed_spec|]. intros _ _.
  eapply spec_bind; [apply (kem_new_named _ _ _ _ Hn)|]. intros ? ->.
  eapply spec_bind; [apply encaps_spec; exact Hpk|]. intros r [d Hr]. cbn [oqs_kem] in Hr.
  destruct r as [ct ss].
  eapply spec_bind; [apply derive_spec|]. intros ? ->.
  eapply spec_bind; [apply gcm_encrypt_spec|]. intros ? (iv & Hiv & ->).
  apply spec_ret. exists d, iv. rewrite <- Hr. split; [exact Hiv|].
  pose proof (kem_ct_length k Hl pk d) as Hct. rewrite <- Hr in Hct. cbn in Hct.
  pose proof (kem_sizes k Hl) as (_ & _ & Hs). unfold u32. rewrite Z.mod_small; [reflexivity|].
  unfold blen. rewrite Hct. lia.
Qed.

(** Decryption of a value whose parts are in place. *)
Lemma decrypt_column_open t n alg k sk ct blob Q :
  names n alg k -> length ct = kem_length_ciphertext k -> length sk = kem_length_secret_key k ->
  (28 <= length blob)%nat -> blen blob < 2 ^ 31 ->
  pspec t (aes_gcm_decrypt blob (aes_key_of (OQS_KEM_decaps k ct sk))) Q ->
  pspec t (pqc_decrypt_column (be_bytes 4 (blen ct) ++ ct ++ blob) sk n) Q.
Proof.
  intros Hn Hct Hsk Hb Hb' Hd. pose proof (kem_sizes k (names_laws _ _ _ Hn)) as (_ & _ & Hs).
  assert (Hl : blen (be_bytes 4 (blen ct) ++ ct ++ blob) = 4 + blen ct + blen blob)
    by (unfold blen; len_solve).
  assert (Hc : 0 < blen ct <= 8192) by (unfold blen; lia). assert (28 <= blen blob) by (unfold blen; lia).
  unfold pqc_decrypt_column. eapply spec_bind; [apply (parse_spec _ _ _ _ Hn)|]. intros ? ->.
  eapply spec_bind; [apply (is_kem_spec _ _ _ _ Hn)|]. intros ? ->. cbn [negb].
  eapply spec_bind; [apply init_if_needed_spec|]. intros _ _. cbv zeta. rewrite Hl.
  replace (_ <? 4) with false by lia. rewrite sub_0_app by len_solve.
  rewrite be_val_be_bytes by lia. unfold AES_GCM_IV_LEN, AES_GCM_TAG_LEN, u32, u64.
  change (Z.of_nat 12) with 12. change (Z.of_nat 16) with 16.
  rewrite !Z.mod_small by lia. replace (_ <? _) with false by lia.
  replace (Z.to_nat (blen ct)) with (length ct) by (unfold blen; lia).
  eapply spec_bind; [apply (kem_new_named _ _ _ _ Hn)|]. intros ? ->.
  replace (decaps_overrun _ _ _ _) with false
    by (unfold decaps_overrun; rewrite Hl; replace (_ <? 4 + blen ct) with false by lia;
        rewrite andb_false_r; reflexivity).
  rewrite <- (Nat.add_0_r 4) at 1. rewrite sub_app_r by len_solve. rewrite sub_0_app by reflexivity.
  eapply spec_bind; [apply decaps_spec; assumption|]. intros ? ->. cbn [oqs_kem].
  eapply spec_bind; [apply derive_spec|]. intros ? ->. replace (_ <? _) with false by lia.
  rewrite (sub_app_r (length ct) _ _ _ 4) by len_solve.
  rewrite <- (Nat.add_0_r (length ct)), (sub_app_r 0 _ ct blob (length ct)) by reflexivity.
  unfold sub. rewrite skipn_O, firstn_all2 by (unfold blen; lia). exact Hd.
Qed.

(** What a value that is long enough consists of. *)
Lemma column_parts data :
  wf_bytes data = true -> let ct_len := be_val (sub 0 4 data) in
  4 + ct_len + 28 <= blen data -> 0 <= ct_len ->
  exists ct blob, data = be_bytes 4 ct_len ++ ct ++ blob /\ blen ct = ct_len /\
    (28 <= length blob)%nat /\ sub 4 (Z.to_nat ct_len) data = ct /\
    sub (4 + Z.to_nat ct_len) (Z.to_nat (blen data - 4 - ct_len)) data = blob.
Proof.
  intros Hw ct_len Hl Hc. exists (sub 4 (Z.to_nat ct_len) data).
  exists (sub (4 + Z.to_nat ct_len) (Z.to_nat (blen data - 4 - ct_len)) data).
  unfold blen in *. rewrite !length_sub. repeat split; try lia.
  assert (E : be_bytes 4 ct_len = sub 0 4 data).
  { subst ct_len. unfold be_bytes, be_val. rewrite <- (rev_involutive (sub 0 4 data)) at 2.
    f_equal. replace 4%nat with (length (rev (sub 0 4 data))) at 1
      by (rewrite length_rev, length_sub; lia).
    apply le_bytes_le_val. apply forallb_forall. intros x Hx. apply in_rev in Hx.
    revert x Hx. apply forallb_forall, wf_bytes_firstn, wf_bytes_skipn, Hw. }
  rewrite E. unfold sub. rewrite skipn_O.
  rewrite (firstn_all2 (n := Z.to_nat (Z.of_nat (length data) - 4 - ct_len)))
    by (rewrite length_skipn; lia).
  rewrite (Nat.add_comm 4 (Z.to_nat ct_len)), <- skipn_skipn, !firstn_skipn. reflexivity.
Qed.

(** [opens n data sk pt]: [data] has the layout of an encrypted column of the
    ML-KEM algorithm [n] names, its tag is that of its parts under the key
    derived from what this algorithm decapsulates from the ciphertext in [data]
    with [sk], and [pt] is its plaintext. *)
Definition opens (n : string) (data sk pt : bytes) : Prop :=
  exists alg k ct iv c tag, let key := aes_key_of (OQS_KEM_decaps k ct sk) in
    names n alg k /\ length ct = kem_length_ciphertext k /\ length sk = kem_length_secret_key k /\
    length iv = AES_GCM_IV_LEN /\ length tag = AES_GCM_TAG_LEN /\
    data = be_bytes 4 (blen ct) ++ ct ++ iv ++ c ++ tag /\
    gcm_tag_ok key iv c tag = true /\ pt = gcm_crypt key iv c.

Lemma decrypt_column_body n alg data sk ctx :
  wf_bytes data = true -> blen data < 2 ^ 30 -> names n alg (oqs_kem ctx) ->
  let ct_len := be_val (sub 0 4 data) in
  u32 (4 + ct_len + 12 + 16) <= blen data ->
  pspec false
    (if decaps_overrun ctx data sk ct_len then fatal
     else
       let! ss := or_fail (pqc_kem_decaps (Some ctx) (Some (sub 4 (Z.to_nat ct_len) data))
                             (Z.to_nat ct_len) (Some sk) (length sk)) in
       let! aes_key := derive_aes_key ss in
       let aes_blob_len := u64 (blen data - 4 - ct_len) in
       if blen data <? 4 + ct_len + aes_blob_len then fatal
       else aes_gcm_decrypt (sub (4 + Z.to_nat ct_len) (Z.to_nat aes_blob_len) data) aes_key)
    (opens n data sk).
Proof.
  intros Hw Hd Hnames ct_len Hle. pose proof (names_laws _ _ _ Hnames) as Hk. assert (Hc : 0 <= ct_len).
  { apply le_val_bound, forallb_forall. intros x Hx. apply in_rev in Hx.
    revert x Hx. apply forallb_forall, wf_bytes_firstn, wf_bytes_skipn, Hw. }
  unfold decaps_overrun.
  destruct (Nat.eqb_spec (Z.to_nat ct_len) (kem_length_ciphertext (oqs_kem ctx))) as [Ect|];
    [|cbn [andb]; apply decaps_refused; auto].
  destruct (Nat.eqb_spec (length sk) (kem_length_secret_key (oqs_kem ctx))) as [Esk|];
    [|cbn [andb]; apply decaps_refused; auto].
  pose proof (kem_sizes _ Hk) as (_ & _ & Hs). unfold u32 in Hle. rewrite Z.mod_small in Hle by lia.
  cbn [andb]. replace (_ <? _) with false by lia. unfold u64. rewrite Z.mod_small by lia.
  destruct (column_parts data Hw) as (ct & blob & E & Hct & Hb & E1 & E2); [subst ct_len; lia|exact Hc|].
  fold ct_len in E, Hct, E1, E2. clearbody ct_len. rewrite E1, E2.
  replace (Z.to_nat ct_len) with (length ct) in * by (unfold blen in Hct; lia).
  eapply spec_bind; [apply decaps_spec; assumption|]. intros ? ->.
  eapply spec_bind; [apply derive_spec|]. intros ? ->. replace (_ <? _) with false by lia.
  intros p Hp. destruct (gcm_decrypt_spec blob (aes_key_of (OQS_KEM_decaps (oqs_kem ctx) ct sk)) p Hp)
    as (o & p' & Hr & Hp' & Hn & Ho). exists o, p'. split; [exact Hr|]. split; [exact Hp'|].
  split; [exact Hn|]. destruct o as [pt| |]; auto.
  destruct Ho as (iv & c & tag & -> & Hiv & Ht & Hok & ->).
  exists alg, (oqs_kem ctx), ct, iv, c, tag. rewrite Hct. auto 9.
Qed.

(** C4: safety.  Whatever bytes, key and algorithm name it is given, and
    however the libraries fail, the decryption of a column reads nothing outside
    the value (the 32-bit sum of its length check may wrap around, and the length
    check of the KEM then refuses the value), and what it returns is the
    plaintext of a value of the documented layout whose authentication tag is
    right under the key derived from what the named ML-KEM algorithm decapsulates
    from the ciphertext in the value with the secret key given. *)
Theorem column_decrypt_sound p data sk n :
  registry_ok p -> wf_bytes data = true -> blen data < 2 ^ 30 ->
  exists o p', pqc_decrypt_column data sk n p = (o, p') /\ o <> Fatal /\
    (forall pt, o = Ok pt -> opens n data sk pt).
Proof.
  intros Hp Hw Hd. assert (Hs : pspec false (pqc_decrypt_column data sk n) (opens n data sk)).
  { unfold pqc_decrypt_column. eapply spec_bind; [apply parse_spells|]. intros alg (Hpos & row & H0 & Hn).
    eapply spec_bind; [apply is_kem_total|]. intros [|] _; [|apply spec_raise; reflexivity].
    cbn [negb]. eapply spec_bind; [apply init_if_needed_spec|]. intros _ _. cbv zeta.
    destruct (_ <? 4); [apply spec_raise; reflexivity|].
    destruct (Z.ltb_spec (blen data) (u32 (4 + be_val (sub 0 4 data) + Z.of_nat AES_GCM_IV_LEN +
      Z.of_nat AES_GCM_TAG_LEN))); [apply spec_raise; reflexivity|].
    eapply spec_bind; [apply kem_new_spec|]. intros ctx (row' & H0' & Ht & Hk).
    apply (decrypt_column_body n alg); auto. rewrite H0 in H0'. injection H0' as <-.
    split; [exact Hpos|]. exists row. auto. }
  destruct (Hs p Hp) as (o & p' & Hr & _ & _ & Ho). exists o, p'. split; [exact Hr|].
  destruct o; [|split; discriminate|contradiction]. split; [discriminate|]. intros ? [= <-]. exact Ho.
Qed.

(** A column value encrypted to the public key of a key pair
    decrypts with its secret key to the data, in any process with an intact
    registry: neither function ends the process, no run of the decryption
    returns other data, and both return a value when no call of a library
    fails. *)
Theorem column_roundtrip p p2 n alg k d data :
  registry_ok p -> registry_ok p2 -> names n alg k -> blen data < 2 ^ 30 ->
  let '(pk, sk) := OQS_KEM_keypair k d in
  exists o p', pqc_encrypt_column data pk n p = (o, p') /\ o <> Fatal /\
    (no_faults (p_env p) -> exists blob, o = Ok blob) /\
    forall blob, o = Ok blob ->
      exists o2 p2', pqc_decrypt_column blob sk n p2 = (o2, p2') /\ o2 <> Fatal /\
        (forall pt, o2 = Ok pt -> pt = data) /\ (no_faults (p_env p2) -> o2 = Ok data).
Proof.
  intros Hp Hp2 Hn Hd. pose proof (names_laws _ _ _ Hn) as Hl.
  destruct (OQS_KEM_keypair k d) as [pk sk] eqn:Hkp.
  pose proof (kem_pk_length k Hl d) as Hpk. pose proof (kem_sk_length k Hl d) as Hsk.
  rewrite Hkp in Hpk, Hsk. cbn [fst snd] in Hpk, Hsk.
  destruct (encrypt_column_spec true n alg k pk data Hn Hpk p Hp) as (o & p' & Hr & _ & Hf & Ho).
  exists o, p'. split; [exact Hr|]. split; [destruct o; [discriminate..|contradiction]|].
  split; [intros H0; apply Hf; auto|]. intros blob ->. destruct Ho as (d' & iv & Ho).
  destruct (OQS_KEM_encaps k pk d') as [ct ss] eqn:Hec. destruct Ho as [Hiv ->].
  pose proof (kem_correct k Hl d d') as Hc. rewrite Hkp, Hec in Hc.
  pose proof (kem_ct_length k Hl pk d') as Hct. rewrite Hec in Hct. cbn [fst] in Hct.
  set (c := gcm_crypt (aes_key_of ss) iv data).
  assert (Hs : pspec true (pqc_decrypt_column (be_bytes 4 (blen ct) ++ ct ++ iv ++ c ++
      AES256_GCM_tag (aes_key_of ss) iv c) sk n) (fun pt => pt = data)).
  { apply (decrypt_column_open _ _ _ _ _ _ _ _ Hn Hct Hsk);
      [subst c; unfold AES_GCM_IV_LEN in Hiv; len_solve| |rewrite Hc; apply gcm_decrypt_sealed; exact Hiv].
    unfold blen in *. subst c. rewrite !length_app, GCM_tag_length, length_gcm_crypt, Hiv.
    unfold AES_GCM_IV_LEN. lia. }
  destruct (Hs p2 Hp2) as (o2 & p2' & Hr2 & _ & Hf2 & Ho2). exists o2, p2'.
  split; [exact Hr2|]. split; [destruct o2; [discriminate..|contradiction]|].
  split; [intros pt ->; exact Ho2|]. intros H0. destruct (proj2 (Hf2 H0) eq_refl) as [pt ->].
  rewrite Ho2. reflexivity.
Qed.
End EnvelopeProperties.

Import Toy.

(** A value whose length prefix makes the 32-bit sum wrap around to 18, and one
    encrypted to the public key of a key pair. *)
Definition wrapping_value : bytes := [255; 255; 255; 242] ++ zeros 40.

Definition sample_column : bytes := Eval vm_compute in
  match pqc_encrypt_column [1; 2; 3] (fst (OQS_KEM_keypair (toy_kem 8 12 10) 7)) "ml-kem-768"
          (pqc_boot env0 None false) with (Ok blob, _) => blob | _ => [] end.

Lemma column_decrypt_sound_witness :
  (u32 (4 + be_val (sub 0 4 wrapping_value) + 12 + 16) = 18 /\
   exists o p', pqc_decrypt_column wrapping_value (zeros 12) "ML-KEM-768"
                  (pqc_boot env0 None false) = (o, p') /\ o <> Fatal) /\
  opens "ML-KEM-768" sample_column (snd (OQS_KEM_keypair (toy_kem 8 12 10) 7)) [1; 2; 3].
Proof.
  split; [split; [reflexivity|]|].
  - destruct (column_decrypt_sound (pqc_boot env0 None false) wrapping_value (zeros 12) "ML-KEM-768")
      as (o & p' & Hr & Hf & _); [reflexivity..|]. eauto.
  - destruct (column_decrypt_sound (pqc_boot env0 None false) sample_column
                (snd (OQS_KEM_keypair (toy_kem 8 12 10) 7)) "ML-KEM-768")
      as (o & p' & Hr & _ & Ho); [reflexivity..|]. apply Ho. apply (f_equal fst) in Hr. change (fst (o, p')) with o in Hr. rewrite <- Hr.
    vm_compute. reflexivity.
Defined.

Lemma column_roundtrip_witness :
  exists blob p', pqc_encrypt_column [1; 2; 3] (fst (OQS_KEM_keypair (toy_kem 8 12 10) 7)) "ml-kem-768"
                    (pqc_boot env0 None false) = (Ok blob, p') /\
    length blob = 45%nat.
Proof.
  pose proof (column_roundtrip (pqc_boot env0 None false) (pqc_boot env0 None false) "ml-kem-768"
                PQC_ALG_ML_KEM_768 (toy_kem 8 12 10) 7 [1; 2; 3]) as H.
  destruct H as (o & p' & Hr & _ & Hn & _); [reflexivity..| |reflexivity|].
  { split; [discriminate|]. eexists. repeat split. }
  destruct Hn as [blob ->]; [reflexivity|]. exists blob, p'. split; [exact Hr|].
  vm_compute in Hr. injection Hr as <- _. reflexivity.
Defined.
