(* ===== verification/AuditLog.v ===== *)
(** * The audit log (contrib/pgcrypto_pqc/pgcrypto_pqc.c)

    Security-relevant statements are recorded in a table whose rows carry an
    Ed25519 and an ML-DSA signature and a SHA-384 hash that includes the hash of
    the row before.  The tables are lists of rows with the sequences of their
    ids; a statement the extension hands to the server either runs as a whole or
    raises an error. *)
From Stdlib Require Import ZArith Lia Bool String Ascii List.
From stdpp Require Import base gmap list strings.
From S2P Require Import Prelude CryptoIface Env Spec KeyCache PqcRegistry PqcKem PqcSig Envelope.
Import ListNotations.
Local Open Scope Z_scope.
Local Open Scope pg_scope.

Definition AUDIT_HASH_LEN : nat := 48.

(** ** The tables *)

(** pqc_audit_keys *)
Record audit_key := mkAuditKey {
  key_id : Z;
  key_purpose : string;
  key_algorithm : string;
  key_public : bytes;
  encrypted_secret_key : bytes;
  created_at : Z;
  is_active : bool
}.

(** pqc_audit_log; [event_detail] is the text of the jsonb value. *)
Record audit_row := mkAuditRow {
  log_id : Z;
  session_id : string;
  user_name : string;
  database_name : string;
  event_type : string;
  event_detail : string;
  classical_sig_alg : string;
  classical_signature : bytes;
  pqc_sig_alg : string;
  pqc_signature : bytes;
  prev_hash : option bytes;
  entry_hash : bytes
}.

(** pqc_escrow_metadata *)
Record escrow_row := mkEscrowRow {
  escrow_name : string;
  escrow_algorithm : string;
  escrow_shares : Z;
  escrow_threshold : Z
}.

(** The tables of the extension with the next value of their sequences, and
    the session that uses them, with the time its transaction started. *)
Record db := mkDb {
  d_keys : list audit_key;
  d_key_seq : Z;
  d_log : list audit_row;
  d_log_seq : Z;
  d_escrow : list escrow_row;
  pqc_audit_enabled : bool;
  pqc_audit_events : option string;
  d_session : string;
  d_user : string;
  d_database : string;
  d_superuser : bool;
  d_now : Z
}.

Definition set_keys (ks : list audit_key) (n : Z) (d : db) : db :=
  mkDb ks n (d_log d) (d_log_seq d) (d_escrow d) (pqc_audit_enabled d) (pqc_audit_events d)
    (d_session d) (d_user d) (d_database d) (d_superuser d) (d_now d).
Definition set_rows (rs : list audit_row) (n : Z) (d : db) : db :=
  mkDb (d_keys d) (d_key_seq d) rs n (d_escrow d) (pqc_audit_enabled d) (pqc_audit_events d)
    (d_session d) (d_user d) (d_database d) (d_superuser d) (d_now d).
Definition set_escrow (es : list escrow_row) (d : db) : db :=
  mkDb (d_keys d) (d_key_seq d) (d_log d) (d_log_seq d) es (pqc_audit_enabled d) (pqc_audit_events d)
    (d_session d) (d_user d) (d_database d) (d_superuser d) (d_now d).

(** A backend: the cryptographic layer of its process and the tables. *)
Abbreviation backend := (pqc * db)%type.

Definition benvL : lens backend env := composeL fstL envL.

(** A statement run through SPI: it runs, or an error is raised. *)
Definition SPI {A} (m : M db A) : M backend A :=
  let! ok := zoom benvL attempt in
  if negb ok then raise ERRCODE_INTERNAL_ERROR else zoom sndL m.

(** [ORDER BY id DESC LIMIT 1] *)
Fixpoint newest {A} (id : A -> Z) (l : list A) : option A :=
  match l with
  | [] => None
  | x :: l' =>
      match newest id l' with
      | Some y => if id x <? id y then Some y else Some x
      | None => Some x
      end
  end.

(** [ORDER BY id] *)
Fixpoint insert_by {A} (id : A -> Z) (x : A) (l : list A) : list A :=
  match l with
  | [] => [x]
  | y :: l' => if id x <=? id y then x :: l else y :: insert_by id x l'
  end.

Definition sort_by {A} (id : A -> Z) (l : list A) : list A := foldr (insert_by id) [] l.

(** The server's conversions to and from jsonb: the text of an object built
    from two strings, and the text of a value after a cast of text to jsonb. *)
Class Jsonb := {
  jsonb_build_object : string -> string -> string;
  jsonb_text : string -> string
}.

(** The text the server prints for a jsonb value is its normal form. *)
Class JsonbLaws `{Jsonb} : Prop :=
  jsonb_normal : forall o q, jsonb_text (jsonb_build_object o q) = jsonb_build_object o q.

(** Memory the code uses without knowing what it holds: what a read through a
    pointer into a context that was deleted returns ([None]: the process ends
    there), what [pfree] of such a pointer does, and what a new allocation
    contains. *)
Class Released := {
  read_released : bytes -> option bytes;
  string_released : string -> option string;
  pfree_released : outcome unit;
  palloced : nat -> bytes
}.

(** A read returns as many bytes as are read. *)
Class ReleasedLaws `{Released} : Prop := {
  read_released_length : forall b c, read_released b = Some c -> length c = length b;
  read_released_wf : forall b c, read_released b = Some c -> wf_bytes c = true;
  palloced_length : forall n, length (palloced n) = n;
  palloced_wf : forall n, wf_bytes (palloced n) = true
}.

Section Audit.
  Context `{Crypto} `{Jsonb}.

(** ** Ed25519 and hashes through OpenSSL *)

Definition ed25519_keygen : M pqc (bytes * bytes) :=
  let! pctx := zoom envL attempt in
  if negb pctx then raise ERRCODE_EXTERNAL_ROUTINE_EXCEPTION
  else
    let! gen := zoom envL (attempts 2) in
    if negb gen then raise ERRCODE_EXTERNAL_ROUTINE_EXCEPTION
    else
      let! d := zoom envL next_draw in
      let! raw := zoom envL (attempts 4) in
      if negb raw then raise ERRCODE_EXTERNAL_ROUTINE_EXCEPTION
      else ret (ED25519_keypair d).

(** OpenSSL loads a raw Ed25519 key of 32 bytes and no other. *)
Definition ed25519_sign (message secret_key : bytes) : M pqc bytes :=
  let! pkey := zoom envL attempt in
  if negb (pkey && (length secret_key =? 32)%nat) then raise ERRCODE_EXTERNAL_ROUTINE_EXCEPTION
  else
    let! mdctx := zoom envL attempt in
    if negb mdctx then raise ERRCODE_OUT_OF_MEMORY
    else
      let! ok := zoom envL (attempts 3) in
      if negb ok then raise ERRCODE_EXTERNAL_ROUTINE_EXCEPTION
      else ret (ED25519_sign secret_key message).

Definition ed25519_verify (message signature public_key : bytes) : M pqc bool :=
  let! pkey := zoom envL attempt in
  if negb (pkey && (length public_key =? 32)%nat) then ret false
  else
    let! ok := zoom envL (attempts 3) in
    ret (ok && ED25519_verify public_key message signature).

Definition compute_sha384 (data : bytes) : M pqc bytes :=
  let! mdctx := zoom envL attempt in
  if negb mdctx then raise ERRCODE_OUT_OF_MEMORY
  else
    let! ok := zoom envL (attempts 3) in
    if negb ok then raise ERRCODE_EXTERNAL_ROUTINE_EXCEPTION else ret (SHA384 data).

(** The bytes an entry hash covers. *)
Definition entry_message (etype detail : string) (classical_sig pqc_sig : bytes)
    (prev : option bytes) : bytes :=
  bytes_of_string etype ++ bytes_of_string detail ++ classical_sig ++ pqc_sig ++
  match prev with Some h => h | None => [] end.

(** [EVP_DigestUpdate] whose result is not checked: when it fails, the bytes
    are not in the digest. *)
Definition digest_update (data : bytes) (acc : bytes) : M pqc bytes :=
  let! ok := zoom envL attempt in
  ret (if ok then acc ++ data else acc).

Definition compute_entry_hash (etype detail : string) (classical_sig pqc_sig : bytes)
    (prev : option bytes) : M pqc bytes :=
  let! mdctx := zoom envL attempt in
  if negb mdctx then raise ERRCODE_OUT_OF_MEMORY
  else
    let! init := zoom envL attempt in
    if negb init then raise ERRCODE_EXTERNAL_ROUTINE_EXCEPTION
    else
      let! acc := digest_update (bytes_of_string etype) [] in
      let! acc := digest_update (bytes_of_string detail) acc in
      let! acc := digest_update classical_sig acc in
      let! acc := digest_update pqc_sig acc in
      let! acc :=
        match prev with
        | Some h => if (0 <? length h)%nat then digest_update h acc else ret acc
        | None => ret acc
        end in
      let! final := zoom envL attempt in
      if negb final then raise ERRCODE_EXTERNAL_ROUTINE_EXCEPTION
      else ret (SHA384 acc).

(** ** Which events are recorded *)

Fixpoint pg_strncasecmp (n : nat) (s1 s2 : string) : Z :=
  match n with
  | O => 0
  | S n' =>
      match s1, s2 with
      | EmptyString, EmptyString => 0
      | EmptyString, String c2 _ => 0 - fold_char c2
      | String c1 _, EmptyString => fold_char c1 - 0
      | String c1 s1', String c2 s2' =>
          if fold_char c1 =? fold_char c2 then pg_strncasecmp n' s1' s2'
          else fold_char c1 - fold_char c2
      end
  end.

Fixpoint skip_separators (p : string) : string :=
  match p with
  | String c p' => if Ascii.eqb c " " || Ascii.eqb c "," then skip_separators p' else p
  | EmptyString => EmptyString
  end.

(** The token up to the next comma, and what follows it. *)
Fixpoint take_token (p : string) : string * string :=
  match p with
  | EmptyString => (EmptyString, EmptyString)
  | String c p' =>
      if Ascii.eqb c "," then (EmptyString, p)
      else let (tok, rest) := take_token p' in (String c tok, rest)
  end.

(** The length of a token without the spaces at its end. *)
Fixpoint trimmed_length (tok : string) : nat :=
  match tok with
  | EmptyString => 0
  | String c tok' =>
      match trimmed_length tok' with
      | O => if Ascii.eqb c " " then 0 else 1
      | S n => S (S n)
      end
  end.

(** The loop over the tokens; the string shortens in each round. *)
Fixpoint events_loop (fuel : nat) (p etype : string) : bool :=
  match fuel with
  | O => false
  | S fuel' =>
      match skip_separators p with
      | EmptyString => false
      | start =>
          let (tok, rest) := take_token start in
          if (trimmed_length tok =? String.length etype)%nat &&
             (pg_strncasecmp (String.length etype) start etype =? 0) then true
          else events_loop fuel' rest etype
      end
  end.

Definition audit_event_is_enabled (events : option string) (etype : string) : bool :=
  match events with
  | None | Some EmptyString => false
  | Some p => events_loop (S (String.length p)) p etype
  end.

(** ** Keys *)

Definition active_key (purpose : string) (k : audit_key) : bool :=
  String.eqb (key_purpose k) purpose && is_active k.

(** Algorithm, public and secret key of the newest active key. *)
Definition load_audit_key (purpose : string) : M backend (option (string * bytes * bytes)) :=
  SPI (gets (fun d =>
    match newest key_id (List.filter (active_key purpose) (d_keys d)) with
    | Some k => Some (key_algorithm k, key_public k, encrypted_secret_key k)
    | None => None
    end)).

Definition deactivate (k : audit_key) : audit_key :=
  mkAuditKey (key_id k) (key_purpose k) (key_algorithm k) (key_public k)
    (encrypted_secret_key k) (created_at k) false.

Definition insert_key (purpose alg : string) (pk sk : bytes) : M db unit :=
  modify (fun d =>
    set_keys (d_keys d ++ [mkAuditKey (d_key_seq d) purpose alg pk sk (d_now d) true]) (d_key_seq d + 1) d).

Definition pqc_audit_init_keys (classical_alg_name pqc_alg_name : string) : M backend unit :=
  if negb (pg_strcasecmp classical_alg_name "Ed25519" =? 0)
  then raise ERRCODE_INVALID_PARAMETER_VALUE
  else
    let! alg := zoom fstL (pqc_algorithm_from_name (Some pqc_alg_name)) in
    let! sig := zoom fstL (pqc_algorithm_is_sig alg) in
    if (PQC_ALG_COUNT <=? alg) || negb sig then raise ERRCODE_INVALID_PARAMETER_VALUE
    else
      do! zoom fstL init_if_needed in
      let! (ed_pk, ed_sk) := zoom fstL ed25519_keygen in
      let! ctx := zoom fstL (pqc_sig_new alg) in
      let! (pqc_pk, pqc_sk) := zoom fstL (or_fail (pqc_sig_keygen (Some ctx))) in
      do! SPI (modify (fun d => set_keys (map deactivate (d_keys d)) (d_key_seq d) d)) in
      do! SPI (insert_key "classical" classical_alg_name ed_pk ed_sk) in
      SPI (insert_key "pqc" pqc_alg_name pqc_pk pqc_sk).

(** ** Recording an event *)

(** The hash of the last row; NULL for an empty table. *)
Definition get_prev_hash : M backend (option bytes) :=
  SPI (gets (fun d => entry_hash <$> newest log_id (d_log d))).

Definition insert_row (etype json calg : string) (csig : bytes) (palg : string) (psig : bytes)
    (prev : option bytes) (hash : bytes) : M db unit :=
  modify (fun d =>
    set_rows (d_log d ++
      [mkAuditRow (d_log_seq d) (d_session d) (d_user d) (d_database d) etype (jsonb_text json)
         calg csig palg psig prev hash]) (d_log_seq d + 1) d).

Definition warning (msg : string) : M backend unit := zoom benvL (elog WARNING msg).

Definition audit_log_ddl_event (etype : string) (object_name query_string : option string)
    : M backend unit :=
  do! zoom fstL init_if_needed in
  let! ck := load_audit_key "classical" in
  match ck with
  | None => warning "pqc_audit: no active classical signing key found, skipping audit"
  | Some (classical_alg, _, classical_sk) =>
      let! pk := load_audit_key "pqc" in
      match pk with
      | None => warning "pqc_audit: no active PQC signing key found, skipping audit"
      | Some (pqc_alg_name, _, pqc_sk) =>
          let! event_json := SPI (ret (jsonb_build_object (default "" object_name)
                                         (default "" query_string))) in
          let! message_hash := zoom fstL (compute_sha384 (bytes_of_string event_json)) in
          let! classical_sig := zoom fstL (ed25519_sign message_hash classical_sk) in
          let! alg := zoom fstL (pqc_algorithm_from_name (Some pqc_alg_name)) in
          if PQC_ALG_COUNT <=? alg then warning "pqc_audit: unknown PQC algorithm, skipping audit"
          else
            let! ctx := zoom fstL (pqc_sig_new alg) in
            let! (_, sig) := zoom fstL (pqc_sig_sign (Some ctx) (Some message_hash) AUDIT_HASH_LEN
                                          (Some pqc_sk) (length pqc_sk)) in
            match sig with
            | None => warning "pqc_audit: PQC signature generation failed, skipping audit"
            | Some pqc_sig =>
                let! prev := get_prev_hash in
                let! hash := zoom fstL (compute_entry_hash etype event_json classical_sig
                                          pqc_sig prev) in
                SPI (insert_row etype event_json classical_alg classical_sig pqc_alg_name
                       pqc_sig prev hash)
            end
      end
  end.

(** The statements the hook looks at; all others are [OtherStmt]. *)
Inductive utility_stmt :=
| CreateRoleStmt (role : string)
| AlterRoleStmt (role : option string)
| DropRoleStmt
| GrantStmt (is_grant : bool)
| GrantRoleStmt (is_grant : bool)
| AlterSystemStmt (setstmt_name : option string)
| OtherStmt.

(** The category that must be enabled, the event type and the object. *)
Definition classify (stmt : utility_stmt) : option (string * string * option string) :=
  match stmt with
  | CreateRoleStmt r => Some ("ddl", "CREATE_ROLE", Some r)
  | AlterRoleStmt r => Some ("ddl", "ALTER_ROLE", r)
  | DropRoleStmt => Some ("ddl", "DROP_ROLE", Some "multiple")
  | GrantStmt g => Some ("grant", if g then "GRANT" else "REVOKE", Some "privileges")
  | GrantRoleStmt g => Some ("grant", if g then "GRANT_ROLE" else "REVOKE_ROLE", Some "role_membership")
  | AlterSystemStmt n => Some ("policy", "ALTER_SYSTEM", n)
  | OtherStmt => None
  end%string.

(** The hook after the statement itself has run. *)
Definition pqc_audit_process_utility (stmt : option utility_stmt) (queryString : string)
    : M backend unit :=
  let! d := gets snd in
  if negb (pqc_audit_enabled d) then ret tt
  else
    match stmt with
    | None => ret tt
    | Some s =>
        match classify s with
        | None => ret tt
        | Some (category, etype, object_name) =>
            if negb (audit_event_is_enabled (pqc_audit_events d) category) then ret tt
            else
              pg_try (audit_log_ddl_event etype object_name (Some queryString))
                (fun _ => warning "pqc_audit: failed to log event")
        end
    end.

(** ** Verification from SQL *)

(** Both checks are made with the keys that are active now. *)
Definition check_classical (msg sig : bytes) (alg_name : string) : M backend bool :=
  let! ck := load_audit_key "classical" in
  match ck with
  | None => ret false
  | Some (_, pub_key, _) =>
      if pg_strcasecmp alg_name "Ed25519" =? 0 then zoom fstL (ed25519_verify msg sig pub_key)
      else ret false
  end.

Definition check_pqc (msg sig : bytes) (alg_name : string) : M backend bool :=
  let! pk := load_audit_key "pqc" in
  match pk with
  | None => ret false
  | Some (_, pub_key, _) =>
      let! alg := zoom fstL (pqc_algorithm_from_name (Some alg_name)) in
      let! is_sig := zoom fstL (pqc_algorithm_is_sig alg) in
      if (alg <? PQC_ALG_COUNT) && is_sig then
        let! ctx := zoom fstL (pqc_sig_new alg) in
        let! st := zoom fstL (pqc_sig_verify (Some ctx) (Some msg) (length msg) sig
                                (Some pub_key) (length pub_key)) in
        ret (match st with PQC_SUCCESS => true | _ => false end)
      else ret false
  end.

Definition pqc_audit_verify (msg classical_sig : bytes) (classical_alg : string)
    (pqc_sig : bytes) (pqc_alg : string) : M backend (bool * bool) :=
  do! zoom fstL init_if_needed in
  let! classical_valid := check_classical msg classical_sig classical_alg in
  let! pqc_valid := check_pqc msg pqc_sig pqc_alg in
  ret (classical_valid, pqc_valid).

Definition verify_row (r : audit_row) : M backend (Z * bool * bool * bool) :=
  let! recomputed_hash := zoom fstL (compute_entry_hash (event_type r) (event_detail r)
                            (classical_signature r) (pqc_signature r) (prev_hash r)) in
  let chain_valid := (length (entry_hash r) =? AUDIT_HASH_LEN)%nat &&
                     bytes_eqb recomputed_hash (entry_hash r) in
  let! message_hash := zoom fstL (compute_sha384 (bytes_of_string (event_detail r))) in
  let! classical_sig_valid := check_classical message_hash (classical_signature r)
                                (classical_sig_alg r) in
  let! pqc_sig_valid := check_pqc message_hash (pqc_signature r) (pqc_sig_alg r) in
  ret (log_id r, chain_valid, classical_sig_valid, pqc_sig_valid).

(** The calls of the set-returning function, one per row. *)
Fixpoint verify_rows (rs : list audit_row) : M backend (list (Z * bool * bool * bool)) :=
  match rs with
  | [] => ret []
  | r :: rs' =>
      let! v := verify_row r in
      let! vs := verify_rows rs' in
      ret (v :: vs)
  end.

Definition in_range (start_id : Z) (end_id : option Z) (r : audit_row) : bool :=
  (start_id <=? log_id r) && match end_id with Some e => log_id r <=? e | None => true end.

Definition pqc_audit_verify_chain (start_id end_id : option Z)
    : M backend (list (Z * bool * bool * bool)) :=
  do! zoom fstL init_if_needed in
  let! rows := SPI (gets (fun d =>
    sort_by log_id (List.filter (in_range (default 1 start_id) end_id) (d_log d)))) in
  verify_rows rows.
End Audit.

(** ** Signing from SQL *)

Section Sign.
  Context `{Crypto} `{Released}.

Definition use_released {A} (r : option A) : M backend A :=
  match r with Some a => ret a | None => fatal end.

Definition free_released : M backend unit := fun s => (pfree_released, s).

(** The keys and the names of their algorithms were allocated inside the SPI
    connection, which is finished before they are used. *)
Definition pqc_audit_sign (msg : bytes) : M backend (bytes * bytes * string * string) :=
  do! zoom fstL init_if_needed in
  let! ck := load_audit_key "classical" in
  match ck with
  | None => raise ERRCODE_OBJECT_NOT_IN_PREREQUISITE_STATE
  | Some (classical_alg, _, classical_sk) =>
      let! pk := load_audit_key "pqc" in
      match pk with
      | None => raise ERRCODE_OBJECT_NOT_IN_PREREQUISITE_STATE
      | Some (pqc_alg_name, _, pqc_sk) =>
          let! classical_sk := use_released (read_released classical_sk) in
          let! classical_sig := zoom fstL (ed25519_sign msg classical_sk) in
          let! pqc_alg_name := use_released (string_released pqc_alg_name) in
          let! alg := zoom fstL (pqc_algorithm_from_name (Some pqc_alg_name)) in
          let! ctx := zoom fstL (pqc_sig_new alg) in
          let! pqc_sk := use_released (read_released pqc_sk) in
          let! (_, sig) := zoom fstL (pqc_sig_sign (Some ctx) (Some msg) (length msg)
                                        (Some pqc_sk) (length pqc_sk)) in
          match sig with
          | None => do! free_released in raise ERRCODE_EXTERNAL_ROUTINE_EXCEPTION
          | Some pqc_sig =>
              let! classical_alg := use_released (string_released classical_alg) in
              do! free_released in
              ret (classical_sig, pqc_sig, classical_alg, pqc_alg_name)
          end
      end
  end.
End Sign.

Arguments ed25519_keygen : simpl never.
Arguments ed25519_sign : simpl never.
Arguments ed25519_verify : simpl never.
Arguments compute_sha384 : simpl never.
Arguments compute_entry_hash : simpl never.
Arguments load_audit_key : simpl never.
Arguments verify_row : simpl never.

(** ** The list of enabled events *)

(** What the parameter means: a list of names separated by commas, with
    spaces around a name ignored, compared without regard to case. *)
Fixpoint split_commas (p : string) : list string :=
  match p with
  | EmptyString => [EmptyString]
  | String c p' =>
      if Ascii.eqb c "," then EmptyString :: split_commas p'
      else match split_commas p' with
           | tok :: l => String c tok :: l
           | [] => [String c EmptyString]
           end
  end.

Fixpoint trim_left (s : string) : string :=
  match s with
  | String c s' => if Ascii.eqb c " " then trim_left s' else s
  | EmptyString => EmptyString
  end.

Fixpoint trim_right (s : string) : string :=
  match s with
  | EmptyString => EmptyString
  | String c s' =>
      match trim_right s' with
      | EmptyString => if Ascii.eqb c " " then EmptyString else String c EmptyString
      | t => String c t
      end
  end.

Definition same_name (etype tok : string) : bool :=
  let name := trim_right (trim_left tok) in
  negb (String.eqb name "") && bytes_eqb (fold_string name) (fold_string etype).

Definition listed (events etype : string) : bool :=
  existsb (same_name etype) (split_commas events).

Lemma take_token_split p tok rest :
  take_token p = (tok, rest) ->
  split_commas p = tok :: match rest with EmptyString => [] | String _ r => split_commas r end /\
  (String.length rest <= String.length p)%nat.
Proof.
  revert tok rest. induction p as [|c p IH]; intros tok rest; cbn.
  - intros [= <- <-]. auto.
  - destruct (Ascii.eqb c ","); [intros [= <- <-]; cbn; auto|].
    destruct (take_token p) as [tk rs] eqn:E. intros [= <- <-].
    destruct (IH tk rs eq_refl) as [-> Hl]. split; [reflexivity|lia].
Qed.

(** What follows a token is empty or starts with a comma. *)
Lemma take_token_rest etype p tok rest :
  take_token p = (tok, rest) -> listed rest etype =
    existsb (same_name etype) (match rest with EmptyString => [] | String _ r => split_commas r end).
Proof.
  revert tok rest. induction p as [|c p IH]; intros tok rest; cbn.
  - intros [= <- <-]. reflexivity.
  - destruct (Ascii.eqb c ",") eqn:Hc; [intros [= <- <-]; unfold listed; cbn; rewrite Hc; reflexivity|].
    destruct (take_token p) as [tk rs] eqn:E. intros [= <- <-]. exact (IH tk rs eq_refl).
Qed.

Lemma skip_separators_listed p etype : listed (skip_separators p) etype = listed p etype.
Proof.
  unfold listed. induction p as [|c p IH]; cbn [skip_separators split_commas]; [reflexivity|].
  destruct (Ascii.eqb_spec c " ") as [->|Hs]; [|destruct (Ascii.eqb_spec c ",") as [->|Hc]].
  - cbn [orb]. rewrite IH. cbn. destruct (split_commas p) as [|tok l] eqn:E; [|reflexivity].
    destruct p as [|c' p']; cbn in E; [discriminate|]. destruct (Ascii.eqb c' ","); [discriminate|].
    destruct (split_commas p'); discriminate.
  - cbn [orb]. rewrite IH. reflexivity.
  - cbn [orb split_commas]. rewrite (proj2 (Ascii.eqb_neq c ",")) by exact Hc. reflexivity.
Qed.

Lemma skip_separators_head p c s :
  skip_separators p = String c s ->
  (c =? " ")%char = false /\ (c =? ",")%char = false /\
  (String.length (String c s) <= String.length p)%nat.
Proof.
  induction p as [|c' p IH]; cbn [skip_separators]; [discriminate|].
  destruct ((c' =? " ")%char || (c' =? ",")%char) eqn:E.
  - intros Hs. destruct (IH Hs) as (? & ? & ?). cbn in *. auto with lia.
  - intros [= -> ->]. apply orb_false_iff in E as [-> ->]. auto.
Qed.

Lemma trim_right_length s : String.length (trim_right s) = trimmed_length s.
Proof.
  induction s as [|c s IH]; cbn; [reflexivity|]. rewrite <- IH.
  destruct (trim_right s); cbn; [destruct (Ascii.eqb c " ")|]; reflexivity.
Qed.

Lemma take_token_append p tok rest : take_token p = (tok, rest) -> p = (tok ++ rest)%string.
Proof.
  revert tok rest. induction p as [|c p IH]; intros tok rest; cbn.
  - intros [= <- <-]. reflexivity.
  - destruct (Ascii.eqb c ","); [intros [= <- <-]; reflexivity|].
    destruct (take_token p) as [tk rs] eqn:E. intros [= <- <-]. cbn.
    rewrite (IH tk rs eq_refl) at 1. reflexivity.
Qed.

Lemma trim_right_cons c s n :
  trimmed_length (String c s) = S n ->
  trimmed_length s = n /\ trim_right (String c s) = String c (trim_right s).
Proof.
  cbn. pose proof (trim_right_length s) as Hl. destruct (trimmed_length s) as [|m].
  - destruct (trim_right s); [|discriminate]. destruct (Ascii.eqb c " "); [discriminate|].
    intros [= <-]. auto.
  - intros [= <-]. destruct (trim_right s); [discriminate|]. auto.
Qed.

Lemma strncasecmp_token tok rest etype :
  trimmed_length tok = String.length etype ->
  (pg_strncasecmp (String.length etype) (tok ++ rest) etype =? 0) =
    bytes_eqb (fold_string (trim_right tok)) (fold_string etype).
Proof.
  revert tok. induction etype as [|c etype IH]; intros tok Hl.
  - cbn in *. rewrite <- trim_right_length in Hl. destruct (trim_right tok); [reflexivity|discriminate].
  - destruct tok as [|c1 tok]; [discriminate|].
    destruct (trim_right_cons c1 tok _ Hl) as [Hl' ->].
    change (String c1 tok ++ rest)%string with (String c1 (tok ++ rest)). cbn.
    destruct (Z.eqb_spec (fold_char c1) (fold_char c)); [apply IH, Hl'|]. cbn. lia.
Qed.

Lemma same_name_token c s tok rest etype :
  (c =? " ")%char = false -> (c =? ",")%char = false -> take_token (String c s) = (tok, rest) ->
  (trimmed_length tok =? String.length etype)%nat &&
    (pg_strncasecmp (String.length etype) (String c s) etype =? 0) = same_name etype tok.
Proof.
  intros Hs Hc Ht. rewrite (take_token_append _ _ _ Ht). cbn in Ht. rewrite Hc in Ht.
  destruct (take_token s) as [tk rs]. injection Ht as <- <-.
  unfold same_name. cbn [trim_left]. rewrite Hs.
  assert (E : trim_right (String c tk) = String c (trim_right tk)).
  { cbn. rewrite Hs. destruct (trim_right tk); reflexivity. }
  destruct (Nat.eqb_spec (trimmed_length (String c tk)) (String.length etype)) as [Hl|Hl].
  - rewrite strncasecmp_token by exact Hl. rewrite E. reflexivity.
  - symmetry. apply andb_false_iff. right. apply not_true_iff_false. rewrite bytes_eqb_eq.
    intros Heq. apply Hl. rewrite <- trim_right_length.
    assert (Hlen : forall x, length (fold_string x) = String.length x)
      by (induction x; cbn; congruence).
    rewrite <- !Hlen, Heq. reflexivity.
Qed.

(** The scanner of pqc_audit.events decides membership in the
    list of names the parameter spells: an event category is enabled exactly
    when one of the comma-separated names, without the spaces around it, is it
    up to case; empty names never match, and the scan always ends. *)
Theorem audit_event_enabled_iff events etype :
  audit_event_is_enabled events etype =
    match events with Some p => listed p etype | None => false end.
Proof.
  assert (Hloop : forall fuel p, (String.length p < fuel)%nat ->
    events_loop fuel p etype = listed p etype).
  { induction fuel as [|fuel IH]; intros p Hf; [lia|]. cbn [events_loop].
    rewrite <- skip_separators_listed. destruct (skip_separators p) as [|c s] eqn:Hs; [reflexivity|].
    destruct (skip_separators_head p c s Hs) as (Hc1 & Hc2 & Hl).
    destruct (take_token (String c s)) as [tok rest] eqn:Ht.
    rewrite (same_name_token c s tok rest etype Hc1 Hc2 Ht).
    unfold listed at 1. rewrite (proj1 (take_token_split _ _ _ Ht)). cbn [existsb].
    destruct (same_name etype tok); [reflexivity|]. cbn [orb].
    rewrite <- (take_token_rest etype _ _ _ Ht). apply IH.
    cbn in Ht. rewrite Hc2 in Ht.
    destruct (take_token s) as [tk rs] eqn:Es. injection Ht as <- <-.
    pose proof (proj2 (take_token_split _ _ _ Es)). cbn in Hl. lia. }
  destruct events as [[|c p]|]; [reflexivity| |reflexivity].
  apply Hloop. lia.
Qed.
