(* ===== verification/AuditChain.v ===== *)
(** * The hash chain of the audit log

    What the log of AuditLog.v is worth: rows written by the hook verify, rows
    are linked, and what the verification does not see. *)
From Stdlib Require Import ZArith Lia Bool String Ascii List Sorted.
From stdpp Require Import base gmap list strings.
From S2P Require Import Prelude CryptoIface Env Spec KeyCache PqcRegistry PqcKem PqcSig Envelope AuditLog.
Import ListNotations.
Local Open Scope Z_scope.
Local Open Scope pg_scope.

(** ** Specifications of backends

    The registry is intact and the tables are [d]. *)
Definition tables (d : db) (s : backend) : Prop := registry_ok (fst s) /\ snd s = d.

#[export] Instance benvL_laws : LensLaws benvL.
Proof. apply composeL_laws; apply _. Qed.

#[export] Instance tables_stable d : Stable benvL (tables d).
Proof. intros e [p d'] [Hp Hd]. split; [exact Hp|exact Hd]. Qed.

Abbreviation bspec d := (spec benvL (tables d)).
Abbreviation bcalm d := (calm benvL (tables d)).

Lemma tables_pqc d s p : tables d s -> registry_ok p -> tables d (over fstL p s).
Proof. intros [_ Hd] Hp. split; [exact Hp|exact Hd]. Qed.

Lemma bspec_pqc {A} d t (m : M pqc A) Q : pspec t m Q -> bspec d t (zoom fstL m) Q.
Proof.
  apply spec_zoom; [apply _|intros p s Hs Hp; apply tables_pqc; assumption|intros s [Hp _]; exact Hp].
Qed.

Lemma bcalm_pqc {A} d (m : M pqc A) Q : calm envL registry_ok m Q -> bcalm d (zoom fstL m) Q.
Proof.
  apply calm_zoom; [apply _|intros p s Hs Hp; apply tables_pqc; assumption|intros s [Hp _]; exact Hp].
Qed.

Lemma bspec_read {A} d t (f : db -> A) : bspec d t (SPI (gets f)) (fun a => a = f d).
Proof.
  unfold SPI. spec_calls. apply spec_pure. intros [p d'] [Hp Hd]. cbn in Hd. subst d'.
  eexists. split; reflexivity.
Qed.

Section Calls.
  Context `{CL : CryptoLaws}.

Lemma sha384_spec t m : pspec t (compute_sha384 m) (fun h => h = SHA384 m).
Proof. unfold compute_sha384. spec_calls. apply spec_ret. reflexivity. Qed.

Lemma ed25519_sign_spec t m sk :
  length sk = 32%nat -> pspec t (ed25519_sign m sk) (fun s => s = ED25519_sign sk m).
Proof.
  intros Hl. unfold ed25519_sign. refine (spec_attempt_and _ _ _ _ _ _ _ _ _);
    [apply Nat.eqb_eq, Hl|]. spec_calls. apply spec_ret. reflexivity.
Qed.

(** Whatever the key, a signature that is returned is one by that key. *)
Lemma ed25519_sign_any m sk : pspec false (ed25519_sign m sk) (fun s => s = ED25519_sign sk m).
Proof.
  destruct (Nat.eqb_spec (length sk) 32) as [Hl|Hl]; [apply ed25519_sign_spec, Hl|].
  unfold ed25519_sign. eapply spec_bind; [apply (spec_answer envL registry_ok)|]. intros b _.
  apply Nat.eqb_neq in Hl. rewrite Hl, andb_false_r. apply spec_raise. reflexivity.
Qed.

Lemma ed25519_verify_calm m s pk :
  calm envL registry_ok (ed25519_verify m s pk)
    (fun b => b = (length pk =? 32)%nat && ED25519_verify pk m s).
Proof.
  unfold ed25519_verify. eapply calm_bind; [apply (calm_attempt envL registry_ok)|]. intros ? ->.
  cbn [andb]. destruct (length pk =? 32)%nat; cbn [negb andb]; [|apply calm_ret; reflexivity].
  eapply calm_bind; [apply (calm_attempts envL registry_ok)|]. intros ? ->. apply calm_ret. reflexivity.
Qed.

Lemma digest_update_calm data acc :
  calm envL registry_ok (digest_update data acc) (fun r => r = acc ++ data).
Proof.
  unfold digest_update. eapply calm_bind; [apply (calm_attempt envL registry_ok)|]. intros ? ->.
  apply calm_ret. reflexivity.
Qed.

Lemma digest_update_spec t data acc : pspec t (digest_update data acc) (fun _ => True).
Proof.
  unfold digest_update. eapply spec_bind; [apply (spec_answer envL registry_ok)|]. intros b _.
  apply spec_ret. exact I.
Qed.

Lemma entry_hash_spec t e dt c s pr :
  pspec t (compute_entry_hash e dt c s pr) (fun h => length h = AUDIT_HASH_LEN).
Proof.
  unfold compute_entry_hash. spec_calls. do 4 (eapply spec_bind; [apply digest_update_spec|]; intros ? _).
  eapply (spec_bind _ _ _ _ _ (fun _ => True)).
  - destruct pr as [h|]; [destruct (0 <? length h)%nat; [apply digest_update_spec|]|];
      apply spec_ret; exact I.
  - intros acc _. spec_calls. apply spec_ret. apply SHA384_length.
Qed.

Lemma entry_hash_calm e dt c s pr :
  calm envL registry_ok (compute_entry_hash e dt c s pr)
    (fun h => h = SHA384 (entry_message e dt c s pr)).
Proof.
  unfold compute_entry_hash. do 2 (eapply calm_bind; [apply (calm_attempt envL registry_ok)|];
    intros ? ->; cbn [negb]).
  do 4 (eapply calm_bind; [apply digest_update_calm|]; intros ? ->).
  eapply (calm_bind _ _ _ _ (fun a => a = entry_message e dt c s pr)).
  - unfold entry_message. rewrite app_nil_l, <- !app_assoc.
    destruct pr as [[|x h]|]; cbn [length Nat.ltb Nat.leb];
      [apply calm_ret; rewrite app_nil_r; reflexivity| |apply calm_ret; rewrite app_nil_r; reflexivity].
    intros p Hp Hn. destruct (digest_update_calm (x :: h)
      (bytes_of_string e ++ bytes_of_string dt ++ c ++ s) p Hp Hn) as (a & p' & Hr & Hp' & Hn' & ->).
    exists (bytes_of_string e ++ bytes_of_string dt ++ c ++ s ++ x :: h), p'.
    rewrite <- !app_assoc in Hr. auto.
  - intros ? ->. eapply calm_bind; [apply (calm_attempt envL registry_ok)|]. intros ? ->.
    apply calm_ret. reflexivity.
Qed.
End Calls.

(** ** Signature algorithms *)

Section SigCalls.
  Context `{CL : CryptoLaws}.

(** [n] spells the name of the signature algorithm [alg] that liboqs
    implements as [g]. *)
Definition sig_names (n : string) (alg : PqcAlgorithm) (g : OQS_SIG) : Prop :=
  0 <= alg /\ exists row, pqc_algorithms_static !! Z.to_nat alg = Some row /\
    type row = PQC_TYPE_SIG /\ pg_strcasecmp (name row) n = 0 /\ OQS_SIG_new (oqs_name row) = Some g.

Lemma sig_names_laws n alg g : sig_names n alg g -> sig_laws g.
Proof.
  intros (_ & row & H0 & Ht & _ & Hk). apply (SIG_laws (oqs_name row)); [|exact Hk].
  pose proof (static_oqs_name _ _ H0) as Hin. rewrite Ht in Hin. exact Hin.
Qed.

Lemma sig_from_name t n alg g :
  sig_names n alg g ->
  pspec t (pqc_algorithm_from_name (Some n)) (fun a => a = alg /\ alg < PQC_ALG_COUNT).
Proof. intros (Hpos & row & H0 & _ & Hn & _). apply (from_name_spec _ _ _ _ Hpos H0 Hn). Qed.

Lemma is_sig_named t n alg g :
  sig_names n alg g -> pspec t (pqc_algorithm_is_sig alg) (fun b => b = true).
Proof.
  intros (Hpos & row0 & H0 & Ht & _ & _). apply spec_pure. intros p Hp. exists true.
  split; [|reflexivity]. destruct (registry_get p alg row0 Hp Hpos H0) as (row & Hg & Hid).
  injection Hid as _ _ _ Hty _. unfold pqc_algorithm_is_sig. mrun Hg. cbn.
  rewrite bool_decide_eq_true_2 by congruence. reflexivity.
Qed.

Lemma sig_new_named t n alg g :
  sig_names n alg g -> pspec t (pqc_sig_new alg) (fun ctx => ctx = mkSigContext g alg).
Proof.
  intros (Hpos & row0 & H0 & Ht & _ & Hk) p Hp.
  destruct (pqc_sig_new_run p alg row0 g Hp Hpos H0 Ht Hk) as (p' & Hr & [l Hl] & _ & Hok & _).
  exists (Ok (mkSigContext g alg)), p'. repeat split; eauto. cbn. rewrite Hl. exact H1.
Qed.

Lemma sig_new_any alg : pspec false (pqc_sig_new alg) (fun _ => True).
Proof.
  intros p Hp. destruct (get_info_total alg p) as [[row|] Hg]; unfold pqc_sig_new; mrun Hg.
  2:{ exact (spec_raise envL _ false _ _ eq_refl p Hp). }
  destruct (is_type PQC_TYPE_SIG (Some row)); cbn [negb];
    [|exact (spec_raise envL _ false _ _ eq_refl p Hp)].
  revert p Hp Hg. assert (Hs : pspec false (do! ensure_pqc_init in
    match OQS_SIG_new (oqs_name row) with
    | None => raise ERRCODE_EXTERNAL_ROUTINE_EXCEPTION
    | Some g => ret (mkSigContext g alg)
    end) (fun _ => True)); [|intros p Hp _; exact (Hs p Hp)].
  eapply spec_bind; [apply inited_spec, ensure_pqc_init_run|]. intros _ _.
  destruct (OQS_SIG_new (oqs_name row)); [apply spec_ret; exact I|apply spec_raise; reflexivity].
Qed.

Lemma same_keys_ok p p' : same_keys p p' -> registry_ok p -> registry_ok p'.
Proof. intros (_ & Ha & _). unfold registry_ok. rewrite Ha. auto. Qed.

Lemma sign_spec t ctx m sk :
  length sk = sig_length_secret_key (oqs_sig ctx) ->
  pspec t (pqc_sig_sign (Some ctx) (Some m) (length m) (Some sk) (length sk))
    (fun r => snd r = None \/ exists d, snd r = Some (OQS_SIG_sign (oqs_sig ctx) m sk d)).
Proof.
  intros Hl p Hp. destruct (sign_run ctx m sk p Hl) as (r & p' & Hr & Hc & Hk & Hn).
  exists (Ok r), p'. split; [exact Hr|]. split; [apply (same_keys_ok p), Hp; exact Hk|].
  split; [intros Hf; split; [apply Hn, Hf|eauto]|]. destruct Hc as [->|[d ->]]; eauto.
Qed.

Lemma sign_calm ctx m sk :
  length sk = sig_length_secret_key (oqs_sig ctx) ->
  calm envL registry_ok (pqc_sig_sign (Some ctx) (Some m) (length m) (Some sk) (length sk))
    (fun r => exists d, snd r = Some (OQS_SIG_sign (oqs_sig ctx) m sk d)).
Proof.
  intros Hl p Hp Hf. destruct (sign_run ctx m sk p Hl) as (r & p' & Hr & Hc & Hk & Hn).
  destruct (Hn Hf) as [Hn' Hs]. exists r, p'. split; [exact Hr|].
  split; [apply (same_keys_ok p), Hp; exact Hk|].
  split; [exact Hn'|]. destruct Hc as [->|[d ->]]; [contradiction|eauto].
Qed.

Lemma verify_spec t ctx m sg pk :
  length pk = sig_length_public_key (oqs_sig ctx) ->
  pspec t (pqc_sig_verify (Some ctx) (Some m) (length m) sg (Some pk) (length pk))
    (fun st => st = if OQS_SIG_verify (oqs_sig ctx) m sg pk then PQC_SUCCESS else PQC_ERROR_CRYPTO_FAILURE).
Proof.
  intros Hl p Hp. destruct (verify_run ctx m sg pk p Hl) as (p' & Hr & Hk & He).
  eexists _, p'. split; [exact Hr|]. split; [apply (same_keys_ok p), Hp; exact Hk|].
  split; [cbn; rewrite He; eauto|reflexivity].
Qed.
End SigCalls.

(** ** One event *)

Section Event.
  Context `{CL : CryptoLaws} `{JL : JsonbLaws}.

(** The key a purpose has in the tables. *)
Definition current (purpose : string) (d : db) : option (string * bytes * bytes) :=
  match newest key_id (List.filter (active_key purpose) (d_keys d)) with
  | Some k => Some (key_algorithm k, key_public k, encrypted_secret_key k)
  | None => None
  end.

Lemma load_spec d t purpose : bspec d t (load_audit_key purpose) (fun r => r = current purpose d).
Proof. apply (bspec_read d t (current purpose)). Qed.

(** A pair of key pairs of the two schemes. *)
Record keyring := mkKeyring {
  kr_calg : string; kr_cpk : bytes; kr_csk : bytes;
  kr_palg : string; kr_ppk : bytes; kr_psk : bytes;
  kr_sig : OQS_SIG
}.

Record holds_keys (d : db) (k : keyring) : Prop := {
  hk_classical : current "classical" d = Some (kr_calg k, kr_cpk k, kr_csk k);
  hk_pqc : current "pqc" d = Some (kr_palg k, kr_ppk k, kr_psk k);
  hk_calg : pg_strcasecmp (kr_calg k) "Ed25519" = 0;
  hk_ed : exists n, ED25519_keypair n = (kr_cpk k, kr_csk k);
  hk_palg : exists alg, sig_names (kr_palg k) alg (kr_sig k);
  hk_oqs : exists n, OQS_SIG_keypair (kr_sig k) n = (kr_ppk k, kr_psk k)
}.

Lemma ed_lengths k : (exists n, ED25519_keypair n = (kr_cpk k, kr_csk k)) ->
  length (kr_cpk k) = 32%nat /\ length (kr_csk k) = 32%nat.
Proof.
  intros [n Hn]. pose proof (ED25519_pk_length n). pose proof (ED25519_sk_length n).
  rewrite Hn in *. auto.
Qed.

Lemma oqs_lengths d k : holds_keys d k ->
  length (kr_ppk k) = sig_length_public_key (kr_sig k) /\
  length (kr_psk k) = sig_length_secret_key (kr_sig k).
Proof.
  intros Hk. destruct (hk_oqs _ _ Hk) as [n Hn]. destruct (hk_palg _ _ Hk) as [alg Ha].
  pose proof (sig_names_laws _ _ _ Ha) as Hl.
  pose proof (sig_pk_length _ Hl n). pose proof (sig_sk_length _ Hl n). rewrite Hn in *. auto.
Qed.

Definition append_row (r : audit_row) (d : db) : db :=
  set_rows (d_log d ++ [r]) (d_log_seq d + 1) d.

(** What both signatures of a row are over. *)
Definition digest_of (r : audit_row) : bytes := SHA384 (bytes_of_string (event_detail r)).

Definition row_message (r : audit_row) : bytes :=
  entry_message (event_type r) (event_detail r) (classical_signature r) (pqc_signature r) (prev_hash r).

(** A row both keys have signed, and a row whose hash is right. *)
Record signed_row (k : keyring) (r : audit_row) : Prop := {
  sr_calg : classical_sig_alg r = kr_calg k;
  sr_csig : classical_signature r = ED25519_sign (kr_csk k) (digest_of r);
  sr_palg : pqc_sig_alg r = kr_palg k;
  sr_psig : exists n, pqc_signature r = OQS_SIG_sign (kr_sig k) (digest_of r) (kr_psk k) n
}.

Definition hashed_row (r : audit_row) : Prop := entry_hash r = SHA384 (row_message r).

(** The row an event adds to the tables [d]. *)
Definition next_row (d : db) (etype json : string) (r : audit_row) : Prop :=
  log_id r = d_log_seq d /\ event_type r = etype /\ event_detail r = json /\
  user_name r = d_user d /\ prev_hash r = entry_hash <$> newest log_id (d_log d) /\
  length (entry_hash r) = AUDIT_HASH_LEN.

Definition event_json (object_name query_string : option string) : string :=
  jsonb_build_object (default "" object_name) (default "" query_string).

Lemma insert_row_run d etype json calg csig palg psig prev hash s :
  tables d s ->
  zoom sndL (insert_row etype json calg csig palg psig prev hash) s =
    (Ok tt, (fst s, append_row (mkAuditRow (d_log_seq d) (d_session d) (d_user d) (d_database d)
       etype (jsonb_text json) calg csig palg psig prev hash) d)).
Proof. intros [_ <-]. reflexivity. Qed.

Lemma insert_spec d etype calg csig palg psig hash json :
  let r := mkAuditRow (d_log_seq d) (d_session d) (d_user d) (d_database d)
             etype (jsonb_text json) calg csig palg psig (entry_hash <$> newest log_id (d_log d)) hash in
  reaches benvL (tables d)
    (SPI (insert_row etype json calg csig palg psig (entry_hash <$> newest log_id (d_log d)) hash))
    (fun _ s => tables (append_row r d) s /\ no_faults (view benvL s)).
Proof.
  intros r. unfold SPI. eapply reaches_bind; [apply (calm_attempt benvL (tables d))|]. intros ? ->.
  cbn [negb]. intros s Hs Hn. rewrite (insert_row_run d) by exact Hs.
  do 2 eexists. split; [reflexivity|]. split; [split; [apply Hs|reflexivity]|exact Hn].
Qed.

Lemma sha384_len m : AUDIT_HASH_LEN = length (SHA384 m).
Proof. symmetry. apply SHA384_length. Qed.

(** With keys in the tables and no failure, the event becomes a row. *)
Lemma event_recorded d k etype o q :
  holds_keys d k ->
  reaches benvL (tables d) (audit_log_ddl_event etype o q)
    (fun _ s => exists r, tables (append_row r d) s /\ no_faults (view benvL s) /\
       next_row d etype (event_json o q) r /\ signed_row k r /\ hashed_row r).
Proof.
  intros Hk. destruct (ed_lengths k (hk_ed _ _ Hk)) as [_ Hcsk].
  destruct (oqs_lengths d k Hk) as [_ Hpsk]. destruct (hk_palg _ _ Hk) as [alg Ha].
  unfold audit_log_ddl_event. eapply reaches_bind; [apply bcalm_pqc, calm_spec, init_if_needed_spec|]. intros _ _.
  eapply reaches_bind; [apply calm_spec, load_spec|]. intros ? ->. rewrite (hk_classical _ _ Hk).
  eapply reaches_bind; [apply calm_spec, load_spec|]. intros ? ->. rewrite (hk_pqc _ _ Hk).
  eapply reaches_bind; [apply calm_spec, (bspec_read d true (fun _ => event_json o q))|]. intros ? ->.
  eapply reaches_bind; [apply bcalm_pqc, calm_spec, sha384_spec|]. intros ? ->.
  eapply reaches_bind; [apply bcalm_pqc, calm_spec, ed25519_sign_spec, Hcsk|]. intros ? ->.
  eapply reaches_bind; [apply bcalm_pqc, calm_spec, (sig_from_name _ _ _ _ Ha)|]. intros ? [-> Hlt].
  replace (PQC_ALG_COUNT <=? alg) with false by lia.
  eapply reaches_bind; [apply bcalm_pqc, calm_spec, (sig_new_named _ _ _ _ Ha)|]. intros ? ->.
  rewrite (sha384_len (bytes_of_string (event_json o q))).
  eapply reaches_bind; [apply bcalm_pqc, sign_calm, Hpsk|]. intros [st sg] [dr Hsg]. cbn in Hsg. subst sg.
  eapply reaches_bind; [apply calm_spec, (bspec_read d true (fun d => entry_hash <$> newest log_id (d_log d)))|].
  intros ? ->. eapply reaches_bind; [apply bcalm_pqc, entry_hash_calm|]. intros ? ->.
  intros s Hs Hn. edestruct (insert_spec d etype) as (u & s' & Hr & Ht & Hn'); [exact Hs|exact Hn|].
  exists u, s'. split; [exact Hr|]. cbv zeta in Ht.
  rewrite (jsonb_normal _ _ : jsonb_text (event_json o q) = event_json o q) in Ht.
  eexists. split; [exact Ht|]. split; [exact Hn'|].
  split; [repeat split; apply SHA384_length|]. split; [|reflexivity]. split; cbn; eauto.
Qed.
End Event.

(** ** Verification *)

Section Verify.
  Context `{CL : CryptoLaws} `{JL : JsonbLaws}.

Definition genuine_row (k : keyring) (r : audit_row) : Prop :=
  signed_row k r /\ hashed_row r /\ length (entry_hash r) = AUDIT_HASH_LEN.

(** What the checks of a row answer: its hash, and both signatures under the
    keys that are current in the tables. *)
Definition verdict (k : keyring) (r : audit_row) : Z * bool * bool * bool :=
  (log_id r,
   (length (entry_hash r) =? AUDIT_HASH_LEN)%nat && bytes_eqb (SHA384 (row_message r)) (entry_hash r),
   ED25519_verify (kr_cpk k) (digest_of r) (classical_signature r),
   OQS_SIG_verify (kr_sig k) (digest_of r) (pqc_signature r) (kr_ppk k)).

Definition same_algorithms (k : keyring) (r : audit_row) : Prop :=
  pg_strcasecmp (classical_sig_alg r) "Ed25519" = 0 /\ pqc_sig_alg r = kr_palg k.

Lemma check_classical_calm d k m sg alg :
  holds_keys d k -> pg_strcasecmp alg "Ed25519" = 0 ->
  bcalm d (check_classical m sg alg) (fun b => b = ED25519_verify (kr_cpk k) m sg).
Proof.
  intros Hk Hal. destruct (ed_lengths k (hk_ed _ _ Hk)) as [Hcpk _]. unfold check_classical.
  eapply calm_bind; [apply calm_spec, load_spec|]. intros ? ->. rewrite (hk_classical _ _ Hk), Hal.
  apply bcalm_pqc. intros p Hp Hn. destruct (ed25519_verify_calm m sg (kr_cpk k) p Hp Hn)
    as (b & p' & Hr & Hp' & Hn' & ->). rewrite Hcpk in *. eauto 6.
Qed.

Lemma check_pqc_calm d k m sg :
  holds_keys d k ->
  bcalm d (check_pqc m sg (kr_palg k)) (fun b => b = OQS_SIG_verify (kr_sig k) m sg (kr_ppk k)).
Proof.
  intros Hk. destruct (oqs_lengths d k Hk) as [Hppk _]. destruct (hk_palg _ _ Hk) as [alg Ha].
  unfold check_pqc. eapply calm_bind; [apply calm_spec, load_spec|]. intros ? ->. rewrite (hk_pqc _ _ Hk).
  eapply calm_bind; [apply bcalm_pqc, calm_spec, (sig_from_name _ _ _ _ Ha)|]. intros ? [-> Hlt].
  eapply calm_bind; [apply bcalm_pqc, calm_spec, (is_sig_named _ _ _ _ Ha)|]. intros ? ->.
  replace (alg <? PQC_ALG_COUNT) with true by lia. cbn [andb].
  eapply calm_bind; [apply bcalm_pqc, calm_spec, (sig_new_named _ _ _ _ Ha)|]. intros ? ->.
  eapply calm_bind; [apply bcalm_pqc, calm_spec, verify_spec, Hppk|]. intros ? ->. cbn [oqs_sig].
  apply calm_ret. destruct (OQS_SIG_verify _ _ _ _); reflexivity.
Qed.

Lemma verify_row_calm d k r :
  holds_keys d k -> same_algorithms k r -> bcalm d (verify_row r) (fun v => v = verdict k r).
Proof.
  intros Hk [Hca Hpa]. unfold verify_row.
  eapply calm_bind; [apply bcalm_pqc, entry_hash_calm|]. intros ? ->.
  eapply calm_bind; [apply bcalm_pqc, calm_spec, sha384_spec|]. intros ? ->.
  eapply calm_bind; [apply (check_classical_calm d k); assumption|]. intros ? ->. rewrite Hpa.
  eapply calm_bind; [apply (check_pqc_calm d k); assumption|]. intros ? ->. apply calm_ret. reflexivity.
Qed.

Lemma verify_rows_calm d k rs :
  holds_keys d k -> Forall (same_algorithms k) rs ->
  bcalm d (verify_rows rs) (fun vs => vs = map (verdict k) rs).
Proof.
  intros Hk. induction rs as [|r rs IH]; intros Hg; cbn [verify_rows]; [apply calm_ret; reflexivity|].
  apply Forall_cons in Hg as [Hr Hg]. eapply calm_bind; [apply (verify_row_calm d k); assumption|].
  intros ? ->. eapply calm_bind; [apply IH; assumption|]. intros ? ->. apply calm_ret. reflexivity.
Qed.

Definition all_valid (r : audit_row) : Z * bool * bool * bool := (log_id r, true, true, true).

(** Genuine rows are valid under the keys that signed them. *)
Lemma genuine_valid d k r : holds_keys d k -> genuine_row k r -> verdict k r = all_valid r.
Proof.
  intros Hk (Hs & Hh & Hl). unfold verdict, all_valid. rewrite <- Hh, Hl, Nat.eqb_refl, bytes_eqb_refl.
  destruct (hk_ed _ _ Hk) as [n Hn]. pose proof (ED25519_correct n (digest_of r)) as Hc.
  rewrite Hn in Hc. cbn in Hc. rewrite (sr_csig _ _ Hs), Hc.
  destruct (sr_psig _ _ Hs) as [m ->]. destruct (hk_oqs _ _ Hk) as [n' Hn']. destruct (hk_palg _ _ Hk) as [alg Ha].
  pose proof (sig_correct _ (sig_names_laws _ _ _ Ha) (digest_of r) n' m) as Hc'. rewrite Hn' in Hc'.
  rewrite Hc'. reflexivity.
Qed.

Lemma genuine_algorithms d k r : holds_keys d k -> genuine_row k r -> same_algorithms k r.
Proof. intros Hk [Hs _]. split; [rewrite (sr_calg _ _ Hs); apply (hk_calg _ _ Hk)|apply (sr_palg _ _ Hs)]. Qed.

(** ** Ids *)

(** The rows are in the order of their ids, and the sequence is past them. *)
Definition log_ok (d : db) : Prop :=
  StronglySorted Z.lt (map log_id (d_log d)) /\ Forall (fun r => log_id r < d_log_seq d) (d_log d).

Lemma filter_all {A} (f : A -> bool) l : Forall (fun x => f x = true) l -> List.filter f l = l.
Proof. induction 1 as [|x l Hx _ IH]; cbn; [reflexivity|]. rewrite Hx, IH. reflexivity. Qed.

Lemma filter_none {A} (f : A -> bool) l : Forall (fun x => f x = false) l -> List.filter f l = [].
Proof. induction 1 as [|x l Hx _ IH]; cbn; [reflexivity|]. rewrite Hx. exact IH. Qed.

Lemma sort_by_sorted (rs : list audit_row) :
  StronglySorted Z.lt (map log_id rs) -> sort_by log_id rs = rs.
Proof.
  induction rs as [|r rs IH]; intros Hs; [reflexivity|]. cbn in Hs. apply StronglySorted_inv in Hs as [Hs Hf].
  cbn. change (foldr (insert_by log_id) [] rs) with (sort_by log_id rs). rewrite IH by assumption.
  destruct rs as [|r' rs]; [reflexivity|]. cbn. apply Forall_inv in Hf.
  replace (log_id r <=? log_id r') with true by lia. reflexivity.
Qed.

Lemma filter_sorted (f : audit_row -> bool) rs :
  StronglySorted Z.lt (map log_id rs) -> StronglySorted Z.lt (map log_id (List.filter f rs)).
Proof.
  induction rs as [|r rs IH]; intros Hs; [constructor|]. cbn in Hs. apply StronglySorted_inv in Hs as [Hs Hf].
  cbn. destruct (f r); [|auto]. cbn. constructor; [auto|].
  rewrite Forall_forall in *. intros x Hx. apply Hf. apply list_elem_of_In, in_map_iff in Hx as (r' & <- & Hx).
  apply filter_In in Hx as [Hx _]. apply list_elem_of_In, in_map, Hx.
Qed.

Lemma newest_last (rs : list audit_row) n r :
  Forall (fun x => log_id x < n) rs -> log_id r = n -> newest log_id (rs ++ [r]) = Some r.
Proof.
  intros Hf Hr. induction rs as [|x rs IH]; [reflexivity|]. apply Forall_cons in Hf as [Hx Hf]. cbn.
  rewrite IH by assumption. replace (log_id x <? log_id r) with true by lia. reflexivity.
Qed.

Lemma verify_chain_calm d k st en :
  holds_keys d k -> StronglySorted Z.lt (map log_id (d_log d)) ->
  let rs := List.filter (in_range (default 1 st) en) (d_log d) in
  Forall (same_algorithms k) rs ->
  bcalm d (pqc_audit_verify_chain st en) (fun vs => vs = map (verdict k) rs).
Proof.
  intros Hk Hs rs Hg. unfold pqc_audit_verify_chain.
  eapply calm_bind; [apply bcalm_pqc, calm_spec, init_if_needed_spec|]. intros _ _.
  eapply calm_bind; [apply calm_spec, bspec_read|]. intros ? ->. cbv beta.
  rewrite sort_by_sorted by (apply filter_sorted, Hs). apply (verify_rows_calm d k); assumption.
Qed.

Lemma verify_chain_genuine d k st en :
  holds_keys d k -> StronglySorted Z.lt (map log_id (d_log d)) ->
  let rs := List.filter (in_range (default 1 st) en) (d_log d) in
  Forall (genuine_row k) rs ->
  bcalm d (pqc_audit_verify_chain st en) (fun vs => vs = map all_valid rs).
Proof.
  intros Hk Hs rs Hg.
  assert (E : map (verdict k) rs = map all_valid rs)
    by (apply map_ext_Forall; exact (Forall_impl _ _ _ Hg (fun r => genuine_valid d k r Hk))).
  rewrite <- E. apply verify_chain_calm; [assumption..|]. exact (Forall_impl _ _ _ Hg (fun r => genuine_algorithms d k r Hk)).
Qed.
End Verify.

(** ** The hook, however calls fail *)

Section Hook.
  Context `{CL : CryptoLaws} `{JL : JsonbLaws}.

(** The tables as they were, or one linked row more. *)
Definition at_most_one_row (d : db) (s : backend) : Prop :=
  registry_ok (fst s) /\
  (snd s = d \/ exists r, snd s = append_row r d /\ log_id r = d_log_seq d /\
     user_name r = d_user d /\ prev_hash r = entry_hash <$> newest log_id (d_log d) /\
     length (entry_hash r) = AUDIT_HASH_LEN).

Definition logged (d : db) (o : outcome unit) (s : backend) : Prop :=
  o <> Fatal /\ at_most_one_row d s.

Lemma warning_logged d msg : triple (tables d) (warning msg) (logged d).
Proof. intros s Hs. split; [discriminate|]. split; [apply Hs|left; apply Hs]. Qed.

Lemma sign_any ctx m n sk k :
  pspec false (pqc_sig_sign (Some ctx) (Some m) n (Some sk) k) (fun _ => True).
Proof.
  unfold pqc_sig_sign. cbn [null_message]. destruct (negb _); [apply spec_raise; reflexivity|].
  eapply spec_bind; [apply (spec_answer envL registry_ok)|]. intros [|] _; [|apply spec_ret; exact I].
  intros p Hp. unfold pqc_stat_count_sig_sign, bump, bind, zoom. cbn.
  do 2 eexists. split; [reflexivity|]. split; [destruct (pqc_stat_counters _); exact Hp|].
  split; [|exact I]. intros Hn. split; [|discriminate]. destruct (pqc_stat_counters _); exact Hn.
Qed.

Lemma event_logged d etype o q : triple (tables d) (audit_log_ddl_event etype o q) (logged d).
Proof.
  assert (He : forall (e : errcode) s, tables d s -> logged d (Err e) s).
  { intros e s Hs. split; [discriminate|]. split; [apply Hs|left; apply Hs]. }
  unfold audit_log_ddl_event.
  eapply triple_spec; [apply (bspec_pqc d false), init_if_needed_spec| |exact He]. intros _ _.
  eapply (triple_spec _ _ false); [apply load_spec| |exact He]. intros [[[ca cpk] csk]|] _;
    [|apply warning_logged].
  eapply (triple_spec _ _ false); [apply load_spec| |exact He]. intros [[[pa ppk] psk]|] _;
    [|apply warning_logged].
  eapply triple_spec; [apply (bspec_read d false (fun _ => event_json o q))| |exact He]. intros ? ->.
  eapply triple_spec; [apply (bspec_pqc d false), sha384_spec| |exact He]. intros ? ->.
  eapply triple_spec; [apply (bspec_pqc d false), ed25519_sign_any| |exact He]. intros ? ->.
  eapply (triple_spec _ _ false _ _ (fun _ => True));
    [apply bspec_pqc, spec_pure; intros p _; eexists; split; [reflexivity|exact I]| |exact He].
  intros alg _. destruct (PQC_ALG_COUNT <=? alg); [apply warning_logged|].
  eapply triple_spec; [apply (bspec_pqc d false), sig_new_any| |exact He]. intros ctx _.
  eapply triple_spec; [apply (bspec_pqc d false), sign_any| |exact He]. intros [st [sg|]] _;
    [|apply warning_logged].
  eapply triple_spec; [apply (bspec_read d false (fun d => entry_hash <$> newest log_id (d_log d)))| |exact He].
  intros ? ->. eapply triple_spec; [apply (bspec_pqc d false), entry_hash_spec| |exact He]. intros h Hh.
  unfold SPI. eapply triple_spec; [apply (spec_answer benvL (tables d) false)| |exact He]. intros [|] _;
    cbn [negb]; [|intros s Hs; apply He, Hs].
  intros s Hs. rewrite (insert_row_run d) by exact Hs. split; [discriminate|].
  split; [apply Hs|]. right. eexists. split; [reflexivity|]. repeat split; auto.
Qed.

(** The audit hook never stands in the way of the statement it
    records: whatever the tables hold and however the server, OpenSSL and liboqs
    fail, it returns normally; it changes the tables at most by one row, which
    has the next id, names the user, and is linked to the last row by its hash. *)
Theorem audit_hook_never_fails p d stmt q :
  registry_ok p ->
  exists p' d', pqc_audit_process_utility stmt q (p, d) = (Ok tt, (p', d')) /\
    at_most_one_row d (p', d').
Proof.
  intros Hp. assert (Hid : at_most_one_row d (p, d)) by (split; auto).
  unfold pqc_audit_process_utility. rewrite (bind_step _ _ _ d (p, d)) by reflexivity.
  destruct (pqc_audit_enabled d); cbn [negb]; [|eauto]. destruct stmt as [s|]; [|eauto].
  destruct (classify s) as [[[cat ty] obj]|]; [|eauto].
  destruct (audit_event_is_enabled _ _); cbn [negb]; [|eauto].
  pose proof (event_logged d ty obj (Some q) (p, d) (conj Hp eq_refl)) as [Hf Hrow].
  unfold pg_try. destruct (audit_log_ddl_event ty obj (Some q) (p, d)) as [[[]|e|] [p' d']];
    [|unfold warning, zoom; cbn|contradiction].
  all: do 2 eexists; split; [reflexivity|exact Hrow].
Qed.
End Hook.

(** ** Trails *)

Section Trail.
  Context `{CL : CryptoLaws} `{JL : JsonbLaws}.

Fixpoint run_hooks (l : list (option utility_stmt * string)) : M backend unit :=
  match l with
  | [] => ret tt
  | (stmt, q) :: l' => do! pqc_audit_process_utility stmt q in run_hooks l'
  end.

(** Event type and detail of a statement that is recorded. *)
Definition recorded (d : db) (c : option utility_stmt * string) : option (string * string) :=
  match fst c with
  | Some s =>
      match classify s with
      | Some (category, etype, obj) =>
          if audit_event_is_enabled (pqc_audit_events d) category
          then Some (etype, event_json obj (Some (snd c))) else None
      | None => None
      end
  | None => None
  end.

(** Each row carries the hash of the row before it. *)
Fixpoint linked (prev : option bytes) (rs : list audit_row) : Prop :=
  match rs with
  | [] => True
  | r :: rs' => prev_hash r = prev /\ linked (Some (entry_hash r)) rs'
  end.

Definition extend (rs : list audit_row) (d : db) : db :=
  set_rows (d_log d ++ rs) (d_log_seq d + Z.of_nat (length rs)) d.

Lemma extend_nil d : extend [] d = d.
Proof. unfold extend. cbn. rewrite app_nil_r, Z.add_0_r. destruct d; reflexivity. Qed.

Lemma extend_cons r rs d : extend rs (append_row r d) = extend (r :: rs) d.
Proof.
  unfold extend, append_row, set_rows. cbn -[Z.of_nat]. rewrite <- app_assoc. cbn -[Z.of_nat].
  f_equal. lia.
Qed.

Lemma log_ok_append r d : log_ok d -> log_id r = d_log_seq d -> log_ok (append_row r d).
Proof.
  intros [Hs Hf] Hr. split; cbn.
  - rewrite map_app. cbn. induction (d_log d) as [|x rs IH]; cbn; [repeat constructor|].
    cbn in Hs. apply StronglySorted_inv in Hs as [Hs Hx]. apply Forall_cons in Hf as [Hlt Hf].
    constructor; [auto|]. apply Forall_app. split; [exact Hx|]. repeat constructor. lia.
  - apply Forall_app. split; [|repeat constructor; lia].
    eapply Forall_impl; [exact Hf|]. cbn. lia.
Qed.

(** One statement without failures. *)
Lemma hook_calm p d k stmt q :
  registry_ok p -> no_faults (p_env p) -> holds_keys d k -> pqc_audit_enabled d = true ->
  exists p' d', pqc_audit_process_utility stmt q (p, d) = (Ok tt, (p', d')) /\
    registry_ok p' /\ no_faults (p_env p') /\
    match recorded d (stmt, q) with
    | None => d' = d
    | Some (etype, json) => exists r, d' = append_row r d /\ next_row d etype json r /\ genuine_row k r
    end.
Proof.
  intros Hp Hn Hk He. unfold pqc_audit_process_utility, recorded.
  rewrite (bind_step _ _ _ d (p, d)) by reflexivity. rewrite He. cbn [negb fst].
  destruct stmt as [s|]; [|eauto 6]. destruct (classify s) as [[[cat ty] obj]|]; [|eauto 6].
  destruct (audit_event_is_enabled _ _); cbn [negb]; [|eauto 6].
  destruct (event_recorded d k ty obj (Some q) Hk (p, d) (conj Hp eq_refl) Hn)
    as ([] & [p' d'] & Hr & r & [Hp' Hd'] & Hn' & Hnext & Hsg & Hh).
  exists p', d'. unfold pg_try. rewrite Hr. repeat split; auto. exists r.
  destruct Hnext as (? & ? & ? & ? & ? & Hl). repeat split; auto; apply Hsg.
Qed.

Lemma hooks_calm l : forall p d k,
  registry_ok p -> no_faults (p_env p) -> log_ok d -> holds_keys d k -> pqc_audit_enabled d = true ->
  exists p' rs, run_hooks l (p, d) = (Ok tt, (p', extend rs d)) /\
    registry_ok p' /\ no_faults (p_env p') /\ log_ok (extend rs d) /\
    map (fun r => (event_type r, event_detail r)) rs = omap (recorded d) l /\
    linked (entry_hash <$> newest log_id (d_log d)) rs /\
    Forall (genuine_row k) rs /\ Forall (fun r => d_log_seq d <= log_id r) rs.
Proof.
  induction l as [|[stmt q] l IH]; intros p d k Hp Hn Hlog Hk He.
  - exists p, []. rewrite extend_nil. do 4 (split; [first [reflexivity|assumption]|]).
    split; [reflexivity|]. split; [exact I|]. split; constructor.
  - destruct (hook_calm p d k stmt q Hp Hn Hk He) as (p1 & d1 & H1 & Hp1 & Hn1 & Hrec).
    cbn [run_hooks omap list_omap]. destruct (recorded d (stmt, q)) as [[ty js]|].
    + destruct Hrec as (r & -> & (Hid & Hty & Hjs & _ & Hprev & _) & Hg).
      assert (Hrec : recorded (append_row r d) = recorded d) by reflexivity.
      destruct (IH p1 (append_row r d) k Hp1 Hn1 (log_ok_append r d Hlog Hid))
        as (p' & rs & H2 & Hp' & Hn' & Hlog' & Hmap & Hlink & Hgs & Hids);
        [destruct Hk; split; assumption|exact He|].
      exists p', (r :: rs). rewrite <- extend_cons, (bind_step _ _ _ _ _ H1). rewrite Hrec in Hmap.
      cbn in Hlink. rewrite (newest_last (d_log d) (d_log_seq d) r (proj2 Hlog) Hid) in Hlink.
      do 4 (split; [first [reflexivity|assumption]|]). split; [cbn; rewrite Hty, Hjs, Hmap; reflexivity|].
      split; [split; assumption|]. split; [constructor; assumption|]. constructor; [lia|]. eapply Forall_impl; [exact Hids|]. cbn. lia.
    + subst d1. destruct (IH p1 d k Hp1 Hn1 Hlog Hk He) as (p' & rs & H2 & Hrest).
      exists p', rs. rewrite (bind_step _ _ _ _ _ H1). auto.
Qed.

(** ** Key generation *)

Lemma ed25519_keygen_spec t : pspec t ed25519_keygen (fun r => exists n, r = ED25519_keypair n).
Proof.
  unfold ed25519_keygen. spec_calls.
  apply (spec_bind _ _ _ _ _ (fun _ => True)).
  - intros p Hp. do 2 eexists. split; [reflexivity|]. split; [exact Hp|]. split; [|exact I].
    intros Hn. split; [exact Hn|eauto].
  - intros n _. spec_calls. apply spec_ret. eauto.
Qed.

Lemma sig_keygen_spec t ctx :
  pspec t (or_fail (pqc_sig_keygen (Some ctx))) (fun r => exists n, r = OQS_SIG_keypair (oqs_sig ctx) n).
Proof.
  apply or_fail_spec. intros p Hp. destruct (sig_keygen_run ctx p) as (r & p' & Hr & Hc & Hk & Hn).
  mrun Hr. exists (snd r), p'. split; [reflexivity|]. split; [apply (same_keys_ok p), Hp; exact Hk|].
  split; [exact Hn|]. destruct Hc as [->|[n ->]]; [discriminate|]. intros b [= <-]. eauto.
Qed.

Lemma spi_modify d f : reaches benvL (tables d) (SPI (modify f))
  (fun _ s => tables (f d) s /\ no_faults (view benvL s)).
Proof.
  unfold SPI. eapply reaches_bind; [apply (calm_attempt benvL (tables d))|]. intros ? ->.
  cbn [negb]. intros s [Hp Hd] Hn. do 2 eexists. split; [reflexivity|].
  rewrite <- Hd. split; [split; [exact Hp|reflexivity]|exact Hn].
Qed.

Lemma filter_deactivated purpose ks : List.filter (active_key purpose) (map deactivate ks) = [].
Proof.
  induction ks as [|x ks IH]; [reflexivity|]. cbn. unfold active_key at 1. cbn.
  rewrite andb_false_r. exact IH.
Qed.

(** The new keys are the only active ones. *)
Lemma init_keys_holds d calg palg alg g :
  pg_strcasecmp calg "Ed25519" = 0 -> sig_names palg alg g ->
  reaches benvL (tables d) (pqc_audit_init_keys calg palg)
    (fun _ s => exists ks n k, tables (set_keys ks n d) s /\ no_faults (view benvL s) /\
       holds_keys (set_keys ks n d) k).
Proof.
  intros Hc Ha. unfold pqc_audit_init_keys, insert_key. rewrite Hc. cbn [Z.eqb negb].
  eapply reaches_bind; [apply bcalm_pqc, calm_spec, (sig_from_name _ _ _ _ Ha)|]. intros ? [-> Hlt].
  eapply reaches_bind; [apply bcalm_pqc, calm_spec, (is_sig_named _ _ _ _ Ha)|]. intros ? ->.
  replace (PQC_ALG_COUNT <=? alg) with false by lia. cbn [orb negb].
  eapply reaches_bind; [apply bcalm_pqc, calm_spec, init_if_needed_spec|]. intros _ _.
  eapply reaches_bind; [apply bcalm_pqc, calm_spec, ed25519_keygen_spec|]. intros [epk esk] [n1 H1].
  eapply reaches_bind; [apply bcalm_pqc, calm_spec, (sig_new_named _ _ _ _ Ha)|]. intros ? ->.
  eapply reaches_bind; [apply bcalm_pqc, calm_spec, sig_keygen_spec|]. intros [ppk psk] [n2 H2].
  intros s Hs Hn. edestruct spi_modify as ([] & s1 & R1 & T1 & N1); [exact Hs|exact Hn|].
  rewrite (bind_step _ _ _ _ _ R1).
  edestruct spi_modify as ([] & s2 & R2 & T2 & N2); [exact T1|exact N1|].
  rewrite (bind_step _ _ _ _ _ R2).
  edestruct spi_modify as ([] & s3 & R3 & T3 & N3); [exact T2|exact N2|].
  exists tt, s3. split; [exact R3|]. do 2 eexists. exists (mkKeyring calg epk esk palg ppk psk g).
  split; [exact T3|]. split; [exact N3|].
  split; unfold current; cbn; rewrite ?List.filter_app, ?filter_deactivated; cbn; eauto.
Qed.

(** C15: roundtrip.  After pqc_audit_init_keys, in tables with any history and
    where nothing fails, any sequence of statements leaves exactly the rows of
    the enabled ones, in order, each carrying the hash of the row before it, and
    the verification of the chain from the first of them reports every row
    valid: hash, classical signature and post-quantum signature. *)
Theorem audit_trail_verifies p d calg palg alg g l :
  registry_ok p -> no_faults (p_env p) -> log_ok d -> pqc_audit_enabled d = true ->
  pg_strcasecmp calg "Ed25519" = 0 -> sig_names palg alg g ->
  exists p1 d1 p2 rs, pqc_audit_init_keys calg palg (p, d) = (Ok tt, (p1, d1)) /\
    d_log d1 = d_log d /\ run_hooks l (p1, d1) = (Ok tt, (p2, extend rs d1)) /\
    map (fun r => (event_type r, event_detail r)) rs = omap (recorded d) l /\
    linked (entry_hash <$> newest log_id (d_log d)) rs /\
    exists p3, pqc_audit_verify_chain (Some (d_log_seq d)) None (p2, extend rs d1)
               = (Ok (map all_valid rs), (p3, extend rs d1)).
Proof.
  intros Hp Hn Hlog He Hc Ha.
  destruct (init_keys_holds d calg palg alg g Hc Ha (p, d) (conj Hp eq_refl) Hn)
    as ([] & [p1 d1] & Hi & ks & n & k & [Hp1 Hd1] & Hn1 & Hk). cbn in Hp1, Hd1. subst d1.
  destruct (hooks_calm l p1 (set_keys ks n d) k Hp1 Hn1 Hlog Hk He)
    as (p2 & rs & Hr & Hp2 & Hn2 & Hlog2 & Hmap & Hlink & Hg & Hids).
  exists p1, (set_keys ks n d), p2, rs. split; [exact Hi|]. split; [reflexivity|]. split; [exact Hr|].
  split; [exact Hmap|]. split; [exact Hlink|]. set (d1 := set_keys ks n d) in *.
  assert (Hf : List.filter (in_range (default 1 (Some (d_log_seq d))) None) (d_log (extend rs d1)) = rs).
  { cbn. rewrite List.filter_app, filter_none, filter_all; [reflexivity|..]; unfold in_range.
    - eapply Forall_impl; [exact Hids|]. cbn. intros x Hx. rewrite andb_true_r. apply Z.leb_le, Hx.
    - eapply Forall_impl; [exact (proj2 Hlog)|]. cbn. intros x Hx. rewrite andb_true_r. apply Z.leb_gt, Hx. }
  destruct (verify_chain_genuine (extend rs d1) k (Some (d_log_seq d)) None) with (s := (p2, extend rs d1))
    as (vs & [p3 d3] & Hv & [_ Hd3] & _ & ->); [destruct Hk; split; assumption|apply Hlog2|rewrite Hf; exact Hg
    |split; [exact Hp2|reflexivity]|exact Hn2|].
  cbn in Hd3. subst d3. rewrite Hf in Hv. eauto.
Qed.

(** C40: safety.  The verification looks at each row alone.  It never compares
    the stored hash of a row's predecessor with the row before it: from a log
    of genuine rows any rows can be deleted, and the verification of the whole
    chain still reports every remaining row valid. *)
Theorem audit_deletion_undetected p d k keep :
  registry_ok p -> no_faults (p_env p) -> log_ok d -> holds_keys d k ->
  Forall (genuine_row k) (d_log d) ->
  let d' := set_rows (List.filter keep (d_log d)) (d_log_seq d) d in
  exists p', pqc_audit_verify_chain None None (p, d')
             = (Ok (map all_valid (List.filter (in_range 1 None) (d_log d'))), (p', d')).
Proof.
  intros Hp Hn Hlog Hk Hg d'.
  destruct (verify_chain_genuine d' k None None) with (s := (p, d'))
    as (vs & [p3 d3] & Hv & [_ Hd3] & _ & ->); [destruct Hk; split; assumption
    |apply filter_sorted, Hlog| |split; [exact Hp|reflexivity]|exact Hn|].
  - cbn. apply Forall_forall. intros x Hx. apply list_elem_of_In, filter_In in Hx as [Hx _].
    apply filter_In in Hx as [Hx _]. apply (proj1 (Forall_forall _ _) Hg), list_elem_of_In, Hx.
  - cbn in Hd3. subst d3. eauto.
Qed.

(** Old rows are checked with the keys of today: in tables
    that hold keys [k], the verification of rows made under other keys of the
    same algorithms answers whether the old signatures verify under the new
    public keys.  After a second pqc_audit_init_keys the genuine history of the
    log is reported as forged. *)
Theorem audit_history_checked_with_current_keys p d k :
  registry_ok p -> no_faults (p_env p) -> log_ok d -> holds_keys d k ->
  Forall (same_algorithms k) (d_log d) ->
  exists p', pqc_audit_verify_chain None None (p, d)
             = (Ok (map (verdict k) (List.filter (in_range 1 None) (d_log d))), (p', d)).
Proof.
  intros Hp Hn Hlog Hk Hg.
  destruct (verify_chain_calm d k None None) with (s := (p, d))
    as (vs & [p3 d3] & Hv & [_ Hd3] & _ & ->); [assumption|apply Hlog| |split; [exact Hp|reflexivity]|exact Hn|].
  - apply Forall_forall. intros x Hx. apply list_elem_of_In, filter_In in Hx as [Hx _].
    apply (proj1 (Forall_forall _ _) Hg), list_elem_of_In, Hx.
  - cbn in Hd3. subst d3. eauto.
Qed.
End Trail.

Module ToyJson.

#[export] Instance toy_jsonb : Jsonb := {|
  jsonb_build_object o q := ("{" ++ o ++ ":" ++ q ++ "}")%string;
  jsonb_text t := t
|}.

#[export] Instance toy_jsonb_laws : JsonbLaws.
Proof. intros o q. reflexivity. Qed.
End ToyJson.

Import Toy ToyJson.

(** Tables after the extension was created, with auditing on. *)
Definition fresh_db : db :=
  mkDb [] 1 [] 1 [] true (Some "ddl, GRANT"%string) "1.1" "alice" "postgres" true 0.

Definition audit0 : backend := (pqc_boot env0 None false, fresh_db).

Definition sample_trail : list (option utility_stmt * string) :=
  [(Some (CreateRoleStmt "bob"), "a"); (Some OtherStmt, "b"); (Some (GrantStmt true), "c");
   (None, "d"); (Some (AlterSystemStmt None), "e"); (Some DropRoleStmt, "f")]%string.

Lemma toy_sig_names : sig_names "ml-dsa-65" PQC_ALG_ML_DSA_65 (toy_sig 6 7 20).
Proof. split; [discriminate|]. eexists. repeat split. Qed.

Lemma audit_hook_never_fails_witness :
  exists p' d', pqc_audit_process_utility (Some (CreateRoleStmt "bob")) "a" audit0 = (Ok tt, (p', d')).
Proof.
  destruct (audit_hook_never_fails (fst audit0) fresh_db (Some (CreateRoleStmt "bob")) "a")
    as (p' & d' & Hr & _); [reflexivity|]. eauto.
Defined.

Lemma audit_trail_verifies_witness :
  exists p1 d1 p2 rs, pqc_audit_init_keys "ed25519" "ml-dsa-65" audit0 = (Ok tt, (p1, d1)) /\
    run_hooks sample_trail (p1, d1) = (Ok tt, (p2, extend rs d1)) /\
    map (fun r => event_type r) rs = ["CREATE_ROLE"; "GRANT"; "DROP_ROLE"]%string.
Proof.
  destruct (audit_trail_verifies (fst audit0) fresh_db "ed25519" "ml-dsa-65" PQC_ALG_ML_DSA_65
              (toy_sig 6 7 20) sample_trail)
    as (p1 & d1 & p2 & rs & H1 & _ & H2 & Hm & _); [reflexivity|reflexivity| |reflexivity|reflexivity| |].
  - split; constructor.
  - apply toy_sig_names.
  - exists p1, d1, p2, rs. split; [exact H1|]. split; [exact H2|].
    transitivity (map fst (map (fun r => (event_type r, event_detail r)) rs)).
    + rewrite map_map. reflexivity.
    + rewrite Hm. reflexivity.
Defined.

(** The tables after that trail, and after new keys. *)
Definition audit1 : backend := snd (pqc_audit_init_keys "Ed25519" "ml-dsa-65" audit0).
Definition audit2 : backend := snd (run_hooks sample_trail audit1).
Definition audit3 : backend := snd (pqc_audit_init_keys "Ed25519" "ml-dsa-65" audit2).

(** The key pairs of two draws. *)
Definition ring (n m : nat) : keyring :=
  let '(cpk, csk) := ED25519_keypair n in
  let '(ppk, psk) := OQS_SIG_keypair (toy_sig 6 7 20) m in
  mkKeyring "Ed25519" cpk csk "ml-dsa-65" ppk psk (toy_sig 6 7 20).

Lemma ring_holds d n m :
  current "classical" d = Some ("Ed25519"%string, kr_cpk (ring n m), kr_csk (ring n m)) ->
  current "pqc" d = Some ("ml-dsa-65"%string, kr_ppk (ring n m), kr_psk (ring n m)) ->
  holds_keys d (ring n m).
Proof.
  intros Hc Hq. split; [exact Hc|exact Hq|reflexivity| |exists PQC_ALG_ML_DSA_65; apply toy_sig_names|].
  - exists n. unfold ring. destruct (ED25519_keypair n), (OQS_SIG_keypair _ m). reflexivity.
  - exists m. unfold ring. destruct (ED25519_keypair n), (OQS_SIG_keypair _ m). reflexivity.
Qed.

(** The rows of the log, computed. *)
Definition rows2 : list audit_row := Eval vm_compute in d_log (snd audit2).
Definition rows3 : list audit_row := Eval vm_compute in d_log (snd audit3).

Lemma audit2_rows : d_log (snd audit2) = rows2.
Proof. vm_compute. reflexivity. Qed.

Lemma audit3_rows : d_log (snd audit3) = rows3.
Proof. vm_compute. reflexivity. Qed.

Lemma audit2_log : log_ok (snd audit2).
Proof. split; vm_compute; repeat constructor. Qed.

Definition genuine_by (k : keyring) (n : nat) (r : audit_row) : Prop :=
  classical_sig_alg r = kr_calg k /\ classical_signature r = ED25519_sign (kr_csk k) (digest_of r) /\
  pqc_sig_alg r = kr_palg k /\ pqc_signature r = OQS_SIG_sign (kr_sig k) (digest_of r) (kr_psk k) n /\
  entry_hash r = SHA384 (row_message r) /\ length (entry_hash r) = AUDIT_HASH_LEN.

Lemma genuine_by_row k n r : genuine_by k n r -> genuine_row k r.
Proof. intros (? & ? & ? & ? & ? & ?). repeat split; eauto. Qed.

Lemma audit_deletion_undetected_witness :
  let d' := set_rows (List.filter (fun r => negb (log_id r =? 2)) (d_log (snd audit2)))
              (d_log_seq (snd audit2)) (snd audit2) in
  map log_id (d_log d') = [1; 3] /\
  exists p', pqc_audit_verify_chain None None (fst audit2, d')
             = (Ok [(1, true, true, true); (3, true, true, true)], (p', d')).
Proof.
  intros d'. split; [vm_compute; reflexivity|].
  destruct (audit_deletion_undetected (fst audit2) (snd audit2) (ring 0 1) (fun r => negb (log_id r =? 2)))
    as [p' Hr]; [vm_compute; reflexivity|vm_compute; reflexivity|apply audit2_log| | |].
  - apply ring_holds; vm_compute; reflexivity.
  - rewrite audit2_rows. repeat (constructor; [apply (genuine_by_row _ 0); vm_compute; repeat split|]). constructor.
  - exists p'. refine (eq_trans Hr _). apply (f_equal (fun l => (Ok l, (p', d')))). unfold d'.
    cbn [d_log set_rows]. rewrite audit2_rows. reflexivity.
Defined.

Lemma audit_history_checked_with_current_keys_witness :
  exists p', pqc_audit_verify_chain None None audit3
             = (Ok [(1, true, false, false); (2, true, false, false); (3, true, false, false)],
                (p', snd audit3)).
Proof.
  destruct (audit_history_checked_with_current_keys (fst audit3) (snd audit3) (ring 5 6))
    as [p' Hr]; [vm_compute; reflexivity|vm_compute; reflexivity| | | |].
  - split; vm_compute; repeat constructor.
  - apply ring_holds; vm_compute; reflexivity.
  - rewrite audit3_rows. repeat (constructor; [split; vm_compute; reflexivity|]). constructor.
  - exists p'. rewrite (surjective_pairing audit3) at 1. rewrite Hr, audit3_rows. reflexivity.
Defined.
