(* ===== verification/Escrow.v ===== *)
(** * Key escrow (contrib/pgcrypto_pqc/pgcrypto_pqc.c)

    The active post-quantum key is split into Shamir shares, byte by byte, and
    recovered by interpolation.

    The code loads the key inside an SPI connection and reads it after
    [SPI_finish] has released that memory.  What such a read returns and whether
    the process survives it is a parameter ([Released] of AuditLog.v); the
    theorems say what the shares are shares of. *)
From Stdlib Require Import ZArith Lia Bool String List.
From stdpp Require Import base gmap list strings.
From S2P Require Import Prelude CryptoIface Env Spec KeyCache PqcRegistry PqcKem PqcSig Gf256.
From S2P Require Import Envelope AuditLog AuditChain.
Import ListNotations.
Local Open Scope Z_scope.
Local Open Scope pg_scope.

Section Escrow.
  Context `{Crypto} `{Rel : Released}.

(** The x-coordinates: [(uint8) (i + 1)]. *)
Definition points (num_shares : Z) : bytes := map (fun i => u8 (Z.of_nat i + 1)) (seq 0 (Z.to_nat num_shares)).

(** [if (!RAND_bytes(coeffs + 1, n))]: of the results 1, 0 and -1 only 0 is
    taken for a failure.  After -1 the buffer holds what it held before. *)
Definition random_coefficients (n : nat) : M backend (option bytes) :=
  let! f := zoom benvL next_fault in
  match f with
  | None => let! d := zoom benvL next_draw in ret (Some (RAND d n))
  | Some O => ret None
  | Some (S _) => ret (Some (palloced n))
  end.

(** The loop over the bytes of the key: one random polynomial each, evaluated
    at every point and appended to the shares. *)
Fixpoint share_bytes (key : bytes) (threshold : Z) (xs : bytes) (shares : list bytes)
    : M backend (list bytes) :=
  match key with
  | [] => ret shares
  | b :: key' =>
      let! r := random_coefficients (Z.to_nat (threshold - 1)) in
      match r with
      | None => raise ERRCODE_INTERNAL_ERROR
      | Some cs =>
          share_bytes key' threshold xs
            (zip_with (fun sh x => sh ++ [gf256_poly_eval (b :: cs) (threshold - 1) x]) shares xs)
      end
  end.

(** The rows the set-returning function returns: index and share.  The
    function is not STRICT: a NULL name is read through. *)
Definition pqc_escrow_create (name : option string) (num_shares threshold : Z)
    : M backend (list (Z * bytes)) :=
  match name with
  | None => fatal
  | Some nm =>
      let! d := gets snd in
      if negb (d_superuser d) then raise ERRCODE_INSUFFICIENT_PRIVILEGE
      else if (num_shares <? 2) || (255 <? num_shares) then raise ERRCODE_INVALID_PARAMETER_VALUE
      else if (threshold <? 2) || (num_shares <? threshold) then raise ERRCODE_INVALID_PARAMETER_VALUE
      else
        do! zoom fstL init_if_needed in
        let! k := load_audit_key "pqc" in
        match k with
        | None => raise ERRCODE_OBJECT_NOT_IN_PREREQUISITE_STATE
        | Some (pqc_alg_name, _, sec_key) =>
            do! pg_try
                  (SPI (modify (fun d => set_escrow (d_escrow d ++
                     [mkEscrowRow nm pqc_alg_name num_shares threshold]) d)))
                  (fun _ => ret tt) in
            let xs := points num_shares in
            let! sec_key := use_released (read_released sec_key) in
            let! shares := share_bytes sec_key threshold xs (map (fun x => [x]) xs) in
            do! free_released in
            ret (imap (fun i sh => (Z.of_nat i + 1, sh)) shares)
        end
  end.

(** The loop over the elements of the array. *)
Fixpoint check_shares (l : list (option bytes)) : M backend (list bytes) :=
  match l with
  | [] => ret []
  | None :: _ => raise ERRCODE_NULL_VALUE_NOT_ALLOWED
  | Some sh :: l' =>
      if (length sh <? 2)%nat then raise ERRCODE_INVALID_PARAMETER_VALUE
      else let! rest := check_shares l' in ret (sh :: rest)
  end.

(** The loop over the bytes of the secret, from index [i]. *)
Fixpoint recover_bytes (shares : list bytes) (xs : bytes) (todo i : nat) : M backend bytes :=
  match todo with
  | O => ret []
  | S todo' =>
      let ys := map (fun sh => nth (1 + i) sh 0) shares in
      match gf256_lagrange_interpolate xs ys (length shares) with
      | None => raise ERRCODE_DIVISION_BY_ZERO
      | Some b => let! rest := recover_bytes shares xs todo' (S i) in ret (b :: rest)
      end
  end.

(** Not STRICT either; the array is read before the privilege is checked. *)
Definition pqc_escrow_recover (arg : option (list (option bytes))) : M backend (string * bytes) :=
  match arg with
  | None => fatal
  | Some l =>
      let! d := gets snd in
      if negb (d_superuser d) then raise ERRCODE_INSUFFICIENT_PRIVILEGE
      else if (length l <? 2)%nat then raise ERRCODE_INVALID_PARAMETER_VALUE
      else
        let! shares := check_shares l in
        let secret_len := (length (hd [] shares) - 1)%nat in
        if negb (forallb (fun sh => (length sh - 1 =? secret_len)%nat) (tl shares))
        then raise ERRCODE_INVALID_PARAMETER_VALUE
        else
          let xs := map (fun sh => nth 0 sh 0) shares in
          let! recovered := recover_bytes shares xs secret_len 0 in
          ret ("success"%string, recovered)
  end.
End Escrow.

(** ** Lemmas *)

Section EscrowLemmas.
  Context `{CL : CryptoLaws} `{Rel : Released} `{RL : !ReleasedLaws}.

Lemma length_points n : length (points n) = Z.to_nat n.
Proof. unfold points. rewrite length_map, length_seq. reflexivity. Qed.

Lemma points_spec n x : 0 <= n <= 255 -> In x (points n) <-> 1 <= x <= n.
Proof.
  intros Hn. unfold points. rewrite in_map_iff. split.
  - intros (i & <- & Hi). apply in_seq in Hi. unfold u8. rewrite Z.mod_small by lia. lia.
  - intros Hx. exists (Z.to_nat (x - 1)). rewrite in_seq. unfold u8. rewrite Z.mod_small by lia. lia.
Qed.

Lemma wf_points n : wf_bytes (points n) = true.
Proof.
  apply forallb_forall. intros x Hx. apply in_map_iff in Hx as (i & <- & _).
  apply is_byte_iff. unfold u8. apply Z.mod_pos_bound. lia.
Qed.

Lemma nth_points n i : 0 <= n <= 255 -> (i < Z.to_nat n)%nat -> nth i (points n) 0 = Z.of_nat i + 1.
Proof.
  intros Hn Hi. unfold points.
  rewrite (nth_indep _ 0 (u8 (Z.of_nat 0 + 1))) by (rewrite length_map, length_seq; exact Hi).
  rewrite (map_nth (fun i => u8 (Z.of_nat i + 1)) (seq 0 (Z.to_nat n)) 0%nat i), seq_nth by exact Hi.
  unfold u8. rewrite Z.mod_small; lia.
Qed.

(** What the shares consist of: the point, and the values there of one
    polynomial per byte of the key. *)
Definition share_at (polys : list bytes) (x : Z) : bytes :=
  x :: map (fun coeffs => gf256_poly_eval coeffs (blen coeffs - 1) x) polys.

Definition polys_for (key : bytes) (threshold : Z) (polys : list bytes) : Prop :=
  Forall2 (fun b coeffs => nth 0 coeffs 0 = b /\ blen coeffs = threshold /\ wf_bytes coeffs = true) key polys.

(** The keys of the tables stay; the table of escrows may grow. *)
Definition key_tables (d : db) (s : backend) : Prop :=
  registry_ok (fst s) /\ d_keys (snd s) = d_keys d /\ d_superuser (snd s) = d_superuser d.

#[local] Instance key_tables_stable d : Stable benvL (key_tables d).
Proof. intros e s Hs. exact Hs. Qed.

Lemma random_coefficients_spec d n :
  returns benvL (key_tables d) (random_coefficients n) (fun r => length r = n /\ wf_bytes r = true).
Proof.
  intros [p db] Hs. unfold random_coefficients, bind, zoom, next_fault. cbn.
  destruct (faults (p_env p)) as [|[[|k]|] fs] eqn:Hf; cbn; do 2 eexists; (split; [reflexivity|]);
    (split; [exact Hs|]); split; try (intros Hn; unfold no_faults in Hn; cbn in Hn; congruence);
    try (intros r [= <-]; split; auto using RAND_length, RAND_bytes_wf, palloced_length, palloced_wf).
  intros _. split; [exact Hf|discriminate].
Qed.

Lemma share_bytes_spec d t key threshold xs : 2 <= threshold -> wf_bytes key = true -> forall ps,
  spec benvL (key_tables d) t (share_bytes key threshold xs (map (share_at ps) xs))
    (fun shares => exists polys, polys_for key threshold polys /\ shares = map (share_at (ps ++ polys)) xs).
Proof.
  intros Ht. induction key as [|b key IH]; intros Hw ps; cbn [share_bytes].
  - apply spec_ret. exists []. rewrite app_nil_r. split; [constructor|reflexivity].
  - cbn in Hw. apply andb_true_iff in Hw as [Hb Hw].
    eapply spec_returns; [apply (random_coefficients_spec d)|]. intros cs [Hl Hcs].
    assert (Hlen : blen (b :: cs) = threshold) by (unfold blen; cbn [length]; lia).
    assert (E : zip_with (fun sh x => sh ++ [gf256_poly_eval (b :: cs) (threshold - 1) x])
                  (map (share_at ps) xs) xs = map (share_at (ps ++ [b :: cs])) xs).
    { clear IH. induction xs as [|x xs IHx]; [reflexivity|]. cbn [map zip_with]. rewrite IHx.
      f_equal. unfold share_at. rewrite map_app. cbn [map]. rewrite Hlen. reflexivity. }
    rewrite E. intros s Hs. destruct (IH Hw (ps ++ [b :: cs]) s Hs) as (o & s' & Hr & Hs' & Hn & Ho).
    exists o, s'. split; [exact Hr|]. split; [exact Hs'|]. split; [exact Hn|]. destruct o as [sh| |]; auto.
    destruct Ho as (polys & Hp & ->). exists ((b :: cs) :: polys). rewrite <- app_assoc. split; [|reflexivity].
    constructor; [|exact Hp]. split; [reflexivity|]. split; [exact Hlen|]. cbn. rewrite Hb. exact Hcs.
Qed.

Lemma key_tables_pqc {A} d t (m : M pqc A) Q :
  pspec t m Q -> spec benvL (key_tables d) t (zoom fstL m) Q.
Proof.
  apply spec_zoom; [apply _| |intros s Hs; apply Hs].
  intros p s Hs Hp. split; [exact Hp|apply Hs].
Qed.

Lemma metadata_spec d t row :
  spec benvL (key_tables d) t
    (pg_try (SPI (modify (fun d => set_escrow (d_escrow d ++ [row]) d))) (fun _ => ret tt)) (fun _ => True).
Proof.
  intros s (Hr & Hk & Hsu). unfold pg_try, SPI, bind.
  destruct (zoom_attempt_run benvL s) as (b & fs & Ha & Hn). rewrite Ha. destruct b; cbn [negb].
  - do 2 eexists. split; [reflexivity|]. split; [split; [exact Hr|split; [exact Hk|exact Hsu]]|].
    split; [|exact I]. intros Hf. destruct (Hn Hf) as [_ ->]. split; [reflexivity|eauto].
  - do 2 eexists. split; [reflexivity|]. split; [split; [exact Hr|split; [exact Hk|exact Hsu]]|].
    split; [|exact I]. intros Hf. destruct (Hn Hf); discriminate.
Qed.

Lemma create_spec d t nm n threshold alg pk key content :
  d_superuser d = true -> current "pqc" d = Some (alg, pk, key) ->
  read_released key = Some content -> pfree_released = Ok tt ->
  2 <= threshold <= n -> n <= 255 ->
  spec benvL (key_tables d) t (pqc_escrow_create (Some nm) n threshold)
    (fun shares => exists polys, polys_for content threshold polys /\
       shares = imap (fun i sh => (Z.of_nat i + 1, sh)) (map (share_at polys) (points n))).
Proof.
  intros Hsu Hk Hrel Hfree Ht Hn. unfold pqc_escrow_create.
  eapply (spec_bind _ _ _ _ _ (fun d' => d_superuser d' = true)).
  { apply spec_pure. intros s (_ & _ & Hs). eexists. split; [reflexivity|]. congruence. }
  intros d' ->. cbn [negb]. replace ((n <? 2) || (255 <? n)) with false by lia.
  replace ((threshold <? 2) || (n <? threshold)) with false by lia.
  eapply spec_bind; [apply key_tables_pqc, init_if_needed_spec|]. intros _ _.
  eapply (spec_bind _ _ _ _ _ (fun k => k = Some (alg, pk, key))).
  { unfold load_audit_key, SPI. spec_calls. apply spec_pure. intros [p d1] (_ & Hks & _).
    eexists. split; [reflexivity|]. cbn in Hks. rewrite <- Hk. unfold current. rewrite <- Hks. reflexivity. }
  intros ? ->. eapply spec_bind; [apply metadata_spec|]. intros _ _. cbv zeta.
  rewrite Hrel. cbn [use_released]. eapply (spec_bind _ _ _ _ _ (fun c => c = content)).
  { apply spec_ret. reflexivity. }
  intros ? ->. eapply spec_bind.
  { apply (share_bytes_spec d t content threshold (points n)) with (ps := []); [lia|].
    apply (read_released_wf _ _ Hrel). }
  intros shares (polys & Hp & ->). eapply (spec_bind _ _ _ _ _ (fun _ => True)).
  { apply spec_pure. intros s _. unfold free_released. rewrite Hfree. eauto. }
  intros _ _. apply spec_ret. eauto.
Qed.
End EscrowLemmas.

(** ** Properties *)

Section EscrowProperties.
  Context `{CL : CryptoLaws} `{Rel : Released} `{RL : !ReleasedLaws}.

Lemma check_shares_ok l s :
  Forall (fun sh => (2 <= length sh)%nat) l -> check_shares (map Some l) s = (Ok l, s).
Proof.
  induction 1 as [|sh l Hsh _ IH]; [reflexivity|]. cbn [map check_shares].
  replace (length sh <? 2)%nat with false by (symmetry; apply Nat.ltb_ge, Hsh).
  rewrite (bind_step _ _ _ _ _ IH). reflexivity.
Qed.

(** Column [i] of the shares is the sharing of byte [i]. *)
Lemma share_column polys xs i coeffs :
  polys !! i = Some coeffs -> map (fun sh => nth (1 + i) sh 0) (map (share_at polys) xs) = shares_of coeffs xs.
Proof.
  intros Hi. rewrite map_map. apply map_ext. intros x. unfold share_at. cbn [Nat.add nth].
  set (f := fun coeffs => gf256_poly_eval coeffs (blen coeffs - 1) x).
  rewrite (nth_indep _ 0 (f [])) by (rewrite length_map; apply lookup_lt_Some in Hi; exact Hi).
  rewrite (map_nth f), (nth_lookup_Some _ _ [] _ Hi). reflexivity.
Qed.

Lemma recover_bytes_ok key threshold polys xs s :
  polys_for key threshold polys -> wf_bytes xs = true -> NoDup xs -> 1 <= threshold <= blen xs ->
  forall todo i, (i + todo = length key)%nat ->
  recover_bytes (map (share_at polys) xs) xs todo i s = (Ok (skipn i key), s).
Proof.
  intros Hp Hx Hd Ht. induction todo as [|todo IH]; intros i Hi; cbn [recover_bytes].
  - rewrite skipn_all2 by lia. reflexivity.
  - destruct (lookup_lt_is_Some_2 key i) as [b Hb]; [lia|].
    destruct (Forall2_lookup_l _ _ _ _ _ Hp Hb) as (coeffs & Hc & H0 & Hl & Hw).
    rewrite (share_column polys xs i coeffs Hc), length_map.
    rewrite interpolate_shares; [|intros ->; unfold blen in Hl; cbn in Hl; lia|exact Hw|exact Hx|apply NoDup_ListNoDup, Hd|unfold blen in *; lia].
    rewrite (bind_step _ _ _ _ _ (IH (S i) ltac:(lia))). rewrite H0.
    rewrite (drop_S key b i Hb). reflexivity.
Qed.

(** Shares by position, as [SELECT share_data] gives them. *)
Definition pick (shares : list (Z * bytes)) (i : nat) : bytes := snd (nth i shares (0, [])).

Lemma pick_share polys n i :
  0 <= n <= 255 -> (i < Z.to_nat n)%nat ->
  pick (imap (fun i sh => (Z.of_nat i + 1, sh)) (map (share_at polys) (points n))) i
    = share_at polys (Z.of_nat i + 1).
Proof.
  intros Hn Hi. unfold pick.
  rewrite (nth_lookup_Some _ i (0, []) (Z.of_nat i + 1, share_at polys (Z.of_nat i + 1))); [reflexivity|].
  rewrite list_lookup_imap. rewrite <- (nth_points n i Hn Hi) at 2.
  assert (Hl : points n !! i = Some (nth i (points n) 0)).
  { destruct (lookup_lt_is_Some_2 (points n) i) as [x Hx]; [rewrite length_points; exact Hi|].
    rewrite Hx. f_equal. symmetry. apply nth_lookup_Some, Hx. }
  rewrite list_lookup_fmap, Hl. reflexivity.
Qed.

Lemma picked_wf picks n :
  Forall (fun i => (i < Z.to_nat n)%nat) picks -> n <= 255 ->
  let xs := map (fun i => Z.of_nat i + 1) picks in wf_bytes xs = true /\ ~ In 0 xs.
Proof.
  intros Hf Hn xs. split.
  - apply forallb_forall. intros x Hx. apply in_map_iff in Hx as (i & <- & Hi). apply is_byte_iff.
    apply (proj1 (List.Forall_forall _ _) Hf) in Hi. lia.
  - intros Hx. apply in_map_iff in Hx as (i & E & _). lia.
Qed.

Lemma picked_points picks n :
  NoDup picks -> Forall (fun i => (i < Z.to_nat n)%nat) picks -> n <= 255 ->
  let xs := map (fun i => Z.of_nat i + 1) picks in NoDup xs /\ wf_bytes xs = true /\ ~ In 0 xs.
Proof.
  intros Hd Hf Hn xs. split; [|apply (picked_wf picks n Hf Hn)].
  apply NoDup_fmap_2; [intros i j E; lia|exact Hd].
Qed.

Lemma map_pick polys n picks :
  0 <= n <= 255 -> Forall (fun i => (i < Z.to_nat n)%nat) picks ->
  map (pick (imap (fun i sh => (Z.of_nat i + 1, sh)) (map (share_at polys) (points n)))) picks
    = map (share_at polys) (map (fun i => Z.of_nat i + 1) picks).
Proof.
  intros Hn Hf. rewrite map_map. apply map_ext_Forall. eapply Forall_impl; [exact Hf|]. cbn.
  intros i Hi. apply pick_share; assumption.
Qed.

Lemma polys_length key threshold polys : polys_for key threshold polys -> length polys = length key.
Proof. intros Hp. symmetry. apply (Forall2_length _ _ _ Hp). Qed.

(** Recovery from shares of enough distinct points. *)
Lemma recover_ok key threshold polys xs p d :
  polys_for key threshold polys -> key <> [] -> wf_bytes xs = true -> NoDup xs ->
  2 <= threshold <= blen xs -> d_superuser d = true ->
  pqc_escrow_recover (Some (map Some (map (share_at polys) xs))) (p, d) = (Ok ("success"%string, key), (p, d)).
Proof.
  intros Hp Hne Hx Hd Ht Hsu. pose proof (polys_length _ _ _ Hp) as Hl. unfold pqc_escrow_recover.
  rewrite (bind_step _ _ _ d (p, d)) by reflexivity. rewrite Hsu, !length_map. cbn [negb].
  replace (length xs <? 2)%nat with false by (symmetry; apply Nat.ltb_ge; unfold blen in Ht; lia).
  assert (Hsh : forall x, length (share_at polys x) = S (length key))
    by (intros x; cbn; rewrite length_map, Hl; reflexivity).
  assert (Hpos : (1 <= length key)%nat) by (destruct key; [contradiction|cbn; lia]).
  rewrite (bind_step _ _ _ (map (share_at polys) xs) (p, d)).
  2:{ apply check_shares_ok, List.Forall_forall. intros sh Hin.
      apply in_map_iff in Hin as (x & <- & _). rewrite Hsh. lia. }
  destruct xs as [|x0 xs]; [unfold blen in Ht; cbn in Ht; lia|]. cbn [map hd tl]. rewrite Hsh.
  replace (forallb _ _) with true.
  2:{ symmetry. apply forallb_forall. intros sh Hin. apply in_map_iff in Hin as (x & <- & _).
      rewrite Hsh. apply Nat.eqb_refl. }
  cbn [negb]. cbv zeta. change (share_at polys x0 :: map (share_at polys) xs) with (map (share_at polys) (x0 :: xs)).
  rewrite map_map. change (fun x => nth 0 (share_at polys x) 0) with (fun x : Z => x).
  rewrite map_id. change (nth 0 (share_at polys x0) 0) with x0.
  rewrite (bind_step _ _ _ key (p, d)); [reflexivity|]. rewrite Nat.sub_1_r. cbn [Nat.pred].
  apply (recover_bytes_ok key threshold polys (x0 :: xs) (p, d) Hp Hx Hd ltac:(lia)). lia.
Qed.

(** C11: roundtrip.  Enough shares give back what was shared.  For a process
    that survives the use of the released memory, the creation of shares does
    not end the process however its calls fail, and returns shares where none
    fails.  From any returned shares every choice of at least [threshold]
    different ones, in any order and in any later session of a superuser,
    recovers exactly the bytes that were read of the released memory, which are
    the active key as long as nothing has reused it ([content = key]). *)
Theorem escrow_recovers p d p2 d2 nm n threshold alg pk key content :
  registry_ok p -> d_superuser d = true -> d_superuser d2 = true ->
  current "pqc" d = Some (alg, pk, key) -> key <> [] ->
  read_released key = Some content -> pfree_released = Ok tt ->
  2 <= threshold <= n -> n <= 255 ->
  exists o s', pqc_escrow_create (Some nm) n threshold (p, d) = (o, s') /\ o <> Fatal /\
    (no_faults (p_env p) -> exists shares, o = Ok shares) /\
    forall shares, o = Ok shares -> length shares = Z.to_nat n /\
      forall picks, NoDup picks -> Forall (fun i => (i < Z.to_nat n)%nat) picks ->
        threshold <= Z.of_nat (length picks) ->
        pqc_escrow_recover (Some (map (fun i => Some (pick shares i)) picks)) (p2, d2)
          = (Ok ("success"%string, content), (p2, d2)).
Proof.
  intros Hp Hsu Hsu2 Hk Hne Hrel Hfree Ht Hn.
  destruct (spec_run benvL (key_tables d) true _ _ (p, d)
              (create_spec d true nm n threshold alg pk key content Hsu Hk Hrel Hfree Ht Hn))
    as (o & s' & Hr & Hf & _ & Ho & Hok); [repeat split; exact Hp|].
  exists o, s'. split; [exact Hr|]. split; [exact Hf|].
  split; [intros Hnf; destruct (Hok eq_refl Hnf) as (_ & a & -> & _); eauto|].
  intros shares ->. destruct (Ho shares eq_refl) as (polys & Hpl & ->).
  split; [rewrite length_imap, length_map, length_points; reflexivity|]. intros picks Hd Hin Hlen.
  destruct (picked_points picks n Hd Hin Hn) as (Hxd & Hxw & _).
  rewrite <- (map_map (pick _) Some), map_pick by (assumption || lia).
  apply (recover_ok content threshold); auto.
  - intros ->. apply Hne. apply read_released_length in Hrel. destruct key; [reflexivity|discriminate].
  - unfold blen. rewrite length_map. lia.
Qed.
End EscrowProperties.

(** ** Secrecy *)






Section CalmCreation.
  Context `{Crypto} `{Rel : Released}.




End CalmCreation.

Section Secrecy.
  Context `{C : Crypto}.
  Variables (xs : bytes) (n : nat).






End Secrecy.


Import Toy ToyJson.

(** Memory that keeps its bytes after it was released. *)
#[local] Instance kept_memory : Released := {|
  read_released b := Some (map u8 b);
  string_released x := Some x;
  pfree_released := Ok tt;
  palloced := zeros
|}.

#[local] Instance kept_memory_laws : ReleasedLaws.
Proof.
  split.
  - intros b c [= <-]. apply length_map.
  - intros b c [= <-]. apply forallb_forall. intros x Hx. apply in_map_iff in Hx as (y & <- & _).
    apply is_byte_iff, Z.mod_pos_bound. lia.
  - intros n. apply repeat_length.
  - intros n. apply forallb_forall. intros x Hx. apply repeat_spec in Hx as ->. reflexivity.
Qed.

(** The backend of the audit samples has an ML-DSA key of seven bytes. *)
Definition sample_key : bytes := kr_psk (ring 0 1).

Lemma escrow_recovers_witness :
  exists shares s', pqc_escrow_create (Some "e"%string) 4 3 audit1 = (Ok shares, s') /\
    pqc_escrow_recover (Some (map (fun i => Some (pick shares i)) [3; 0; 2]%nat)) audit0
      = (Ok ("success"%string, sample_key), audit0).
Proof.
  destruct (escrow_recovers (fst audit1) (snd audit1) (fst audit0) (snd audit0) "e" 4 3
              "ml-dsa-65" (kr_ppk (ring 0 1)) sample_key sample_key)
    as (o & s' & Hr & _ & Hn & Hs); [vm_compute; reflexivity..|discriminate|vm_compute; reflexivity|reflexivity|lia|lia|].
  destruct Hn as [shares ->]; [vm_compute; reflexivity|].
  rewrite <- surjective_pairing in Hr. exists shares, s'. split; [exact Hr|].
  apply (Hs shares eq_refl).
  - apply NoDup_ListNoDup. repeat constructor; cbn; intuition discriminate.
  - repeat constructor.
  - cbn. lia.
Defined.



