(* ===== verification/PqcCommonFe.v ===== *)
(** * The front-end library (src/common/pqc-common.c)

    KEM and signature contexts over liboqs, key files and AES-256-GCM for the
    client programs.  Functions return an error code instead of raising, and
    [malloc] is a call that can fail; a context is passed in and the context it
    has become is returned.  Releasing memory is not modelled. *)
From Stdlib Require Import ZArith Lia Bool String List.
From stdpp Require Import base gmap list strings.
From S2P Require Import Prelude CryptoIface Env.
Import ListNotations.
Local Open Scope Z_scope.
Local Open Scope pg_scope.

(** What an allocation of [n] bytes holds before it is written. *)
Class Heap := { uninit : nat -> bytes }.

Record PqcKemContext := mkPqcKemContext {
  kem_algorithm : string;
  kem_public_key : option bytes;
  kem_public_key_len : nat;
  kem_secret_key : option bytes;
  kem_secret_key_len : nat;
  kem_shared_secret : option bytes;
  kem_shared_secret_len : nat;
  kem_ciphertext : option bytes;
  kem_ciphertext_len : nat
}.

Record PqcSigContext := mkPqcSigContext {
  sig_algorithm : string;
  sig_public_key : option bytes;
  sig_public_key_len : nat;
  sig_secret_key : option bytes;
  sig_secret_key_len : nat
}.

Definition set_kem_keys (pk sk : option bytes) (c : PqcKemContext) : PqcKemContext :=
  mkPqcKemContext (kem_algorithm c) pk (kem_public_key_len c) sk (kem_secret_key_len c)
    (kem_shared_secret c) (kem_shared_secret_len c) (kem_ciphertext c) (kem_ciphertext_len c).
Definition set_kem_secret (ct ss : option bytes) (c : PqcKemContext) : PqcKemContext :=
  mkPqcKemContext (kem_algorithm c) (kem_public_key c) (kem_public_key_len c) (kem_secret_key c)
    (kem_secret_key_len c) ss (kem_shared_secret_len c) ct (kem_ciphertext_len c).
Definition set_sig_keys (pk sk : option bytes) (c : PqcSigContext) : PqcSigContext :=
  mkPqcSigContext (sig_algorithm c) pk (sig_public_key_len c) sk (sig_secret_key_len c).

Section FrontEnd.
  Context `{Crypto} `{Heap}.

Definition malloc (n : nat) : M env (option bytes) :=
  let! ok := attempt in ret (if ok then Some (uninit n) else None).

(** ** Key encapsulation *)

Definition pqc_kem_ctx_new (algorithm : string) : M env (option PqcKemContext) :=
  match OQS_KEM_new algorithm with
  | None => ret None
  | Some kem =>
      let! ctx := attempt in
      if negb ctx then ret None
      else
        let! name := attempt in
        if negb name then ret None
        else
          ret (Some (mkPqcKemContext algorithm None (kem_length_public_key kem)
                       None (kem_length_secret_key kem) None (kem_length_shared_secret kem)
                       None (kem_length_ciphertext kem)))
  end.

Definition pqc_kem_generate_keypair (ctx : option PqcKemContext)
    : M env (Z * option PqcKemContext) :=
  match ctx with
  | None => ret (-1, None)
  | Some c =>
      match OQS_KEM_new (kem_algorithm c) with
      | None => ret (-1, Some c)
      | Some kem =>
          let! pk := malloc (kem_public_key_len c) in
          let! sk := malloc (kem_secret_key_len c) in
          let c1 := set_kem_keys pk sk c in
          match pk, sk with
          | Some _, Some _ =>
              let! rc := attempt in
              if negb rc then ret (-1, Some c1)
              else
                let! d := next_draw in
                let (pk, sk) := OQS_KEM_keypair kem d in
                ret (0, Some (set_kem_keys (Some pk) (Some sk) c))
          | _, _ => ret (-1, Some c1)
          end
      end
  end.

Definition pqc_kem_encapsulate (ctx : option PqcKemContext) : M env (Z * option PqcKemContext) :=
  match ctx with
  | None => ret (-1, None)
  | Some c =>
      match kem_public_key c with
      | None => ret (-1, Some c)
      | Some pk =>
          match OQS_KEM_new (kem_algorithm c) with
          | None => ret (-1, Some c)
          | Some kem =>
              let! ct := malloc (kem_ciphertext_len c) in
              let! ss := malloc (kem_shared_secret_len c) in
              let c1 := set_kem_secret ct ss c in
              match ct, ss with
              | Some _, Some _ =>
                  let! rc := attempt in
                  if negb rc then ret (-1, Some c1)
                  else
                    let! d := next_draw in
                    let (ct, ss) := OQS_KEM_encaps kem pk d in
                    ret (0, Some (set_kem_secret (Some ct) (Some ss) c))
              | _, _ => ret (-1, Some c1)
              end
          end
      end
  end.

Definition pqc_kem_decapsulate (ctx : option PqcKemContext) (ciphertext : bytes)
    : M env (Z * option PqcKemContext) :=
  match ctx with
  | None => ret (-1, None)
  | Some c =>
      match kem_secret_key c with
      | None => ret (-1, Some c)
      | Some sk =>
          match OQS_KEM_new (kem_algorithm c) with
          | None => ret (-1, Some c)
          | Some kem =>
              if negb (length ciphertext =? kem_length_ciphertext kem)%nat then ret (-1, Some c)
              else
                let! ss := malloc (kem_shared_secret_len c) in
                let c1 := set_kem_secret (kem_ciphertext c) ss c in
                match ss with
                | None => ret (-1, Some c1)
                | Some _ =>
                    let! rc := attempt in
                    if negb rc then ret (-1, Some c1)
                    else ret (0, Some (set_kem_secret (kem_ciphertext c)
                                         (Some (OQS_KEM_decaps kem ciphertext sk)) c))
                end
          end
      end
  end.

(** ** Key files *)

(** [fseek] to the end, [ftell], [fseek] back, an allocation and one [fread]. *)
Definition read_file_contents (path : string) : M env (option bytes) :=
  let! fp := fopen_read path in
  match fp with
  | None => ret None
  | Some stream =>
      let! sized := attempts 3 in
      if negb sized then ret None
      else
        let! buf := malloc (length stream) in
        match buf with
        | None => ret None
        | Some _ =>
            let! got := fread_upto (blen stream) stream in
            if (length got =? length stream)%nat then ret (Some got) else ret None
        end
  end.

(** The contents of a file of the expected length. *)
Definition load_key (path : string) (len : nat) : M env (option bytes) :=
  let! r := read_file_contents path in
  match r with
  | None => ret None
  | Some data => if negb (length data =? len)%nat then ret None else ret (Some data)
  end.

Definition pqc_kem_load_public_key (ctx : option PqcKemContext) (path : option string)
    : M env (Z * option PqcKemContext) :=
  match ctx, path with
  | Some c, Some p =>
      let! r := load_key p (kem_public_key_len c) in
      match r with
      | None => ret (-1, Some c)
      | Some data => ret (0, Some (set_kem_keys (Some data) (kem_secret_key c) c))
      end
  | _, _ => ret (-1, ctx)
  end.

Definition pqc_kem_load_secret_key (ctx : option PqcKemContext) (path : option string)
    : M env (Z * option PqcKemContext) :=
  match ctx, path with
  | Some c, Some p =>
      let! r := load_key p (kem_secret_key_len c) in
      match r with
      | None => ret (-1, Some c)
      | Some data => ret (0, Some (set_kem_keys (kem_public_key c) (Some data) c))
      end
  | _, _ => ret (-1, ctx)
  end.

(** ** Signatures *)

Definition pqc_sig_ctx_new (algorithm : string) : M env (option PqcSigContext) :=
  match OQS_SIG_new algorithm with
  | None => ret None
  | Some sig =>
      let! ctx := attempt in
      if negb ctx then ret None
      else
        let! name := attempt in
        if negb name then ret None
        else ret (Some (mkPqcSigContext algorithm None (sig_length_public_key sig)
                          None (sig_length_secret_key sig)))
  end.

(** Either path may be NULL; a key loaded before a failure stays loaded. *)
Definition pqc_sig_load_keys (ctx : option PqcSigContext) (pub_path sec_path : option string)
    : M env (Z * option PqcSigContext) :=
  match ctx with
  | None => ret (-1, None)
  | Some c =>
      let! (ok, c1) :=
        match pub_path with
        | None => ret (true, c)
        | Some p =>
            let! r := load_key p (sig_public_key_len c) in
            ret (match r with
                 | None => (false, c)
                 | Some data => (true, set_sig_keys (Some data) (sig_secret_key c) c)
                 end)
        end in
      if negb ok then ret (-1, Some c1)
      else
        match sec_path with
        | None => ret (0, Some c1)
        | Some p =>
            let! r := load_key p (sig_secret_key_len c1) in
            ret (match r with
                 | None => (-1, Some c1)
                 | Some data => (0, Some (set_sig_keys (sig_public_key c1) (Some data) c1))
                 end)
        end
  end.

(** The signature, or nothing with the result -1. *)
Definition pqc_common_sign (ctx : option PqcSigContext) (msg : option bytes)
    : M env (option bytes) :=
  match ctx, msg with
  | Some c, Some m =>
      match sig_secret_key c with
      | None => ret None
      | Some sk =>
          match OQS_SIG_new (sig_algorithm c) with
          | None => ret None
          | Some oqs_sig =>
              let! buf := malloc (sig_length_signature oqs_sig) in
              match buf with
              | None => ret None
              | Some _ =>
                  let! rc := attempt in
                  if negb rc then ret None
                  else let! d := next_draw in ret (Some (OQS_SIG_sign oqs_sig m sk d))
              end
          end
      end
  | _, _ => ret None
  end.

Definition pqc_common_verify (ctx : option PqcSigContext) (msg sig : option bytes) : M env Z :=
  match ctx, msg, sig with
  | Some c, Some m, Some s =>
      match sig_public_key c with
      | None => ret (-1)
      | Some pk =>
          match OQS_SIG_new (sig_algorithm c) with
          | None => ret (-1)
          | Some oqs_sig =>
              let! rc := attempt in
              ret (if rc && OQS_SIG_verify oqs_sig m s pk then 0 else -1)
          end
      end
  | _, _, _ => ret (-1)
  end.

(** ** AES-256-GCM

    The length goes to OpenSSL as an [int]; a negative one makes it read
    outside the buffer. *)

Definition valid_tag_len (n : nat) : bool := (1 <=? n)%nat && (n <=? 16)%nat.

(** Ciphertext and the first [tag_len] bytes of the tag. *)
Definition pqc_aes256gcm_encrypt (key iv plaintext : bytes) (tag_len : nat)
    : M env (option (bytes * bytes)) :=
  let! ctx := attempt in
  if negb ctx then ret None
  else
    let! init := attempts 3 in
    if negb init then ret None
    else
      let n := c_int (blen plaintext) in
      if n <? 0 then fatal
      else
        let! ok := attempts 3 in
        if negb (ok && valid_tag_len tag_len) then ret None
        else
          let (ct, tag) := gcm_seal key iv (firstn (Z.to_nat n) plaintext) in
          ret (Some (ct, firstn tag_len tag)).

Definition pqc_aes256gcm_decrypt (key iv ciphertext tag : bytes) : M env (option bytes) :=
  let! ctx := attempt in
  if negb ctx then ret None
  else
    let! init := attempts 3 in
    if negb init then ret None
    else
      let n := c_int (blen ciphertext) in
      if n <? 0 then fatal
      else
        let! ok := attempts 2 in
        if negb (ok && valid_tag_len (length tag)) then ret None
        else
          let ct := firstn (Z.to_nat n) ciphertext in
          let! final := attempt in
          if negb (final && bytes_eqb tag (firstn (length tag) (AES256_GCM_tag key iv ct)))
          then ret None
          else ret (Some (gcm_crypt key iv ct)).
End FrontEnd.

(** ** Lemmas: runs in which no call fails *)

(** A value no larger than the length it came from. *)
Lemma c_int_nonneg n : 0 <= n -> 0 <= c_int n -> c_int n <= n.
Proof.
  intros Hn Hc. unfold c_int in *. pose proof (Z.mod_le (n + 2 ^ 31) (2 ^ 32)). lia.
Qed.

Section FrontEndLemmas.
  Context `{CL : CryptoLaws} `{Hp : Heap}.

Lemma malloc_ok n e : no_faults e -> malloc n e = (Ok (Some (uninit n)), e).
Proof. intros Hn. unfold malloc. mrun (attempt_no_faults e Hn). reflexivity. Qed.

Lemma fopen_read_ok path f e :
  no_faults e -> files e !! path = Some f -> fopen_read path e = (Ok (Some (f_data f)), e).
Proof. intros Hn Hf. unfold fopen_read. mrun (attempt_no_faults e Hn). cbn. rewrite Hf. reflexivity. Qed.

Lemma fread_upto_ok stream e :
  no_faults e -> fread_upto (blen stream) stream e = (Ok stream, e).
Proof.
  intros Hn. unfold fread_upto, bind, next_fault. rewrite Hn. cbn.
  unfold blen. rewrite Nat2Z.id, firstn_all. reflexivity.
Qed.

Lemma load_key_ok path f e :
  no_faults e -> files e !! path = Some f ->
  load_key path (length (f_data f)) e = (Ok (Some (f_data f)), e).
Proof.
  intros Hn Hf. unfold load_key, read_file_contents.
  rewrite (bind_step _ _ _ (Some (f_data f)) e); [cbv beta iota; rewrite Nat.eqb_refl; reflexivity|].
  mrun (fopen_read_ok path f e Hn Hf). mrun (attempts_no_faults 3 e Hn). cbn [negb].
  mrun (malloc_ok (length (f_data f)) e Hn). mrun (fread_upto_ok (f_data f) e Hn).
  rewrite Nat.eqb_refl. reflexivity.
Qed.

Lemma gcm_encrypt_ok key iv plaintext e :
  no_faults e -> blen plaintext < 2 ^ 31 ->
  pqc_aes256gcm_encrypt key iv plaintext 16 e = (Ok (Some (gcm_seal key iv plaintext)), e).
Proof.
  intros Hn Hl. unfold pqc_aes256gcm_encrypt. mrun (attempt_no_faults e Hn). cbn [negb].
  mrun (attempts_no_faults 3 e Hn). cbn [negb]. cbv zeta.
  assert (Hb : 0 <= blen plaintext) by (unfold blen; lia).
  rewrite c_int_small by lia. destruct (Z.ltb_spec (blen plaintext) 0); [lia|].
  mrun (attempts_no_faults 3 e Hn). cbn [andb negb valid_tag_len Nat.leb].
  unfold blen. rewrite Nat2Z.id, firstn_all. unfold gcm_seal.
  rewrite firstn_all2 by (rewrite GCM_tag_length; lia). reflexivity.
Qed.

Lemma gcm_decrypt_ok key iv text e :
  no_faults e -> blen text < 2 ^ 31 ->
  pqc_aes256gcm_decrypt key iv (gcm_crypt key iv text) (AES256_GCM_tag key iv (gcm_crypt key iv text)) e
  = (Ok (Some text), e).
Proof.
  intros Hn Hl. unfold pqc_aes256gcm_decrypt. mrun (attempt_no_faults e Hn). cbn [negb].
  mrun (attempts_no_faults 3 e Hn). cbn [negb]. cbv zeta.
  assert (Hb : blen (gcm_crypt key iv text) = blen text) by (unfold blen; rewrite length_gcm_crypt; reflexivity).
  assert (Hb0 : 0 <= blen text) by (unfold blen; lia).
  rewrite Hb, c_int_small by lia. destruct (Z.ltb_spec (blen text) 0); [lia|].
  mrun (attempts_no_faults 2 e Hn). rewrite GCM_tag_length. cbn [andb negb valid_tag_len Nat.leb].
  mrun (attempt_no_faults e Hn). unfold blen. rewrite Nat2Z.id.
  rewrite (firstn_all2 (gcm_crypt key iv text)) by (rewrite length_gcm_crypt; lia).
  rewrite firstn_all2 by (rewrite GCM_tag_length; lia).
  rewrite bytes_eqb_refl. cbn [andb negb]. rewrite gcm_crypt_involutive. reflexivity.
Qed.

(** However the library behaves, a decryption that returns a text has seen a
    tag that is right for the part of the ciphertext it has read. *)
Lemma gcm_decrypt_inv key iv ct tag e pt e' :
  pqc_aes256gcm_decrypt key iv ct tag e = (Ok (Some pt), e') -> length tag = 16%nat ->
  0 <= c_int (blen ct) /\
  pt = gcm_crypt key iv (firstn (Z.to_nat (c_int (blen ct))) ct) /\
  tag = AES256_GCM_tag key iv (firstn (Z.to_nat (c_int (blen ct))) ct).
Proof.
  intros Hr Ht. unfold pqc_aes256gcm_decrypt in Hr. minv Hr. destruct a; [|discriminate].
  cbn [negb] in Hr. minv Hr. destruct a; [|discriminate]. cbn [negb] in Hr. cbv zeta in Hr.
  destruct (Z.ltb_spec (c_int (blen ct)) 0); [discriminate|]. minv Hr.
  destruct (a && valid_tag_len (length tag)); [|discriminate]. cbn [negb] in Hr. minv Hr.
  destruct a0; [|discriminate]. cbn [andb] in Hr.
  destruct (bytes_eqb tag _) eqn:He; [|discriminate]. injection Hr as <- _.
  apply bytes_eqb_eq in He. rewrite Ht, firstn_all2 in He by (rewrite GCM_tag_length; lia).
  auto.
Qed.

(** ** Lemmas: runs in which anything can fail *)

Lemma attempt_files b e e' : attempt e = (Ok b, e') -> files e' = files e.
Proof. destruct (attempt_run e) as (b' & fs & ->). intros [= _ <-]. reflexivity. Qed.

Lemma attempts_files n b e e' : attempts n e = (Ok b, e') -> files e' = files e.
Proof. destruct (attempts_run n e) as (b' & fs & ->). intros [= _ <-]. reflexivity. Qed.

(** A key that was loaded is the whole file and has the expected length. *)
Lemma load_key_inv path len e data e' :
  load_key path len e = (Ok (Some data), e') ->
  exists f, files e !! path = Some f /\ data = f_data f /\ length data = len.
Proof.
  intros Hr. unfold load_key in Hr. minv Hr. destruct a as [d|]; [|discriminate].
  destruct (Nat.eqb_spec (length d) len) as [Hl|]; [|discriminate]. injection Hr as <- _.
  unfold read_file_contents in Hm. minv Hm. destruct a as [stream|]; [|discriminate].
  unfold fopen_read in Hm0. minv Hm0. destruct a; [|discriminate]. injection Hm0 as Hf _.
  rewrite (attempt_files _ _ _ Hm1) in Hf. destruct (files e !! path) as [f|]; [|discriminate].
  injection Hf as <-. exists f. split; [reflexivity|]. split; [|exact Hl].
  minv Hm. destruct a; [|discriminate]. cbn [negb] in Hm. minv Hm. destruct a; [|discriminate].
  minv Hm. destruct (Nat.eqb_spec (length a) (length (f_data f))) as [Ha|]; [|discriminate].
  injection Hm as <- _. unfold fread_upto in Hm3. minv Hm3. injection Hm3 as <- _.
  destruct a0 as [k|]; rewrite ?length_firstn in Ha; rewrite ?firstn_firstn, firstn_all2 by lia;
    reflexivity.
Qed.
End FrontEndLemmas.
