(* ===== verification/DumpCrypt.v ===== *)
(** * Encryption and signing of dumps (src/bin/pg_dump/compress_pqc.c)

    A dump is a sequence of chunks, each sealed with AES-256-GCM under a key
    from a key encapsulation and a nonce made of a base IV and a counter; a
    signature covers the SHA-256 of the data.  [pg_fatal] ends the program.

    The running hash is the list of bytes fed to it, [None] once it has been
    finalised. *)
From Stdlib Require Import ZArith Lia Bool String List.
From stdpp Require Import base gmap list strings.
From S2P Require Import Prelude CryptoIface Env PqcCommonFe.
Import ListNotations.
Local Open Scope Z_scope.
Local Open Scope pg_scope.

Definition PQC_AES_IV_LEN : nat := 12.
Definition PQC_AES_TAG_LEN : nat := 16.

Record PqcEncryptorState := mkEncryptor {
  en_kem_ctx : option PqcKemContext;
  en_aes_key : bytes;
  en_aes_iv : bytes;
  en_chunk_counter : Z;
  en_hash_ctx : option bytes
}.

Record PqcDecryptorState := mkDecryptor {
  de_kem_ctx : option PqcKemContext;
  de_aes_key : bytes;
  de_aes_iv : bytes;
  de_chunk_counter : Z;
  de_hash_ctx : option bytes
}.

Record PqcSignState := mkSign {
  si_sig_ctx : option PqcSigContext;
  si_hash_ctx : option bytes
}.

Record PqcVerifyState := mkVerify {
  ve_sig_ctx : option PqcSigContext;
  ve_hash_ctx : option bytes
}.

Definition set_en (counter : Z) (h : option bytes) (s : PqcEncryptorState) : PqcEncryptorState :=
  mkEncryptor (en_kem_ctx s) (en_aes_key s) (en_aes_iv s) counter h.
Definition set_de (counter : Z) (h : option bytes) (s : PqcDecryptorState) : PqcDecryptorState :=
  mkDecryptor (de_kem_ctx s) (de_aes_key s) (de_aes_iv s) counter h.

(** The loop over the last eight bytes, from the last one backwards. *)
Definition make_chunk_iv (base_iv : bytes) (counter : Z) : bytes :=
  fold_left (fun out i =>
      alter (fun b => Z.lxor b (u8 (Z.land (Z.shiftr counter (Z.of_nat i * 8)) 255)))
        (PQC_AES_IV_LEN - 1 - i)%nat out)
    (seq 0 8) (firstn PQC_AES_IV_LEN base_iv).

(** Four bytes of length, most significant first. *)
Definition put_length (n : Z) : bytes :=
  [u8 (Z.land (Z.shiftr n 24) 255); u8 (Z.land (Z.shiftr n 16) 255);
   u8 (Z.land (Z.shiftr n 8) 255); u8 (Z.land n 255)].

Definition get_length (l : bytes) : Z :=
  Z.lor (Z.lor (Z.lor (Z.shiftl (nth 0 l 0) 24) (Z.shiftl (nth 1 l 0) 16))
           (Z.shiftl (nth 2 l 0) 8)) (nth 3 l 0).

Section Dump.
  Context `{Crypto} `{Heap}.

Definition derive_aes_key (shared_secret : bytes) : M env bytes :=
  let! mdctx := attempt in
  if negb mdctx then fatal
  else
    let! ok := attempts 3 in
    if negb ok then fatal else ret (SHA256 shared_secret).

(** [EVP_MD_CTX_new] and [EVP_DigestInit_ex] for the running hash. *)
Definition new_hash : M env (option bytes) :=
  let! ctx := attempt in
  if negb ctx then fatal
  else let! init := attempt in if negb init then fatal else ret (Some []).

(** [EVP_DigestUpdate]: refused after the hash has been finalised. *)
Definition hash_update (h : option bytes) (data : bytes) : M env (option bytes * bool) :=
  let! ok := attempt in
  ret (match h with
       | Some acc => if ok then (Some (acc ++ data), true) else (h, false)
       | None => (None, false)
       end).

(** [EVP_DigestFinal_ex] *)
Definition hash_final (h : option bytes) : M env (option bytes) :=
  let! ok := attempt in
  ret (match h with Some acc => if ok then Some (SHA256 acc) else None | None => None end).

(** ** Encryption *)

(** The size of the public key file, checked before it is loaded. *)
Definition check_key_file (path : string) (expected : nat) : M env unit :=
  let! fp := fopen_read path in
  match fp with
  | None => fatal
  | Some stream =>
      let! sized := attempts 2 in
      if negb sized then fatal
      else if (length stream =? 0)%nat then fatal
      else if (0 <? expected)%nat && negb (length stream =? expected)%nat then fatal
      else ret tt
  end.

Definition pqc_encrypt_init (pubkey_path algorithm : string) : M env PqcEncryptorState :=
  let! state := attempt in
  if negb state then fatal
  else
    let! kem_ctx := pqc_kem_ctx_new algorithm in
    match kem_ctx with
    | None => fatal
    | Some c =>
        do! check_key_file pubkey_path (kem_public_key_len c) in
        let! (rc, ctx) := pqc_kem_load_public_key (Some c) (Some pubkey_path) in
        if negb (rc =? 0) then fatal
        else
          let! (rc, ctx) := pqc_kem_encapsulate ctx in
          if negb (rc =? 0) then fatal
          else
            let! aes_key := derive_aes_key (default [] (c ← ctx; kem_shared_secret c)) in
            let! iv := RAND_bytes PQC_AES_IV_LEN in
            match iv with
            | None => fatal
            | Some aes_iv =>
                let! h := new_hash in
                ret (mkEncryptor ctx aes_key aes_iv 0 h)
            end
    end.

(** The state the call leaves, and the chunk when it returns 0. *)
Definition pqc_encrypt_data (state : option PqcEncryptorState) (input : option bytes)
    : M env (option PqcEncryptorState * option bytes) :=
  match state, input with
  | Some st, Some data =>
      if (length data =? 0)%nat then ret (state, None)
      else
        let! (h, fed) := hash_update (en_hash_ctx st) data in
        if negb fed then ret (Some (set_en (en_chunk_counter st) h st), None)
        else
          let chunk_iv := make_chunk_iv (en_aes_iv st) (en_chunk_counter st) in
          let st := set_en (u64 (en_chunk_counter st + 1)) h st in
          let! ct_buf := malloc (length data + 16) in
          match ct_buf with
          | None => ret (Some st, None)
          | Some _ =>
              let! r := pqc_aes256gcm_encrypt (en_aes_key st) chunk_iv data PQC_AES_TAG_LEN in
              match r with
              | None => ret (Some st, None)
              | Some (ct, tag) =>
                  let! out := malloc (4 + length ct + PQC_AES_TAG_LEN) in
                  match out with
                  | None => ret (Some st, None)
                  | Some _ => ret (Some st, Some (put_length (blen ct) ++ ct ++ tag))
                  end
              end
          end
  | _, _ => ret (state, None)
  end.

(** KEM ciphertext and base IV for the header of the archive. *)
Definition pqc_encrypt_finish (state : option PqcEncryptorState) : M env (option (bytes * bytes)) :=
  match state with
  | None => ret None
  | Some st =>
      match en_kem_ctx st with
      | None => ret None
      | Some c =>
          let! buf := malloc (kem_ciphertext_len c) in
          match buf with
          | None => ret None
          | Some _ =>
              match kem_ciphertext c with
              | None => fatal
              | Some ct => ret (Some (firstn (kem_ciphertext_len c) ct, en_aes_iv st))
              end
          end
      end
  end.

(** ** Decryption *)

Definition pqc_decrypt_init (seckey_path algorithm : string) (ciphertext : bytes)
    (base_iv : option bytes) : M env PqcDecryptorState :=
  let! state := attempt in
  if negb state then fatal
  else
    match base_iv with
    | None => fatal
    | Some iv =>
        let! kem_ctx := pqc_kem_ctx_new algorithm in
        match kem_ctx with
        | None => fatal
        | Some c =>
            let! (rc, ctx) := pqc_kem_load_secret_key (Some c) (Some seckey_path) in
            if negb (rc =? 0) then fatal
            else
              let! (rc, ctx) := pqc_kem_decapsulate ctx ciphertext in
              if negb (rc =? 0) then fatal
              else
                let! aes_key := derive_aes_key (default [] (c ← ctx; kem_shared_secret c)) in
                let! h := new_hash in
                ret (mkDecryptor ctx aes_key (firstn PQC_AES_IV_LEN iv) 0 h)
        end
    end.

Definition pqc_decrypt_data (state : option PqcDecryptorState) (input : option bytes)
    : M env (option PqcDecryptorState * option bytes) :=
  match state, input with
  | Some st, Some data =>
      if (length data <? 4 + PQC_AES_TAG_LEN)%nat then ret (state, None)
      else
        let ct_len := get_length data in
        if negb (blen data =? 4 + ct_len + Z.of_nat PQC_AES_TAG_LEN) then ret (state, None)
        else
          let ct_data := sub 4 (Z.to_nat ct_len) data in
          let tag := sub (4 + Z.to_nat ct_len) PQC_AES_TAG_LEN data in
          let chunk_iv := make_chunk_iv (de_aes_iv st) (de_chunk_counter st) in
          let st := set_de (u64 (de_chunk_counter st + 1)) (de_hash_ctx st) st in
          let! pt_buf := malloc (Z.to_nat ct_len + 16) in
          match pt_buf with
          | None => ret (Some st, None)
          | Some _ =>
              let! r := pqc_aes256gcm_decrypt (de_aes_key st) chunk_iv ct_data tag in
              match r with
              | None =>
                  do! elog ERROR_REPORT "AES-256-GCM decryption failed" in
                  ret (Some st, None)
              | Some pt =>
                  let! (h, fed) := hash_update (de_hash_ctx st) pt in
                  let st := set_de (de_chunk_counter st) h st in
                  ret (Some st, if fed then Some pt else None)
              end
          end
  | _, _ => ret (state, None)
  end.

(** Whether the restore has ended well: any existing state has. *)
Definition pqc_decrypt_finish (state : option PqcDecryptorState) : Z :=
  match state with None => -1 | Some _ => 0 end.

(** ** Signing *)

Definition pqc_sign_init (seckey_path algorithm : string) : M env PqcSignState :=
  let! state := attempt in
  if negb state then fatal
  else
    let! sig_ctx := pqc_sig_ctx_new algorithm in
    match sig_ctx with
    | None => fatal
    | Some c =>
        let! (rc, ctx) := pqc_sig_load_keys (Some c) None (Some seckey_path) in
        if negb (rc =? 0) then fatal
        else let! h := new_hash in ret (mkSign ctx h)
    end.

Definition pqc_sign_update (state : option PqcSignState) (data : option bytes)
    : M env (option PqcSignState * Z) :=
  match state, data with
  | Some st, Some d =>
      let! (h, fed) := hash_update (si_hash_ctx st) d in
      ret (Some (mkSign (si_sig_ctx st) h), if fed then 0 else -1)
  | _, _ => ret (state, -1)
  end.

Definition pqc_sign_finish (state : option PqcSignState)
    : M env (option PqcSignState * option bytes) :=
  match state with
  | None => ret (None, None)
  | Some st =>
      let! r := hash_final (si_hash_ctx st) in
      match r with
      | None =>
          do! elog ERROR_REPORT "could not finalize SHA-256 hash for backup signing" in
          ret (state, None)
      | Some hash =>
          let st := mkSign (si_sig_ctx st) None in
          let! sig := pqc_common_sign (si_sig_ctx st) (Some hash) in
          match sig with
          | None =>
              do! elog ERROR_REPORT "PQC signature generation failed for backup" in
              ret (Some st, None)
          | Some s => ret (Some st, Some s)
          end
      end
  end.

(** ** Verification *)

Definition pqc_verify_init (pubkey_path algorithm : string) : M env PqcVerifyState :=
  let! state := attempt in
  if negb state then fatal
  else
    let! sig_ctx := pqc_sig_ctx_new algorithm in
    match sig_ctx with
    | None => fatal
    | Some c =>
        let! (rc, ctx) := pqc_sig_load_keys (Some c) (Some pubkey_path) None in
        if negb (rc =? 0) then fatal
        else let! h := new_hash in ret (mkVerify ctx h)
    end.

Definition pqc_verify_update (state : option PqcVerifyState) (data : option bytes)
    : M env (option PqcVerifyState * Z) :=
  match state, data with
  | Some st, Some d =>
      let! (h, fed) := hash_update (ve_hash_ctx st) d in
      ret (Some (mkVerify (ve_sig_ctx st) h), if fed then 0 else -1)
  | _, _ => ret (state, -1)
  end.

Definition pqc_verify_finish (state : option PqcVerifyState) (sig : option bytes)
    : M env (option PqcVerifyState * Z) :=
  match state, sig with
  | Some st, Some s =>
      let! r := hash_final (ve_hash_ctx st) in
      match r with
      | None =>
          do! elog ERROR_REPORT "could not finalize SHA-256 hash for backup verification" in
          ret (state, -1)
      | Some hash =>
          let st := mkVerify (ve_sig_ctx st) None in
          let! rc := pqc_common_verify (ve_sig_ctx st) (Some hash) (Some s) in
          if negb (rc =? 0) then
            do! elog ERROR_REPORT "PQC signature verification failed" in
            ret (Some st, -1)
          else ret (Some st, 0)
      end
  | _, _ => ret (state, -1)
  end.
End Dump.

(** ** Nonces and lengths *)

Lemma lor_shiftl_add a b k : 0 <= k -> 0 <= b < 2 ^ k -> Z.lor (Z.shiftl a k) b = a * 2 ^ k + b.
Proof.
  intros Hk Hb. assert (Hd : Z.land (Z.shiftl a k) b = 0).
  { apply Z.bits_inj'. intros n Hn. rewrite Z.land_spec, Z.bits_0. destruct (Z.ltb_spec n k).
    - rewrite Z.shiftl_spec_low by lia. reflexivity.
    - rewrite <- (Z.mod_small b (2 ^ k)), Z.mod_pow2_bits_high by lia. apply andb_false_r. }
  rewrite <- Z.lxor_lor, <- Z.add_nocarry_lxor, Z.shiftl_mul_pow2 by assumption. reflexivity.
Qed.

Lemma byte_field n k : 0 <= k -> u8 (Z.land (Z.shiftr n k) 255) = n / 2 ^ k mod 256.
Proof.
  intros Hk. unfold u8. change 255 with (Z.ones 8). rewrite Z.land_ones, Z.shiftr_div_pow2 by lia.
  change (2 ^ 8) with 256. apply Z.mod_mod. lia.
Qed.

Lemma put_length_be n : put_length n = be_bytes 4 n.
Proof.
  unfold put_length, be_bytes. change (Z.land n 255) with (Z.land (Z.shiftr n 0) 255). rewrite !byte_field by lia.
  cbn [le_bytes rev app]. rewrite !Z.div_div, Z.div_1_r by lia. reflexivity.
Qed.

Lemma get_length_be b0 b1 b2 b3 l :
  wf_bytes [b0; b1; b2; b3] = true -> get_length (b0 :: b1 :: b2 :: b3 :: l) = be_val [b0; b1; b2; b3].
Proof.
  intros Hw. cbn [wf_bytes forallb] in Hw. rewrite !andb_true_iff, !is_byte_iff in Hw.
  destruct Hw as (H0 & H1 & H2 & H3 & _). unfold get_length, be_val. cbn [nth rev app le_val].
  rewrite <- Z.lor_assoc, (lor_shiftl_add b2 b3 8), <- Z.lor_assoc by lia.
  rewrite (lor_shiftl_add b1), (lor_shiftl_add b0) by lia. lia.
Qed.

Lemma get_put_length n l : 0 <= n < 2 ^ 32 -> get_length (put_length n ++ l) = n.
Proof.
  intros Hn. rewrite put_length_be.
  destruct (be_bytes 4 n) as [|b0 [|b1 [|b2 [|b3 [|]]]]] eqn:E;
    try (apply (f_equal length) in E; rewrite length_be_bytes in E; discriminate E).
  cbn [app]. rewrite get_length_be; rewrite <- E; [apply be_val_be_bytes; exact Hn|apply wf_be_bytes].
Qed.

(** The nonce of a chunk: the base IV with the counter in its last bytes. *)
Lemma chunk_iv_eq base c :
  length base = PQC_AES_IV_LEN ->
  make_chunk_iv base c = firstn 4 base ++ xor_bytes (skipn 4 base) (be_bytes 8 c).
Proof.
  intros Hl. do 12 (destruct base as [|? base]; [discriminate Hl|]). destruct base; [|discriminate Hl].
  unfold make_chunk_iv, PQC_AES_IV_LEN.
  cbn [firstn seq fold_left alter list_alter Nat.sub skipn xor_bytes app be_bytes le_bytes rev].
  rewrite !byte_field by lia. rewrite !Z.div_div by lia.
  change (Z.of_nat 0 * 8) with 0. rewrite Z.pow_0_r, Z.div_1_r. reflexivity.
Qed.

Lemma xor_bytes_inj k a b :
  length a = length k -> length b = length k -> xor_bytes k a = xor_bytes k b -> a = b.
Proof.
  revert a b. induction k as [|x k IH]; intros [|y a] [|z b] Ha Hb E; try discriminate; [reflexivity|].
  cbn in *. injection E as Ey E. f_equal; [|apply IH; auto].
  rewrite <- (Z.lxor_0_l y), <- (Z.lxor_0_l z), <- (Z.lxor_nilpotent x), !Z.lxor_assoc, Ey. reflexivity.
Qed.

(** ** One chunk *)

Section DumpLemmas.
  Context `{CL : CryptoLaws} `{Hp : Heap}.

(** A chunk as it is written: length, ciphertext and tag. *)
Definition sealed (key iv : bytes) (counter : Z) (pt : bytes) : bytes :=
  let (ct, tag) := gcm_seal key (make_chunk_iv iv counter) pt in put_length (blen ct) ++ ct ++ tag.

Lemma hash_update_ok acc data e :
  no_faults e -> hash_update (Some acc) data e = (Ok (Some (acc ++ data), true), e).
Proof. intros Hn. unfold hash_update. mrun (attempt_no_faults e Hn). reflexivity. Qed.

Lemma hash_update_inv h data e h' e' :
  hash_update h data e = (Ok (h', true), e') -> exists acc, h = Some acc /\ h' = Some (acc ++ data).
Proof.
  intros Hr. unfold hash_update in Hr. minv Hr. destruct h as [acc|], a; try discriminate.
  injection Hr as <- _. eauto.
Qed.

Lemma encrypt_data_ok st acc data e :
  no_faults e -> en_hash_ctx st = Some acc -> 0 < blen data < 2 ^ 31 ->
  pqc_encrypt_data (Some st) (Some data) e =
    (Ok (Some (set_en (u64 (en_chunk_counter st + 1)) (Some (acc ++ data)) st),
         Some (sealed (en_aes_key st) (en_aes_iv st) (en_chunk_counter st) data)), e).
Proof.
  intros Hn Hh Hd. unfold pqc_encrypt_data, blen in *. destruct (Nat.eqb_spec (length data) 0); [lia|].
  rewrite Hh. mrun (hash_update_ok acc data e Hn). cbn [negb]. cbv zeta.
  mrun (malloc_ok (length data + 16) e Hn). cbn [set_en en_aes_key].
  mrun (gcm_encrypt_ok (en_aes_key st) (make_chunk_iv (en_aes_iv st) (en_chunk_counter st)) data e Hn (proj2 Hd)).
  unfold sealed. destruct (gcm_seal _ _ data) as [ct tag].
  mrun (malloc_ok (4 + length ct + PQC_AES_TAG_LEN) e Hn). reflexivity.
Qed.

Lemma decrypt_data_ok st acc pt e :
  no_faults e -> de_hash_ctx st = Some acc -> blen pt < 2 ^ 31 ->
  pqc_decrypt_data (Some st) (Some (sealed (de_aes_key st) (de_aes_iv st) (de_chunk_counter st) pt)) e =
    (Ok (Some (set_de (u64 (de_chunk_counter st + 1)) (Some (acc ++ pt)) st), Some pt), e).
Proof.
  intros Hn Hh Hp'. unfold pqc_decrypt_data, sealed, gcm_seal.
  set (iv := make_chunk_iv _ _). set (ct := gcm_crypt _ iv pt). set (tag := AES256_GCM_tag _ iv ct).
  assert (Hct : length ct = length pt) by apply length_gcm_crypt.
  assert (Htag : length tag = 16%nat) by apply GCM_tag_length.
  assert (Hb : 0 <= blen ct < 2 ^ 32) by (unfold blen in *; lia).
  assert (Hlen : length (put_length (blen ct) ++ ct ++ tag) = (4 + length ct + 16)%nat)
    by (rewrite !length_app, Htag; reflexivity).
  cbv zeta. rewrite get_put_length by exact Hb. rewrite Hlen.
  destruct (Nat.ltb_spec (4 + length ct + 16) (4 + PQC_AES_TAG_LEN)); [unfold PQC_AES_TAG_LEN in *; lia|].
  assert (Hblen : Z.of_nat (length (put_length (blen ct) ++ ct ++ tag)) =
                  4 + blen ct + Z.of_nat PQC_AES_TAG_LEN)
    by (rewrite Hlen; unfold blen, PQC_AES_TAG_LEN; lia).
  apply Z.eqb_eq in Hblen. change (Z.of_nat (length ?l)) with (blen l) in Hblen. rewrite Hblen.
  cbn [negb]. mrun (malloc_ok (Z.to_nat (blen ct) + 16) e Hn). cbn [set_de de_aes_key de_hash_ctx].
  replace (Z.to_nat (blen ct)) with (length ct) by (unfold blen; lia).
  rewrite (sub_app_r 0 (length ct) (put_length (blen ct)) _ 4), sub_0_app by reflexivity.
  rewrite (sub_app_r (length ct) PQC_AES_TAG_LEN (put_length (blen ct)) _ 4) by reflexivity.
  rewrite <- (Nat.add_0_r (length ct)), (sub_app_r 0 PQC_AES_TAG_LEN ct tag) by reflexivity.
  rewrite <- (app_nil_r tag), sub_0_app by exact Htag.
  mrun (gcm_decrypt_ok (de_aes_key st) iv pt e Hn Hp'). rewrite Hh. mrun (hash_update_ok acc pt e Hn).
  reflexivity.
Qed.

Lemma be_bytes_be_val l : wf_bytes l = true -> be_bytes (length l) (be_val l) = l.
Proof.
  intros Hw. unfold be_bytes, be_val. rewrite <- (length_rev l), le_bytes_le_val, rev_involutive;
    [reflexivity|]. apply forallb_forall. intros x Hx. apply in_rev in Hx.
  revert x Hx. apply forallb_forall, Hw.
Qed.

Lemma c_int_full n : 0 <= n < 2 ^ 32 -> 0 <= c_int n -> c_int n = n.
Proof.
  intros Hn Hc. unfold c_int in *. destruct (Z.ltb_spec n (2 ^ 31)).
  - rewrite Z.mod_small; lia.
  - replace (n + 2 ^ 31) with (n - 2 ^ 31 + 1 * 2 ^ 32) in * by lia.
    rewrite Z.mod_add, Z.mod_small in * by lia. lia.
Qed.

(** The parts of a chunk whose length field fits its size. *)
Lemma chunk_parts data :
  wf_bytes data = true -> (20 <= length data)%nat -> blen data = 4 + get_length data + 16 ->
  0 <= get_length data < 2 ^ 32 /\
  exists ct tag, data = put_length (blen ct) ++ ct ++ tag /\ length tag = 16%nat /\
    blen ct = get_length data /\ sub 4 (Z.to_nat (get_length data)) data = ct /\
    sub (4 + Z.to_nat (get_length data)) 16 data = tag.
Proof.
  intros Hw Hl Hb. do 4 (destruct data as [|? data]; [cbn in Hl; lia|]).
  rename z into b0, z0 into b1, z1 into b2, z2 into b3.
  assert (Hw4 : wf_bytes [b0; b1; b2; b3] = true).
  { cbn [wf_bytes forallb] in *. rewrite !andb_true_iff in *. tauto. }
  rewrite get_length_be in * by exact Hw4. set (v := be_val [b0; b1; b2; b3]) in *.
  assert (Hv : 0 <= v < 2 ^ 32).
  { apply (le_val_bound (rev [b0; b1; b2; b3])). cbn [rev app wf_bytes forallb] in *.
    rewrite !andb_true_iff in *. tauto. }
  split; [exact Hv|]. unfold blen in Hb. cbn [length] in Hb.
  assert (Hf : length (firstn (Z.to_nat v) data) = Z.to_nat v) by (rewrite length_firstn; lia).
  assert (Ht : length (skipn (Z.to_nat v) data) = 16%nat) by (rewrite length_skipn; lia).
  exists (firstn (Z.to_nat v) data), (skipn (Z.to_nat v) data).
  assert (Hbl : blen (firstn (Z.to_nat v) data) = v) by (unfold blen; rewrite Hf; lia).
  split; [|split; [exact Ht|split; [exact Hbl|split; [reflexivity|]]]].
  - rewrite Hbl, put_length_be, firstn_skipn. change 4%nat with (length [b0; b1; b2; b3]).
    unfold v. rewrite be_bytes_be_val by exact Hw4. reflexivity.
  - change (sub (4 + Z.to_nat v) 16 _) with (firstn 16 (skipn (Z.to_nat v) data)).
    apply firstn_all2. lia.
Qed.

(** Whatever fails, a chunk that is accepted is the one the encryptor makes of
    the text with this key, base IV and counter. *)
Lemma decrypt_data_inv st data e st' pt e' :
  pqc_decrypt_data (Some st) (Some data) e = (Ok (st', Some pt), e') -> wf_bytes data = true ->
  exists acc, de_hash_ctx st = Some acc /\
    st' = Some (set_de (u64 (de_chunk_counter st + 1)) (Some (acc ++ pt)) st) /\
    data = sealed (de_aes_key st) (de_aes_iv st) (de_chunk_counter st) pt.
Proof.
  intros Hr Hw. unfold pqc_decrypt_data in Hr.
  destruct (Nat.ltb_spec (length data) (4 + PQC_AES_TAG_LEN)); [discriminate|]. cbv zeta in Hr.
  destruct (Z.eqb_spec (blen data) (4 + get_length data + Z.of_nat PQC_AES_TAG_LEN)) as [Hb|];
    [|discriminate]. cbn [negb] in Hr.
  destruct (chunk_parts data Hw) as (Hg & ct & tag & Hd & Ht & Hbl & Hct & Htag); [assumption..|].
  unfold PQC_AES_TAG_LEN in Hr. rewrite Hct, Htag in Hr. minv Hr. destruct a; [|discriminate].
  minv Hr. destruct a as [pt'|]; [|minv Hr; discriminate].
  minv Hr. destruct a as [h fed]. destruct fed; [|discriminate]. injection Hr as <- <- _.
  destruct (hash_update_inv _ _ _ _ _ Hm1) as (acc & Hh & ->). exists acc.
  split; [exact Hh|]. split; [reflexivity|].
  destruct (gcm_decrypt_inv _ _ _ _ _ _ _ Hm0 Ht) as (Hc & Hpt & Htg). rewrite Hbl in Hc.
  rewrite Hbl, c_int_full, <- Hbl in Hpt, Htg by assumption.
  replace (Z.to_nat (blen ct)) with (length ct) in * by (unfold blen; lia).
  rewrite firstn_all in Hpt, Htg. cbn [set_de de_aes_key] in *.
  unfold sealed, gcm_seal. rewrite Hpt, gcm_crypt_involutive, <- Htg. exact Hd.
Qed.

(** ** Streams of chunks

    How a dump and a restore use the functions: one call per chunk, stopping at
    the first failure. *)

Fixpoint encrypt_all (st : option PqcEncryptorState) (l : list bytes)
    : M env (option PqcEncryptorState * option (list bytes)) :=
  match l with
  | [] => ret (st, Some [])
  | c :: l' =>
      let! (st1, r) := pqc_encrypt_data st (Some c) in
      match r with
      | None => ret (st1, None)
      | Some out => let! (st2, rest) := encrypt_all st1 l' in ret (st2, cons out <$> rest)
      end
  end.

Fixpoint decrypt_all (st : option PqcDecryptorState) (l : list bytes)
    : M env (option PqcDecryptorState * option (list bytes)) :=
  match l with
  | [] => ret (st, Some [])
  | c :: l' =>
      let! (st1, r) := pqc_decrypt_data st (Some c) in
      match r with
      | None => ret (st1, None)
      | Some out => let! (st2, rest) := decrypt_all st1 l' in ret (st2, cons out <$> rest)
      end
  end.

(** The chunks, the KEM ciphertext and the base IV. *)
Definition dump (pub alg : string) (chunks : list bytes)
    : M env (option (list bytes * bytes * bytes)) :=
  let! st := pqc_encrypt_init pub alg in
  let! (st', r) := encrypt_all (Some st) chunks in
  match r with
  | None => ret None
  | Some stream =>
      let! h := pqc_encrypt_finish st' in
      ret ((fun '(ct, iv) => (stream, ct, iv)) <$> h)
  end.

Definition restore (sec alg : string) (ct iv : bytes) (stream : list bytes)
    : M env (option (list bytes)) :=
  let! st := pqc_decrypt_init sec alg ct (Some iv) in
  let! (st', r) := decrypt_all (Some st) stream in
  ret (if pqc_decrypt_finish st' =? 0 then r else None).

(** The stream of a dump, from a value of the counter on. *)
Fixpoint sealed_stream (key iv : bytes) (counter : Z) (chunks : list bytes) : list bytes :=
  match chunks with
  | [] => []
  | c :: l => sealed key iv counter c :: sealed_stream key iv (u64 (counter + 1)) l
  end.

Definition chunk_ok (c : bytes) : Prop := 0 < blen c < 2 ^ 31.

Lemma encrypt_all_ok chunks st acc e :
  no_faults e -> en_hash_ctx st = Some acc -> Forall chunk_ok chunks ->
  exists n, encrypt_all (Some st) chunks e =
    (Ok (Some (set_en n (Some (acc ++ concat chunks)) st),
         Some (sealed_stream (en_aes_key st) (en_aes_iv st) (en_chunk_counter st) chunks)), e).
Proof.
  intros Hn. revert st acc. induction chunks as [|c chunks IH]; intros st acc Hh Hc; cbn [encrypt_all].
  - exists (en_chunk_counter st). cbn [concat]. rewrite app_nil_r, <- Hh. destruct st; reflexivity.
  - apply Forall_cons in Hc as [Hc Hcs]. mrun (encrypt_data_ok st acc c e Hn Hh Hc).
    destruct (IH (set_en (u64 (en_chunk_counter st + 1)) (Some (acc ++ c)) st) (acc ++ c) eq_refl Hcs)
      as (n & Hr). mrun Hr. exists n. cbn [concat]. rewrite <- app_assoc. reflexivity.
Qed.

Lemma decrypt_all_ok chunks st acc e :
  no_faults e -> de_hash_ctx st = Some acc -> Forall chunk_ok chunks ->
  exists n, decrypt_all (Some st)
      (sealed_stream (de_aes_key st) (de_aes_iv st) (de_chunk_counter st) chunks) e =
    (Ok (Some (set_de n (Some (acc ++ concat chunks)) st), Some chunks), e).
Proof.
  intros Hn. revert st acc. induction chunks as [|c chunks IH]; intros st acc Hh Hc;
    cbn [sealed_stream decrypt_all].
  - exists (de_chunk_counter st). cbn [concat]. rewrite app_nil_r, <- Hh. destruct st; reflexivity.
  - apply Forall_cons in Hc as [Hc Hcs]. mrun (decrypt_data_ok st acc c e Hn Hh (proj2 Hc)).
    destruct (IH (set_de (u64 (de_chunk_counter st + 1)) (Some (acc ++ c)) st) (acc ++ c) eq_refl Hcs)
      as (n & Hr). cbn [set_de de_aes_key de_aes_iv de_chunk_counter] in Hr.
    mrun Hr. exists n. cbn [concat]. rewrite <- app_assoc. reflexivity.
Qed.

Lemma decrypt_all_inv stream st e st' out e' :
  decrypt_all (Some st) stream e = (Ok (st', Some out), e') ->
  Forall (fun c => wf_bytes c = true) stream ->
  stream = sealed_stream (de_aes_key st) (de_aes_iv st) (de_chunk_counter st) out.
Proof.
  revert st e st' out e'. induction stream as [|c stream IH]; intros st e st' out e' Hr Hw;
    cbn [decrypt_all] in Hr.
  - injection Hr as _ <- _. reflexivity.
  - apply Forall_cons in Hw as [Hc Hw]. minv Hr. destruct a as [st1 [pt|]]; [|discriminate].
    minv Hr. destruct a as [st2 [rest|]]; [|discriminate]. injection Hr as <- <- _.
    destruct (decrypt_data_inv _ _ _ _ _ _ Hm Hc) as (acc & _ & -> & Hd).
    apply IH in Hm0; [|exact Hw]. cbn [sealed_stream]. rewrite Hd at 1. f_equal. exact Hm0.
Qed.

Lemma firstn_sealed key iv n counter chunks :
  firstn n (sealed_stream key iv counter chunks) = sealed_stream key iv counter (firstn n chunks).
Proof.
  revert n counter. induction chunks as [|c chunks IH]; intros [|n] counter; cbn; try reflexivity.
  rewrite IH. reflexivity.
Qed.

(** ** Opening and closing a dump *)

Lemma derive_ok ss e : no_faults e -> derive_aes_key ss e = (Ok (SHA256 ss), e).
Proof.
  intros Hn. unfold derive_aes_key. mrun (attempt_no_faults e Hn). cbn [negb].
  mrun (attempts_no_faults 3 e Hn). reflexivity.
Qed.

Lemma derive_inv ss e key e' : derive_aes_key ss e = (Ok key, e') -> key = SHA256 ss.
Proof.
  intros Hr. unfold derive_aes_key in Hr. minv Hr. destruct a; [|discriminate]. cbn [negb] in Hr.
  minv Hr. destruct a; [|discriminate]. injection Hr as <- _. reflexivity.
Qed.

Lemma new_hash_ok e : no_faults e -> new_hash e = (Ok (Some []), e).
Proof.
  intros Hn. unfold new_hash. mrun (attempt_no_faults e Hn). cbn [negb].
  mrun (attempt_no_faults e Hn). reflexivity.
Qed.

Lemma kem_ctx_new_ok alg k e :
  no_faults e -> OQS_KEM_new alg = Some k ->
  pqc_kem_ctx_new alg e =
    (Ok (Some (mkPqcKemContext alg None (kem_length_public_key k) None (kem_length_secret_key k)
                 None (kem_length_shared_secret k) None (kem_length_ciphertext k))), e).
Proof.
  intros Hn Hk. unfold pqc_kem_ctx_new. rewrite Hk.
  mrun (attempt_no_faults e Hn). cbn [negb].
  mrun (attempt_no_faults e Hn). reflexivity.
Qed.

Lemma check_key_file_ok path f e :
  no_faults e -> files e !! path = Some f -> (0 < length (f_data f))%nat ->
  check_key_file path (length (f_data f)) e = (Ok tt, e).
Proof.
  intros Hn Hf Hl. unfold check_key_file. mrun (fopen_read_ok path f e Hn Hf).
  mrun (attempts_no_faults 2 e Hn). cbn [negb]. destruct (Nat.eqb_spec (length (f_data f)) 0); [lia|].
  rewrite Nat.eqb_refl, andb_false_r. reflexivity.
Qed.

(** What opening a dump leaves in the state. *)
Lemma encrypt_init_ok pub alg k f e :
  no_faults e -> OQS_KEM_new alg = Some k -> files e !! pub = Some f ->
  length (f_data f) = kem_length_public_key k -> (0 < length (f_data f))%nat ->
  let '(ct, ss) := OQS_KEM_encaps k (f_data f) (draws e) in
  exists c st e', pqc_encrypt_init pub alg e = (Ok st, e') /\
    en_kem_ctx st = Some c /\ kem_ciphertext c = Some ct /\ kem_ciphertext_len c = kem_length_ciphertext k /\
    en_aes_key st = SHA256 ss /\ length (en_aes_iv st) = PQC_AES_IV_LEN /\
    en_chunk_counter st = 0 /\ en_hash_ctx st = Some [] /\ no_faults e' /\ files e' = files e.
Proof.
  intros Hn Hk Hf Hl Hpos. destruct (OQS_KEM_encaps k (f_data f) (draws e)) as [ct ss] eqn:He.
  unfold pqc_encrypt_init. do 3 eexists. split.
  { mrun (attempt_no_faults e Hn). cbn [negb]. mrun (kem_ctx_new_ok alg k e Hn Hk).
    cbn [kem_public_key_len]. rewrite <- Hl. mrun (check_key_file_ok pub f e Hn Hf Hpos).
    unfold pqc_kem_load_public_key. cbn [kem_public_key_len].
    erewrite bind_step by (mrun (load_key_ok pub f e Hn Hf); reflexivity). cbn [Z.eqb negb].
    unfold pqc_kem_encapsulate.
    erewrite bind_step.
    2: { cbn [set_kem_keys kem_public_key kem_algorithm]. rewrite Hk.
         erewrite bind_step by (apply malloc_ok; exact Hn).
         erewrite bind_step by (apply malloc_ok; exact Hn). cbv beta zeta iota.
         mrun (attempt_no_faults e Hn). cbn [negb].
         rewrite (bind_step _ _ _ (draws e) (set_draws (S (draws e)) e)) by reflexivity.
         rewrite He. reflexivity. }
    cbn [Z.eqb negb]. mrun (derive_ok ss (set_draws (S (draws e)) e) Hn).
    mrun (RAND_bytes_ok PQC_AES_IV_LEN (set_draws (S (draws e)) e) Hn).
    mrun (new_hash_ok (set_draws (S (draws (set_draws (S (draws e)) e))) (set_draws (S (draws e)) e)) Hn).
    reflexivity. }
  cbn. repeat split; auto using RAND_length.
Qed.

Lemma decrypt_init_ok sec alg k f ct iv e :
  no_faults e -> OQS_KEM_new alg = Some k -> files e !! sec = Some f ->
  length (f_data f) = kem_length_secret_key k -> length ct = kem_length_ciphertext k ->
  length iv = PQC_AES_IV_LEN ->
  exists c, pqc_decrypt_init sec alg ct (Some iv) e =
    (Ok (mkDecryptor c (SHA256 (OQS_KEM_decaps k ct (f_data f))) iv 0 (Some [])), e).
Proof.
  intros Hn Hk Hf Hl Hc Hi. eexists. unfold pqc_decrypt_init.
  mrun (attempt_no_faults e Hn). cbn [negb]. mrun (kem_ctx_new_ok alg k e Hn Hk).
  unfold pqc_kem_load_secret_key. cbn [kem_secret_key_len]. rewrite <- Hl.
  erewrite bind_step by (mrun (load_key_ok sec f e Hn Hf); reflexivity). cbn [Z.eqb negb].
  unfold pqc_kem_decapsulate. erewrite bind_step.
  2: { cbn [set_kem_keys kem_secret_key kem_algorithm]. rewrite Hk, Hc, Nat.eqb_refl. cbn [negb].
       erewrite bind_step by (apply malloc_ok; exact Hn). cbv beta zeta iota.
       mrun (attempt_no_faults e Hn). reflexivity. }
  cbn [Z.eqb negb]. mrun (derive_ok (OQS_KEM_decaps k ct (f_data f)) e Hn). mrun (new_hash_ok e Hn).
  rewrite firstn_all2 by lia. reflexivity.
Qed.

Lemma kem_ctx_new_inv alg e c e' :
  pqc_kem_ctx_new alg e = (Ok (Some c), e') ->
  files e' = files e /\ exists k, OQS_KEM_new alg = Some k /\
    c = mkPqcKemContext alg None (kem_length_public_key k) None (kem_length_secret_key k)
          None (kem_length_shared_secret k) None (kem_length_ciphertext k).
Proof.
  intros Hr. unfold pqc_kem_ctx_new in Hr. destruct (OQS_KEM_new alg) as [k|]; [|discriminate].
  minv Hr. destruct a; [|discriminate]. cbn [negb] in Hr. minv Hr. destruct a; [|discriminate].
  injection Hr as <- <-. split; [|eauto].
  rewrite (attempt_files _ _ _ Hm0). apply (attempt_files _ _ _ Hm).
Qed.

Lemma decapsulate_inv c sk ct e ctx' e' k :
  kem_secret_key c = Some sk -> OQS_KEM_new (kem_algorithm c) = Some k ->
  pqc_kem_decapsulate (Some c) ct e = (Ok (0, ctx'), e') ->
  length ct = kem_length_ciphertext k /\
  exists c', ctx' = Some c' /\ kem_shared_secret c' = Some (OQS_KEM_decaps k ct sk).
Proof.
  intros Hs Hk Hr. unfold pqc_kem_decapsulate in Hr. rewrite Hs, Hk in Hr.
  destruct (Nat.eqb_spec (length ct) (kem_length_ciphertext k)) as [Hl|]; [|discriminate].
  cbn [negb] in Hr. minv Hr. destruct a; [|discriminate]. minv Hr. destruct a; [|discriminate].
  injection Hr as <- _. split; [exact Hl|]. eexists. split; reflexivity.
Qed.

(** However the calls go, a restore that starts has the key of the header. *)
Lemma decrypt_init_inv sec alg ct iv e st e' :
  pqc_decrypt_init sec alg ct (Some iv) e = (Ok st, e') ->
  exists k f, OQS_KEM_new alg = Some k /\ files e !! sec = Some f /\
    length (f_data f) = kem_length_secret_key k /\ length ct = kem_length_ciphertext k /\
    de_aes_key st = SHA256 (OQS_KEM_decaps k ct (f_data f)) /\
    de_aes_iv st = firstn PQC_AES_IV_LEN iv /\ de_chunk_counter st = 0.
Proof.
  intros Hr. unfold pqc_decrypt_init in Hr. minv Hr. destruct a; [|discriminate]. cbn [negb] in Hr.
  minv Hr. destruct a as [c|]; [|discriminate].
  destruct (kem_ctx_new_inv _ _ _ _ Hm0) as (Hf & k & Hk & ->).
  rewrite (attempt_files _ _ _ Hm) in Hf. minv Hr. destruct a as [rc ctx].
  unfold pqc_kem_load_secret_key in Hm1. cbn [kem_secret_key_len] in Hm1. minv Hm1.
  destruct a as [data|]; injection Hm1 as <- <- <-; [|discriminate]. cbn [Z.eqb negb] in Hr.
  destruct (load_key_inv _ _ _ _ _ Hm2) as (f & Hfile & -> & Hlen). rewrite Hf in Hfile.
  minv Hr. destruct a as [rc ctx]. destruct (Z.eqb_spec rc 0) as [->|]; [|discriminate].
  apply (decapsulate_inv _ (f_data f) _ _ _ _ k) in Hm1 as (Hct & c' & -> & Hss); [|reflexivity|exact Hk].
  cbn [negb] in Hr. minv Hr. minv Hr. injection Hr as <- _. exists k, f.
  match goal with Hd : derive_aes_key _ _ = _ |- _ => apply derive_inv in Hd; cbn in Hd; rewrite Hss in Hd end.
  repeat split; auto.
Qed.

Lemma encrypt_finish_ok st c ct e :
  no_faults e -> en_kem_ctx st = Some c -> kem_ciphertext c = Some ct ->
  length ct = kem_ciphertext_len c ->
  pqc_encrypt_finish (Some st) e = (Ok (Some (ct, en_aes_iv st)), e).
Proof.
  intros Hn Hc Hct Hl. unfold pqc_encrypt_finish. rewrite Hc.
  erewrite bind_step by (apply malloc_ok; exact Hn). cbv beta iota. rewrite Hct, firstn_all2 by lia.
  reflexivity.
Qed.
End DumpLemmas.

(** ** Properties *)

Section DumpProperties.
  Context `{CL : CryptoLaws} `{Hp : Heap}.

(** C9: roundtrip.  When no call fails, a dump made for a public key is restored
    with the secret key: opening, encrypting every chunk and closing succeed,
    and the header and the chunks give the same data back.  The same holds of
    every initial part of the stream: a restore that stops early also ends with
    success, so a truncated dump is not noticed by the encryption layer. *)
Theorem dump_roundtrip e alg k d pub sec fp fs chunks :
  no_faults e -> In alg kem_names -> OQS_KEM_new alg = Some k ->
  files e !! pub = Some fp -> files e !! sec = Some fs ->
  OQS_KEM_keypair k d = (f_data fp, f_data fs) -> Forall chunk_ok chunks ->
  exists stream ct iv e', dump pub alg chunks e = (Ok (Some (stream, ct, iv)), e') /\
    length stream = length chunks /\
    forall n, restore sec alg ct iv (firstn n stream) e' = (Ok (Some (firstn n chunks)), e').
Proof.
  intros Hn Ha Hk Hpub Hsec Hkp Hc. pose proof (KEM_laws alg k Ha Hk) as L.
  pose proof (kem_pk_length k L d) as Hpk. pose proof (kem_sk_length k L d) as Hsk.
  pose proof (kem_ct_length k L (f_data fp) (draws e)) as Hctl.
  pose proof (kem_correct k L d (draws e)) as Hok. rewrite Hkp in *. cbn [fst snd] in *.
  assert (Hpos : (0 < length (f_data fp))%nat) by (pose proof (kem_sizes k L); lia).
  pose proof (encrypt_init_ok pub alg k fp e Hn Hk Hpub Hpk Hpos) as Hinit.
  destruct (OQS_KEM_encaps k (f_data fp) (draws e)) as [ct ss]. cbn [fst] in Hctl.
  destruct Hinit as (c & st & e' & Hr & Hkc & Hct & Hcl & Hkey & Hiv & Hcnt & Hh & Hn' & Hf).
  destruct (encrypt_all_ok chunks st [] e' Hn' Hh Hc) as (n0 & Hall).
  exists (sealed_stream (SHA256 ss) (en_aes_iv st) 0 chunks), ct, (en_aes_iv st), e'.
  split; [|split].
  - unfold dump. mrun Hr. mrun Hall.
    mrun (encrypt_finish_ok (set_en n0 (Some ([] ++ concat chunks)) st) c ct e' Hn' Hkc Hct
            (eq_trans Hctl (eq_sym Hcl))). rewrite Hkey, Hcnt. reflexivity.
  - clear. generalize 0 as i. induction chunks as [|c l IH]; intros i; cbn; [reflexivity|].
    rewrite IH. reflexivity.
  - intros n. rewrite firstn_sealed. rewrite <- Hf in Hsec.
    destruct (decrypt_init_ok sec alg k fs ct (en_aes_iv st) e' Hn' Hk Hsec Hsk Hctl Hiv) as (c' & Hi).
    unfold restore. mrun Hi. rewrite Hok.
    destruct (decrypt_all_ok (firstn n chunks) (mkDecryptor c' (SHA256 ss) (en_aes_iv st) 0 (Some [])) []
                e' Hn' eq_refl (Forall_take _ _ _ Hc)) as (n1 & Hd).
    mrun Hd. reflexivity.
Qed.

(** C8: safety.  Whatever fails and whatever the stream holds, a restore that
    succeeds has read the stream which the encryptor makes, chunk for chunk
    and from counter 0, of exactly the data returned, with the base IV of the
    header and the key that the secret key file gives for the KEM ciphertext.
    Changed, reordered, repeated or foreign chunks are not accepted. *)
Theorem restore_authentic sec alg ct iv stream e out e' :
  Forall (fun c => wf_bytes c = true) stream ->
  restore sec alg ct iv stream e = (Ok (Some out), e') ->
  exists k f, OQS_KEM_new alg = Some k /\ files e !! sec = Some f /\
    length (f_data f) = kem_length_secret_key k /\ length ct = kem_length_ciphertext k /\
    stream = sealed_stream (SHA256 (OQS_KEM_decaps k ct (f_data f))) (firstn PQC_AES_IV_LEN iv) 0 out.
Proof.
  intros Hw Hr. unfold restore in Hr. minv Hr. minv Hr. destruct a0 as [st' r].
  destruct (pqc_decrypt_finish st' =? 0); [injection Hr as -> _|discriminate].
  destruct (decrypt_init_inv _ _ _ _ _ _ _ Hm) as (k & f & Hk & Hf & Hl & Hc & Hkey & Hiv & Hcnt).
  exists k, f. do 4 (split; [assumption|]).
  rewrite <- Hkey, <- Hiv, <- Hcnt. apply (decrypt_all_inv _ _ _ _ _ _ Hm0 Hw).
Qed.
End DumpProperties.

(** No nonce is used twice with one base IV: the nonces of chunks
    with different 64-bit counters differ, and each has twelve bytes. *)
Theorem chunk_nonces_distinct base c c' :
  length base = PQC_AES_IV_LEN -> 0 <= c < 2 ^ 64 -> 0 <= c' < 2 ^ 64 ->
  length (make_chunk_iv base c) = PQC_AES_IV_LEN /\
  (make_chunk_iv base c = make_chunk_iv base c' -> c = c').
Proof.
  intros Hl Hc Hc'. rewrite !chunk_iv_eq by exact Hl. unfold PQC_AES_IV_LEN in Hl. split.
  - unfold PQC_AES_IV_LEN. len_solve.
  - intros E. apply app_inv_head in E.
    apply xor_bytes_inj in E; [|len_solve..]. apply (be_bytes_inj 8); assumption.
Qed.

(** ** Signatures over a dump

    The data is fed in parts; an update that fails ends the dump or restore. *)

Section DumpSignatures.
  Context `{CL : CryptoLaws} `{Hp : Heap}.

Fixpoint feed {St} (update : option St -> option bytes -> M env (option St * Z))
    (st : option St) (parts : list bytes) : M env (option St * bool) :=
  match parts with
  | [] => ret (st, true)
  | p :: parts' =>
      let! (st1, rc) := update st (Some p) in
      if rc =? 0 then feed update st1 parts' else ret (st1, false)
  end.

Definition sign_dump (sec alg : string) (parts : list bytes) : M env (option bytes) :=
  let! st := pqc_sign_init sec alg in
  let! (st1, fed) := feed pqc_sign_update (Some st) parts in
  if fed then let! (_, sig) := pqc_sign_finish st1 in ret sig else ret None.

Definition verify_dump (pub alg : string) (parts : list bytes) (sig : bytes) : M env Z :=
  let! st := pqc_verify_init pub alg in
  let! (st1, fed) := feed pqc_verify_update (Some st) parts in
  if fed then let! (_, rc) := pqc_verify_finish st1 (Some sig) in ret rc else ret (-1).

Lemma sig_ctx_new_ok alg g e :
  no_faults e -> OQS_SIG_new alg = Some g ->
  pqc_sig_ctx_new alg e =
    (Ok (Some (mkPqcSigContext alg None (sig_length_public_key g) None (sig_length_secret_key g))), e).
Proof.
  intros Hn Hg. unfold pqc_sig_ctx_new. rewrite Hg. mrun (attempt_no_faults e Hn). cbn [negb].
  mrun (attempt_no_faults e Hn). reflexivity.
Qed.

Lemma sign_init_ok sec alg g f e :
  no_faults e -> OQS_SIG_new alg = Some g -> files e !! sec = Some f ->
  length (f_data f) = sig_length_secret_key g ->
  exists c, pqc_sign_init sec alg e = (Ok (mkSign (Some c) (Some [])), e) /\
    sig_algorithm c = alg /\ sig_secret_key c = Some (f_data f).
Proof.
  intros Hn Hg Hf Hl. eexists. split.
  - unfold pqc_sign_init. mrun (attempt_no_faults e Hn). cbn [negb]. mrun (sig_ctx_new_ok alg g e Hn Hg).
    unfold pqc_sig_load_keys. erewrite bind_step.
    2: { erewrite bind_step by reflexivity. cbn [negb sig_secret_key_len]. rewrite <- Hl.
         mrun (load_key_ok sec f e Hn Hf). reflexivity. }
    cbn [Z.eqb negb]. mrun (new_hash_ok e Hn). reflexivity.
  - split; reflexivity.
Qed.

Lemma verify_init_ok pub alg g f e :
  no_faults e -> OQS_SIG_new alg = Some g -> files e !! pub = Some f ->
  length (f_data f) = sig_length_public_key g ->
  exists c, pqc_verify_init pub alg e = (Ok (mkVerify (Some c) (Some [])), e) /\
    sig_algorithm c = alg /\ sig_public_key c = Some (f_data f).
Proof.
  intros Hn Hg Hf Hl. eexists. split.
  - unfold pqc_verify_init. mrun (attempt_no_faults e Hn). cbn [negb]. mrun (sig_ctx_new_ok alg g e Hn Hg).
    unfold pqc_sig_load_keys. erewrite bind_step.
    2: { cbn [sig_public_key_len]. rewrite <- Hl.
         erewrite bind_step by (mrun (load_key_ok pub f e Hn Hf); reflexivity). cbn [negb]. reflexivity. }
    cbn [Z.eqb negb]. mrun (new_hash_ok e Hn). reflexivity.
  - split; reflexivity.
Qed.

Lemma feed_sign_ok c parts acc e :
  no_faults e -> feed pqc_sign_update (Some (mkSign c (Some acc))) parts e =
    (Ok (Some (mkSign c (Some (acc ++ concat parts))), true), e).
Proof.
  intros Hn. revert acc. induction parts as [|p parts IH]; intros acc; cbn [feed concat].
  - rewrite app_nil_r. reflexivity.
  - erewrite bind_step
      by (cbn [pqc_sign_update si_hash_ctx]; mrun (hash_update_ok acc p e Hn); reflexivity).
    cbn [Z.eqb si_sig_ctx]. rewrite IH, app_assoc. reflexivity.
Qed.

Lemma feed_verify_ok c parts acc e :
  no_faults e -> feed pqc_verify_update (Some (mkVerify c (Some acc))) parts e =
    (Ok (Some (mkVerify c (Some (acc ++ concat parts))), true), e).
Proof.
  intros Hn. revert acc. induction parts as [|p parts IH]; intros acc; cbn [feed concat].
  - rewrite app_nil_r. reflexivity.
  - erewrite bind_step
      by (cbn [pqc_verify_update ve_hash_ctx]; mrun (hash_update_ok acc p e Hn); reflexivity).
    cbn [Z.eqb ve_sig_ctx]. rewrite IH, app_assoc. reflexivity.
Qed.

Lemma hash_final_ok acc e : no_faults e -> hash_final (Some acc) e = (Ok (Some (SHA256 acc)), e).
Proof. intros Hn. unfold hash_final. mrun (attempt_no_faults e Hn). reflexivity. Qed.

Lemma sign_finish_ok c alg g sk acc e :
  no_faults e -> sig_algorithm c = alg -> sig_secret_key c = Some sk -> OQS_SIG_new alg = Some g ->
  exists st, pqc_sign_finish (Some (mkSign (Some c) (Some acc))) e =
    (Ok (st, Some (OQS_SIG_sign g (SHA256 acc) sk (draws e))), set_draws (S (draws e)) e).
Proof.
  intros Hn Ha Hs Hg. eexists. cbn [pqc_sign_finish si_hash_ctx si_sig_ctx].
  mrun (hash_final_ok acc e Hn). erewrite bind_step.
  2: { cbn [pqc_common_sign si_sig_ctx]. rewrite Hs, Ha, Hg.
       erewrite bind_step by (apply malloc_ok; exact Hn). cbv beta iota.
       mrun (attempt_no_faults e Hn). cbn [negb]. reflexivity. }
  reflexivity.
Qed.

Lemma verify_finish_ok c alg g pk acc sig e :
  no_faults e -> sig_algorithm c = alg -> sig_public_key c = Some pk -> OQS_SIG_new alg = Some g ->
  OQS_SIG_verify g (SHA256 acc) sig pk = true ->
  exists st, pqc_verify_finish (Some (mkVerify (Some c) (Some acc))) (Some sig) e = (Ok (st, 0), e).
Proof.
  intros Hn Ha Hs Hg Hv. eexists. cbn [pqc_verify_finish ve_hash_ctx ve_sig_ctx].
  mrun (hash_final_ok acc e Hn). erewrite bind_step.
  2: { cbn [pqc_common_verify ve_sig_ctx]. rewrite Hs, Ha, Hg. mrun (attempt_no_faults e Hn).
       rewrite Hv. reflexivity. }
  reflexivity.
Qed.

(** When no call fails, the signature of a dump verifies on
    restore with the public key of the pair, however the two sides split the
    data into parts. *)
Theorem dump_signature_verifies e alg g d pub sec fp fs parts parts' :
  no_faults e -> In alg sig_names -> OQS_SIG_new alg = Some g ->
  files e !! pub = Some fp -> files e !! sec = Some fs ->
  OQS_SIG_keypair g d = (f_data fp, f_data fs) -> concat parts = concat parts' ->
  exists sig e', sign_dump sec alg parts e = (Ok (Some sig), e') /\
    verify_dump pub alg parts' sig e' = (Ok 0, e').
Proof.
  intros Hn Ha Hg Hpub Hsec Hkp Heq. pose proof (SIG_laws alg g Ha Hg) as L.
  pose proof (sig_pk_length g L d) as Hpk. pose proof (sig_sk_length g L d) as Hsk.
  pose proof (sig_correct g L (SHA256 (concat parts)) d (draws e)) as Hok.
  rewrite Hkp in *. cbn [fst snd] in *. set (e' := set_draws (S (draws e)) e).
  exists (OQS_SIG_sign g (SHA256 (concat parts)) (f_data fs) (draws e)), e'. split.
  - destruct (sign_init_ok sec alg g fs e Hn Hg Hsec Hsk) as (c & Hi & Hal & Hs).
    unfold sign_dump. mrun Hi. mrun (feed_sign_ok (Some c) parts [] e Hn).
    destruct (sign_finish_ok c alg g (f_data fs) (concat parts) e Hn Hal Hs Hg) as (st & Hf).
    mrun Hf. reflexivity.
  - destruct (verify_init_ok pub alg g fp e' Hn Hg Hpub Hpk) as (c & Hi & Hal & Hs).
    unfold verify_dump. mrun Hi. mrun (feed_verify_ok (Some c) parts' [] e' Hn). rewrite Heq in *.
    destruct (verify_finish_ok c alg g (f_data fp) (concat parts') _ e' Hn Hal Hs Hg Hok) as (st & Hf).
    mrun Hf. reflexivity.
Qed.

Lemma feed_verify_inv c parts acc e st e' :
  feed pqc_verify_update (Some (mkVerify c (Some acc))) parts e = (Ok (st, true), e') ->
  st = Some (mkVerify c (Some (acc ++ concat parts))).
Proof.
  revert acc e. induction parts as [|p parts IH]; intros acc e Hr; cbn [feed concat] in *.
  - injection Hr as <- _. rewrite app_nil_r. reflexivity.
  - minv Hr. destruct a as [st1 rc]. cbn [pqc_verify_update ve_hash_ctx ve_sig_ctx] in Hm. minv Hm.
    destruct a as [h fed]. destruct fed; injection Hm as <- <- _; [|discriminate].
    apply hash_update_inv in Hm0 as (? & [= <-] & ->). cbn [Z.eqb] in Hr.
    apply IH in Hr. rewrite app_assoc. exact Hr.
Qed.

Lemma new_hash_inv e h e' : new_hash e = (Ok h, e') -> h = Some [].
Proof.
  intros Hr. unfold new_hash in Hr. minv Hr. destruct a; [|discriminate]. cbn [negb] in Hr.
  minv Hr. destruct a; [|discriminate]. injection Hr as <- _. reflexivity.
Qed.

Lemma verify_init_inv pub alg e st e' :
  pqc_verify_init pub alg e = (Ok st, e') ->
  exists g f c, OQS_SIG_new alg = Some g /\ files e !! pub = Some f /\
    length (f_data f) = sig_length_public_key g /\
    st = mkVerify (Some c) (Some []) /\ sig_algorithm c = alg /\ sig_public_key c = Some (f_data f).
Proof.
  intros Hr. unfold pqc_verify_init in Hr. minv Hr. destruct a; [|discriminate]. cbn [negb] in Hr.
  minv Hr. destruct a as [c|]; [|discriminate]. unfold pqc_sig_ctx_new in Hm0.
  destruct (OQS_SIG_new alg) as [g|]; [|discriminate]. minv Hm0. destruct a; [|discriminate].
  cbn [negb] in Hm0. minv Hm0. destruct a; [|discriminate]. injection Hm0 as <- <-.
  minv Hr. destruct a as [rc ctx]. cbn [pqc_sig_load_keys sig_public_key_len] in Hm0. minv Hm0.
  destruct a as [ok c1]. minv Hm3. destruct a as [data|]; injection Hm3 as <- <- <-;
    injection Hm0 as <- <- <-; [|discriminate]. cbn [Z.eqb negb] in Hr. minv Hr.
  apply new_hash_inv in Hm0 as ->. injection Hr as <- _.
  apply load_key_inv in Hm4 as (f & Hf & -> & Hl).
  rewrite (attempt_files _ _ _ Hm2), (attempt_files _ _ _ Hm1), (attempt_files _ _ _ Hm) in Hf.
  exists g, f. eexists. repeat split; eauto.
Qed.

(** Whatever fails, a restore whose verification ends with 0 has
    checked the signature, with the key in the public key file, over the
    SHA-256 of all the data it was fed. *)
Theorem dump_verify_sound pub alg parts sig e e' :
  verify_dump pub alg parts sig e = (Ok 0, e') ->
  exists g f, OQS_SIG_new alg = Some g /\ files e !! pub = Some f /\
    length (f_data f) = sig_length_public_key g /\
    OQS_SIG_verify g (SHA256 (concat parts)) sig (f_data f) = true.
Proof.
  intros Hr. unfold verify_dump in Hr. minv Hr.
  apply verify_init_inv in Hm as (g & f & c & Hg & Hf & Hl & -> & Ha & Hs). exists g, f.
  do 3 (split; [assumption|]). minv Hr. destruct a as [st1 fed]. destruct fed; [|discriminate].
  apply feed_verify_inv in Hm as ->. minv Hr. destruct a as [st2 rc]. injection Hr as -> _.
  cbn [pqc_verify_finish ve_hash_ctx ve_sig_ctx app] in Hm. minv Hm. unfold hash_final in Hm0.
  minv Hm0. destruct a0; injection Hm0 as <- <-; [|minv Hm; discriminate]. minv Hm.
  destruct (Z.eqb_spec a 0) as [->|]; cbn [negb] in Hm; [|minv Hm; discriminate].
  cbn [pqc_common_verify] in Hm0. rewrite Hs, Ha, Hg in Hm0. minv Hm0.
  destruct a; [|discriminate]. cbn [andb] in Hm0.
  destruct (OQS_SIG_verify g _ sig (f_data f)); [reflexivity|discriminate].
Qed.
End DumpSignatures.

(** ** Witnesses *)

Import Toy.

#[local] Instance zero_heap : Heap := {| uninit := zeros |}.

(** A client with the key files of one KEM pair and one signature pair. *)
Definition client : env :=
  set_files {["/kem.pub" := mkFile (fst (OQS_KEM_keypair (toy_kem 8 12 10) 3)) 420;
              "/kem.sec" := mkFile (snd (OQS_KEM_keypair (toy_kem 8 12 10) 3)) 384;
              "/sig.pub" := mkFile (fst (OQS_SIG_keypair (toy_sig 6 7 20) 4)) 420;
              "/sig.sec" := mkFile (snd (OQS_SIG_keypair (toy_sig 6 7 20) 4)) 384]}%string
    (mkEnv [] 0 ∅ ∅ ∅ ∅ []).

Definition sample_chunks : list bytes := [[1; 2; 3]; [4]; [5; 6]].

Lemma sample_chunks_ok : Forall chunk_ok sample_chunks.
Proof. repeat apply Forall_cons_2; try apply Forall_nil_2; unfold chunk_ok, blen; cbn [length]; lia. Qed.

Lemma dump_roundtrip_witness :
  exists stream ct iv e', dump "/kem.pub" "ML-KEM-768" sample_chunks client = (Ok (Some (stream, ct, iv)), e') /\
    restore "/kem.sec" "ML-KEM-768" ct iv (firstn 2 stream) e' = (Ok (Some [[1; 2; 3]; [4]]), e').
Proof.
  destruct (dump_roundtrip client "ML-KEM-768" (toy_kem 8 12 10) 3 "/kem.pub" "/kem.sec"
    (mkFile (fst (OQS_KEM_keypair (toy_kem 8 12 10) 3)) 420)
    (mkFile (snd (OQS_KEM_keypair (toy_kem 8 12 10) 3)) 384) sample_chunks)
    as (stream & ct & iv & e' & Hd & _ & Hr);
    [reflexivity|right; left; reflexivity|reflexivity..|exact sample_chunks_ok|].
  exists stream, ct, iv, e'. split; [exact Hd|exact (Hr 2%nat)].
Defined.

Definition sample_stream : list bytes * bytes * bytes :=
  match fst (dump "/kem.pub" "ML-KEM-768" sample_chunks client) with
  | Ok (Some r) => r
  | _ => ([], [], [])
  end.

Lemma restore_authentic_witness :
  exists k f, OQS_KEM_new "ML-KEM-768" = Some k /\ files client !! "/kem.sec"%string = Some f /\
    fst (fst sample_stream) =
      sealed_stream (SHA256 (OQS_KEM_decaps k (snd (fst sample_stream)) (f_data f)))
        (firstn PQC_AES_IV_LEN (snd sample_stream)) 0 sample_chunks.
Proof.
  destruct (restore_authentic "/kem.sec" "ML-KEM-768" (snd (fst sample_stream)) (snd sample_stream)
    (fst (fst sample_stream)) client sample_chunks client) as (k & f & Hk & Hf & _ & _ & Hs);
    [repeat apply Forall_cons_2; try apply Forall_nil_2; reflexivity|vm_compute; reflexivity|].
  exists k, f. split; [exact Hk|]. split; [exact Hf|exact Hs].
Defined.

Lemma chunk_nonces_distinct_witness : make_chunk_iv (zeros 12) 1 <> make_chunk_iv (zeros 12) 256.
Proof.
  intros E. destruct (chunk_nonces_distinct (zeros 12) 1 256) as [_ Hd]; [reflexivity|lia..|].
  discriminate (Hd E).
Defined.

Lemma dump_signature_verifies_witness :
  exists sig e', sign_dump "/sig.sec" "ML-DSA-65" [[1; 2]; [3]] client = (Ok (Some sig), e') /\
    verify_dump "/sig.pub" "ML-DSA-65" [[1]; []; [2; 3]] sig e' = (Ok 0, e').
Proof.
  apply (dump_signature_verifies client "ML-DSA-65" (toy_sig 6 7 20) 4 "/sig.pub" "/sig.sec"
    (mkFile (fst (OQS_SIG_keypair (toy_sig 6 7 20) 4)) 420)
    (mkFile (snd (OQS_SIG_keypair (toy_sig 6 7 20) 4)) 384));
    [reflexivity|right; left; reflexivity|reflexivity..].
Defined.

Lemma dump_verify_sound_witness :
  exists g f, OQS_SIG_new "ML-DSA-65" = Some g /\ files client !! "/sig.pub"%string = Some f /\
    OQS_SIG_verify g (SHA256 [1; 2; 3]) (OQS_SIG_sign (toy_sig 6 7 20) (SHA256 [1; 2; 3])
      (snd (OQS_SIG_keypair (toy_sig 6 7 20) 4)) 0) (f_data f) = true.
Proof.
  destruct (dump_verify_sound "/sig.pub" "ML-DSA-65" [[1]; [2; 3]]
    (OQS_SIG_sign (toy_sig 6 7 20) (SHA256 [1; 2; 3]) (snd (OQS_SIG_keypair (toy_sig 6 7 20) 4)) 0)
    client client) as (g & f & Hg & Hf & _ & Hv); [vm_compute; reflexivity|].
  exists g, f. split; [exact Hg|]. split; [exact Hf|exact Hv].
Defined.
