(* ===== verification/MasterKeyTool.v ===== *)
(** * The master key tool (src/bin/pg_tde_master_key/pg_tde_master_key.c)

    The command line program that creates the master key file and prints the
    ML-KEM secret key that unwraps it.  A command returns its exit status and
    what it prints of interest: the secret key, the public key or the fields of
    the header.  The parsing of options, the permissions of directories and the
    texts around the values are not modelled. *)
From Stdlib Require Import ZArith Lia Bool String List.
From stdpp Require Import base gmap list strings.
From S2P Require Import Prelude CryptoIface Env KeyCache PqcRegistry Server KeyProvider MasterKeyFile KeyManage PqcCommonFe.
Import ListNotations.
Local Open Scope Z_scope.
Local Open Scope pg_scope.

Definition PQC_TDE_KEM_ALGORITHM : string := "ML-KEM-768".
Definition PQC_TDE_ENCRYPTION_DIR : string := "global/pg_encryption".
Definition PQC_TDE_MASTER_KEY_FILE : string := "global/pg_encryption/master.key".
Definition PQC_TDE_PUBLIC_KEY_FILE : string := "global/pg_encryption/master.pub".
Definition PQC_ALG_ML_KEM_768_ID : Z := 1.

(** A path under the data directory, in a buffer of MAXPGPATH bytes. *)
Definition under (datadir name : string) : string := path_buf (datadir ++ "/" ++ name).

(** The text, when the buffer of [hex_len] bytes is large enough for it. *)
Definition bytes_to_hex (data : bytes) (hex_len : Z) : option bytes :=
  if hex_len <? blen data * 2 + 1 then None else Some (to_hex data).

Definition hex_to_bytes (hex : bytes) (data_len : nat) : option bytes :=
  if negb (length hex =? data_len * 2)%nat then None else decode_hex data_len hex.

Definition pg_log_error (msg : string) : M env unit := elog ERROR_REPORT msg.

(** [mkdir] itself: it fails where the name is taken. *)
Definition make_directory (path : string) : M env bool :=
  let! taken := gets (fun e => bool_decide (path ∈ dirs e) ||
                               match files e !! path with Some _ => true | None => false end) in
  let! ok := attempt in
  if ok && negb taken then do! modify (fun e => set_dirs ({[path]} ∪ dirs e) e) in ret true
  else ret false.

Definition ensure_directory (path : string) : M env Z :=
  let! st := stat_isdir path in
  match st with
  | Some true => ret 0
  | Some false => do! pg_log_error "exists but is not a directory" in ret (-1)
  | None =>
      let! ok := make_directory path in
      if ok then ret 0 else do! pg_log_error "could not create directory" in ret (-1)
  end.

Definition write_secure_file (path : string) (data : bytes) : M env Z :=
  let! fd := fopen_write path 384 in
  if negb fd then do! pg_log_error "could not create file" in ret (-1)
  else
    let! written := fwrite_bytes path data in
    if negb written then do! pg_log_error "could not write to file" in ret (-1)
    else
      let! synced := attempt in
      do! when (negb synced) (elog WARNING "could not fsync file") in
      let! closed := attempt in
      if closed then ret 0 else do! pg_log_error "could not close file" in ret (-1).

Section Tool.
  Context `{Crypto} `{Heap}.

(** The same steps as [read_file_contents] of the front-end library. *)
Definition read_file_to_buf (path : string) : M env (option bytes) :=
  let! fp := fopen_read path in
  match fp with
  | None => ret None
  | Some stream =>
      let! sized := attempts 3 in
      if negb sized then ret None
      else
        let! buf := malloc (length stream) in
        match buf with
        | None => ret None
        | Some _ =>
            let! got := fread_upto (blen stream) stream in
            if (length got =? length stream)%nat then ret (Some got) else ret None
        end
  end.

(** The key pair and the encapsulation, in one context. *)
Definition new_keys : M env (option PqcKemContext) :=
  let! ctx := pqc_kem_ctx_new PQC_TDE_KEM_ALGORITHM in
  match ctx with
  | None => do! pg_log_error "failed to create KEM context" in ret None
  | Some _ =>
      let! (rc, ctx) := pqc_kem_generate_keypair ctx in
      if negb (rc =? 0) then do! pg_log_error "failed to generate ML-KEM-768 keypair" in ret None
      else
        let! (rc, ctx) := pqc_kem_encapsulate ctx in
        if negb (rc =? 0) then do! pg_log_error "failed to encapsulate with ML-KEM-768 public key" in ret None
        else ret ctx
  end.

(** The file: header, public key, ciphertext, IV, encrypted key and tag. *)
Definition build_file (c : PqcKemContext) (gcm_iv encrypted_mk gcm_tag : bytes) : bytes :=
  header_bytes (mkHeader TDE_MASTER_KEY_MAGIC TDE_VERSION PQC_ALG_ML_KEM_768_ID
                  (u32 (Z.of_nat (kem_public_key_len c))) (u32 (Z.of_nat (kem_ciphertext_len c))) 0) ++
  firstn (kem_public_key_len c) (default [] (kem_public_key c)) ++
  firstn (kem_ciphertext_len c) (default [] (kem_ciphertext c)) ++ gcm_iv ++ encrypted_mk ++ gcm_tag.

(** Exit status and the secret key that is printed, in hex. *)
Definition generate_and_write_master_key (datadir : string) : M env (Z * option bytes) :=
  let! ctx := new_keys in
  match ctx with
  | None => ret (1, None)
  | Some c =>
      let! mk := RAND_bytes TDE_AES_KEY_LEN in
      match mk with
      | None => do! pg_log_error "failed to generate random master key" in ret (1, None)
      | Some master_key =>
          let! iv := RAND_bytes TDE_GCM_IV_LEN in
          match iv with
          | None => do! pg_log_error "failed to generate GCM IV" in ret (1, None)
          | Some gcm_iv =>
              let! gcm_ctx := attempt in
              if negb gcm_ctx then do! pg_log_error "failed to allocate GCM context" in ret (1, None)
              else
                let! ok := attempts 6 in
                if negb ok then
                  do! pg_log_error "AES-256-GCM encryption of master key failed" in ret (1, None)
                else
                  let (encrypted_mk, gcm_tag) :=
                    gcm_seal (default [] (kem_shared_secret c)) gcm_iv master_key in
                  let! d := ensure_directory (under datadir "global") in
                  if negb (d =? 0) then ret (1, None)
                  else
                    let! d := ensure_directory (under datadir PQC_TDE_ENCRYPTION_DIR) in
                    if negb (d =? 0) then ret (1, None)
                    else
                      let filebuf := build_file c gcm_iv encrypted_mk gcm_tag in
                      let! buf := malloc (length filebuf) in
                      match buf with
                      | None => do! pg_log_error "out of memory" in ret (1, None)
                      | Some _ =>
                          let! w := write_secure_file (under datadir PQC_TDE_MASTER_KEY_FILE) filebuf in
                          if negb (w =? 0) then ret (1, None)
                          else
                            do! write_secure_file (under datadir PQC_TDE_PUBLIC_KEY_FILE)
                                  (firstn (kem_public_key_len c) (default [] (kem_public_key c))) in
                            let! hex := malloc (kem_secret_key_len c * 2 + 1) in
                            match hex with
                            | None => do! pg_log_error "out of memory" in ret (1, None)
                            | Some _ =>
                                ret (0, bytes_to_hex (firstn (kem_secret_key_len c)
                                                        (default [] (kem_secret_key c)))
                                          (Z.of_nat (kem_secret_key_len c) * 2 + 1))
                            end
                      end
          end
      end
  end.

Definition cmd_init (datadir : string) (force : bool) : M env (Z * option bytes) :=
  let! st := stat (under datadir PQC_TDE_MASTER_KEY_FILE) in
  match st with
  | Some _ =>
      if negb force then do! pg_log_error "master key already exists" in ret (1, None)
      else
        do! elog WARNING "overwriting existing master key" in
        generate_and_write_master_key datadir
  | None => generate_and_write_master_key datadir
  end.

Definition cmd_rotate (datadir : string) : M env (Z * option bytes) :=
  let! st := stat (under datadir PQC_TDE_MASTER_KEY_FILE) in
  match st with
  | None => do! pg_log_error "no existing master key found" in ret (1, None)
  | Some _ => generate_and_write_master_key datadir
  end.

(** The public key in hex; the size of its buffer is computed in 32 bits, and
    a buffer that is too small is printed as it was allocated. *)
Definition cmd_export_pubkey (datadir : string) : M env (Z * option bytes) :=
  let! r := read_file_to_buf (under datadir PQC_TDE_MASTER_KEY_FILE) in
  match r with
  | None => do! pg_log_error "could not read master key file" in ret (1, None)
  | Some data =>
      if (length data <? sizeof_header)%nat then do! pg_log_error "master key file is too small" in ret (1, None)
      else
        let hdr := header_of data in
        if negb (h_magic hdr =? TDE_MASTER_KEY_MAGIC) then
          do! pg_log_error "invalid master key file" in ret (1, None)
        else if blen data <? Z.of_nat sizeof_header + h_pubkey_len hdr then
          do! pg_log_error "master key file is truncated" in ret (1, None)
        else
          let pubkey := sub sizeof_header (Z.to_nat (h_pubkey_len hdr)) data in
          let hex_len := u32 (u32 (h_pubkey_len hdr * 2) + 1) in
          let! buf := malloc (Z.to_nat hex_len) in
          match buf with
          | None => do! pg_log_error "out of memory" in ret (1, None)
          | Some b => ret (0, Some (default (cstring b) (bytes_to_hex pubkey hex_len)))
          end
  end.

(** Version, sizes of the two fields and size of the file. *)
Definition cmd_info (datadir : string) : M env (Z * option (Z * Z * Z * Z)) :=
  let! r := read_file_to_buf (under datadir PQC_TDE_MASTER_KEY_FILE) in
  match r with
  | None => do! pg_log_error "could not read master key file" in ret (1, None)
  | Some data =>
      if (length data <? sizeof_header)%nat then do! pg_log_error "master key file is too small" in ret (1, None)
      else
        let hdr := header_of data in
        if negb (h_magic hdr =? TDE_MASTER_KEY_MAGIC) then
          do! pg_log_error "invalid master key file" in ret (1, None)
        else ret (0, Some (h_version hdr, h_pubkey_len hdr, h_ciphertext_len hdr, blen data))
  end.

(** The value of an environment variable as a path. *)
Fixpoint string_of_bytes (l : bytes) : string :=
  match l with
  | [] => EmptyString
  | b :: l' => String (Ascii.ascii_of_nat (Z.to_nat b)) (string_of_bytes l')
  end.

(** What a command prints. *)
Inductive output :=
| out_secret (hex : option bytes)
| out_public (hex : option bytes)
| out_info (fields : option (Z * Z * Z * Z))
| out_nothing.

(** [main] from the choice of the data directory on. *)
Definition main (command : string) (pgdata : option string) (force : bool) : M env (Z * output) :=
  let! var := getenv "PGDATA" in
  let datadir :=
    match pgdata with
    | Some d => Some d
    | None => string_of_bytes <$> var
    end in
  match datadir with
  | None => do! pg_log_error "no data directory specified" in ret (1, out_nothing)
  | Some dir =>
      let! st := stat_isdir dir in
      match st with
      | None => do! pg_log_error "data directory does not exist" in ret (1, out_nothing)
      | Some false => do! pg_log_error "not a directory" in ret (1, out_nothing)
      | Some true =>
          if String.eqb command "init" then
            let! (rc, out) := cmd_init dir force in ret (rc, out_secret out)
          else if String.eqb command "rotate" then
            let! (rc, out) := cmd_rotate dir in ret (rc, out_secret out)
          else if String.eqb command "export-pubkey" then
            let! (rc, out) := cmd_export_pubkey dir in ret (rc, out_public out)
          else if String.eqb command "info" then
            let! (rc, out) := cmd_info dir in ret (rc, out_info out)
          else do! pg_log_error "unrecognized command" in ret (1, out_nothing)
      end
  end.
End Tool.

(** ** Lemmas *)

Section ToolLemmas.
  Context `{CL : CryptoLaws} `{Hp : Heap}.

(** Both programs use one file. *)
Lemma tool_and_server_path g : under (DataDir g) PQC_TDE_MASTER_KEY_FILE = tde_master_key_path g.
Proof. reflexivity. Qed.

(** Calls that do not fail and change only directories. *)
Definition dirs_only (e e' : env) : Prop :=
  faults e' = faults e /\ draws e' = draws e /\ files e' = files e /\ vars e' = vars e /\ cmds e' = cmds e.

Lemma ensure_directory_ok path e :
  no_faults e -> files e !! path = None ->
  exists e', ensure_directory path e = (Ok 0, e') /\ dirs_only e e'.
Proof.
  intros Hn Hf. unfold ensure_directory, stat_isdir.
  destruct e as [fs d fi di v c lg]. unfold no_faults in Hn. cbn in Hn, Hf. subst fs.
  destruct (bool_decide (path ∈ di)) eqn:Hd; eexists; split.
  - cbn. rewrite Hd. reflexivity.
  - repeat split.
  - cbn. rewrite Hd, Hf. cbn. rewrite Hd, Hf. reflexivity.
  - repeat split.
Qed.

Lemma write_secure_file_ok path data e :
  no_faults e -> exists m, write_secure_file path data e =
    (Ok 0, set_files (<[path := mkFile data m]> (files e)) e).
Proof.
  intros Hn. unfold write_secure_file. destruct e as [fs d fi di v c lg].
  unfold no_faults in Hn. cbn in Hn. subst fs. cbn.
  eexists (match fi !! path with Some f => f_mode f | None => 384 end).
  unfold append_file. cbn. rewrite lookup_insert_eq. cbn. rewrite insert_insert_eq. reflexivity.
Qed.

Lemma kem_sizes_of k : OQS_KEM_new PQC_TDE_KEM_ALGORITHM = Some k -> kem_laws k.
Proof. intros Hk. apply (KEM_laws PQC_TDE_KEM_ALGORITHM); [cbn; auto|exact Hk]. Qed.

(** What [new_keys] leaves in the context. *)
Definition keyed (k : OQS_KEM) (d d' : nat) (c : PqcKemContext) : Prop :=
  kem_public_key c = Some (fst (OQS_KEM_keypair k d)) /\
  kem_secret_key c = Some (snd (OQS_KEM_keypair k d)) /\
  kem_ciphertext c = Some (fst (OQS_KEM_encaps k (fst (OQS_KEM_keypair k d)) d')) /\
  kem_shared_secret c = Some (snd (OQS_KEM_encaps k (fst (OQS_KEM_keypair k d)) d')) /\
  kem_public_key_len c = kem_length_public_key k /\ kem_secret_key_len c = kem_length_secret_key k /\
  kem_ciphertext_len c = kem_length_ciphertext k.

Lemma new_keys_ok k e :
  no_faults e -> OQS_KEM_new PQC_TDE_KEM_ALGORITHM = Some k ->
  exists c d d', new_keys e = (Ok (Some c), set_draws (S (S (draws e))) e) /\ keyed k d d' c.
Proof.
  intros Hn Hk. destruct e as [fs dr fi di v c lg]. unfold no_faults in Hn. cbn in Hn. subst fs.
  destruct (OQS_KEM_keypair k dr) as [pk sk] eqn:Hkp.
  destruct (OQS_KEM_encaps k pk (S dr)) as [ct ss] eqn:He. eexists. exists dr, (S dr). split.
  - unfold new_keys, pqc_kem_ctx_new, pqc_kem_generate_keypair, pqc_kem_encapsulate. rewrite Hk.
    cbn. rewrite Hk. cbn. rewrite Hkp. cbn. rewrite Hk. cbn. rewrite He. reflexivity.
  - unfold keyed. rewrite Hkp. cbn [fst snd]. rewrite He. repeat split.
Qed.

(** The file is the one the server expects. *)
Lemma build_file_wraps k d d' c iv raw :
  kem_laws k -> keyed k d d' c -> length iv = TDE_GCM_IV_LEN -> length raw = TDE_AES_KEY_LEN ->
  wraps k (snd (OQS_KEM_keypair k d)) raw
    (build_file c iv (gcm_crypt (default [] (kem_shared_secret c)) iv raw)
       (AES256_GCM_tag (default [] (kem_shared_secret c)) iv
          (gcm_crypt (default [] (kem_shared_secret c)) iv raw))).
Proof.
  intros L (Hpk & _ & Hct & Hss & Hpl & _ & Hcl) Hiv Hraw.
  pose proof (kem_pk_length k L d) as Hp1.
  pose proof (kem_ct_length k L (fst (OQS_KEM_keypair k d)) d') as Hc1.
  pose proof (wraps_intro k d d' iv raw Hiv Hraw) as Hw. cbv zeta in Hw.
  unfold build_file. rewrite Hpk, Hct, Hss, Hpl, Hcl. cbn [from_option id].
  rewrite !firstn_all2 by lia. unfold master_file, file_header, blen in Hw. rewrite Hp1, Hc1 in Hw.
  cbn [concat] in Hw. rewrite app_nil_r in Hw. exact Hw.
Qed.

Lemma generate_and_write_ok datadir k e :
  no_faults e -> OQS_KEM_new PQC_TDE_KEM_ALGORITHM = Some k ->
  files e !! under datadir "global" = None -> files e !! under datadir PQC_TDE_ENCRYPTION_DIR = None ->
  under datadir PQC_TDE_MASTER_KEY_FILE <> under datadir PQC_TDE_PUBLIC_KEY_FILE ->
  exists d raw f e', generate_and_write_master_key datadir e =
      (Ok (0, Some (to_hex (snd (OQS_KEM_keypair k d)))), e') /\
    files e' !! under datadir PQC_TDE_MASTER_KEY_FILE = Some f /\
    wraps k (snd (OQS_KEM_keypair k d)) raw (f_data f).
Proof.
  intros Hn Hk Hg Hd Hne. pose proof (kem_sizes_of k Hk) as L.
  destruct (new_keys_ok k e Hn Hk) as (c & d & d' & Hkeys & Hkd).
  set (e1 := set_draws (S (S (draws e))) e) in *. assert (Hn1 : no_faults e1) by exact Hn.
  set (raw := RAND (draws e1) TDE_AES_KEY_LEN). set (e2 := set_draws (S (draws e1)) e1).
  set (iv := RAND (draws e2) TDE_GCM_IV_LEN). set (e3 := set_draws (S (draws e2)) e2).
  assert (Hn3 : no_faults e3) by exact Hn.
  destruct (ensure_directory_ok (under datadir "global") e3 Hn3 Hg) as (e4 & H4 & (F4 & _ & Fi4 & _)).
  assert (Hn4 : no_faults e4) by (unfold no_faults; rewrite F4; exact Hn).
  destruct (ensure_directory_ok (under datadir PQC_TDE_ENCRYPTION_DIR) e4 Hn4) as (e5 & H5 & (F5 & _ & Fi5 & _));
    [rewrite Fi4; exact Hd|].
  assert (Hn5 : no_faults e5) by (unfold no_faults; rewrite F5; exact Hn4).
  pose proof (build_file_wraps k d d' c iv raw L Hkd (RAND_length _ _) (RAND_length _ _)) as Hw.
  set (buf := build_file c iv _ _) in Hw.
  destruct (write_secure_file_ok (under datadir PQC_TDE_MASTER_KEY_FILE) buf e5 Hn5) as (m & H6).
  set (e6 := set_files _ e5) in H6. assert (Hn6 : no_faults e6) by exact Hn5.
  destruct (write_secure_file_ok (under datadir PQC_TDE_PUBLIC_KEY_FILE)
    (firstn (kem_public_key_len c) (default [] (kem_public_key c))) e6 Hn6) as (m' & H7).
  set (e7 := set_files _ e6) in H7. assert (Hn7 : no_faults e7) by exact Hn5.
  destruct Hkd as (_ & Hsk & _ & _ & _ & Hsl & _).
  exists d, raw, (mkFile buf m), e7. split; [|split; [|exact Hw]].
  - unfold generate_and_write_master_key. mrun Hkeys.
    mrun (RAND_bytes_ok TDE_AES_KEY_LEN e1 Hn1). mrun (RAND_bytes_ok TDE_GCM_IV_LEN e2 Hn1).
    mrun (attempt_no_faults e3 Hn3). cbn [negb]. mrun (attempts_no_faults 6 e3 Hn3). cbn [negb].
    unfold gcm_seal. mrun H4. cbn [Z.eqb negb]. mrun H5. cbn [Z.eqb negb]. fold raw iv buf.
    mrun (malloc_ok (length buf) e5 Hn5). mrun H6. cbn [Z.eqb negb]. mrun H7.
    mrun (malloc_ok (kem_secret_key_len c * 2 + 1) e7 Hn7). rewrite Hsk, Hsl. cbn [from_option id].
    rewrite firstn_all2 by (rewrite (kem_sk_length k L); lia). unfold bytes_to_hex, blen.
    rewrite (kem_sk_length k L), Z.ltb_irrefl. reflexivity.
  - unfold e7, e6. cbn. rewrite lookup_insert_ne by congruence. apply lookup_insert_eq.
Qed.

Lemma under_inj datadir a b :
  (String.length datadir + String.length a < 1023)%nat ->
  (String.length datadir + String.length b < 1023)%nat -> under datadir a = under datadir b -> a = b.
Proof.
  intros Ha Hb E. unfold under, path_buf in E.
  rewrite !substring_all in E by (rewrite !append_length; cbn; lia).
  apply append_inj in E as [_ E]; [|reflexivity]. injection E as E. exact E.
Qed.

Lemma fetch_env_ok g e hex :
  tde_key_provider g = TDE_KEY_PROVIDER_ENV ->
  vars e !! "FORTRESSQL_KEM_SECRET_KEY"%string = Some hex -> hex <> [] ->
  tde_key_provider_fetch g e = (Ok hex, e).
Proof.
  intros Hg Hv Hne. unfold tde_key_provider_fetch, tde_key_provider_fetch_env. rewrite Hg. cbn.
  rewrite Hv. destruct hex; [contradiction|reflexivity].
Qed.

(** The commands that write a key: [init] where there is none or with the
    option to overwrite, and [rotate] where there is one. *)
Inductive writes_key (datadir : string) (e : env) : M env (Z * option bytes) -> Prop :=
| writes_init force :
    files e !! under datadir PQC_TDE_MASTER_KEY_FILE = None \/ force = true ->
    writes_key datadir e (cmd_init datadir force)
| writes_rotate f :
    files e !! under datadir PQC_TDE_MASTER_KEY_FILE = Some f -> writes_key datadir e (cmd_rotate datadir).

Lemma stat_calm path e : no_faults e -> Env.stat path e = (Ok (files e !! path), e).
Proof. intros Hn. unfold stat. mrun (attempt_no_faults e Hn). reflexivity. Qed.

(** Such a command reaches the common part with the files as they were. *)
Lemma writes_key_run datadir e cmd :
  no_faults e -> writes_key datadir e cmd ->
  exists e1, cmd e = generate_and_write_master_key datadir e1 /\ no_faults e1 /\ files e1 = files e.
Proof.
  intros Hn [force Hc|f Hf].
  - unfold cmd_init. mrun (stat_calm (under datadir PQC_TDE_MASTER_KEY_FILE) e Hn).
    destruct (files e !! _); [|exists e; auto]. destruct Hc as [Hc|Hc]; [discriminate|]. subst force.
    cbn [negb]. eexists. split; [reflexivity|]. split; [exact Hn|reflexivity].
  - unfold cmd_rotate. mrun (stat_calm (under datadir PQC_TDE_MASTER_KEY_FILE) e Hn).
    rewrite Hf. exists e. auto.
Qed.
End ToolLemmas.

(** ** Properties *)

Section ToolProperties.
  Context `{CL : CryptoLaws} `{Hp : Heap}.

(** C18: roundtrip.  The tool and the server agree on the file: when no call
    fails, init and rotate end with status 0 and print a secret key, and a
    server that finds the file they wrote, with the printed text in its
    environment variable, unwraps the one master key that the tool wrapped. *)
Theorem tool_key_unlocks_server e datadir k cmd :
  no_faults e -> OQS_KEM_new PQC_TDE_KEM_ALGORITHM = Some k -> writes_key datadir e cmd ->
  (String.length datadir <= 900)%nat ->
  files e !! under datadir "global" = None -> files e !! under datadir PQC_TDE_ENCRYPTION_DIR = None ->
  exists raw hex e', cmd e = (Ok (0, Some hex), e') /\ length raw = TDE_AES_KEY_LEN /\
    forall s, ready s -> MasterKeyLoaded (sv_master s) = false -> DataDir (sv_guc s) = datadir ->
      files (sv_env s) !! tde_master_key_path (sv_guc s)
        = files e' !! under datadir PQC_TDE_MASTER_KEY_FILE ->
      tde_key_provider (sv_guc s) = TDE_KEY_PROVIDER_ENV ->
      vars (sv_env s) !! "FORTRESSQL_KEM_SECRET_KEY"%string = Some hex ->
      exists s', tde_unwrap_master_key s = (Ok tt, s') /\ sv_master s' = mkMaster raw true true.
Proof.
  intros Hn Hk Hc Hlen Hg Hd. destruct (writes_key_run datadir e cmd Hn Hc) as (e1 & -> & Hn1 & Hf1).
  rewrite <- Hf1 in Hg, Hd.
  destruct (generate_and_write_ok datadir k e1 Hn1 Hk Hg Hd) as (d & raw & f & e' & Hr & Hf & Hw).
  { intros E. apply under_inj in E; [discriminate|cbn; lia..]. }
  pose proof (kem_sizes_of k Hk) as L.
  exists raw, (to_hex (snd (OQS_KEM_keypair k d))), e'. split; [exact Hr|]. split.
  { destruct Hw as (d0 & d' & iv & Hw). destruct (OQS_KEM_keypair k d0) as [pk sk].
    destruct (OQS_KEM_encaps k pk d'). apply Hw. }
  intros s Hs Hl Hdir Hsame Hp1 Hv. rewrite Hf in Hsame.
  destruct (unwrap_ok s k _ raw f (sv_env s) Hs Hk Hl Hsame Hw) as (s' & Hu & Hm & _);
    [|apply logs_refl|exists s'; auto].
  apply fetch_env_ok; [exact Hp1|exact Hv|]. intros E. apply (f_equal length) in E.
  rewrite length_to_hex, (kem_sk_length k L) in E. cbn in E. pose proof (kem_sizes k L). lia.
Qed.

(** Without the option to overwrite, [init] keeps an existing key:
    it ends with status 1, prints no key and changes no file. *)
Theorem init_keeps_existing_key e datadir f :
  no_faults e -> files e !! under datadir PQC_TDE_MASTER_KEY_FILE = Some f ->
  exists e', cmd_init datadir false e = (Ok (1, None), e') /\ files e' = files e /\ draws e' = draws e.
Proof.
  intros Hn Hf. unfold cmd_init. mrun (stat_calm (under datadir PQC_TDE_MASTER_KEY_FILE) e Hn).
  rewrite Hf. eexists. split; [reflexivity|]. split; reflexivity.
Qed.
End ToolProperties.

(** ** Witnesses *)

Import Toy.

#[local] Instance tool_heap : Heap := {| uninit := zeros |}.

Definition fresh_cluster : env := mkEnv [] 0 ∅ {["/pgdata"%string]} ∅ ∅ [].

Lemma tool_key_unlocks_server_witness :
  exists raw hex e' s', cmd_init "/pgdata" false fresh_cluster = (Ok (0, Some hex), e') /\
    tde_unwrap_master_key
      (server_boot sample_guc (mkEnv [] 0 (files e') ∅ {["FORTRESSQL_KEM_SECRET_KEY"%string := hex]} ∅ []))
      = (Ok tt, s') /\ sv_master s' = mkMaster raw true true.
Proof.
  destruct (tool_key_unlocks_server fresh_cluster "/pgdata" (toy_kem 8 12 10) (cmd_init "/pgdata" false))
    as (raw & hex & e' & Hc & _ & Hu);
    [reflexivity|reflexivity|constructor; left; reflexivity|cbn; lia|reflexivity|reflexivity|].
  destruct (Hu (server_boot sample_guc
    (mkEnv [] 0 (files e') ∅ {["FORTRESSQL_KEM_SECRET_KEY"%string := hex]} ∅ []))) as (s' & Hs & Hm);
    [split; reflexivity|reflexivity|reflexivity|reflexivity|reflexivity|reflexivity|].
  exists raw, hex, e', s'. auto.
Defined.

Definition used_cluster : env :=
  set_files {["/pgdata/global/pg_encryption/master.key"%string := mkFile [1; 2; 3] 384]} fresh_cluster.

Lemma init_keeps_existing_key_witness :
  exists e', cmd_init "/pgdata" false used_cluster = (Ok (1, None), e') /\
    files e' = files used_cluster.
Proof.
  destruct (init_keeps_existing_key used_cluster "/pgdata" (mkFile [1; 2; 3] 384)) as (e' & Hr & Hf & _);
    [reflexivity|vm_compute; reflexivity|].
  exists e'. auto.
Defined.
