(* ===== verification/CryptoPolicy.v ===== *)
(** * The crypto policy (src/backend/libpq/crypto-policy.c)

    One parameter that sets others: its assign hook calls [SetConfigOption]
    with a source that outranks the configuration file.  Whether a setting takes
    effect is decided by [set_config_with_handle] of
    src/backend/utils/misc/guc.c, modelled here for the five parameters
    concerned.  The stack of values a transaction saves, parallel mode and the
    reporting of changes are not part of it. *)
From Stdlib Require Import ZArith Lia Bool String List.
From stdpp Require Import base gmap list strings.
From S2P Require Import Prelude CryptoIface Env PqcRegistry WalSign.
Import ListNotations.
Local Open Scope Z_scope.
Local Open Scope pg_scope.

(** ** Parameters *)

Inductive GucContext :=
| PGC_INTERNAL | PGC_POSTMASTER | PGC_SIGHUP | PGC_SU_BACKEND | PGC_BACKEND | PGC_SUSET | PGC_USERSET.

(** The sources of a value, in the order of the enumeration. *)
Abbreviation GucSource := Z.
Definition PGC_S_DEFAULT : GucSource := 0.
Definition PGC_S_DYNAMIC_DEFAULT : GucSource := 1.
Definition PGC_S_ENV_VAR : GucSource := 2.
Definition PGC_S_FILE : GucSource := 3.
Definition PGC_S_ARGV : GucSource := 4.
Definition PGC_S_GLOBAL : GucSource := 5.
Definition PGC_S_DATABASE : GucSource := 6.
Definition PGC_S_USER : GucSource := 7.
Definition PGC_S_DATABASE_USER : GucSource := 8.
Definition PGC_S_CLIENT : GucSource := 9.
Definition PGC_S_OVERRIDE : GucSource := 10.
Definition PGC_S_SESSION : GucSource := 13.

(** A parameter: [p_options] are the names of an enumeration, [None] for a
    string.  The value of an enumeration is kept as its name. *)
Record param := mkParam {
  p_context : GucContext;
  p_options : option (list string);
  p_boot : string;
  p_value : string;
  p_source : GucSource;
  p_reset : string;
  p_reset_source : GucSource
}.

Abbreviation gucs := (gmap string param).

Definition boot_param (c : GucContext) (o : option (list string)) (v : string) : param :=
  mkParam c o v v PGC_S_DEFAULT v PGC_S_DEFAULT.

Definition password_encryption_options : list string :=
  ["md5"; "scram-sha-256"; "scram-sha-384"]%string.
Definition ssl_pqc_mode_options : list string := ["off"; "hybrid"; "pqc-only"]%string.
Definition crypto_policy_options : list string :=
  ["custom"; "legacy"; "transitional"; "fips-pqc-level3"; "fips-pqc-level5"]%string.

(** The entries of guc_tables.c, with their boot values. *)
Definition boot_gucs : gucs :=
  {["password_encryption" := boot_param PGC_USERSET (Some password_encryption_options) "scram-sha-256";
    "ssl_pqc_mode" := boot_param PGC_SIGHUP (Some ssl_pqc_mode_options) "hybrid";
    "ssl_pqc_groups" := boot_param PGC_SIGHUP None "X25519MLKEM768:X25519:prime256v1";
    "ssl_pqc_sigalgs" := boot_param PGC_SIGHUP None "";
    "crypto_policy" := boot_param PGC_SIGHUP (Some crypto_policy_options) "custom"]}%string.

(** ** Setting a parameter *)

(** A complaint is an error, except for sources whose mistakes are only logged. *)
Definition complain (source : GucSource) (e : errcode) : M gucs Z :=
  if (source =? PGC_S_DEFAULT) || (source =? PGC_S_FILE) ||
     ((PGC_S_GLOBAL <=? source) && (source <=? PGC_S_DATABASE_USER))
  then ret 0 else raise e.

(** Whether a parameter of the table may be set in a context: its entries are of
    the contexts SIGHUP and USERSET. *)
Definition may_set (record_context context : GucContext) : bool :=
  match record_context, context with
  | PGC_SIGHUP, (PGC_SIGHUP | PGC_POSTMASTER) => true
  | PGC_SIGHUP, _ => false
  | _, _ => true
  end.

(** Every policy of the enumeration can be applied. *)
Definition check_crypto_policy (newval : string) : bool :=
  (if String.eqb newval "custom" || String.eqb newval "legacy" then true
   else if String.eqb newval "transitional" || String.eqb newval "fips-pqc-level3" ||
           String.eqb newval "fips-pqc-level5" then true
   else false)%string.

(** The check hooks of the table. *)
Definition check_hooks (name newval : string) (source : GucSource) : bool :=
  if String.eqb name "crypto_policy" then check_crypto_policy newval
  else if String.eqb name "ssl_pqc_groups" then check_ssl_pqc_groups (Some newval) (PGC_S_DEFAULT <? source)
  else true.

(** The value an enumeration or a string takes, when it is valid. *)
Definition parse_and_validate_value (name : string) (r : param) (value : string) (source : GucSource)
    : option string :=
  match match p_options r with
        | Some l => List.find (fun o => pg_strcasecmp value o =? 0) l
        | None => Some value
        end with
  | Some newval => if check_hooks name newval source then Some newval else None
  | None => None
  end.

Definition set_value (v : string) (src : GucSource) (r : param) : param :=
  mkParam (p_context r) (p_options r) (p_boot r) v src (p_reset r) (p_reset_source r).
Definition set_reset (v : string) (src : GucSource) (r : param) : param :=
  mkParam (p_context r) (p_options r) (p_boot r) (p_value r) (p_source r) v src.

(** [set_config_with_handle]: 1 when the value was set, -1 when it was ignored
    because of its source, 0 after a complaint that is not an error. *)
Definition set_config_with_handle (assign_hook : string -> string -> M gucs unit)
    (name : string) (value : option string) (context : GucContext) (source : GucSource) : M gucs Z :=
  let! g := get in
  match g !! name with
  | None => complain source ERRCODE_UNDEFINED_OBJECT
  | Some r =>
      if negb (may_set (p_context r) context) then complain source ERRCODE_CANT_CHANGE_RUNTIME_PARAM
      else
        let makeDefault := (source <=? PGC_S_OVERRIDE) &&
          (match value with Some _ => true | None => false end || (source =? PGC_S_DEFAULT)) in
        let changeVal := negb (source <? p_source r) in
        if negb changeVal && negb makeDefault then ret (-1)
        else
          match
            match value with
            | Some v => (fun nv => (nv, source)) <$> parse_and_validate_value name r v source
            | None => Some (if source =? PGC_S_DEFAULT then (p_boot r, source)
                            else (p_reset r, p_reset_source r))
            end
          with
          | None => complain source ERRCODE_INVALID_PARAMETER_VALUE
          | Some (newval, source) =>
              do! when changeVal (
                    do! assign_hook name newval in
                    modify (alter (set_value newval source) name)) in
              do! when (makeDefault && (p_reset_source r <=? source))
                    (modify (alter (set_reset newval source) name)) in
              ret (if changeVal then 1 else -1)
          end
  end.

(** [SetConfigOption] on parameters without an assign hook. *)
Definition SetConfigOption (name value : string) (context : GucContext) (source : GucSource)
    : M gucs unit :=
  do! set_config_with_handle (fun _ _ => ret tt) name (Some value) context source in ret tt.

(** ** The policy *)

Definition assign_crypto_policy (newval : string) : M gucs unit :=
  let set name value := SetConfigOption name value PGC_SIGHUP PGC_S_OVERRIDE in
  (if String.eqb newval "legacy" then
    do! set "password_encryption" "md5" in
    set "ssl_pqc_mode" "off"
  else if String.eqb newval "transitional" then
    do! set "password_encryption" "scram-sha-256" in
    do! set "ssl_pqc_mode" "hybrid" in
    do! set "ssl_pqc_groups" "X25519MLKEM768:X25519:prime256v1" in
    set "ssl_pqc_sigalgs" ""
  else if String.eqb newval "fips-pqc-level3" then
    do! set "password_encryption" "scram-sha-384" in
    do! set "ssl_pqc_mode" "hybrid" in
    do! set "ssl_pqc_groups" "MLKEM768" in
    set "ssl_pqc_sigalgs" "MLDSA65"
  else if String.eqb newval "fips-pqc-level5" then
    do! set "password_encryption" "scram-sha-384" in
    do! set "ssl_pqc_mode" "pqc-only" in
    do! set "ssl_pqc_groups" "MLKEM1024" in
    set "ssl_pqc_sigalgs" "MLDSA87"
  else ret tt)%string.

(** The hooks of the table: only the policy has one. *)
Definition assign_hooks (name newval : string) : M gucs unit :=
  if String.eqb name "crypto_policy" then assign_crypto_policy newval else ret tt.

Definition set_config_option (name : string) (value : option string) (context : GucContext)
    (source : GucSource) : M gucs Z :=
  set_config_with_handle assign_hooks name value context source.

(** ** What a policy demands *)

Definition demands (policy : string) : list (string * string) :=
  (if String.eqb policy "legacy" then [("password_encryption", "md5"); ("ssl_pqc_mode", "off")]
   else if String.eqb policy "transitional" then
     [("password_encryption", "scram-sha-256"); ("ssl_pqc_mode", "hybrid");
      ("ssl_pqc_groups", "X25519MLKEM768:X25519:prime256v1"); ("ssl_pqc_sigalgs", "")]
   else if String.eqb policy "fips-pqc-level3" then
     [("password_encryption", "scram-sha-384"); ("ssl_pqc_mode", "hybrid");
      ("ssl_pqc_groups", "MLKEM768"); ("ssl_pqc_sigalgs", "MLDSA65")]
   else if String.eqb policy "fips-pqc-level5" then
     [("password_encryption", "scram-sha-384"); ("ssl_pqc_mode", "pqc-only");
      ("ssl_pqc_groups", "MLKEM1024"); ("ssl_pqc_sigalgs", "MLDSA87")]
   else [])%string.

Definition shape (r : param) : GucContext * option (list string) * string :=
  (p_context r, p_options r, p_boot r).

(** The parameters of the table, with values no session has set. *)
Definition settled (g : gucs) : Prop :=
  shape <$> g = shape <$> boot_gucs /\
  forall name r, g !! name = Some r ->
    p_source r <= PGC_S_OVERRIDE /\ p_reset_source r <= PGC_S_OVERRIDE.

Definition holds (g : gucs) (d : string * string) : Prop :=
  exists r, g !! fst d = Some r /\ p_value r = snd d /\ p_source r = PGC_S_OVERRIDE.

Lemma shape_of g name r0 :
  shape <$> g = shape <$> boot_gucs -> boot_gucs !! name = Some r0 ->
  exists r, g !! name = Some r /\ shape r = shape r0.
Proof.
  intros Hs H0. apply (f_equal (lookup name)) in Hs. rewrite !lookup_fmap, H0 in Hs.
  destruct (g !! name) as [r|]; [|discriminate]. injection Hs as H1 H2 H3. exists r.
  split; [reflexivity|]. unfold shape. congruence.
Qed.

Lemma shape_alter f name (g : gucs) : (forall r, shape (f r) = shape r) -> shape <$> alter f name g = shape <$> g.
Proof.
  intros Hf. apply map_eq. intros i. rewrite !lookup_fmap. destruct (decide (name = i)) as [->|Hne].
  - rewrite lookup_alter_eq. destruct (g !! i); cbn; [rewrite Hf|]; reflexivity.
  - rewrite lookup_alter_ne by exact Hne. reflexivity.
Qed.

(** What setting a demanded value does to the parameters. *)
Lemma override_run g name value r0 :
  settled g -> boot_gucs !! name = Some r0 -> may_set (p_context r0) PGC_SIGHUP = true ->
  parse_and_validate_value name r0 value PGC_S_OVERRIDE = Some value ->
  exists g', SetConfigOption name value PGC_SIGHUP PGC_S_OVERRIDE g = (Ok tt, g') /\ settled g' /\
    holds g' (name, value) /\ forall other, other <> name -> g' !! other = g !! other.
Proof.
  intros [Hs Hsrc] H0 Hc Hv. destruct (shape_of g name r0 Hs H0) as (r & Hr & Hsh).
  injection Hsh as Hctx Hopt Hboot. pose proof (Hsrc name r Hr) as [Hle _].
  set (upd := fun r' => let r1 := set_value value PGC_S_OVERRIDE r' in
     if p_reset_source r <=? PGC_S_OVERRIDE then set_reset value PGC_S_OVERRIDE r1 else r1).
  exists (alter upd name g). split; [|split; [split|split]].
  - unfold SetConfigOption, set_config_with_handle. rewrite <- Hctx in Hc.
    unfold parse_and_validate_value in *. rewrite <- Hopt in Hv.
    cbn [bind get]. rewrite Hr, Hc, Hv. cbn [negb fmap option_fmap option_map].
    destruct (Z.ltb_spec PGC_S_OVERRIDE (p_source r)); [lia|]. cbn. subst upd. cbv zeta.
    destruct (p_reset_source r <=? PGC_S_OVERRIDE); cbn; [rewrite alter_alter_eq|]; reflexivity.
  - rewrite <- Hs. apply shape_alter. intros r'. unfold upd. destruct (_ <=? _); reflexivity.
  - intros i ri Hi. destruct (decide (name = i)) as [->|Hne].
    + rewrite lookup_alter_eq, Hr in Hi. injection Hi as <-. unfold upd.
      destruct (Hsrc i r Hr). destruct (_ <=? _); cbn; lia.
    + rewrite lookup_alter_ne in Hi by exact Hne. apply (Hsrc i ri Hi).
  - exists (upd r). cbn [fst snd]. rewrite lookup_alter_eq, Hr. unfold upd.
    destruct (_ <=? _); repeat split.
  - intros other Hne. rewrite lookup_alter_ne by congruence. reflexivity.
Qed.

Fixpoint set_all (l : list (string * string)) : M gucs unit :=
  match l with
  | [] => ret tt
  | (name, value) :: l' => do! SetConfigOption name value PGC_SIGHUP PGC_S_OVERRIDE in set_all l'
  end.

(** The hook sets what the policy demands, in order. *)
Lemma assign_set_all policy : meq (assign_crypto_policy policy) (set_all (demands policy)).
Proof.
  intros g. unfold assign_crypto_policy, demands.
  repeat match goal with |- context [if ?c then _ else _] => destruct c end; cbn [set_all]; unfold bind;
  repeat match goal with
    |- context [SetConfigOption ?a ?b ?c ?d ?s] => destruct (SetConfigOption a b c d s) as [[[]|?|] ?]
  end; reflexivity.
Qed.

Definition settable (d : string * string) : Prop :=
  exists r0, boot_gucs !! fst d = Some r0 /\ may_set (p_context r0) PGC_SIGHUP = true /\
    parse_and_validate_value (fst d) r0 (snd d) PGC_S_OVERRIDE = Some (snd d).

Lemma set_all_run l g :
  settled g -> Forall settable l -> NoDup (map fst l) ->
  exists g', set_all l g = (Ok tt, g') /\ settled g' /\ Forall (holds g') l /\
    forall other, other ∉ map fst l -> g' !! other = g !! other.
Proof.
  revert g. induction l as [|[name value] l IH]; intros g Hs Hv Hd; cbn [set_all map fst].
  - exists g. auto.
  - apply Forall_cons in Hv as [(r0 & H0 & Hc & Hp) Hv]. cbn [map fst] in Hd. apply NoDup_cons in Hd as [Hn Hd].
    destruct (override_run g name value r0 Hs H0 Hc Hp) as (g1 & H1 & Hs1 & Hh & Ho1). mrun H1.
    destruct (IH g1 Hs1 Hv Hd) as (g2 & H2 & Hs2 & Hh2 & Ho2). exists g2.
    split; [exact H2|]. split; [exact Hs2|]. split.
    + constructor; [|exact Hh2]. unfold holds in *. cbn [fst snd] in *. rewrite Ho2 by exact Hn. exact Hh.
    + intros other Hne. apply not_elem_of_cons in Hne as [Hne Hne'].
      rewrite Ho2 by exact Hne'. apply Ho1, Hne.
Qed.

Lemma demands_settable policy : Forall settable (demands policy) /\ NoDup (map fst (demands policy)).
Proof.
  unfold demands. repeat match goal with |- context [if ?c then _ else _] => destruct c end;
    (split; [repeat (apply Forall_cons; split;
                     [eexists; split; [vm_compute; reflexivity|split; reflexivity]|]); apply Forall_nil; exact I
            |apply (bool_decide_unpack _); vm_compute; exact I]).
Qed.

Lemma policy_not_demanded policy : "crypto_policy"%string ∉ map fst (demands policy).
Proof.
  unfold demands. repeat match goal with |- context [if ?c then _ else _] => destruct c end;
    apply (bool_decide_unpack _); vm_compute; exact I.
Qed.

(** ** Settings of lower rank *)

Definition setting : Type := string * option string * GucContext * GucSource.

Definition apply_setting (op : setting) : M gucs unit :=
  let '(name, value, context, source) := op in
  pg_try (do! set_config_option name value context source in ret tt) (fun _ => ret tt).

Fixpoint run_settings (ops : list setting) : M gucs unit :=
  match ops with
  | [] => ret tt
  | op :: ops' => do! apply_setting op in run_settings ops'
  end.

(** From the configuration file, the command line, a database, a role or the
    start of a connection; the policy itself only back to custom. *)
Definition outranked (op : setting) : Prop :=
  let '(name, value, _, source) := op in
  source < PGC_S_OVERRIDE /\
  (name = "crypto_policy"%string -> exists v, value = Some v /\ pg_strcasecmp v "custom" = 0).

(** What an outranked setting makes of the parameter it names. *)
Definition lowered (source : GucSource) (r r' : param) : Prop :=
  shape r' = shape r /\
  (p_source r <= PGC_S_OVERRIDE /\ p_reset_source r <= PGC_S_OVERRIDE ->
   p_source r' <= PGC_S_OVERRIDE /\ p_reset_source r' <= PGC_S_OVERRIDE) /\
  (source < p_source r -> p_value r' = p_value r /\ p_source r' = p_source r).

Lemma complain_state source e g : snd (complain source e g) = g.
Proof. unfold complain. destruct (_ || _); reflexivity. Qed.

Lemma apply_setting_state name value context source g :
  snd (apply_setting (name, value, context, source) g) = snd (set_config_option name value context source g).
Proof.
  unfold apply_setting, pg_try, bind. destruct (set_config_option name value context source g) as [[]]; reflexivity.
Qed.

Lemma find_custom v : pg_strcasecmp v "custom" = 0 ->
  List.find (fun o => pg_strcasecmp v o =? 0) crypto_policy_options = Some "custom"%string.
Proof. intros Hv. cbn. rewrite Hv. reflexivity. Qed.

Lemma set_config_lowered hook name value context source g :
  source < PGC_S_OVERRIDE ->
  (forall r nv src, g !! name = Some r ->
     (match value with
      | Some v => (fun nv => (nv, source)) <$> parse_and_validate_value name r v source
      | None => Some (if source =? PGC_S_DEFAULT then (p_boot r, source) else (p_reset r, p_reset_source r))
      end) = Some (nv, src) -> hook name nv g = (Ok tt, g)) ->
  exists f, snd (set_config_with_handle hook name value context source g) = alter f name g /\
    forall r, g !! name = Some r -> lowered source r (f r).
Proof.
  intros Hsrc Hhook. assert (Hid : forall r, lowered source r r) by (intros r; repeat split; tauto).
  assert (Hsame : alter id name g = g) by (apply alter_id; intros; reflexivity).
  unfold set_config_with_handle. cbn [bind get].
  destruct (g !! name) as [r|] eqn:Hr; [|exists id; rewrite complain_state, Hsame; split; [reflexivity|discriminate]].
  destruct (may_set _ _); cbn [negb]; [|exists id; rewrite complain_state, Hsame; auto]. cbv zeta.
  destruct (negb (negb _) && _); [exists id; rewrite Hsame; auto|].
  specialize (Hhook r). destruct (match value with Some _ => _ | None => _ end) as [[nv src]|] eqn:Hnv;
    [|exists id; rewrite complain_state, Hsame; auto].
  specialize (Hhook nv src eq_refl eq_refl).
  assert (Hs : src = source \/ src = p_reset_source r).
  { destruct value as [v|]; [|destruct (_ =? _); injection Hnv; auto].
    destruct (parse_and_validate_value name r v source); [injection Hnv; auto|discriminate]. }
  destruct (Z.ltb_spec source (p_source r)) as [Hlt|Hge]; cbn [negb when].
  - destruct (_ && (p_reset_source r <=? src)); cbn; [|exists id; rewrite Hsame; auto].
    eexists. split; [reflexivity|]. intros ? [= <-]. repeat split; cbn; lia.
  - rewrite (bind_step _ _ _ tt (alter (set_value nv src) name g))
      by (rewrite (bind_step _ _ _ tt g Hhook); reflexivity).
    destruct (_ && (p_reset_source r <=? src)); cbn.
    + rewrite alter_alter_eq. eexists. split; [reflexivity|]. intros ? [= <-]. repeat split; cbn; lia.
    + eexists. split; [reflexivity|]. intros ? [= <-]. repeat split; cbn; lia.
Qed.

(** The hook of an outranked setting does nothing. *)
Lemma outranked_lowered name value context source g :
  settled g -> outranked (name, value, context, source) ->
  exists f, snd (set_config_option name value context source g) = alter f name g /\
    forall r, g !! name = Some r -> lowered source r (f r).
Proof.
  intros [Hs _] [Hsrc Hpol]. apply set_config_lowered; [exact Hsrc|]. intros r nv src Hr Hnv.
  unfold assign_hooks. destruct (String.eqb_spec name "crypto_policy") as [->|]; [|reflexivity].
  destruct (Hpol eq_refl) as (v & -> & Hv).
  destruct (shape_of g "crypto_policy" (boot_param PGC_SIGHUP (Some crypto_policy_options) "custom") Hs)
    as (r' & Hr' & Hsh); [vm_compute; reflexivity|].
  rewrite Hr in Hr'. injection Hr' as <-. injection Hsh as _ Hopt _.
  unfold parse_and_validate_value in Hnv. rewrite Hopt, (find_custom v Hv) in Hnv.
  injection Hnv as <- _. reflexivity.
Qed.

Lemma outranked_step policy op g :
  settled g -> Forall (holds g) (demands policy) -> outranked op ->
  let g' := snd (apply_setting op g) in settled g' /\ Forall (holds g') (demands policy).
Proof.
  intros Hg Hh Ho. destruct op as [[[name value] context] source]. cbv zeta.
  rewrite apply_setting_state. destruct (outranked_lowered _ _ context _ g Hg Ho) as (f & -> & Hf).
  destruct Hg as [Hs Hsrc]. destruct Ho as [Hlt _]. split; [split|].
  - rewrite <- Hs. apply map_eq. intros i. rewrite !lookup_fmap. destruct (decide (name = i)) as [->|Hne];
      [|rewrite lookup_alter_ne by exact Hne; reflexivity].
    rewrite lookup_alter_eq. destruct (g !! i) as [r|]; [|reflexivity]. cbn.
    destruct (Hf r eq_refl) as (-> & _). reflexivity.
  - intros i r Hi. destruct (decide (name = i)) as [->|Hne];
      [|rewrite lookup_alter_ne in Hi by exact Hne; apply (Hsrc i r Hi)].
    rewrite lookup_alter_eq in Hi. destruct (g !! i) as [r0|] eqn:H0; [|discriminate].
    injection Hi as <-. apply (Hf r0 eq_refl), (Hsrc i r0 H0).
  - eapply Forall_impl; [exact Hh|]. intros [i v] (r & Hr & Hv & Hso). unfold holds. cbn [fst snd] in *.
    destruct (decide (name = i)) as [->|Hne];
      [|exists r; rewrite lookup_alter_ne by exact Hne; auto].
    exists (f r). rewrite lookup_alter_eq, Hr. split; [reflexivity|].
    destruct (Hf r Hr) as (_ & _ & Hk). rewrite <- Hv, <- Hso. apply Hk. lia.
Qed.

(** Nothing here ends the process. *)
Definition survives {A} (m : M gucs A) : Prop := forall g, fst (m g) <> Fatal.

Lemma survives_bind {A B} (m : M gucs A) (k : A -> M gucs B) :
  survives m -> (forall a, survives (k a)) -> survives (bind m k).
Proof.
  intros Hm Hk g. unfold bind. specialize (Hm g). destruct (m g) as [[a|e|] g1]; [apply Hk|discriminate|contradiction].
Qed.

Lemma set_config_survives hook name value context source :
  (forall n v, survives (hook n v)) -> survives (set_config_with_handle hook name value context source).
Proof.
  intros Hhook. assert (Hc : forall s e, survives (complain s e)).
  { intros s e g. unfold complain. destruct (_ || _); discriminate. }
  apply survives_bind; [discriminate|]. intros g. destruct (g !! name) as [r|]; [|apply Hc].
  destruct (negb _); [apply Hc|]. cbv zeta. destruct (_ && _); [discriminate|].
  destruct (match value with Some _ => _ | None => _ end) as [[nv src]|]; [|apply Hc].
  apply survives_bind; [|intros _; apply survives_bind; [destruct (_ && _); discriminate|discriminate]].
  destruct (negb _); [|discriminate]. apply survives_bind; [apply Hhook|discriminate].
Qed.

Lemma assign_hooks_survive name v : survives (assign_hooks name v).
Proof.
  unfold assign_hooks. destruct (String.eqb _ _); [|discriminate].
  intros g. rewrite (assign_set_all v g). revert g. induction (demands v) as [|[n x] l IH]; [discriminate|].
  apply survives_bind; [|intros _; exact IH]. apply survives_bind; [|discriminate].
  apply set_config_survives. discriminate.
Qed.

Lemma apply_setting_ok op g : exists g', apply_setting op g = (Ok tt, g').
Proof.
  destruct op as [[[name value] context] source]. unfold apply_setting, pg_try, bind.
  pose proof (set_config_survives assign_hooks name value context source assign_hooks_survive g) as Hs.
  unfold set_config_option. destruct (set_config_with_handle _ _ _ _ _ g) as [[a|e|] g1]; cbn;
    [eauto|eauto|contradiction].
Qed.

Lemma run_settings_hold policy ops g :
  settled g -> Forall (holds g) (demands policy) -> Forall outranked ops ->
  exists g', run_settings ops g = (Ok tt, g') /\ settled g' /\ Forall (holds g') (demands policy).
Proof.
  revert g. induction ops as [|op ops IH]; intros g Hg Hh Ho; cbn [run_settings]; [exists g; auto|].
  apply Forall_cons in Ho as [Ho Hos]. destruct (outranked_step policy op g Hg Hh Ho) as [Hg1 Hh1].
  destruct (apply_setting_ok op g) as [g1 Hr]. rewrite Hr in *. mrun Hr. apply IH; assumption.
Qed.

Lemma set_policy_run g policy context source :
  settled g -> In policy crypto_policy_options -> may_set PGC_SIGHUP context = true ->
  (forall r, g !! "crypto_policy"%string = Some r -> p_source r <= source) -> source <= PGC_S_OVERRIDE ->
  exists g', set_config_option "crypto_policy" (Some policy) context source g = (Ok 1, g') /\
    settled g' /\ Forall (holds g') (demands policy).
Proof.
  intros Hg Hin Hctx Hle Hmax. destruct (demands_settable policy) as [Hv Hd].
  destruct (set_all_run (demands policy) g Hg Hv Hd) as (g1 & H1 & [Hs1 Hsrc1] & Hh1 & Ho1).
  destruct (shape_of g "crypto_policy" (boot_param PGC_SIGHUP (Some crypto_policy_options) "custom") (proj1 Hg))
    as (r & Hr & Hsh); [vm_compute; reflexivity|]. injection Hsh as Hc Hopt _.
  assert (Hf : List.find (fun o => pg_strcasecmp policy o =? 0) crypto_policy_options = Some policy).
  { cbn in Hin. repeat (destruct Hin as [<-|Hin]; [reflexivity|]). contradiction. }
  assert (Hk : check_hooks "crypto_policy" policy source = true).
  { cbn in Hin. repeat (destruct Hin as [<-|Hin]; [reflexivity|]). contradiction. }
  set (upd := fun r' => let r1 := set_value policy source r' in
     if (source <=? PGC_S_OVERRIDE) && true && (p_reset_source r <=? source) then set_reset policy source r1 else r1).
  exists (alter upd "crypto_policy"%string g1). split; [|split; [split|]].
  - unfold set_config_option, set_config_with_handle. cbn [bind get]. rewrite Hr, Hc, Hctx. cbn [negb].
    cbv zeta. destruct (Z.ltb_spec source (p_source r)); [specialize (Hle r Hr); lia|]. cbn [negb andb orb].
    unfold parse_and_validate_value. rewrite Hopt, Hf, Hk. cbn [fmap option_fmap option_map when].
    rewrite (bind_step _ _ _ tt (alter (set_value policy source) "crypto_policy"%string g1))
      by (rewrite (bind_step _ _ _ tt g1) by (etransitivity; [apply assign_set_all|exact H1]); reflexivity).
    unfold upd. cbv zeta. destruct ((source <=? PGC_S_OVERRIDE) && true && (p_reset_source r <=? source));
      cbn; [rewrite alter_alter_eq|]; reflexivity.
  - rewrite <- Hs1. apply shape_alter. intros r'. unfold upd. destruct (_ && _); reflexivity.
  - intros i ri Hi. destruct (decide ("crypto_policy"%string = i)) as [<-|Hne];
      [|rewrite lookup_alter_ne in Hi by exact Hne; apply (Hsrc1 i ri Hi)].
    rewrite lookup_alter_eq in Hi. destruct (g1 !! _) as [r1|] eqn:E; [|discriminate].
    injection Hi as <-. destruct (Hsrc1 _ _ E). unfold upd. destruct (_ && _); cbn; lia.
  - apply Forall_forall. intros [i v] Hi. pose proof (proj1 (Forall_forall _ _) Hh1 _ Hi) as Hiv.
    unfold holds in *. cbn [fst] in *. rewrite lookup_alter_ne; [exact Hiv|]. intros <-.
    apply (policy_not_demanded policy), (list_elem_of_fmap_2 fst _ _ Hi).
Qed.

(** ** Types of values *)

Definition typed_param (r : param) : Prop :=
  match p_options r with
  | Some l => In (p_value r) l /\ In (p_boot r) l /\ In (p_reset r) l
  | None => True
  end.

(** The parameters of the table, enumerations holding names of their own. *)
Definition typed (g : gucs) : Prop :=
  shape <$> g = shape <$> boot_gucs /\ map_Forall (fun _ => typed_param) g.

Lemma typed_alter g f name :
  typed g -> (forall r, shape (f r) = shape r) ->
  (forall r, g !! name = Some r -> typed_param r -> typed_param (f r)) -> typed (alter f name g).
Proof.
  intros [Hs Ht] Hf Hr. split; [rewrite (shape_alter f name g Hf); exact Hs|].
  intros i r Hi. destruct (decide (name = i)) as [->|Hne].
  - rewrite lookup_alter_eq in Hi. destruct (g !! i) as [r0|] eqn:H0; [|discriminate].
    injection Hi as <-. apply Hr; [reflexivity|exact (Ht i r0 H0)].
  - rewrite lookup_alter_ne in Hi by exact Hne. exact (Ht i r Hi).
Qed.

Lemma parsed_typed name r v source nv l :
  parse_and_validate_value name r v source = Some nv -> p_options r = Some l -> In nv l.
Proof.
  unfold parse_and_validate_value. intros Hp Hl. rewrite Hl in Hp.
  destruct (List.find _ l) as [nv'|] eqn:Hf; [|discriminate]. destruct (check_hooks name nv' source); [|discriminate].
  injection Hp as <-. apply (List.find_some _ _ Hf).
Qed.

Lemma set_config_typed hook name value context source :
  (forall n v, preserves typed (hook n v)) -> preserves typed (set_config_with_handle hook name value context source).
Proof.
  intros Hhook g Hg. unfold set_config_with_handle. cbn [bind get].
  destruct (g !! name) as [r|] eqn:Hr; [|rewrite complain_state; exact Hg].
  destruct (negb _); [rewrite complain_state; exact Hg|]. cbv zeta.
  destruct (_ && _); [exact Hg|].
  destruct (match value with Some _ => _ | None => _ end) as [[nv src]|] eqn:Hnv; [|rewrite complain_state; exact Hg].
  assert (Hin : forall l, p_options r = Some l -> In nv l).
  { intros l Hl. pose proof (proj2 Hg name r Hr) as Ht. unfold typed_param in Ht. rewrite Hl in Ht.
    destruct value as [v|].
    - destruct (parse_and_validate_value name r v source) as [nv'|] eqn:Hp; [|discriminate].
      injection Hnv as <- _. exact (parsed_typed _ _ _ _ _ _ Hp Hl).
    - destruct (source =? PGC_S_DEFAULT); injection Hnv as <- _; apply Ht. }
  assert (Hopt : forall g' r', typed g' -> g' !! name = Some r' -> p_options r' = p_options r).
  { intros g' r' [Hs' _] Hr'. destruct Hg as [Hs _]. rewrite <- Hs in Hs'.
    apply (f_equal (lookup name)) in Hs'. rewrite !lookup_fmap, Hr, Hr' in Hs'. injection Hs'; auto. }
  assert (Hset : forall f : param -> param, (forall r', shape (f r') = shape r') ->
    (forall r', (p_value (f r') = nv \/ p_value (f r') = p_value r') /\
                (p_reset (f r') = nv \/ p_reset (f r') = p_reset r')) -> preserves typed (modify (alter f name))).
  { intros f Hf Hv. apply preserves_modify. intros g' Hg'. apply typed_alter; [exact Hg'|exact Hf|].
    intros r' Hr' Ht. pose proof (Hopt g' r' Hg' Hr') as Ho. unfold typed_param in *.
    specialize (Hf r'). injection Hf as _ Hof Hb. rewrite Hof, Ho, Hb. rewrite Ho in Ht.
    destruct (p_options r) as [l|]; [|exact I]. specialize (Hin l eq_refl).
    destruct Ht as (H1 & H2 & H3), (Hv r') as [[-> | ->] [-> | ->]]; auto. }
  refine (preserves_bind typed _ _ _ _ g Hg).
  - apply preserves_when, preserves_bind; [apply Hhook|]. intros _. apply Hset; [reflexivity|]. cbn. auto.
  - intros _. apply preserves_bind; [|auto with pg]. apply preserves_when, Hset; [reflexivity|]. cbn. auto.
Qed.

Lemma assign_hooks_typed name v : preserves typed (assign_hooks name v).
Proof.
  unfold assign_hooks. destruct (String.eqb _ _); [|auto with pg]. rewrite (assign_set_all v).
  induction (demands v) as [|[n x] l IH]; cbn [set_all]; [auto with pg|].
  apply preserves_bind; [|intros _; exact IH]. apply preserves_bind; [|auto with pg].
  apply set_config_typed. auto with pg.
Qed.

Lemma run_settings_typed ops : preserves typed (run_settings ops).
Proof.
  induction ops as [|[[[name value] context] source] ops IH]; cbn [run_settings]; [auto with pg|].
  apply preserves_bind; [|intros _; exact IH]. unfold apply_setting. msteps.
  apply set_config_typed, assign_hooks_typed.
Qed.

Lemma run_settings_total ops : forall g, exists g', run_settings ops g = (Ok tt, g').
Proof.
  induction ops as [|op ops IH]; intros g; cbn [run_settings]; [eexists; reflexivity|].
  destruct (apply_setting_ok op g) as [g1 H1]. mrun H1. apply IH.
Qed.

Lemma boot_typed : typed boot_gucs.
Proof.
  split; [reflexivity|]. intros name r Hr. unfold boot_gucs in Hr.
  repeat (apply lookup_insert_Some in Hr as [[_ <-] | [_ Hr]]; [cbn; tauto|]).
  apply lookup_singleton_Some in Hr as [_ <-]. cbn. tauto.
Qed.

(** ** Properties *)

(** Setting the policy gives every parameter it names the value
    the policy demands, and no setting from the configuration file, the command
    line, a database, a role or the start of a connection changes those values
    afterwards.  That includes setting the policy back to custom: the values of
    the last policy stay, and the administrator's own settings are ignored. *)
Theorem policy_takes_precedence g policy context source ops :
  settled g -> In policy crypto_policy_options -> may_set PGC_SIGHUP context = true ->
  (forall r, g !! "crypto_policy"%string = Some r -> p_source r <= source) -> source <= PGC_S_OVERRIDE ->
  Forall outranked ops ->
  exists g1 g2, set_config_option "crypto_policy" (Some policy) context source g = (Ok 1, g1) /\
    Forall (holds g1) (demands policy) /\
    run_settings ops g1 = (Ok tt, g2) /\ settled g2 /\ Forall (holds g2) (demands policy).
Proof.
  intros Hg Hin Hctx Hle Hmax Ho.
  destruct (set_policy_run g policy context source Hg Hin Hctx Hle Hmax) as (g1 & H1 & Hg1 & Hh1).
  destruct (run_settings_hold policy ops g1 Hg1 Hh1 Ho) as (g2 & H2 & Hg2 & Hh2).
  exists g1, g2. auto.
Qed.

(** No policy binds a session: whatever policy is in force, any
    user's SET of password_encryption takes effect, md5 included. *)
Theorem policy_bypassed_by_session g v :
  settled g -> In v password_encryption_options ->
  exists g' r, set_config_option "password_encryption" (Some v) PGC_USERSET PGC_S_SESSION g = (Ok 1, g') /\
    g' !! "password_encryption"%string = Some r /\ p_value r = v /\
    forall other, other <> "password_encryption"%string -> g' !! other = g !! other.
Proof.
  intros [Hs Hsrc] Hin.
  destruct (shape_of g "password_encryption"
    (boot_param PGC_USERSET (Some password_encryption_options) "scram-sha-256") Hs)
    as (r & Hr & Hsh); [vm_compute; reflexivity|]. injection Hsh as Hc Hopt _.
  destruct (Hsrc _ r Hr) as [Hle _].
  assert (Hf : List.find (fun o => pg_strcasecmp v o =? 0) password_encryption_options = Some v).
  { cbn in Hin. repeat (destruct Hin as [<-|Hin]; [reflexivity|]). contradiction. }
  exists (alter (set_value v PGC_S_SESSION) "password_encryption"%string g), (set_value v PGC_S_SESSION r).
  split; [|split; [rewrite lookup_alter_eq, Hr; reflexivity|split; [reflexivity|]]].
  - unfold set_config_option, set_config_with_handle. cbn [bind get]. rewrite Hr, Hc. cbn [may_set negb].
    cbv zeta. destruct (Z.ltb_spec PGC_S_SESSION (p_source r)); [unfold PGC_S_SESSION, PGC_S_OVERRIDE in *; lia|].
    unfold parse_and_validate_value. rewrite Hopt, Hf. reflexivity.
  - intros other Hne. apply lookup_alter_ne. congruence.
Qed.

Lemma boot_settled : settled boot_gucs.
Proof.
  split; [reflexivity|]. assert (Hb : map_Forall (fun _ r => p_source r = 0 /\ p_reset_source r = 0) boot_gucs)
    by (apply (bool_decide_unpack _); vm_compute; exact I).
  intros name r Hr. destruct (Hb name r Hr) as [-> ->]. unfold PGC_S_OVERRIDE. lia.
Qed.

Definition file_settings : list setting :=
  [("password_encryption", Some "md5", PGC_SIGHUP, PGC_S_FILE);
   ("crypto_policy", Some "Custom", PGC_SIGHUP, PGC_S_FILE);
   ("ssl_pqc_mode", Some "off", PGC_SIGHUP, PGC_S_FILE);
   ("password_encryption", Some "md5", PGC_USERSET, PGC_S_CLIENT)]%string.

Lemma policy_takes_precedence_witness :
  exists g1 g2, set_config_option "crypto_policy" (Some "fips-pqc-level5"%string) PGC_SIGHUP PGC_S_FILE boot_gucs
      = (Ok 1, g1) /\ run_settings file_settings g1 = (Ok tt, g2) /\
    holds g2 ("ssl_pqc_mode", "pqc-only")%string.
Proof.
  destruct (policy_takes_precedence boot_gucs "fips-pqc-level5" PGC_SIGHUP PGC_S_FILE file_settings)
    as (g1 & g2 & H1 & _ & H2 & _ & Hh).
  - exact boot_settled.
  - cbn. tauto.
  - reflexivity.
  - intros r Hr. vm_compute in Hr. injection Hr as <-. discriminate.
  - discriminate.
  - repeat apply Forall_cons_2; try apply Forall_nil_2; (split; [reflexivity|]); try discriminate.
    intros _. eexists. split; reflexivity.
  - exists g1, g2. split; [exact H1|]. split; [exact H2|].
    apply (proj1 (Forall_forall _ _) Hh), (bool_decide_unpack _). vm_compute. exact I.
Defined.

Lemma policy_bypassed_by_session_witness :
  exists g' r, set_config_option "password_encryption" (Some "md5"%string) PGC_USERSET PGC_S_SESSION boot_gucs
      = (Ok 1, g') /\ g' !! "password_encryption"%string = Some r /\ p_value r = "md5"%string.
Proof.
  destruct (policy_bypassed_by_session boot_gucs "md5") as (g' & r & H1 & H2 & H3 & _);
    [exact boot_settled|left; reflexivity|]. exists g', r. auto.
Defined.
