(* ===== verification/CString.v ===== *)
(** * C string functions

    What the authentication code uses of the C library: [strtok], [strtol] and
    the conversion [%d] of [sprintf], on C strings given as the bytes before
    their terminator. *)
From Stdlib Require Import ZArith Lia Bool String List.
From S2P Require Import Prelude.
Import ListNotations.
Local Open Scope Z_scope.

(** The longest prefix of bytes that satisfy [p], and the rest. *)
Fixpoint span (p : Z -> bool) (l : bytes) : bytes * bytes :=
  match l with
  | [] => ([], [])
  | c :: l' => if p c then let '(a, b) := span p l' in (c :: a, b) else ([], l)
  end.

Definition mem (c : Z) (l : bytes) : bool := existsb (Z.eqb c) l.

(** ** strtok *)

(** One call on the string [s] or on what the last call left of it: the token
    and what is left, [None] for NULL. *)
Definition strtok (s delim : bytes) : option (bytes * bytes) :=
  match snd (span (fun c => mem c delim) s) with
  | [] => None
  | s => let '(token, rest) := span (fun c => negb (mem c delim)) s in Some (token, tl rest)
  end.

(** ** strtol, with base 10 *)

Definition LONG_MAX : Z := 2 ^ 63 - 1.
Definition LONG_MIN : Z := - 2 ^ 63.

Definition isdigit (c : Z) : bool := (48 <=? c) && (c <=? 57).

Definition dec_val (l : bytes) : Z := fold_left (fun a d => a * 10 + (d - 48)) l 0.

(** The value, the bytes from [*endptr] on, and whether [errno] is set. *)
Definition strtol (s : bytes) : Z * bytes * bool :=
  let '(negative, s2) :=
    match snd (span isspace s) with
    | c :: r => if c =? 45 then (true, r) else if c =? 43 then (false, r) else (false, c :: r)
    | [] => (false, [])
    end in
  match span isdigit s2 with
  | ([], _) => (0, s, false)
  | (digits, rest) =>
      let v := if negative then - dec_val digits else dec_val digits in
      if LONG_MAX <? v then (LONG_MAX, rest, true)
      else if v <? LONG_MIN then (LONG_MIN, rest, true)
      else (v, rest, false)
  end.

(** ** The conversion %d *)

Fixpoint dec_loop (fuel : nat) (n : Z) (acc : bytes) : bytes :=
  match fuel with
  | O => acc
  | S fuel' =>
      let acc := 48 + n mod 10 :: acc in
      if n <? 10 then acc else dec_loop fuel' (n / 10) acc
  end.

(** An int has at most ten digits. *)
Definition format_d (n : Z) : bytes :=
  if n <? 0 then 45 :: dec_loop 10 (- n) [] else dec_loop 10 n [].

(** ** Lemmas *)

Lemma span_all p a b : forallb p a = true -> match b with [] => True | c :: _ => p c = false end ->
  span p (a ++ b) = (a, b).
Proof.
  intros Ha Hb. induction a as [|c a IH]; cbn in *.
  - destruct b as [|c b]; [reflexivity|]. cbn. rewrite Hb. reflexivity.
  - apply andb_prop in Ha as [Hc Ha]. rewrite Hc, (IH Ha). reflexivity.
Qed.

Lemma span_app p l : fst (span p l) ++ snd (span p l) = l.
Proof.
  induction l as [|c l IH]; [reflexivity|]. cbn. destruct (p c); [|reflexivity].
  destruct (span p l). cbn in *. congruence.
Qed.

Lemma span_fst p l : forallb p (fst (span p l)) = true.
Proof.
  induction l as [|c l IH]; [reflexivity|]. cbn. destruct (p c) eqn:Hc; [|reflexivity].
  destruct (span p l). cbn in *. rewrite Hc. exact IH.
Qed.

Lemma span_snd p l : match snd (span p l) with [] => True | c :: _ => p c = false end.
Proof.
  induction l as [|c l IH]; [exact I|]. cbn. destruct (p c) eqn:Hc; [|exact Hc]. destruct (span p l). exact IH.
Qed.

(** A token that starts the string and ends at a delimiter or at the end. *)
Lemma strtok_token token delim rest :
  token <> [] -> forallb (fun c => negb (mem c delim)) token = true ->
  (forall d, mem d delim = true -> strtok (token ++ d :: rest) delim = Some (token, rest)) /\
  strtok token delim = Some (token, []).
Proof.
  intros Hne Ht. destruct token as [|c token]; [congruence|]. cbn in Ht. apply andb_prop in Ht as [Hc Ht].
  assert (Hc' : mem c delim = false) by (destruct (mem c delim); [discriminate|reflexivity]).
  split; [intros d Hd|]; unfold strtok.
  - change ((c :: token) ++ d :: rest) with (c :: (token ++ d :: rest)). cbn [span]. rewrite Hc'. cbn [snd negb].
    rewrite (span_all _ token (d :: rest)); [rewrite Hc'; reflexivity|exact Ht|cbn; rewrite Hd; reflexivity].
  - cbn [span]. rewrite Hc'. cbn [snd negb]. rewrite <- (app_nil_r token) at 1.
    rewrite (span_all _ token []); [rewrite Hc'; reflexivity|exact Ht|exact I].
Qed.

Lemma dec_loop_val fuel n acc k : 0 <= n < 10 ^ Z.of_nat fuel -> (0 < fuel)%nat ->
  fold_left (fun a d => a * 10 + (d - 48)) (dec_loop fuel n acc) k =
  fold_left (fun a d => a * 10 + (d - 48)) acc (k * 10 ^ Z.of_nat (length (dec_loop fuel n acc) - length acc) + n).
Proof.
  revert n acc k. induction fuel as [|fuel IH]; intros n acc k Hn Hf; [lia|].
  assert (Hlen : forall f m a, (length a <= length (dec_loop f m a))%nat).
  { clear. induction f as [|f IH]; intros m a; cbn; [lia|]. destruct (m <? 10); cbn; [lia|].
    etransitivity; [|apply IH]. cbn. lia. }
  cbn [dec_loop]. destruct (Z.ltb_spec n 10).
  - cbn [fold_left length]. rewrite Z.mod_small by lia.
    replace (S (length acc) - length acc)%nat with 1%nat by lia. f_equal. change (10 ^ Z.of_nat 1) with 10. lia.
  - assert (Hdiv : 0 <= n / 10 < 10 ^ Z.of_nat fuel).
    { rewrite Nat2Z.inj_succ, Z.pow_succ_r in Hn by lia. split; [apply Z.div_pos; lia|].
      apply Z.div_lt_upper_bound; lia. }
    destruct fuel as [|fuel']; [cbn in Hdiv; pose proof (Z.div_str_pos n 10); lia|].
    rewrite IH by lia. cbn [fold_left].
    pose proof (Hlen (S fuel') (n / 10) (48 + n mod 10 :: acc)) as Hl. cbn [length] in Hl |- *.
    set (L := length (dec_loop (S fuel') (n / 10) (48 + n mod 10 :: acc))) in *.
    replace (L - length acc)%nat with (S (L - S (length acc)))%nat by lia.
    rewrite Nat2Z.inj_succ, Z.pow_succ_r by lia. f_equal.
    pose proof (Z.div_mod n 10). lia.
Qed.

Lemma dec_loop_digits fuel n acc : 0 <= n -> forallb isdigit acc = true ->
  forallb isdigit (dec_loop fuel n acc) = true.
Proof.
  revert n acc. induction fuel as [|fuel IH]; intros n acc Hn Hacc; [exact Hacc|]. cbn [dec_loop].
  assert (H : forallb isdigit (48 + n mod 10 :: acc) = true).
  { cbn [forallb]. rewrite Hacc. pose proof (Z.mod_pos_bound n 10). unfold isdigit. lia. }
  destruct (n <? 10); [exact H|]. apply IH; [apply Z.div_pos; lia|exact H].
Qed.

Lemma dec_loop_length fuel n acc : (length (dec_loop fuel n acc) <= fuel + length acc)%nat.
Proof.
  revert n acc. induction fuel as [|fuel IH]; intros n acc; cbn [dec_loop]; [cbn; lia|].
  destruct (n <? 10); [cbn; lia|]. etransitivity; [apply IH|]. cbn. lia.
Qed.

Lemma dec_loop_nonempty fuel n acc : acc <> [] \/ (0 < fuel)%nat -> dec_loop fuel n acc <> [].
Proof.
  revert n acc. induction fuel as [|fuel IH]; intros n acc H; cbn [dec_loop].
  - destruct H; [assumption|lia].
  - destruct (n <? 10); [discriminate|]. apply IH. left. discriminate.
Qed.

Lemma format_d_digits n : 0 <= n -> forallb isdigit (format_d n) = true /\ format_d n <> [].
Proof.
  intros Hn. unfold format_d. destruct (Z.ltb_spec n 0); [lia|].
  split; [apply dec_loop_digits; auto|apply dec_loop_nonempty; right; lia].
Qed.

Lemma dec_val_format n : 0 <= n < 10 ^ 10 -> dec_val (format_d n) = n.
Proof.
  intros Hn. unfold dec_val, format_d. destruct (Z.ltb_spec n 0); [lia|].
  rewrite dec_loop_val by (auto; lia). cbn [fold_left]. lia.
Qed.

(** [strtol] reads back what [%d] wrote. *)
Lemma strtol_format n rest : 0 <= n < 10 ^ 10 -> match rest with [] => True | c :: _ => isdigit c = false end ->
  strtol (format_d n ++ rest) = (n, rest, false).
Proof.
  intros Hn Hr. destruct (format_d_digits n) as [Hd Hne]; [lia|].
  pose proof (dec_val_format n Hn) as Hv. unfold strtol.
  destruct (format_d n) as [|c l] eqn:Ef; [congruence|]. cbn [app].
  assert (Hc : isdigit c = true) by (cbn in Hd; apply andb_prop in Hd; tauto).
  assert (Hs : span isspace (c :: l ++ rest) = ([], c :: l ++ rest)).
  { cbn. replace (isspace c) with false by (unfold isdigit, isspace in *; lia). reflexivity. }
  rewrite Hs. cbn [snd].
  unfold isdigit in Hc. destruct (Z.eqb_spec c 45); [lia|]. destruct (Z.eqb_spec c 43); [lia|].
  cbv beta iota zeta. change (c :: l ++ rest) with ((c :: l) ++ rest). rewrite (span_all isdigit (c :: l) rest Hd Hr), Hv.
  unfold LONG_MAX, LONG_MIN. destruct (Z.ltb_spec (2 ^ 63 - 1) n); [lia|].
  destruct (Z.ltb_spec n (- 2 ^ 63)); [lia|]. reflexivity.
Qed.
