(* ===== verification/Base64.v ===== *)
(** * Base64 (src/common/base64.c)

    The encoding of salts, keys and proofs in SCRAM messages and secrets.  The
    loops carry the same accumulators as the code; a byte buffer is the list of
    what has been written to it, bounded by the length of the destination. *)
From Stdlib Require Import ZArith Lia Bool String List.
From S2P Require Import Prelude.
Import ListNotations.
Local Open Scope Z_scope.

(** ** Tables *)

Definition _base64 : bytes :=
  Eval vm_compute in
  bytes_of_string "ABCDEFGHIJKLMNOPQRSTUVWXYZabcdefghijklmnopqrstuvwxyz0123456789+/".

Definition b64lookup : list Z :=
  [-1; -1; -1; -1; -1; -1; -1; -1; -1; -1; -1; -1; -1; -1; -1; -1;
   -1; -1; -1; -1; -1; -1; -1; -1; -1; -1; -1; -1; -1; -1; -1; -1;
   -1; -1; -1; -1; -1; -1; -1; -1; -1; -1; -1; 62; -1; -1; -1; 63;
   52; 53; 54; 55; 56; 57; 58; 59; 60; 61; -1; -1; -1; -1; -1; -1;
   -1; 0; 1; 2; 3; 4; 5; 6; 7; 8; 9; 10; 11; 12; 13; 14;
   15; 16; 17; 18; 19; 20; 21; 22; 23; 24; 25; -1; -1; -1; -1; -1;
   -1; 26; 27; 28; 29; 30; 31; 32; 33; 34; 35; 36; 37; 38; 39; 40;
   41; 42; 43; 44; 45; 46; 47; 48; 49; 50; 51; -1; -1; -1; -1; -1].

Definition PAD : Z := 61.

Definition b64char (i : Z) : Z := nth (Z.to_nat i) _base64 0.

(** ** Encoding *)

(** The digit of a group at bit [k]. *)
Definition digit (buf k : Z) : Z := b64char (Z.land (Z.shiftr buf k) 63).

Fixpoint encode_loop (src : bytes) (dstlen pos buf : Z) (dst : bytes) : option bytes :=
  match src with
  | [] =>
      if negb (pos =? 2) then
        if dstlen <? blen dst + 4 then None
        else Some (dst ++ [digit buf 18; digit buf 12; (if pos =? 0 then digit buf 6 else PAD); PAD])
      else Some dst
  | s :: src' =>
      let buf := Z.lor buf (Z.shiftl s (pos * 8)) in
      let pos := pos - 1 in
      if pos <? 0 then
        if dstlen <? blen dst + 4 then None
        else encode_loop src' dstlen 2 0 (dst ++ [digit buf 18; digit buf 12; digit buf 6; digit buf 0])
      else encode_loop src' dstlen pos buf dst
  end.

(** [pg_b64_encode]: what is written, [None] for -1. *)
Definition pg_b64_encode (src : bytes) (dstlen : Z) : option bytes := encode_loop src dstlen 2 0 [].

(** ** Decoding *)

Definition lookup_char (c : Z) : Z :=
  if (0 <? c) && (c <? 127) then nth (Z.to_nat c) b64lookup (-1) else -1.

(** The writes after the fourth digit of a group. *)
Definition flush (buf end_ dstlen : Z) (dst : bytes) : option bytes :=
  let put (b : bool) (x : Z) (d : option bytes) :=
    match d with
    | None => None
    | Some dst => if b then if dstlen <? blen dst + 1 then None else Some (dst ++ [x]) else Some dst
    end in
  put ((end_ =? 0) || (2 <? end_)) (Z.land buf 255)
    (put ((end_ =? 0) || (1 <? end_)) (Z.land (Z.shiftr buf 8) 255)
      (put true (Z.land (Z.shiftr buf 16) 255) (Some dst))).

Definition is_space (c : Z) : bool := (c =? 32) || (c =? 9) || (c =? 10) || (c =? 13).

Fixpoint decode_loop (src : bytes) (dstlen buf pos end_ : Z) (dst : bytes) : option bytes :=
  match src with
  | [] => if negb (pos =? 0) then None else Some dst
  | c :: src' =>
      if is_space c then None
      else
        match
          (if c =? PAD then
             if end_ =? 0 then
               if pos =? 2 then Some (0, 1) else if pos =? 3 then Some (0, 2) else None
             else Some (0, end_)
           else
             let b := lookup_char c in
             if b <? 0 then None else Some (b, end_))
        with
        | None => None
        | Some (b, end_) =>
            let buf := u32 (Z.shiftl buf 6 + b) in
            let pos := pos + 1 in
            if pos =? 4 then
              match flush buf end_ dstlen dst with
              | None => None
              | Some dst => decode_loop src' dstlen 0 0 end_ dst
              end
            else decode_loop src' dstlen buf pos end_ dst
        end
  end.

Definition pg_b64_decode (src : bytes) (dstlen : Z) : option bytes := decode_loop src dstlen 0 0 0 [].

Definition pg_b64_enc_len (srclen : Z) : Z := (srclen + 2) / 3 * 4.
Definition pg_b64_dec_len (srclen : Z) : Z := Z.shiftr (srclen * 3) 2.

(** ** Groups of three bytes *)

(** The number three bytes make. *)
Definition group (a b c : Z) : Z := a * 65536 + b * 256 + c.

Lemma lor_add x y k : 0 <= k -> 0 <= y < 2 ^ k -> Z.lor (x * 2 ^ k) y = x * 2 ^ k + y.
Proof.
  intros Hk Hy. rewrite <- Z.add_lor_land. replace (Z.land (x * 2 ^ k) y) with 0; [lia|].
  symmetry. apply Z.bits_inj'. intros n Hn. rewrite Z.bits_0, Z.land_spec.
  destruct (Z.ltb_spec n k).
  - rewrite Z.mul_pow2_bits_low by lia. reflexivity.
  - destruct (Z.eq_dec y 0) as [->|]; [rewrite Z.bits_0, andb_false_r; reflexivity|].
    rewrite (Z.bits_above_log2 y n), andb_false_r; [reflexivity|lia|]. apply Z.log2_lt_pow2; [lia|].
    apply Z.lt_le_trans with (2 ^ k); [lia|]. apply Z.pow_le_mono_r; lia.
Qed.

Lemma group_lor a b c : is_byte a = true -> is_byte b = true -> is_byte c = true ->
  Z.lor (Z.lor (Z.lor 0 (Z.shiftl a (2 * 8))) (Z.shiftl b (1 * 8))) (Z.shiftl c (0 * 8)) = group a b c.
Proof.
  rewrite !is_byte_iff. intros Ha Hb Hc. rewrite Z.lor_0_l, !Z.shiftl_mul_pow2 by lia. cbn [Z.mul Pos.mul].
  rewrite (lor_add a (b * 2 ^ 8) 16) by lia. change (0 * 8) with 0. rewrite Z.pow_0_r, Z.mul_1_r.
  replace (a * 2 ^ 16 + b * 2 ^ 8) with ((a * 256 + b) * 2 ^ 8) by lia.
  rewrite (lor_add _ c 8) by lia. unfold group. lia.
Qed.

Lemma land63 x : Z.land x 63 = x mod 64.
Proof. change 63 with (Z.ones 6). rewrite Z.land_ones by lia. reflexivity. Qed.
Lemma land255 x : Z.land x 255 = x mod 256.
Proof. change 255 with (Z.ones 8). rewrite Z.land_ones by lia. reflexivity. Qed.

Lemma lookup_b64char i : 0 <= i < 64 -> lookup_char (b64char i) = i.
Proof.
  intros Hi. assert (H : forallb (fun k => lookup_char (b64char (Z.of_nat k)) =? Z.of_nat k) (seq 0 64) = true)
    by (vm_compute; reflexivity).
  rewrite forallb_forall in H. specialize (H (Z.to_nat i)). rewrite Z2Nat.id in H by lia.
  apply Z.eqb_eq, H. apply in_seq. lia.
Qed.

(** The characters an encoding consists of. *)
Definition is_b64 (c : Z) : bool :=
  ((65 <=? c) && (c <=? 90)) || ((97 <=? c) && (c <=? 122)) || ((48 <=? c) && (c <=? 57)) ||
  (c =? 43) || (c =? 47) || (c =? PAD).

Lemma b64char_b64 i : 0 <= i < 64 -> is_b64 (b64char i) = true /\ b64char i <> PAD.
Proof.
  intros Hi. assert (H : forallb (fun k => is_b64 (b64char (Z.of_nat k)) && negb (b64char (Z.of_nat k) =? PAD))
    (seq 0 64) = true) by (vm_compute; reflexivity).
  rewrite forallb_forall in H. specialize (H (Z.to_nat i)). rewrite Z2Nat.id in H by lia.
  destruct (andb_prop _ _ (H ltac:(apply in_seq; lia))) as [H1 H2]. split; [exact H1|].
  intros E. rewrite E in H2. discriminate.
Qed.

Lemma digit_b64 buf k : is_b64 (digit buf k) = true /\ digit buf k <> PAD /\ is_space (digit buf k) = false.
Proof.
  unfold digit. rewrite land63. destruct (b64char_b64 (Z.shiftr buf k mod 64)) as [H1 H2];
    [apply Z.mod_pos_bound; lia|]. split; [exact H1|]. split; [exact H2|].
  unfold is_b64, is_space, PAD in *. revert H1. generalize (b64char (Z.shiftr buf k mod 64)). intros c. lia.
Qed.

(** ** The loops and their groups *)

(** The encoding, group by group. *)
Fixpoint enc (l : bytes) : bytes :=
  match l with
  | a :: b :: c :: l' =>
      let q := group a b c in [digit q 18; digit q 12; digit q 6; digit q 0] ++ enc l'
  | [a; b] => let q := group a b 0 in [digit q 18; digit q 12; digit q 6; PAD]
  | [a] => let q := group a 0 0 in [digit q 18; digit q 12; PAD; PAD]
  | [] => []
  end.

Lemma group_ind (P : bytes -> Prop) :
  P [] -> (forall a, P [a]) -> (forall a b, P [a; b]) ->
  (forall a b c l, P l -> P (a :: b :: c :: l)) -> forall l, P l.
Proof.
  intros H0 H1 H2 H3. fix IH 1. intros [|a [|b [|c l]]]; [exact H0|apply H1|apply H2|apply H3, IH].
Qed.

Lemma blen_cons a l : blen (a :: l) = blen l + 1.
Proof. unfold blen. cbn [length]. lia. Qed.
Lemma blen_app (a b : bytes) : blen (a ++ b) = blen a + blen b.
Proof. unfold blen. rewrite length_app. lia. Qed.
Lemma blen_nonneg l : 0 <= blen l.
Proof. unfold blen. lia. Qed.

Lemma enc_len_3 n : 0 <= n -> pg_b64_enc_len (n + 3) = pg_b64_enc_len n + 4.
Proof. intros. unfold pg_b64_enc_len. replace (n + 3 + 2) with (n + 2 + 1 * 3) by lia.
  rewrite Z.div_add by lia. ring. Qed.

Lemma enc_len_nonneg n : 0 <= n -> 0 <= pg_b64_enc_len n.
Proof. intros. unfold pg_b64_enc_len. apply Z.mul_nonneg_nonneg; [apply Z.div_pos|]; lia. Qed.

Lemma blen_enc l : blen (enc l) = pg_b64_enc_len (blen l).
Proof.
  induction l as [|a|a b|a b c l IH] using group_ind; try reflexivity.
  cbn [enc]. rewrite blen_app, IH, !blen_cons. change (blen []) with 0.
  replace (blen l + 1 + 1 + 1) with (blen l + 3) by lia. rewrite enc_len_3 by apply blen_nonneg. lia.
Qed.

Lemma encode_loop_enc l dst dstlen :
  wf_bytes l = true -> blen dst + pg_b64_enc_len (blen l) <= dstlen ->
  encode_loop l dstlen 2 0 dst = Some (dst ++ enc l).
Proof.
  revert dst. induction l as [|a|a b|a b c l IH] using group_ind; intros dst Hwf Hlen; cbn [wf_bytes forallb] in Hwf.
  - cbn. rewrite app_nil_r. reflexivity.
  - apply andb_prop in Hwf as [Ha _]. cbn -[Z.shiftl Z.lor digit group blen].
    rewrite <- (group_lor a 0 0) by (auto || reflexivity). rewrite Z.shiftl_0_l, !Z.lor_0_r.
    change (pg_b64_enc_len _) with 4 in Hlen. destruct (Z.ltb_spec dstlen (blen dst + 4)); [lia|reflexivity].
  - apply andb_prop in Hwf as [Ha Hwf]. apply andb_prop in Hwf as [Hb _]. cbn -[Z.shiftl Z.lor digit group blen].
    rewrite <- (group_lor a b 0) by (auto || reflexivity). rewrite (Z.shiftl_0_l (0 * 8)), !Z.lor_0_r.
    change (pg_b64_enc_len _) with 4 in Hlen. destruct (Z.ltb_spec dstlen (blen dst + 4)); [lia|reflexivity].
  - apply andb_prop in Hwf as [Ha Hwf]. apply andb_prop in Hwf as [Hb Hwf]. apply andb_prop in Hwf as [Hc Hwf].
    rewrite !blen_cons in Hlen. replace (blen l + 1 + 1 + 1) with (blen l + 3) in Hlen by lia.
    rewrite enc_len_3 in Hlen by apply blen_nonneg. pose proof (enc_len_nonneg _ (blen_nonneg l)).
    cbn [encode_loop enc]. change (2 - 1 - 1 - 1 <? 0) with true. change (2 - 1 - 1 <? 0) with false.
    change (2 - 1 <? 0) with false. cbn [negb]. cbv zeta iota. rewrite group_lor by assumption.
    destruct (Z.ltb_spec dstlen (blen dst + 4)); [lia|].
    rewrite IH; [rewrite <- app_assoc; reflexivity|exact Hwf|]. rewrite blen_app, !blen_cons. change (blen []) with 0. lia.
Qed.

(** A buffer of [pg_b64_enc_len] bytes is enough, and is filled. *)
Lemma encode_fits l : wf_bytes l = true ->
  pg_b64_encode l (pg_b64_enc_len (blen l)) = Some (enc l).
Proof. intros Hwf. unfold pg_b64_encode. apply (encode_loop_enc l [] _ Hwf). cbn. lia. Qed.

Lemma enc_b64 l : forallb is_b64 (enc l) = true.
Proof.
  induction l as [|a|a b|a b c l IH] using group_ind; cbn [enc app forallb]; rewrite ?(proj1 (digit_b64 _ _)); auto.
Qed.

(** What a character adds to a group that it does not complete, and to one
    that it does. *)
Definition add_digit (buf b : Z) : Z := u32 (Z.shiftl buf 6 + b).

Definition complete (src : bytes) (dstlen buf end_ : Z) (dst : bytes) : option bytes :=
  match flush buf end_ dstlen dst with
  | None => None
  | Some dst => decode_loop src dstlen 0 0 end_ dst
  end.

Lemma step_digit src dstlen buf pos end_ dst q k :
  decode_loop (digit q k :: src) dstlen buf pos end_ dst =
  if pos + 1 =? 4 then complete src dstlen (add_digit buf (Z.shiftr q k mod 64)) end_ dst
  else decode_loop src dstlen (add_digit buf (Z.shiftr q k mod 64)) (pos + 1) end_ dst.
Proof.
  destruct (digit_b64 q k) as (_ & Hp & Hs). cbn [decode_loop]. rewrite Hs.
  apply Z.eqb_neq in Hp. rewrite Hp. unfold digit. rewrite land63, lookup_b64char by (apply Z.mod_pos_bound; lia).
  destruct (Z.ltb_spec (Z.shiftr q k mod 64) 0); [|reflexivity].
  pose proof (Z.mod_pos_bound (Z.shiftr q k) 64). lia.
Qed.

Lemma decode_group q c3 c4 src dstlen dst :
  decode_loop (digit q 18 :: digit q 12 :: c3 :: c4 :: src) dstlen 0 0 0 dst =
  decode_loop (c3 :: c4 :: src) dstlen
    (add_digit (add_digit 0 (Z.shiftr q 18 mod 64)) (Z.shiftr q 12 mod 64)) 2 0 dst.
Proof. rewrite step_digit. change (0 + 1 =? 4) with false. rewrite step_digit. reflexivity. Qed.

(** The four digits of a group make its number again. *)
Lemma regroup q : 0 <= q < 2 ^ 24 ->
  add_digit (add_digit (add_digit (add_digit 0 (Z.shiftr q 18 mod 64)) (Z.shiftr q 12 mod 64))
    (Z.shiftr q 6 mod 64)) (Z.shiftr q 0 mod 64) = q.
Proof.
  intros Hq. unfold add_digit, u32. rewrite !Z.shiftr_div_pow2, !Z.shiftl_mul_pow2 by lia.
  change (2 ^ 18) with 262144. change (2 ^ 12) with 4096. change (2 ^ 6) with 64. change (2 ^ 0) with 1.
  rewrite Z.div_1_r. Z.to_euclidean_division_equations. lia.
Qed.

Lemma group_bound a b c : is_byte a = true -> is_byte b = true -> is_byte c = true ->
  0 <= group a b c < 2 ^ 24.
Proof. rewrite !is_byte_iff. unfold group. lia. Qed.

Lemma group_bytes a b c : is_byte a = true -> is_byte b = true -> is_byte c = true ->
  Z.land (Z.shiftr (group a b c) 16) 255 = a /\ Z.land (Z.shiftr (group a b c) 8) 255 = b /\
  Z.land (group a b c) 255 = c.
Proof.
  rewrite !is_byte_iff. intros Ha Hb Hc. rewrite !land255, !Z.shiftr_div_pow2 by lia. unfold group.
  change (2 ^ 16) with 65536. change (2 ^ 8) with 256.
  repeat split; Z.to_euclidean_division_equations; lia.
Qed.

Lemma flush_group a b c end_ dstlen dst :
  is_byte a = true -> is_byte b = true -> is_byte c = true -> 0 <= end_ <= 2 ->
  let out := if end_ =? 1 then [a] else if end_ =? 2 then [a; b] else [a; b; c] in
  blen dst + blen out <= dstlen -> flush (group a b c) end_ dstlen dst = Some (dst ++ out).
Proof.
  intros Ha Hb Hc He out Hlen. destruct (group_bytes a b c Ha Hb Hc) as (H1 & H2 & H3).
  unfold flush. rewrite H1, H2, H3. assert (Hout : 1 <= blen out) by (unfold out; destruct (end_ =? 1); [|destruct (end_ =? 2)]; cbn; lia).
  destruct (Z.ltb_spec dstlen (blen dst + 1)) as [|_]; [lia|].
  destruct (Z.eq_dec end_ 1) as [->|]; [reflexivity|].
  assert (He' : end_ = 2 \/ end_ = 0) by lia.
  assert (Hl : 2 <= blen out) by (destruct He' as [-> | ->]; cbn; lia).
  cbv zeta. replace ((end_ =? 0) || (1 <? end_)) with true by (destruct He' as [-> | ->]; reflexivity).
  rewrite (blen_app dst [a]). destruct (Z.ltb_spec dstlen (blen dst + blen [a] + 1)) as [Hx|_];
    [cbn in Hx; lia|]. rewrite <- app_assoc. destruct He' as [-> | ->]; [reflexivity|]. cbn [Z.eqb orb].
  rewrite blen_app. destruct (Z.ltb_spec dstlen (blen dst + blen ([a] ++ [b]) + 1)) as [Hx|_];
    [cbn in Hx, Hlen; lia|]. rewrite <- app_assoc. reflexivity.
Qed.

Lemma shiftr_group_0 a b : Z.shiftr (group a b 0) 0 mod 64 = 0.
Proof. unfold group. rewrite Z.shiftr_0_r. Z.to_euclidean_division_equations. lia. Qed.

Lemma shiftr_group_6 a : Z.shiftr (group a 0 0) 6 mod 64 = 0.
Proof.
  unfold group. rewrite Z.shiftr_div_pow2 by lia. change (2 ^ 6) with 64. Z.to_euclidean_division_equations. lia.
Qed.

Lemma decode_loop_enc l dst dstlen :
  wf_bytes l = true -> blen dst + blen l <= dstlen ->
  decode_loop (enc l) dstlen 0 0 0 dst = Some (dst ++ l).
Proof.
  revert dst. induction l as [|a|a b|a b c l IH] using group_ind; intros dst Hwf Hlen; cbn [wf_bytes forallb] in Hwf;
    cbn [enc app]; rewrite ?andb_true_r, ?andb_true_iff in Hwf; rewrite ?decode_group.
  - cbn. rewrite app_nil_r. reflexivity.
  - pose proof (regroup (group a 0 0) (group_bound a 0 0 Hwf eq_refl eq_refl)) as Hq.
    rewrite shiftr_group_6, shiftr_group_0 in Hq. cbn [decode_loop]. cbv zeta. cbn -[u32 Z.shiftl flush group add_digit].
    fold (add_digit (add_digit (add_digit 0 (Z.shiftr (group a 0 0) 18 mod 64)) (Z.shiftr (group a 0 0) 12 mod 64)) 0).
    setoid_rewrite Hq. rewrite (flush_group a 0 0 1) by (auto || lia). reflexivity.
  - destruct Hwf as [Ha Hb]. pose proof (regroup (group a b 0) (group_bound a b 0 Ha Hb eq_refl)) as Hq.
    rewrite shiftr_group_0 in Hq. rewrite step_digit. change (2 + 1 =? 4) with false. cbv iota.
    cbn -[u32 Z.shiftl flush group add_digit]. setoid_rewrite Hq. rewrite (flush_group a b 0 2) by (auto || lia). reflexivity.
  - destruct Hwf as (Ha & Hb & Hc & Hwf). rewrite step_digit. change (2 + 1 =? 4) with false. cbv iota.
    rewrite step_digit. change (2 + 1 + 1 =? 4) with true. cbv iota.
    rewrite regroup by (apply group_bound; assumption). rewrite !blen_cons in Hlen. pose proof (blen_nonneg l).
    unfold complete. rewrite (flush_group a b c 0); [|auto; cbn; unfold blen in *; cbn [length] in *; lia..].
    rewrite IH; [cbn; rewrite <- app_assoc; reflexivity|exact Hwf|rewrite blen_app; cbn; lia].
Qed.

Lemma dec_len_enc_len n : 0 <= n -> n <= pg_b64_dec_len (pg_b64_enc_len n).
Proof.
  intros Hn. unfold pg_b64_dec_len, pg_b64_enc_len. rewrite Z.shiftr_div_pow2 by lia. change (2 ^ 2) with 4.
  Z.to_euclidean_division_equations. lia.
Qed.

Lemma decode_enc l : wf_bytes l = true -> pg_b64_decode (enc l) (pg_b64_dec_len (blen (enc l))) = Some l.
Proof.
  intros Hwf. apply (decode_loop_enc l [] _ Hwf). rewrite blen_enc. apply dec_len_enc_len, blen_nonneg.
Qed.

(** Every byte string survives: encoding into a buffer of
    [pg_b64_enc_len] bytes succeeds and fills it, and decoding the result into
    one of [pg_b64_dec_len] bytes gives the string back. *)
Theorem base64_roundtrip l : wf_bytes l = true ->
  exists e, pg_b64_encode l (pg_b64_enc_len (blen l)) = Some e /\
    blen e = pg_b64_enc_len (blen l) /\ pg_b64_decode e (pg_b64_dec_len (blen e)) = Some l.
Proof.
  intros Hwf. exists (enc l). split; [apply encode_fits, Hwf|]. split; [apply blen_enc|].
  apply decode_enc, Hwf.
Qed.

Lemma base64_roundtrip_witness :
  exists e, pg_b64_encode [77; 97; 110; 255] (pg_b64_enc_len 4) = Some e /\ blen e = 8 /\
    pg_b64_decode e (pg_b64_dec_len (blen e)) = Some [77; 97; 110; 255].
Proof. apply (base64_roundtrip [77; 97; 110; 255]). reflexivity. Defined.
