(* ===== verification/ScramSecret.v ===== *)
(** * SCRAM secrets (src/common/scram-common.c, src/backend/libpq/crypt.c)

    The key derivation both sides of SCRAM use, the secret stored for a role
    (scram_build_secret, parse_scram_secret of auth-scram.c) and the kinds of
    password (get_password_type, encrypt_password).

    Hashing and HMAC are OpenSSL's, a parameter; SASLprep, which rests on the
    Unicode tables of src/common/saslprep.c, is a parameter without laws, so
    the theorems hold for every normalisation. *)
From Stdlib Require Import ZArith Lia Bool String List.
From stdpp Require Import base gmap list strings.
From S2P Require Import Prelude CryptoIface Env CString Base64 MasterKeyFile.
Import ListNotations.
Local Open Scope Z_scope.
Local Open Scope pg_scope.

(** ** Hash functions *)

Inductive pg_cryptohash_type := PG_MD5 | PG_SHA1 | PG_SHA224 | PG_SHA256 | PG_SHA384 | PG_SHA512.

Definition digest_length (t : pg_cryptohash_type) : Z :=
  match t with
  | PG_MD5 => 16 | PG_SHA1 => 20 | PG_SHA224 => 28 | PG_SHA256 => 32 | PG_SHA384 => 48 | PG_SHA512 => 64
  end.

Class Digests := {
  DIGEST : pg_cryptohash_type -> bytes -> bytes;
  HMAC : pg_cryptohash_type -> bytes -> bytes -> bytes      (* key, message *)
}.

Class DigestLaws `{Digests} : Prop := {
  DIGEST_length : forall t m, blen (DIGEST t m) = digest_length t;
  DIGEST_wf : forall t m, wf_bytes (DIGEST t m) = true;
  HMAC_length : forall t k m, blen (HMAC t k m) = digest_length t;
  HMAC_wf : forall t k m, wf_bytes (HMAC t k m) = true
}.

(** [pg_saslprep]: [None] for a result other than success. *)
Class Saslprep := { pg_saslprep : bytes -> option bytes }.

Definition prepared `{Saslprep} (password : bytes) : bytes :=
  match pg_saslprep password with Some p => p | None => password end.

(** ** Constants *)

Definition SCRAM_SHA_256_NAME : bytes := bytes_of_string "SCRAM-SHA-256".
Definition SCRAM_SHA_256_PLUS_NAME : bytes := bytes_of_string "SCRAM-SHA-256-PLUS".
Definition SCRAM_SHA_384_NAME : bytes := bytes_of_string "SCRAM-SHA-384".
Definition SCRAM_SHA_384_PLUS_NAME : bytes := bytes_of_string "SCRAM-SHA-384-PLUS".
Definition SCRAM_SHA_256_KEY_LEN : Z := 32.
Definition SCRAM_SHA_384_KEY_LEN : Z := 48.
Definition SCRAM_MAX_KEY_LEN : Z := 48.
Definition SCRAM_RAW_NONCE_LEN : nat := 18.
Definition SCRAM_DEFAULT_SALT_LEN : nat := 16.
Definition SCRAM_SHA_256_DEFAULT_ITERATIONS : Z := 4096.
Definition SCRAM_SHA_384_DEFAULT_ITERATIONS : Z := 4096.

(** ** Key derivation *)

Section Derivation.
  Context `{Digests}.

(** A context created, initialised, updated with each part and finished:
    [None] when one of the calls fails or the digest does not fit. *)
Definition hmac (t : pg_cryptohash_type) (key : bytes) (parts : list bytes) (len : Z) : M env (option bytes) :=
  let! ok := attempts (2 + length parts) in
  if negb ok || (len <? digest_length t) then ret None
  else
    let! ok := attempt in
    ret (if ok then Some (HMAC t key (concat parts)) else None).

Definition cryptohash (t : pg_cryptohash_type) (parts : list bytes) (len : Z) : M env (option bytes) :=
  let! ok := attempts (2 + length parts) in
  if negb ok || (len <? digest_length t) then ret None
  else
    let! ok := attempt in
    ret (if ok then Some (DIGEST t (concat parts)) else None).

Fixpoint salted_loop (n : nat) (password : bytes) (t : pg_cryptohash_type) (key_length : Z)
    (result Ui_prev : bytes) : M env (option bytes) :=
  match n with
  | O => ret (Some result)
  | S n' =>
      let! u := hmac t password [Ui_prev] key_length in
      match u with
      | None => ret None
      | Some Ui => salted_loop n' password t key_length (xor_bytes result Ui) Ui
      end
  end.

Definition scram_SaltedPassword (password : bytes) (t : pg_cryptohash_type) (key_length : Z)
    (salt : bytes) (iterations : Z) : M env (option bytes) :=
  let! u := hmac t password [salt; be_bytes 4 1] key_length in
  match u with
  | None => ret None
  | Some Ui => salted_loop (Z.to_nat (iterations - 1)) password t key_length Ui Ui
  end.

Definition scram_H (input : bytes) (t : pg_cryptohash_type) (key_length : Z) : M env (option bytes) :=
  cryptohash t [input] key_length.

Definition scram_ClientKey (salted_password : bytes) (t : pg_cryptohash_type) (key_length : Z)
    : M env (option bytes) :=
  hmac t salted_password [bytes_of_string "Client Key"] key_length.

Definition scram_ServerKey (salted_password : bytes) (t : pg_cryptohash_type) (key_length : Z)
    : M env (option bytes) :=
  hmac t salted_password [bytes_of_string "Server Key"] key_length.

(** ** Building a secret *)

Definition or_error {A} (m : M env (option A)) : M env A :=
  let! r := m in
  match r with Some a => ret a | None => raise ERRCODE_INTERNAL_ERROR end.

Definition b64_or_error (data : bytes) : M env bytes :=
  or_error (ret (pg_b64_encode data (pg_b64_enc_len (blen data)))).

Definition scheme_name (t : pg_cryptohash_type) : bytes :=
  match t with PG_SHA384 => SCRAM_SHA_384_NAME | _ => SCRAM_SHA_256_NAME end.

(** The length of the buffer the secret is written to. *)
Definition secret_maxlen (t : pg_cryptohash_type) (key_length saltlen : Z) : Z :=
  blen (scheme_name t) + 1 + 10 + 1 + pg_b64_enc_len saltlen + 1 + pg_b64_enc_len key_length + 1
  + pg_b64_enc_len key_length + 1.

(** [scram_build_secret] of the server, where a failure is an error. *)
Definition scram_build_secret (t : pg_cryptohash_type) (key_length : Z) (salt : bytes)
    (iterations : Z) (password : bytes) : M env bytes :=
  let! salted_password := or_error (scram_SaltedPassword password t key_length salt iterations) in
  let! client_key := or_error (scram_ClientKey salted_password t key_length) in
  let! stored_key := or_error (scram_H client_key t key_length) in
  let! server_key := or_error (scram_ServerKey salted_password t key_length) in
  let! esalt := b64_or_error salt in
  let! estored := b64_or_error stored_key in
  let! eserver := b64_or_error server_key in
  ret (scheme_name t ++ [36] ++ format_d iterations ++ [58] ++ esalt ++ [36] ++ estored ++ [58] ++ eserver).
End Derivation.

(** ** Reading a secret *)

Record scram_secret := mkSecret {
  sec_iterations : Z;
  sec_hash_type : pg_cryptohash_type;
  sec_key_length : Z;
  sec_salt : bytes;                 (* base64-encoded *)
  sec_StoredKey : bytes;
  sec_ServerKey : bytes
}.

Definition decode_key (text : bytes) (key_length : Z) : option bytes :=
  match pg_b64_decode text (pg_b64_dec_len (blen text)) with
  | Some k => if blen k =? key_length then Some k else None
  | None => None
  end.

Definition parse_fields (scheme_str iterations_str salt_str storedkey_str serverkey_str : bytes)
    : option scram_secret :=
  match
    (if bytes_eqb scheme_str SCRAM_SHA_256_NAME then Some (PG_SHA256, SCRAM_SHA_256_KEY_LEN)
     else if bytes_eqb scheme_str SCRAM_SHA_384_NAME then Some (PG_SHA384, SCRAM_SHA_384_KEY_LEN)
     else None)
  with
  | None => None
  | Some (hash_type, key_length) =>
      let '(iterations, p, errno) := strtol iterations_str in
      if negb (Nat.eqb (length p) 0) || errno then None
      else
        match pg_b64_decode salt_str (pg_b64_dec_len (blen salt_str)),
              decode_key storedkey_str key_length, decode_key serverkey_str key_length with
        | Some _, Some stored_key, Some server_key =>
            Some (mkSecret (c_int iterations) hash_type key_length salt_str stored_key server_key)
        | _, _, _ => None
        end
  end.

Definition parse_scram_secret (secret : bytes) : option scram_secret :=
  match strtok secret [36] with
  | None => None
  | Some (scheme_str, rest) =>
      match strtok rest [58] with
      | None => None
      | Some (iterations_str, rest) =>
          match strtok rest [36] with
          | None => None
          | Some (salt_str, rest) =>
              match strtok rest [58] with
              | None => None
              | Some (storedkey_str, rest) =>
                  match strtok rest [] with
                  | None => None
                  | Some (serverkey_str, _) =>
                      parse_fields scheme_str iterations_str salt_str storedkey_str serverkey_str
                  end
              end
          end
      end
  end.

(** ** Kinds of password *)

Inductive PasswordType :=
| PASSWORD_TYPE_PLAINTEXT | PASSWORD_TYPE_MD5 | PASSWORD_TYPE_SCRAM_SHA_256 | PASSWORD_TYPE_SCRAM_SHA_384.

Definition MD5_PASSWD_LEN : nat := 35.
Definition MD5_PASSWD_CHARSET : bytes := bytes_of_string "0123456789abcdef".

Definition get_password_type (shadow_pass : bytes) : PasswordType :=
  if bytes_eqb (firstn 3 shadow_pass) (bytes_of_string "md5") &&
     Nat.eqb (length shadow_pass) MD5_PASSWD_LEN &&
     Nat.eqb (length (fst (span (fun c => mem c MD5_PASSWD_CHARSET) (skipn 3 shadow_pass)))) (MD5_PASSWD_LEN - 3)
  then PASSWORD_TYPE_MD5
  else
    match parse_scram_secret shadow_pass with
    | Some s => match sec_hash_type s with PG_SHA384 => PASSWORD_TYPE_SCRAM_SHA_384 | _ => PASSWORD_TYPE_SCRAM_SHA_256 end
    | None => PASSWORD_TYPE_PLAINTEXT
    end.

Section Passwords.
  Context `{Crypto} `{Digests} `{Saslprep}.

(** [pg_md5_encrypt]: the allocation, the four calls of pg_md5_hash. *)
Definition pg_md5_encrypt (passwd salt : bytes) : M env (option bytes) :=
  let! ok := attempt in
  if negb ok then ret None
  else
    let! sum := cryptohash PG_MD5 [passwd ++ salt] 16 in
    ret (match sum with Some h => Some (bytes_of_string "md5" ++ to_hex h) | None => None end).

Definition build_secret (t : pg_cryptohash_type) (key_length iterations : Z) (password : bytes) : M env bytes :=
  let password := prepared password in
  let! saltbuf := or_error (RAND_bytes SCRAM_DEFAULT_SALT_LEN) in
  scram_build_secret t key_length saltbuf iterations password.

Definition pg_be_scram_build_secret (scram_sha_256_iterations : Z) (password : bytes) : M env bytes :=
  build_secret PG_SHA256 SCRAM_SHA_256_KEY_LEN scram_sha_256_iterations password.

Definition pg_be_scram_build_secret_sha384 (password : bytes) : M env bytes :=
  build_secret PG_SHA384 SCRAM_SHA_384_KEY_LEN SCRAM_SHA_384_DEFAULT_ITERATIONS password.

Definition encrypt_password (scram_sha_256_iterations : Z) (target_type : PasswordType)
    (role password : bytes) : M env bytes :=
  match get_password_type password with
  | PASSWORD_TYPE_PLAINTEXT =>
      match target_type with
      | PASSWORD_TYPE_MD5 => or_error (pg_md5_encrypt password role)
      | PASSWORD_TYPE_SCRAM_SHA_256 => pg_be_scram_build_secret scram_sha_256_iterations password
      | PASSWORD_TYPE_SCRAM_SHA_384 => pg_be_scram_build_secret_sha384 password
      | PASSWORD_TYPE_PLAINTEXT => raise ERRCODE_INTERNAL_ERROR
      end
  | _ => ret password
  end.

(** [scram_verify_plain_password]: the password of a client that sent it. *)
Definition scram_verify_plain_password (password secret : bytes) : M env bool :=
  match parse_scram_secret secret with
  | None => ret false
  | Some s =>
      match pg_b64_decode (sec_salt s) (pg_b64_dec_len (blen (sec_salt s))) with
      | None => ret false
      | Some salt =>
          let password := prepared password in
          let t := sec_hash_type s in
          let key_length := sec_key_length s in
          let! salted_password := or_error (scram_SaltedPassword password t key_length salt (sec_iterations s)) in
          let! computed_key := or_error (scram_ServerKey salted_password t key_length) in
          ret (bytes_eqb computed_key (sec_ServerKey s))
      end
  end.

(** [plain_crypt_verify]: STATUS_OK as [true]. *)
Definition plain_crypt_verify (role shadow_pass client_pass : bytes) : M env bool :=
  match get_password_type shadow_pass with
  | PASSWORD_TYPE_SCRAM_SHA_256 | PASSWORD_TYPE_SCRAM_SHA_384 =>
      scram_verify_plain_password client_pass shadow_pass
  | PASSWORD_TYPE_MD5 =>
      let! c := pg_md5_encrypt client_pass role in
      ret (match c with Some crypt_client_pass => bytes_eqb crypt_client_pass shadow_pass | None => false end)
  | PASSWORD_TYPE_PLAINTEXT => ret false
  end.
End Passwords.

(** ** What the derivation computes *)

Section Pure.
  Context `{DL : DigestLaws}.

Fixpoint Hi_loop (n : nat) (password : bytes) (t : pg_cryptohash_type) (result prev : bytes) : bytes :=
  match n with
  | O => result
  | S n' => let u := HMAC t password prev in Hi_loop n' password t (xor_bytes result u) u
  end.

(** The functions of RFC 5802. *)
Definition Hi (password : bytes) (t : pg_cryptohash_type) (salt : bytes) (iterations : Z) : bytes :=
  let u := HMAC t password (salt ++ be_bytes 4 1) in Hi_loop (Z.to_nat (iterations - 1)) password t u u.
Definition ClientKey (t : pg_cryptohash_type) (salted : bytes) : bytes := HMAC t salted (bytes_of_string "Client Key").
Definition ServerKey (t : pg_cryptohash_type) (salted : bytes) : bytes := HMAC t salted (bytes_of_string "Server Key").
Definition StoredKey (t : pg_cryptohash_type) (salted : bytes) : bytes := DIGEST t (ClientKey t salted).

Lemma hmac_ok t key parts len e : no_faults e -> digest_length t <= len ->
  hmac t key parts len e = (Ok (Some (HMAC t key (concat parts))), e).
Proof.
  intros He Hl. unfold hmac. mrun (attempts_no_faults (2 + length parts) e He).
  destruct (Z.ltb_spec len (digest_length t)); [lia|]. cbn [negb orb]. mrun (attempt_no_faults e He). reflexivity.
Qed.

Lemma cryptohash_ok t parts len e : no_faults e -> digest_length t <= len ->
  cryptohash t parts len e = (Ok (Some (DIGEST t (concat parts))), e).
Proof.
  intros He Hl. unfold cryptohash. mrun (attempts_no_faults (2 + length parts) e He).
  destruct (Z.ltb_spec len (digest_length t)); [lia|]. cbn [negb orb]. mrun (attempt_no_faults e He). reflexivity.
Qed.

(** A call that can fail returns its value or nothing. *)
Definition partial {A} (m : M env (option A)) (a : A) : Prop :=
  forall e, exists fs, m e = (Ok (Some a), set_faults fs e) \/ m e = (Ok None, set_faults fs e).

Lemma hmac_partial t key parts len : partial (hmac t key parts len) (HMAC t key (concat parts)).
Proof.
  intros e. unfold hmac. destruct (attempts_run (2 + length parts) e) as (b & fs & H1). mrun H1.
  destruct (negb b || (len <? digest_length t)); [eexists; right; reflexivity|].
  destruct (attempt_run (set_faults fs e)) as (b' & fs' & H2). mrun H2. exists fs'. cbn. destruct b'; auto.
Qed.

Lemma cryptohash_partial t parts len : partial (cryptohash t parts len) (DIGEST t (concat parts)).
Proof.
  intros e. unfold cryptohash. destruct (attempts_run (2 + length parts) e) as (b & fs & H1). mrun H1.
  destruct (negb b || (len <? digest_length t)); [eexists; right; reflexivity|].
  destruct (attempt_run (set_faults fs e)) as (b' & fs' & H2). mrun H2. exists fs'. cbn. destruct b'; auto.
Qed.

Lemma salted_loop_ok n password t len result prev e : no_faults e -> digest_length t <= len ->
  salted_loop n password t len result prev e = (Ok (Some (Hi_loop n password t result prev)), e).
Proof.
  intros He Hl. revert result prev. induction n as [|n IH]; intros result prev; [reflexivity|]. cbn [salted_loop Hi_loop].
  mrun (hmac_ok t password [prev] len e He Hl). cbn [concat]. rewrite app_nil_r. apply IH.
Qed.

Lemma SaltedPassword_ok password t len salt iterations e : no_faults e -> digest_length t <= len ->
  scram_SaltedPassword password t len salt iterations e = (Ok (Some (Hi password t salt iterations)), e).
Proof.
  intros He Hl. unfold scram_SaltedPassword. mrun (hmac_ok t password [salt; be_bytes 4 1] len e He Hl).
  cbn [concat]. rewrite app_nil_r. apply salted_loop_ok; assumption.
Qed.

Lemma ClientKey_ok salted t len e : no_faults e -> digest_length t <= len ->
  scram_ClientKey salted t len e = (Ok (Some (ClientKey t salted)), e).
Proof. intros He Hl. unfold scram_ClientKey. rewrite hmac_ok by assumption. cbn [concat]. rewrite app_nil_r. reflexivity. Qed.

Lemma ServerKey_ok salted t len e : no_faults e -> digest_length t <= len ->
  scram_ServerKey salted t len e = (Ok (Some (ServerKey t salted)), e).
Proof. intros He Hl. unfold scram_ServerKey. rewrite hmac_ok by assumption. cbn [concat]. rewrite app_nil_r. reflexivity. Qed.

Lemma H_ok input t len e : no_faults e -> digest_length t <= len ->
  scram_H input t len e = (Ok (Some (DIGEST t input)), e).
Proof. intros He Hl. unfold scram_H. rewrite cryptohash_ok by assumption. cbn [concat]. rewrite app_nil_r. reflexivity. Qed.

Lemma or_error_ok {A} (m : M env (option A)) a e e' : m e = (Ok (Some a), e') -> or_error m e = (Ok a, e').
Proof. intros Hm. unfold or_error. mrun Hm. reflexivity. Qed.

Lemma b64_or_error_ok data e : wf_bytes data = true -> b64_or_error data e = (Ok (enc data), e).
Proof. intros Hwf. apply or_error_ok. rewrite (encode_fits data Hwf). reflexivity. Qed.
End Pure.

(** ** Secrets *)

(** The hashes a secret can name. *)
Definition supported (t : pg_cryptohash_type) : Prop := t = PG_SHA256 \/ t = PG_SHA384.

Definition secret_text (t : pg_cryptohash_type) (iterations : Z) (salt stored server : bytes) : bytes :=
  scheme_name t ++ [36] ++ format_d iterations ++ [58] ++ enc salt ++ [36] ++ enc stored ++ [58] ++ enc server.

Lemma enc_avoids l d : is_b64 d = false -> forallb (fun c => negb (mem c [d])) (enc l) = true.
Proof.
  intros Hd. pose proof (enc_b64 l) as Hl. rewrite forallb_forall in *. intros c Hc. specialize (Hl c Hc).
  cbn. destruct (Z.eqb_spec c d); [congruence|reflexivity].
Qed.

Lemma enc_nonempty l : l <> [] -> enc l <> [].
Proof. destruct l as [|a [|b [|c l]]]; [congruence|discriminate..]. Qed.

Lemma decode_key_enc k : wf_bytes k = true -> decode_key (enc k) (blen k) = Some k.
Proof. intros Hk. unfold decode_key. rewrite decode_enc by exact Hk. rewrite Z.eqb_refl. reflexivity. Qed.

Lemma mem_self d : mem d [d] = true.
Proof. cbn. rewrite Z.eqb_refl. reflexivity. Qed.

Lemma parse_secret_text t iterations salt stored server :
  supported t -> 0 <= iterations < 2 ^ 31 -> salt <> [] -> wf_bytes salt = true ->
  wf_bytes stored = true -> wf_bytes server = true ->
  blen stored = digest_length t -> blen server = digest_length t ->
  parse_scram_secret (secret_text t iterations salt stored server) =
  Some (mkSecret iterations t (digest_length t) (enc salt) stored server).
Proof.
  intros Ht Hit Hs Hws Hwst Hwsv Hls Hlv.
  assert (Hne : stored <> [] /\ server <> [])
    by (split; intros ->; destruct Ht; subst t; discriminate).
  destruct (format_d_digits iterations) as [Hd Hdn]; [lia|].
  assert (Hfd : forallb (fun c => negb (mem c [58])) (format_d iterations) = true).
  { rewrite forallb_forall in *. intros c Hc. specialize (Hd c Hc). unfold isdigit in Hd. cbn. lia. }
  unfold parse_scram_secret, secret_text. cbn [app].
  rewrite (proj1 (strtok_token (scheme_name t) [36] _ ltac:(destruct Ht; subst t; discriminate)
             ltac:(destruct Ht; subst t; reflexivity)) 36 (mem_self 36)).
  rewrite (proj1 (strtok_token (format_d iterations) [58] _ Hdn Hfd) 58 (mem_self 58)).
  rewrite (proj1 (strtok_token (enc salt) [36] _ (enc_nonempty _ Hs) (enc_avoids _ 36 eq_refl)) 36 (mem_self 36)).
  rewrite (proj1 (strtok_token (enc stored) [58] _ (enc_nonempty _ (proj1 Hne)) (enc_avoids _ 58 eq_refl)) 58 (mem_self 58)).
  rewrite (proj2 (strtok_token (enc server) [] [] (enc_nonempty _ (proj2 Hne))
    ltac:(apply forallb_forall; intros; reflexivity))).
  unfold parse_fields. rewrite <- (app_nil_r (format_d iterations)), strtol_format by (auto; lia).
  cbn [length Nat.eqb negb orb]. rewrite c_int_small, (decode_enc salt Hws) by exact Hit.
  replace (if bytes_eqb (scheme_name t) SCRAM_SHA_256_NAME then _ else _)
    with (Some (t, digest_length t)) by (destruct Ht; subst t; reflexivity).
  pose proof (decode_key_enc stored Hwst) as H1. pose proof (decode_key_enc server Hwsv) as H2.
  rewrite Hls in H1. rewrite Hlv in H2. rewrite H1, H2. reflexivity.
Qed.

(** The hash and the key length of a secret belong together. *)
Lemma parse_key_length secret s : parse_scram_secret secret = Some s ->
  supported (sec_hash_type s) /\ sec_key_length s = digest_length (sec_hash_type s).
Proof.
  unfold parse_scram_secret. intros Hp.
  repeat match type of Hp with match ?x with Some _ => _ | None => _ end = _ => destruct x as [[? ?]|]; [|discriminate] end.
  unfold parse_fields in Hp. destruct (bytes_eqb _ SCRAM_SHA_256_NAME); [|destruct (bytes_eqb _ SCRAM_SHA_384_NAME); [|discriminate]];
    (destruct (strtol _) as [[? ?] ?]; destruct (_ || _); [discriminate|];
     repeat match type of Hp with match ?x with Some _ => _ | None => _ end = _ => destruct x; [|discriminate] end;
     injection Hp as <-; split; [unfold supported; cbn; tauto|reflexivity]).
Qed.

Section SecretProperties.
  Context `{CL : CryptoLaws} `{DL : DigestLaws} `{Saslprep}.

Lemma build_ok t salt iterations password e :
  supported t -> wf_bytes salt = true -> no_faults e ->
  scram_build_secret t (digest_length t) salt iterations password e =
  (Ok (secret_text t iterations salt (StoredKey t (Hi password t salt iterations))
         (ServerKey t (Hi password t salt iterations))), e).
Proof.
  intros Ht Hs He. set (S := Hi password t salt iterations).
  assert (Hl : digest_length t <= digest_length t) by lia. unfold scram_build_secret.
  mrun (or_error_ok _ _ _ _ (SaltedPassword_ok password t _ salt iterations e He Hl)).
  mrun (or_error_ok _ _ _ _ (ClientKey_ok S t _ e He Hl)).
  mrun (or_error_ok _ _ _ _ (H_ok (ClientKey t S) t _ e He Hl)).
  mrun (or_error_ok _ _ _ _ (ServerKey_ok S t _ e He Hl)).
  mrun (b64_or_error_ok salt e Hs). mrun (b64_or_error_ok (StoredKey t S) e (DIGEST_wf _ _)).
  mrun (b64_or_error_ok (ServerKey t S) e (HMAC_wf _ _ _)). reflexivity.
Qed.

Lemma parse_built t salt iterations password :
  let S := Hi password t salt iterations in
  supported t -> 0 <= iterations < 2 ^ 31 -> salt <> [] -> wf_bytes salt = true ->
  parse_scram_secret (secret_text t iterations salt (StoredKey t S) (ServerKey t S)) =
  Some (mkSecret iterations t (digest_length t) (enc salt) (StoredKey t S) (ServerKey t S)).
Proof.
  intros S Ht Hit Hne Hs. apply parse_secret_text; auto;
    [apply DIGEST_wf|apply HMAC_wf|apply DIGEST_length|apply HMAC_length].
Qed.

Lemma secret_text_fits t iterations salt stored server :
  supported t -> 0 <= iterations -> blen stored = digest_length t -> blen server = digest_length t ->
  blen (secret_text t iterations salt stored server) + 1 <= secret_maxlen t (digest_length t) (blen salt).
Proof.
  intros Ht Hi Hst Hsv. unfold secret_text, secret_maxlen. rewrite !blen_app, !blen_enc, Hst, Hsv.
  assert (blen (format_d iterations) <= 10).
  { unfold format_d, blen. destruct (Z.ltb_spec iterations 0); [lia|].
    pose proof (dec_loop_length 10 iterations []). cbn [length] in *. lia. }
  change (blen [36]) with 1. change (blen [58]) with 1. lia.
Qed.

(** The secret built from a password, for SHA-256 and for
    SHA-384, fits the buffer it is written to, and reading it back gives the
    iteration count, the hash, the salt and both keys. *)
Theorem scram_secret_roundtrip t salt iterations password e :
  supported t -> salt <> [] -> wf_bytes salt = true -> 1 <= iterations < 2 ^ 31 -> no_faults e ->
  exists secret S, S = Hi password t salt iterations /\
    scram_build_secret t (digest_length t) salt iterations password e = (Ok secret, e) /\
    blen secret + 1 <= secret_maxlen t (digest_length t) (blen salt) /\
    parse_scram_secret secret = Some (mkSecret iterations t (digest_length t) (enc salt) (StoredKey t S) (ServerKey t S)).
Proof.
  intros Ht Hne Hs Hi He. eexists _, _. split; [reflexivity|]. split; [apply build_ok; assumption|]. split.
  - apply secret_text_fits; [exact Ht|lia|apply DIGEST_length|apply HMAC_length].
  - apply parse_built; auto; lia.
Qed.

Lemma type_of_secret t iterations salt stored server s :
  supported t -> parse_scram_secret (secret_text t iterations salt stored server) = Some s -> sec_hash_type s = t ->
  get_password_type (secret_text t iterations salt stored server) =
  match t with PG_SHA384 => PASSWORD_TYPE_SCRAM_SHA_384 | _ => PASSWORD_TYPE_SCRAM_SHA_256 end.
Proof.
  intros Ht Hp Hs. unfold get_password_type. rewrite Hp, Hs.
  destruct Ht as [-> | ->]; reflexivity.
Qed.

Lemma verify_secret t iterations salt password e :
  supported t -> 0 <= iterations < 2 ^ 31 -> salt <> [] -> wf_bytes salt = true -> no_faults e ->
  let S := Hi (prepared password) t salt iterations in
  scram_verify_plain_password password (secret_text t iterations salt (StoredKey t S) (ServerKey t S)) e = (Ok true, e).
Proof.
  intros Ht Hit Hne Hs He S. unfold scram_verify_plain_password.
  pose proof (parse_built t salt iterations (prepared password) Ht Hit Hne Hs) as Hp. fold S in Hp. rewrite Hp.
  cbn [sec_salt sec_hash_type sec_key_length sec_iterations sec_ServerKey].
  rewrite (decode_enc salt Hs). assert (Hl : digest_length t <= digest_length t) by lia. cbv zeta.
  mrun (or_error_ok _ _ _ _ (SaltedPassword_ok (prepared password) t _ salt iterations e He Hl)).
  mrun (or_error_ok _ _ _ _ (ServerKey_ok S t _ e He Hl)). unfold ret. rewrite bytes_eqb_refl. reflexivity.
Qed.

Lemma hexchars_charset n : 0 <= n < 16 -> mem (hexchars n) MD5_PASSWD_CHARSET = true.
Proof.
  intros Hn. assert (H' : forallb (fun k => mem (hexchars (Z.of_nat k)) MD5_PASSWD_CHARSET) (seq 0 16) = true)
    by (vm_compute; reflexivity).
  rewrite forallb_forall in H'. specialize (H' (Z.to_nat n)). rewrite Z2Nat.id in H' by lia. apply H', in_seq. lia.
Qed.

Lemma to_hex_charset l : forallb (fun c => mem c MD5_PASSWD_CHARSET) (to_hex l) = true.
Proof.
  induction l as [|b l IH]; [reflexivity|]. cbn [to_hex forallb]. change 15 with (Z.ones 4).
  rewrite !Z.land_ones, !hexchars_charset, IH by (try apply Z.mod_pos_bound; lia). reflexivity.
Qed.

Lemma type_of_md5 h : blen h = 16 -> get_password_type (bytes_of_string "md5" ++ to_hex h) = PASSWORD_TYPE_MD5.
Proof.
  intros Hh. assert (Hl : length (to_hex h) = 32%nat) by (rewrite length_to_hex; unfold blen in Hh; lia).
  unfold get_password_type. change (skipn 3 (bytes_of_string "md5" ++ to_hex h)) with (to_hex h).
  change (firstn 3 (bytes_of_string "md5" ++ to_hex h)) with (bytes_of_string "md5").
  pose proof (span_all _ (to_hex h) [] (to_hex_charset h) I) as Hsp. rewrite app_nil_r in Hsp. rewrite Hsp, length_app.
  cbn [fst]. rewrite Hl. reflexivity.
Qed.

(** What [encrypt_password] stores, by the kind that is asked for. *)
Lemma encrypt_password_run iterations target role password e :
  get_password_type password = PASSWORD_TYPE_PLAINTEXT -> target <> PASSWORD_TYPE_PLAINTEXT -> no_faults e ->
  exists shadow e', encrypt_password iterations target role password e = (Ok shadow, e') /\ no_faults e' /\
    match target with
    | PASSWORD_TYPE_MD5 => shadow = bytes_of_string "md5" ++ to_hex (DIGEST PG_MD5 (password ++ role))
    | _ =>
        let t := match target with PASSWORD_TYPE_SCRAM_SHA_384 => PG_SHA384 | _ => PG_SHA256 end in
        let it := match target with PASSWORD_TYPE_SCRAM_SHA_384 => 4096 | _ => iterations end in
        let salt := RAND (draws e) SCRAM_DEFAULT_SALT_LEN in
        let S := Hi (prepared password) t salt it in
        shadow = secret_text t it salt (StoredKey t S) (ServerKey t S)
    end.
Proof.
  intros Hp Ht He. unfold encrypt_password. rewrite Hp.
  destruct target; [congruence| | |]; try (
    eexists _, _; split; [unfold pg_be_scram_build_secret, pg_be_scram_build_secret_sha384, build_secret;
      mrun (or_error_ok _ _ _ _ (RAND_bytes_ok SCRAM_DEFAULT_SALT_LEN e He));
      apply (build_ok PG_SHA256) || apply (build_ok PG_SHA384);
        [unfold supported; tauto|apply RAND_bytes_wf|exact He]|];
    split; [exact He|reflexivity]).
  eexists _, e. split; [|split; [exact He|reflexivity]]. apply or_error_ok. unfold pg_md5_encrypt.
  mrun (attempt_no_faults e He). cbn [negb]. mrun (cryptohash_ok PG_MD5 [password ++ role] 16 e He ltac:(cbn; lia)).
  cbn [concat]. rewrite app_nil_r. reflexivity.
Qed.

(** Whatever kind of secret is asked for, a password that is not
    itself a secret is stored as that kind, and checking the same password
    against what was stored succeeds. *)
Theorem stored_password_verifies iterations target role password e :
  get_password_type password = PASSWORD_TYPE_PLAINTEXT -> target <> PASSWORD_TYPE_PLAINTEXT ->
  1 <= iterations < 2 ^ 31 -> no_faults e ->
  exists shadow e', encrypt_password iterations target role password e = (Ok shadow, e') /\
    get_password_type shadow = target /\ plain_crypt_verify role shadow password e' = (Ok true, e').
Proof.
  intros Hp Ht Hit He. destruct (encrypt_password_run iterations target role password e Hp Ht He)
    as (shadow & e' & Hrun & He' & Hs). exists shadow, e'. split; [exact Hrun|].
  assert (Hne : RAND (draws e) SCRAM_DEFAULT_SALT_LEN <> [])
    by (intros E; pose proof (RAND_length (draws e) SCRAM_DEFAULT_SALT_LEN) as El; rewrite E in El; discriminate).
  pose proof (RAND_bytes_wf (draws e) SCRAM_DEFAULT_SALT_LEN) as Hwf.
  assert (Htype : get_password_type shadow = target).
  { destruct target; [congruence| | |]; cbv beta iota zeta in Hs; subst shadow; [apply type_of_md5, DIGEST_length|..];
      (eapply type_of_secret; [unfold supported; tauto|apply parse_built; auto; unfold supported; tauto || lia|reflexivity]). }
  split; [exact Htype|]. unfold plain_crypt_verify. rewrite Htype.
  destruct target; [congruence| | |]; cbv beta iota zeta in Hs; subst shadow;
    try (apply verify_secret; auto; unfold supported; tauto || lia).
  unfold pg_md5_encrypt. rewrite bind_assoc. mrun (attempt_no_faults e' He'). cbn [negb]. rewrite bind_assoc.
  mrun (cryptohash_ok PG_MD5 [password ++ role] 16 e' He' ltac:(cbn; lia)). cbn [concat]. rewrite app_nil_r.
  unfold bind, ret. rewrite bytes_eqb_refl. reflexivity.
Qed.
End SecretProperties.

(** ** A concrete instance *)
Module ToyDigests.

#[export] Instance toy_digests : Digests := {|
  DIGEST := fun t m => Toy.spread (Z.to_nat (digest_length t)) (Toy.mix m);
  HMAC := fun t k m => Toy.spread (Z.to_nat (digest_length t)) (Toy.mix (k ++ 0 :: m))
|}.

#[export] Instance toy_digest_laws : DigestLaws.
Proof.
  split; intros; cbn [DIGEST HMAC toy_digests]; try apply Toy.wf_spread; unfold blen; rewrite Toy.length_spread;
    destruct t; reflexivity.
Qed.

#[export] Instance no_saslprep : Saslprep := {| pg_saslprep := fun _ => None |}.
End ToyDigests.
Import Toy ToyDigests.

Definition quiet : env := mkEnv [] 0 ∅ ∅ ∅ ∅ [].

Lemma scram_secret_roundtrip_witness :
  exists secret S, S = Hi [112; 119] PG_SHA384 [1; 2; 3; 4] 3 /\
    scram_build_secret PG_SHA384 48 [1; 2; 3; 4] 3 [112; 119] quiet = (Ok secret, quiet) /\
    blen secret + 1 <= secret_maxlen PG_SHA384 48 4 /\
    parse_scram_secret secret = Some (mkSecret 3 PG_SHA384 48 (enc [1; 2; 3; 4]) (StoredKey PG_SHA384 S) (ServerKey PG_SHA384 S)).
Proof.
  apply (scram_secret_roundtrip PG_SHA384 [1; 2; 3; 4] 3 [112; 119] quiet);
    [right; reflexivity|discriminate|reflexivity|lia|reflexivity].
Defined.

Lemma stored_password_verifies_witness :
  exists shadow e', encrypt_password 3 PASSWORD_TYPE_SCRAM_SHA_384 [117] [112; 119] quiet = (Ok shadow, e') /\
    get_password_type shadow = PASSWORD_TYPE_SCRAM_SHA_384 /\
    plain_crypt_verify [117] shadow [112; 119] e' = (Ok true, e').
Proof.
  apply (stored_password_verifies 3 PASSWORD_TYPE_SCRAM_SHA_384 [117] [112; 119] quiet);
    [vm_compute; reflexivity|discriminate|lia|reflexivity].
Defined.
