(* ===== verification/Scram.v ===== *)
(** * The server side of SCRAM (src/backend/libpq/auth-scram.c, auth-sasl.c)

    Mechanism negotiation, the two steps of an exchange and the loop that
    drives it.  Messages are C strings; the connection is the list of the
    messages a client sends, so a statement about all lists is one about every
    client.  The details sent to the log are not modelled. *)
From Stdlib Require Import ZArith Lia Bool String List Ascii.
From stdpp Require Import base gmap list strings.
From S2P Require Import Prelude CryptoIface Env CString Base64 ScramSecret.
Import ListNotations.
Local Open Scope Z_scope.
Local Open Scope pg_scope.

(** A character constant. *)
Definition chr (c : ascii) : Z := Z.of_nat (nat_of_ascii c).
Arguments chr c%_char_scope.

(** ** Connections *)

Inductive UserAuth :=
| uaReject | uaImplicitReject | uaTrust | uaIdent | uaPassword | uaMD5 | uaSCRAM | uaGSS | uaSSPI | uaPAM
| uaBSD | uaLDAP | uaCert | uaRADIUS | uaPeer | uaPQCCert | uaPQCSCRAM.

Inductive ConnType := ctLocal | ctHost | ctHostSSL | ctHostNoSSL | ctHostGSS | ctHostNoGSS.
Inductive ClientCertMode := clientCertOff | clientCertCA | clientCertFull.
Inductive ClientCertName := clientCertCN | clientCertDN.

(** The fields of a line of pg_hba.conf the modelled methods read. *)
Record HbaLine := mkHba {
  conntype : ConnType;
  auth_method : UserAuth;
  usermap : option bytes;
  clientcert : ClientCertMode;
  clientcertname : ClientCertName
}.

(** The certificate of the client, as far as OpenSSL is asked about it: the NID
    of its signature algorithm and the object that names it, with the NID and
    the text OpenSSL has for that object. *)
Record X509 := mkX509 {
  x509_signature_nid : Z;
  x509_signature_object : option (Z * bytes)
}.

Record Port := mkPort {
  hba : HbaLine;
  user_name : bytes;
  ssl_in_use : bool;
  peer_cn : option bytes;
  peer_dn : option bytes;
  peer_cert_valid : bool;
  peer : option X509;
  certificate_hash : option bytes      (* be_tls_get_certificate_hash *)
}.

Definition is_method (m : UserAuth) (port : Port) : bool :=
  match m, auth_method (hba port) with
  | uaMD5, uaMD5 | uaSCRAM, uaSCRAM | uaPQCSCRAM, uaPQCSCRAM | uaCert, uaCert | uaPQCCert, uaPQCCert => true
  | _, _ => false
  end.

(** ** State of an exchange *)

Inductive scram_state_enum := SCRAM_AUTH_INIT | SCRAM_AUTH_SALT_SENT | SCRAM_AUTH_FINISHED.

(** Fields of the first message from the client. *)
Record client_first := mkFirst {
  cbind_flag : Z;
  client_first_message_bare : bytes;
  client_username : bytes;
  client_nonce : bytes
}.

(** Fields from its last message, which one call reads and uses. *)
Record client_final := mkFinal {
  client_final_message_without_proof : bytes;
  client_final_nonce : bytes;
  ClientProof : bytes
}.

Record scram_state := mkScram {
  st_state : scram_state_enum;
  st_port : Port;
  channel_binding_in_use : bool;
  st_secret : scram_secret;
  st_first : client_first;
  server_first_message : bytes;
  server_nonce : bytes;
  doomed : bool
}.

Definition protocol_violation {A} : M env A := raise ERRCODE_PROTOCOL_VIOLATION.

(** ** Attributes *)

(** What follows [attr=], up to a comma, and what follows that. *)
Definition attr_tail (rest : bytes) : bytes * bytes :=
  let '(value, r) := span (fun c => negb (c =? chr ",")) rest in (value, tl r).

Definition read_attr_value (input : bytes) (attr : Z) : M env (bytes * bytes) :=
  match input with
  | a :: e :: rest => if (a =? attr) && (e =? chr "=") then ret (attr_tail rest) else protocol_violation
  | _ => protocol_violation
  end.

Definition is_alpha (c : Z) : bool :=
  ((chr "A" <=? c) && (c <=? chr "Z")) || ((chr "a" <=? c) && (c <=? chr "z")).

Definition read_any_attr (input : bytes) : M env (Z * bytes * bytes) :=
  match input with
  | a :: e :: rest =>
      if is_alpha a && (e =? chr "=") then let '(value, r) := attr_tail rest in ret (a, value, r)
      else protocol_violation
  | _ => protocol_violation
  end.

Definition is_scram_printable (p : bytes) : bool :=
  forallb (fun c => (33 <=? c) && (c <=? 126) && negb (c =? chr ",")) p.

(** The attributes after those that are known: ignored, but read. *)
Fixpoint skip_attrs (fuel : nat) (p : bytes) : M env unit :=
  match fuel, p with
  | _, [] => ret tt
  | O, _ => fatal
  | S fuel', _ => let! a := read_any_attr p in skip_attrs fuel' (snd a)
  end.

(** Attributes up to the proof: where the proof starts, its value, and what
    follows.  [p] is the rest of [input]. *)
Fixpoint find_proof (fuel : nat) (input p : bytes) : M env (bytes * bytes * bytes) :=
  match fuel with
  | O => fatal
  | S fuel' =>
      let without := firstn (length input - length p - 1) input in
      let! a := read_any_attr p in
      let '(attr, value, rest) := a in
      if attr =? chr "p" then ret (without, value, rest) else find_proof fuel' input rest
  end.

(** ** Messages from the client *)

Definition tls_server_end_point : bytes := bytes_of_string "tls-server-end-point".

(** The channel-binding flag: what follows it. *)
Definition read_cbind_flag (in_use : bool) (port : Port) (p : bytes) : M env bytes :=
  match p with
  | [] => protocol_violation
  | c :: p' =>
      if c =? chr "n" then
        if in_use then protocol_violation
        else match p' with d :: r => if d =? chr "," then ret r else protocol_violation | [] => protocol_violation end
      else if c =? chr "y" then
        if in_use then protocol_violation
        else if ssl_in_use port then raise ERRCODE_INVALID_AUTHORIZATION_SPECIFICATION
        else match p' with d :: r => if d =? chr "," then ret r else protocol_violation | [] => protocol_violation end
      else if c =? chr "p" then
        if negb in_use then protocol_violation
        else
          let! v := read_attr_value p (chr "p") in
          if bytes_eqb (fst v) tls_server_end_point then ret (snd v) else protocol_violation
      else protocol_violation
  end.

Definition read_client_first_message (in_use : bool) (port : Port) (input : bytes) : M env client_first :=
  let! p := read_cbind_flag in_use port input in
  match p with
  | [] => protocol_violation
  | c :: bare =>
      if c =? chr "a" then raise ERRCODE_FEATURE_NOT_SUPPORTED
      else if negb (c =? chr ",") then protocol_violation
      else
        do! match bare with m :: _ => when (m =? chr "m") (raise ERRCODE_FEATURE_NOT_SUPPORTED) | [] => ret tt end in
        let! user := read_attr_value bare (chr "n") in
        let! nonce := read_attr_value (snd user) (chr "r") in
        if negb (is_scram_printable (fst nonce)) then protocol_violation
        else
          do! skip_attrs (length (snd nonce)) (snd nonce) in
          ret (mkFirst (hd 0 input) bare (fst user) (fst nonce))
  end.

(** What the client must repeat about channel binding. *)
Definition check_channel_binding (st : scram_state) (channel_binding : bytes) : M env unit :=
  if channel_binding_in_use st then
    match certificate_hash (st_port st) with
    | None | Some [] => raise ERRCODE_INTERNAL_ERROR
    | Some cbind_data =>
        let! b64_message := b64_or_error (bytes_of_string "p=tls-server-end-point,," ++ cbind_data) in
        if bytes_eqb channel_binding b64_message then ret tt else raise ERRCODE_INVALID_AUTHORIZATION_SPECIFICATION
    end
  else
    let flag := cbind_flag (st_first st) in
    if negb (bytes_eqb channel_binding (bytes_of_string "biws") && (flag =? chr "n")) &&
       negb (bytes_eqb channel_binding (bytes_of_string "eSws") && (flag =? chr "y"))
    then protocol_violation else ret tt.

Definition read_client_final_message (st : scram_state) (input : bytes) : M env client_final :=
  let! c := read_attr_value input (chr "c") in
  do! check_channel_binding st (fst c) in
  let! nonce := read_attr_value (snd c) (chr "r") in
  let! found := find_proof (S (length input)) input (snd nonce) in
  let '(without, value, rest) := found in
  match decode_key value (sec_key_length (st_secret st)) with
  | None => protocol_violation
  | Some proof =>
      if negb (Nat.eqb (length rest) 0) then protocol_violation
      else ret (mkFinal without (fst nonce) proof)
  end.

Definition verify_final_nonce (st : scram_state) (f : client_final) : bool :=
  let c := client_nonce (st_first st) in
  Nat.eqb (length (client_final_nonce f)) (length c + length (server_nonce st)) &&
  bytes_eqb (firstn (length c) (client_final_nonce f)) c &&
  bytes_eqb (skipn (length c) (client_final_nonce f)) (server_nonce st).

(** ** Proofs and replies *)

Section Server.
  Context `{Crypto} `{Digests}.

Definition auth_message (st : scram_state) (f : client_final) : list bytes :=
  [client_first_message_bare (st_first st); [chr ","]; server_first_message st; [chr ","];
   client_final_message_without_proof f].

Definition verify_client_proof (st : scram_state) (f : client_final) : M env bool :=
  let s := st_secret st in
  let t := sec_hash_type s in
  let! ClientSignature := or_error (hmac t (sec_StoredKey s) (auth_message st f) (sec_key_length s)) in
  let! client_StoredKey := or_error (scram_H (xor_bytes (ClientProof f) ClientSignature) t (sec_key_length s)) in
  ret (bytes_eqb client_StoredKey (sec_StoredKey s)).

Definition build_server_first_message (st : scram_state) (first : client_first) : M env scram_state :=
  let! raw_nonce := or_error (RAND_bytes SCRAM_RAW_NONCE_LEN) in
  let! nonce := b64_or_error raw_nonce in
  let s := st_secret st in
  let msg := bytes_of_string "r=" ++ client_nonce first ++ nonce ++ bytes_of_string ",s=" ++ sec_salt s ++
             bytes_of_string ",i=" ++ format_d (sec_iterations s) in
  ret (mkScram SCRAM_AUTH_SALT_SENT (st_port st) (channel_binding_in_use st) s first msg nonce (doomed st)).

Definition build_server_final_message (st : scram_state) (f : client_final) : M env bytes :=
  let s := st_secret st in
  let! ServerSignature := or_error (hmac (sec_hash_type s) (sec_ServerKey s) (auth_message st f) (sec_key_length s)) in
  let! b := b64_or_error ServerSignature in
  ret (bytes_of_string "v=" ++ b).

(** ** Starting an exchange *)

Definition scram_get_mechanisms (port : Port) : list bytes :=
  if is_method uaPQCSCRAM port then
    (if ssl_in_use port then [SCRAM_SHA_384_PLUS_NAME] else []) ++ [SCRAM_SHA_384_NAME]
  else (if ssl_in_use port then [SCRAM_SHA_256_PLUS_NAME] else []) ++ [SCRAM_SHA_256_NAME].

(** The mechanism a client selected: whether it binds the channel, and the hash
    type and key length it sets.  A SHA-256 mechanism leaves both at zero. *)
Definition select_mechanism (port : Port) (selected_mech : bytes) : M env (bool * pg_cryptohash_type * Z) :=
  if bytes_eqb selected_mech SCRAM_SHA_384_PLUS_NAME && ssl_in_use port then
    ret (true, PG_SHA384, SCRAM_SHA_384_KEY_LEN)
  else if bytes_eqb selected_mech SCRAM_SHA_384_NAME then ret (false, PG_SHA384, SCRAM_SHA_384_KEY_LEN)
  else if is_method uaPQCSCRAM port then protocol_violation
  else if bytes_eqb selected_mech SCRAM_SHA_256_PLUS_NAME && ssl_in_use port then ret (true, PG_MD5, 0)
  else if bytes_eqb selected_mech SCRAM_SHA_256_NAME then ret (false, PG_MD5, 0)
  else protocol_violation.

(** [mock_auth_nonce] is the cluster's secret of pg_control. *)
Definition mock_scram_secret (mock_auth_nonce username : bytes) (hash_type : pg_cryptohash_type)
    : M env scram_secret :=
  let '(t, key_length, iterations) :=
    match hash_type with
    | PG_SHA384 => (PG_SHA384, SCRAM_SHA_384_KEY_LEN, SCRAM_SHA_384_DEFAULT_ITERATIONS)
    | _ => (PG_SHA256, SCRAM_SHA_256_KEY_LEN, SCRAM_SHA_256_DEFAULT_ITERATIONS)
    end in
  let! raw_salt := or_error (cryptohash t [username; mock_auth_nonce] key_length) in
  let! salt := b64_or_error (firstn SCRAM_DEFAULT_SALT_LEN raw_salt) in
  let zero := zeros (Z.to_nat SCRAM_MAX_KEY_LEN) in
  ret (mkSecret iterations t key_length salt zero zero).

Definition scram_init (mock_auth_nonce : bytes) (port : Port) (selected_mech : bytes)
    (shadow_pass : option bytes) : M env scram_state :=
  let! m := select_mechanism port selected_mech in
  let '(in_use, hash_type, _) := m in
  let got_secret :=
    match shadow_pass with
    | Some shadow =>
        match get_password_type shadow with
        | PASSWORD_TYPE_SCRAM_SHA_256 | PASSWORD_TYPE_SCRAM_SHA_384 => parse_scram_secret shadow
        | _ => None
        end
    | None => None
    end in
  let start s d := mkScram SCRAM_AUTH_INIT port in_use s (mkFirst 0 [] [] []) [] [] d in
  match got_secret with
  | Some s => ret (start s false)
  | None => let! s := mock_scram_secret mock_auth_nonce (user_name port) hash_type in ret (start s true)
  end.

(** ** One step *)

Inductive sasl_result := PG_SASL_EXCHANGE_CONTINUE | PG_SASL_EXCHANGE_SUCCESS | PG_SASL_EXCHANGE_FAILURE.

Definition scram_exchange (st : scram_state) (input : option bytes)
    : M env (sasl_result * option bytes * scram_state) :=
  match input with
  | None => ret (PG_SASL_EXCHANGE_CONTINUE, Some [], st)
  | Some input =>
      if Nat.eqb (length input) 0 then protocol_violation
      else if negb (Nat.eqb (length input) (length (cstring input))) then protocol_violation
      else
        match st_state st with
        | SCRAM_AUTH_INIT =>
            let! first := read_client_first_message (channel_binding_in_use st) (st_port st) input in
            let! st' := build_server_first_message st first in
            ret (PG_SASL_EXCHANGE_CONTINUE, Some (server_first_message st'), st')
        | SCRAM_AUTH_SALT_SENT =>
            let! f := read_client_final_message st input in
            if negb (verify_final_nonce st f) then protocol_violation
            else
              let! ok := verify_client_proof st f in
              if negb ok || doomed st then ret (PG_SASL_EXCHANGE_FAILURE, None, st)
              else
                let! out := build_server_final_message st f in
                ret (PG_SASL_EXCHANGE_SUCCESS, Some out,
                     mkScram SCRAM_AUTH_FINISHED (st_port st) (channel_binding_in_use st) (st_secret st)
                       (st_first st) (server_first_message st) (server_nonce st) (doomed st))
        | SCRAM_AUTH_FINISHED => raise ERRCODE_INTERNAL_ERROR
        end
  end.

(** ** The loop of auth-sasl.c *)

Definition STATUS_OK : Z := 0.
Definition STATUS_ERROR : Z := -1.
Definition STATUS_EOF : Z := -2.
Definition PG_MAX_SASL_MESSAGE_LENGTH : Z := 1024.

Inductive auth_request :=
| AUTH_REQ_OK
| AUTH_REQ_PASSWORD
| AUTH_REQ_MD5 (salt : bytes)
| AUTH_REQ_SASL (mechs : list bytes)
| AUTH_REQ_SASL_CONT (data : bytes)
| AUTH_REQ_SASL_FIN (data : bytes).

(** The body of a SASLInitialResponse: the mechanism and the rest. *)
Definition pq_getmsgrawstring (body : bytes) : M env (bytes * bytes) :=
  let slen := length (cstring body) in
  if (length body <=? slen)%nat then protocol_violation else ret (firstn slen body, skipn (S slen) body).

Definition initial_response (body : bytes) : M env (option bytes) :=
  if (length body <? 4)%nat then protocol_violation
  else
    let inputlen := c_int (be_val (firstn 4 body)) in
    let rest := skipn 4 body in
    if inputlen =? -1 then
      if Nat.eqb (length rest) 0 then ret None else protocol_violation
    else if (inputlen <? 0) || (blen rest <? inputlen) then protocol_violation
    else if inputlen =? blen rest then ret (Some rest) else protocol_violation.

(** The messages a client sends, with their types; the end of the list is the
    end of the connection. *)
Fixpoint sasl_loop (mock_auth_nonce : bytes) (port : Port) (shadow_pass : option bytes)
    (opaq : option scram_state) (msgs : list (Z * bytes)) (sent : list auth_request)
    : M env (Z * list auth_request) :=
  match msgs with
  | [] => ret (STATUS_EOF, sent)
  | (mtype, body) :: msgs' =>
      if negb (mtype =? chr "p") then protocol_violation
      else if PG_MAX_SASL_MESSAGE_LENGTH <? blen body + 4 then ret (STATUS_ERROR, sent)
      else
        let! start :=
          match opaq with
          | None =>
              let! sel := pq_getmsgrawstring body in
              let! st := scram_init mock_auth_nonce port (fst sel) shadow_pass in
              let! input := initial_response (snd sel) in
              ret (st, input)
          | Some st => ret (st, Some body)
          end in
        let! r := scram_exchange (fst start) (snd start) in
        let '(result, output, st) := r in
        match result, output with
        | PG_SASL_EXCHANGE_FAILURE, Some _ => raise ERRCODE_INTERNAL_ERROR
        | PG_SASL_EXCHANGE_FAILURE, None => ret (STATUS_ERROR, sent)
        | PG_SASL_EXCHANGE_SUCCESS, _ =>
            ret (STATUS_OK, sent ++ match output with Some o => [AUTH_REQ_SASL_FIN o] | None => [] end)
        | PG_SASL_EXCHANGE_CONTINUE, _ =>
            sasl_loop mock_auth_nonce port shadow_pass (Some st) msgs'
              (sent ++ match output with Some o => [AUTH_REQ_SASL_CONT o] | None => [] end)
        end
  end.

Definition CheckSASLAuth (mock_auth_nonce : bytes) (port : Port) (shadow_pass : option bytes)
    (msgs : list (Z * bytes)) : M env (Z * list auth_request) :=
  sasl_loop mock_auth_nonce port shadow_pass None msgs [AUTH_REQ_SASL (scram_get_mechanisms port)].
End Server.

(** ** Lemmas: the loops over attributes end *)

Lemma attr_tail_length rest : (length (snd (attr_tail rest)) <= length rest)%nat.
Proof.
  unfold attr_tail. pose proof (span_app (fun c => negb (c =? chr ",")) rest) as Hs.
  destruct (span _ rest) as [v r]. cbn [fst snd] in *. subst rest. rewrite length_app. destruct r; cbn; lia.
Qed.

Lemma read_any_attr_cases p e :
  read_any_attr p e = (Err ERRCODE_PROTOCOL_VIOLATION, e) \/
  exists a v r, read_any_attr p e = (Ok (a, v, r), e) /\ (length r < length p)%nat.
Proof.
  destruct p as [|a [|q rest]]; [left; reflexivity..|]. cbn [read_any_attr].
  destruct (_ && _); [|left; reflexivity]. right. pose proof (attr_tail_length rest) as Hl.
  destruct (attr_tail rest) as [v r]. exists a, v, r. split; [reflexivity|]. cbn in *. lia.
Qed.

(** The fuel given is enough: the loops end by themselves. *)
Lemma skip_attrs_ends fuel p e : (length p <= fuel)%nat ->
  skip_attrs fuel p e = (Ok tt, e) \/ skip_attrs fuel p e = (Err ERRCODE_PROTOCOL_VIOLATION, e).
Proof.
  revert p. induction fuel as [|fuel IH]; intros p Hl; (destruct p as [|c p]; [left; reflexivity|]); [cbn in Hl; lia|].
  cbn [skip_attrs]. destruct (read_any_attr_cases (c :: p) e) as [He|(a & v & r & Hr & Hlt)].
  - right. rewrite (bind_err _ _ _ _ _ He). reflexivity.
  - mrun Hr. cbn [snd]. apply IH. lia.
Qed.

Lemma find_proof_ends fuel input p e : (length p < fuel)%nat ->
  (exists w v r, find_proof fuel input p e = (Ok (w, v, r), e)) \/
  find_proof fuel input p e = (Err ERRCODE_PROTOCOL_VIOLATION, e).
Proof.
  revert p. induction fuel as [|fuel IH]; intros p Hl; [lia|]. cbn [find_proof]. cbv zeta.
  destruct (read_any_attr_cases p e) as [He|(a & v & r & Hr & Hlt)].
  - right. rewrite (bind_err _ _ _ _ _ He). reflexivity.
  - mrun Hr. destruct (a =? chr "p"); [left; do 3 eexists; reflexivity|]. apply IH. lia.
Qed.

(** ** Lemmas: reading a message touches nothing *)

Lemma preserves_violation {A} (I : env -> Prop) : preserves I (@protocol_violation A).
Proof. apply preserves_raise. Qed.
#[export] Hint Resolve preserves_violation : pg.

Section Inert.
  Variable I : env -> Prop.

Lemma preserves_read_attr_value p a : preserves I (read_attr_value p a).
Proof. destruct p as [|x [|y p]]; cbn [read_attr_value]; msteps. Qed.

Lemma preserves_read_any_attr p : preserves I (read_any_attr p).
Proof. destruct p as [|x [|y p]]; cbn [read_any_attr]; msteps. Qed.

Lemma preserves_skip_attrs fuel p : preserves I (skip_attrs fuel p).
Proof.
  revert p. induction fuel as [|fuel IH]; intros [|x p]; cbn [skip_attrs]; msteps. apply preserves_read_any_attr.
Qed.

Lemma preserves_read_client_first_message b port input : preserves I (read_client_first_message b port input).
Proof.
  unfold read_client_first_message, read_cbind_flag.
  repeat (mstep || solve [auto with pg] || apply preserves_read_attr_value || apply preserves_skip_attrs
          || match goal with |- preserves _ (match ?l with [] => _ | _ :: _ => _ end) => destruct l end).
Qed.
End Inert.

(** ** What a successful exchange proves *)

Section Soundness.
  Context `{CL : CryptoLaws} `{DL : DigestLaws}.

Lemma or_error_inv {A} (m : M env (option A)) a e e' : or_error m e = (Ok a, e') -> m e = (Ok (Some a), e').
Proof. intros Hr. unfold or_error in Hr. minv Hr. destruct a0; [|discriminate]. injection Hr as <- <-. exact Hm. Qed.

Lemma partial_inv {A} (m : M env (option A)) a b e e' :
  partial m a -> or_error m e = (Ok b, e') -> b = a /\ exists fs, e' = set_faults fs e.
Proof.
  intros Hp Hr. apply or_error_inv in Hr. destruct (Hp e) as [fs [Hm|Hm]]; rewrite Hm in Hr; [|discriminate].
  injection Hr as <- <-. eauto.
Qed.

Lemma b64_inv data b e e' : b64_or_error data e = (Ok b, e') ->
  pg_b64_encode data (pg_b64_enc_len (blen data)) = Some b /\ e' = e.
Proof. intros Hr. apply or_error_inv in Hr. injection Hr as H1 H2. auto. Qed.

(** The mechanisms a method accepts. *)
Definition mech_accepted (port : Port) (mech : bytes) : Prop :=
  (mech = SCRAM_SHA_384_PLUS_NAME /\ ssl_in_use port = true) \/ mech = SCRAM_SHA_384_NAME \/
  (auth_method (hba port) <> uaPQCSCRAM /\
   ((mech = SCRAM_SHA_256_PLUS_NAME /\ ssl_in_use port = true) \/ mech = SCRAM_SHA_256_NAME)).

Definition binds (mech : bytes) : bool :=
  bytes_eqb mech SCRAM_SHA_384_PLUS_NAME || bytes_eqb mech SCRAM_SHA_256_PLUS_NAME.

Lemma select_mechanism_inv port mech b t k e e' :
  select_mechanism port mech e = (Ok (b, t, k), e') -> mech_accepted port mech /\ b = binds mech /\ e' = e.
Proof.
  unfold select_mechanism, mech_accepted, binds. intros Hr.
  destruct (bytes_eqb mech SCRAM_SHA_384_PLUS_NAME && ssl_in_use port) eqn:H1.
  { apply andb_prop in H1 as [H1 H2]. rewrite H1. apply bytes_eqb_eq in H1. injection Hr as <- _ _ <-. auto. }
  destruct (bytes_eqb mech SCRAM_SHA_384_NAME) eqn:H2.
  { apply bytes_eqb_eq in H2. injection Hr as <- _ _ <-. subst mech. auto. }
  destruct (is_method uaPQCSCRAM port) eqn:H3; [discriminate|].
  assert (Hm : auth_method (hba port) <> uaPQCSCRAM)
    by (intros E; unfold is_method in H3; rewrite E in H3; discriminate).
  destruct (bytes_eqb mech SCRAM_SHA_256_PLUS_NAME && ssl_in_use port) eqn:H4.
  { apply andb_prop in H4 as [H4 H5]. rewrite H4, orb_true_r. apply bytes_eqb_eq in H4. injection Hr as <- _ _ <-. tauto. }
  destruct (bytes_eqb mech SCRAM_SHA_256_NAME) eqn:H5; [|discriminate].
  apply bytes_eqb_eq in H5. injection Hr as <- _ _ <-. subst mech. tauto.
Qed.

(** *** The protocol, over the bytes of the messages *)

Definition no_comma (l : bytes) : bool := forallb (fun c => negb (c =? chr ",")) l.

(** Nothing, or further attributes. *)
Definition attrs (l : bytes) : Prop := l = [] \/ exists l', l = chr "," :: l'.

(** The header of the first message and the channel binding of the last one. *)
Definition channel_bound (port : Port) (bound : bool) (gs2 cbind : bytes) : Prop :=
  if bound then
    gs2 = bytes_of_string "p=tls-server-end-point,," /\
    exists hash, certificate_hash port = Some hash /\ pg_b64_encode (gs2 ++ hash) (pg_b64_enc_len (blen (gs2 ++ hash))) = Some cbind
  else
    (gs2 = bytes_of_string "n,," /\ cbind = bytes_of_string "biws") \/
    (gs2 = bytes_of_string "y,," /\ cbind = bytes_of_string "eSws" /\ ssl_in_use port = false).

(** [proves port s bound snonce m1 m2]: the two messages of a client who proves
    knowledge of the key stored in [s] to a server that drew [snonce].  The
    proof is of the bytes of both messages and of the server's answer, the
    nonce repeated in the last one is the client's followed by the server's. *)
Definition proves (port : Port) (s : scram_secret) (bound : bool) (snonce m1 m2 : bytes) : Prop :=
  exists gs2 user cnonce ext1 cbind ext2 value tail proof,
    let bare := bytes_of_string "n=" ++ user ++ bytes_of_string ",r=" ++ cnonce ++ ext1 in
    let server_first := bytes_of_string "r=" ++ cnonce ++ snonce ++ bytes_of_string ",s=" ++ sec_salt s ++
                        bytes_of_string ",i=" ++ format_d (sec_iterations s) in
    let without_proof := bytes_of_string "c=" ++ cbind ++ bytes_of_string ",r=" ++ cnonce ++ snonce ++ ext2 in
    let t := sec_hash_type s in
    m1 = gs2 ++ bare /\ m2 = without_proof ++ bytes_of_string ",p=" ++ value ++ tail /\
    channel_bound port bound gs2 cbind /\
    no_comma user = true /\ no_comma cnonce = true /\ no_comma cbind = true /\ no_comma (cnonce ++ snonce) = true /\
    no_comma value = true /\ attrs ext1 /\ attrs ext2 /\ (tail = [] \/ tail = [chr ","]) /\
    decode_key value (sec_key_length s) = Some proof /\
    DIGEST t (xor_bytes proof (HMAC t (sec_StoredKey s)
      (bare ++ [chr ","] ++ server_first ++ [chr ","] ++ without_proof))) = sec_StoredKey s.

(** The messages of a connection: the mechanism, with the first message or
    followed by it, and the last message. *)
Definition sends (mech m1 m2 : bytes) (msgs : list (Z * bytes)) : Prop :=
  exists len rest, length len = 4%nat /\
    ((c_int (be_val len) = blen m1 /\ msgs = (chr "p", mech ++ 0 :: len ++ m1) :: (chr "p", m2) :: rest) \/
     (c_int (be_val len) = -1 /\ msgs = (chr "p", mech ++ 0 :: len) :: (chr "p", m1) :: (chr "p", m2) :: rest)).

(** *** What the readers accept *)

Lemma verify_final_nonce_iff st f : verify_final_nonce st f = true <->
  client_final_nonce f = client_nonce (st_first st) ++ server_nonce st.
Proof.
  unfold verify_final_nonce. set (c := client_nonce (st_first st)). split.
  - intros H'. apply andb_prop in H' as [H' H3]. apply andb_prop in H' as [_ H2].
    apply bytes_eqb_eq in H2, H3. rewrite <- H2, <- H3 at 1. symmetry. apply firstn_skipn.
  - intros ->. rewrite length_app, Nat.eqb_refl, firstn_app_exact, skipn_app_exact, !bytes_eqb_refl by reflexivity.
    reflexivity.
Qed.

Lemma read_attr_value_inv p a v r e e' : read_attr_value p a e = (Ok (v, r), e') ->
  e' = e /\ exists rest, p = a :: chr "=" :: rest /\ attr_tail rest = (v, r).
Proof.
  destruct p as [|x [|y rest]]; try discriminate. cbn [read_attr_value].
  destruct (_ && _) eqn:Hc; [|discriminate]. apply andb_prop in Hc as [H1 H2]. apply Z.eqb_eq in H1, H2. subst x y.
  intros Hr. injection Hr as H1 <-. eauto.
Qed.

Lemma attr_tail_inv rest v r : attr_tail rest = (v, r) ->
  no_comma v = true /\ ((rest = v /\ r = []) \/ rest = v ++ chr "," :: r).
Proof.
  unfold attr_tail. pose proof (span_app (fun c => negb (c =? chr ",")) rest) as Hs.
  pose proof (span_fst (fun c => negb (c =? chr ",")) rest) as Hf.
  pose proof (span_snd (fun c => negb (c =? chr ",")) rest) as Hn.
  destruct (span _ rest) as [v' r']. cbn [fst snd] in *. intros E. injection E as <- <-. split; [exact Hf|].
  destruct r' as [|c r']; [left; rewrite app_nil_r in Hs; auto|right]. cbn [tl].
  apply negb_false_iff, Z.eqb_eq in Hn. subst c. symmetry. exact Hs.
Qed.

(** An attribute that is followed by another one. *)
Lemma attr_before p a v r e e' : read_attr_value p a e = (Ok (v, r), e') ->
  e' = e /\ no_comma v = true /\ ((p = a :: chr "=" :: v /\ r = []) \/ p = a :: chr "=" :: v ++ chr "," :: r).
Proof.
  intros Hr. apply read_attr_value_inv in Hr as [-> (rest & -> & Ht)]. apply attr_tail_inv in Ht as [Hv [[-> ->]| ->]]; auto.
Qed.

Lemma find_proof_inv input w v r e e' fuel : forall pre p,
  input = pre ++ chr "," :: p -> find_proof fuel input p e = (Ok (w, v, r), e') ->
  e' = e /\ no_comma v = true /\ exists ext tail, attrs ext /\ w = pre ++ ext /\
    input = w ++ bytes_of_string ",p=" ++ v ++ tail /\ ((tail = [] /\ r = []) \/ tail = chr "," :: r).
Proof.
  induction fuel as [|fuel IH]; intros pre p Hi Hr; [discriminate|]. cbn [find_proof] in Hr. cbv zeta in Hr. minv Hr.
  destruct a as [[attr value] rest]. destruct p as [|a [|q p']]; try discriminate. cbn [read_any_attr] in Hm.
  destruct (is_alpha a && (q =? chr "=")) eqn:Hc; [|discriminate]. apply andb_prop in Hc as [_ Hq].
  apply Z.eqb_eq in Hq. subst q. destruct (attr_tail p') as [v' r'] eqn:Ht. injection Hm as <- <- <- <-.
  apply attr_tail_inv in Ht as [Hv Hp]. destruct (Z.eqb_spec a (chr "p")) as [->|].
  - injection Hr as Hw <- <- <-. split; [reflexivity|]. split; [exact Hv|].
    assert (w = pre) as ->.
    { rewrite <- Hw, Hi, length_app. apply firstn_app_exact. cbn [length]. lia. }
    clear Hw. exists [], (skipn (length v') p'). split; [left; reflexivity|]. rewrite app_nil_r. split; [reflexivity|].
    destruct Hp as [[-> ->]| ->].
    + rewrite skipn_all. split; [rewrite Hi, app_nil_r; reflexivity|auto].
    + rewrite skipn_app_exact by reflexivity. split; [exact Hi|auto].
  - destruct Hp as [[-> ->]| ->].
    { destruct fuel as [|fuel']; [discriminate|]. discriminate Hr. }
    destruct (IH (pre ++ chr "," :: a :: chr "=" :: v') r') as (-> & Hvv & ext & tail & Hx & -> & Hin & Htl).
    { rewrite Hi, <- app_assoc. reflexivity. }
    { exact Hr. }
    split; [reflexivity|]. split; [exact Hvv|]. exists (chr "," :: a :: chr "=" :: v' ++ ext), tail.
    split; [right; eauto|]. split; [rewrite <- app_assoc; reflexivity|]. split; [exact Hin|exact Htl].
Qed.

Lemma check_channel_binding_inv st cb e u e' : check_channel_binding st cb e = (Ok u, e') ->
  if channel_binding_in_use st then exists hash, certificate_hash (st_port st) = Some hash /\
    pg_b64_encode (bytes_of_string "p=tls-server-end-point,," ++ hash)
      (pg_b64_enc_len (blen (bytes_of_string "p=tls-server-end-point,," ++ hash))) = Some cb
  else (cb = bytes_of_string "biws" /\ cbind_flag (st_first st) = chr "n") \/
       (cb = bytes_of_string "eSws" /\ cbind_flag (st_first st) = chr "y").
Proof.
  unfold check_channel_binding. destruct (channel_binding_in_use st).
  - intros Hr. destruct (certificate_hash (st_port st)) as [[|h hash]|]; [discriminate| |discriminate].
    exists (h :: hash). split; [reflexivity|]. minv Hr. apply b64_inv in Hm as [Hb _].
    destruct (bytes_eqb cb a) eqn:E; [|discriminate]. apply bytes_eqb_eq in E. subst cb. exact Hb.
  - cbv zeta. destruct (bytes_eqb cb (bytes_of_string "biws") && _) eqn:E1.
    { apply andb_prop in E1 as [E1 E2]. apply bytes_eqb_eq in E1. apply Z.eqb_eq in E2. auto. }
    destruct (bytes_eqb cb (bytes_of_string "eSws") && _) eqn:E2; [|discriminate].
    apply andb_prop in E2 as [E2 E3]. apply bytes_eqb_eq in E2. apply Z.eqb_eq in E3. auto.
Qed.

Lemma read_final_inv st input f e e' : read_client_final_message st input e = (Ok f, e') ->
  exists cb ext value tail,
    client_final_message_without_proof f = bytes_of_string "c=" ++ cb ++ bytes_of_string ",r=" ++ client_final_nonce f ++ ext /\
    input = client_final_message_without_proof f ++ bytes_of_string ",p=" ++ value ++ tail /\
    no_comma cb = true /\ no_comma (client_final_nonce f) = true /\ no_comma value = true /\ attrs ext /\
    (tail = [] \/ tail = [chr ","]) /\ decode_key value (sec_key_length (st_secret st)) = Some (ClientProof f) /\
    exists e1 u e2, check_channel_binding st cb e1 = (Ok u, e2).
Proof.
  intros Hr. unfold read_client_final_message in Hr. minv Hr. destruct a as [cb r]. minv Hr. rename Hm0 into Hcb.
  minv Hr. destruct a0 as [nonce r2]. minv Hr. destruct a0 as [[without value] rest]. cbn [fst snd] in *.
  destruct (decode_key value _) as [proof|] eqn:Hd; [|discriminate].
  destruct rest as [|? ?]; [|discriminate]. injection Hr as <- _. cbn [client_final_message_without_proof client_final_nonce ClientProof].
  apply attr_before in Hm as (-> & Hc & [[-> ->]| ->]); [discriminate|].
  apply attr_before in Hm0 as (-> & Hn & [[-> ->]| ->]); [discriminate|].
  destruct (find_proof_inv _ _ _ _ _ _ _ (bytes_of_string "c=" ++ cb ++ bytes_of_string ",r=" ++ nonce) r2
    ltac:(cbn [bytes_of_string app]; rewrite <- !app_assoc; reflexivity) Hm1) as (_ & Hv & ext & tail & Hx & -> & Hi & Ht).
  exists cb, ext, value, tail. rewrite <- !app_assoc. rewrite <- !app_assoc in Hi. repeat (split; [assumption || reflexivity|]).
  split; [destruct Ht as [[-> _]| ->]; auto|]. split; [exact Hd|eauto].
Qed.

Lemma read_cbind_flag_inv in_use port p r e e' : read_cbind_flag in_use port p e = (Ok r, e') -> r <> [] ->
  e' = e /\ exists flag, p = flag ++ chr "," :: r /\
    (if in_use then flag = bytes_of_string "p=tls-server-end-point"
     else flag = bytes_of_string "n" \/ (flag = bytes_of_string "y" /\ ssl_in_use port = false)).
Proof.
  intros Hr Hne. destruct p as [|c p]; [discriminate|]. cbn [read_cbind_flag] in Hr.
  destruct (Z.eqb_spec c (chr "n")) as [->|].
  { destruct in_use; [discriminate|]. destruct p as [|d p]; [discriminate|]. destruct (Z.eqb_spec d (chr ",")) as [->|]; [|discriminate].
    injection Hr as <- <-. split; [reflexivity|]. exists (bytes_of_string "n"). auto. }
  destruct (Z.eqb_spec c (chr "y")) as [->|].
  { destruct in_use; [discriminate|]. destruct (ssl_in_use port) eqn:Hs; [discriminate|]. destruct p as [|d p]; [discriminate|].
    destruct (Z.eqb_spec d (chr ",")) as [->|]; [|discriminate].
    injection Hr as <- <-. split; [reflexivity|]. exists (bytes_of_string "y"). auto. }
  destruct (Z.eqb_spec c (chr "p")) as [->|]; [|discriminate]. destruct in_use; [|discriminate]. cbn [negb] in Hr. minv Hr.
  destruct a as [v r']. apply attr_before in Hm as (-> & _ & Hp). cbn [fst snd] in Hr.
  destruct (bytes_eqb v tls_server_end_point) eqn:E; [|discriminate]. apply bytes_eqb_eq in E. subst v.
  injection Hr as -> <-. split; [reflexivity|]. exists (bytes_of_string "p=tls-server-end-point"). split; [|reflexivity].
  destruct Hp as [[_ ->]|Hp]; [contradiction|]. exact Hp.
Qed.

Lemma read_first_inv in_use port input first e e' : read_client_first_message in_use port input e = (Ok first, e') ->
  exists gs2 ext, input = gs2 ++ client_first_message_bare first /\ attrs ext /\
    client_first_message_bare first
      = bytes_of_string "n=" ++ client_username first ++ bytes_of_string ",r=" ++ client_nonce first ++ ext /\
    no_comma (client_username first) = true /\ no_comma (client_nonce first) = true /\
    (if in_use then gs2 = bytes_of_string "p=tls-server-end-point,,"
     else (gs2 = bytes_of_string "n,," /\ cbind_flag first = chr "n") \/
          (gs2 = bytes_of_string "y,," /\ cbind_flag first = chr "y" /\ ssl_in_use port = false)).
Proof.
  intros Hr. unfold read_client_first_message in Hr. minv Hr. destruct a as [|c bare]; [discriminate|].
  destruct (c =? chr "a"); [discriminate|]. destruct (Z.eqb_spec c (chr ",")) as [->|]; [|discriminate]. cbn [negb] in Hr.
  minv Hr. clear Hm0 a. minv Hr. destruct a as [user r]. minv Hr. destruct a as [nonce r2]. cbn [fst snd] in *.
  destruct (is_scram_printable nonce); [|discriminate]. cbn [negb] in Hr. minv Hr. injection Hr as <- _.
  cbn [client_first_message_bare client_username client_nonce cbind_flag].
  apply read_cbind_flag_inv in Hm as (-> & flag & -> & Hf); [|discriminate].
  apply attr_before in Hm0 as (-> & Hu & [[-> ->]| ->]); [discriminate|].
  apply attr_before in Hm1 as (-> & Hn & Hr2).
  exists (flag ++ [chr ","; chr ","]).
  assert (Hext : exists ext, attrs ext /\ r = bytes_of_string "r=" ++ nonce ++ ext).
  { destruct Hr2 as [[-> _]| ->]; [exists []; rewrite app_nil_r; split; [left; reflexivity|reflexivity]|].
    exists (chr "," :: r2). split; [right; eauto|reflexivity]. }
  destruct Hext as (ext & Hx & ->). exists ext. split; [rewrite <- app_assoc; reflexivity|].
  split; [exact Hx|]. split; [reflexivity|]. split; [exact Hu|]. split; [exact Hn|].
  destruct in_use; [subst flag; reflexivity|]. destruct Hf as [->|[-> Hs]]; [left|right]; auto.
Qed.

Lemma initial_response_inv body r e e' : initial_response body e = (Ok r, e') ->
  e' = e /\ exists len, length len = 4%nat /\
    match r with
    | None => body = len /\ c_int (be_val len) = -1
    | Some m1 => body = len ++ m1 /\ c_int (be_val len) = blen m1
    end.
Proof.
  unfold initial_response. destruct (Nat.ltb_spec (length body) 4); [discriminate|]. cbv zeta.
  intros Hr. assert (Hl : length (firstn 4 body) = 4%nat) by (rewrite length_firstn; lia).
  destruct (Z.eqb_spec (c_int (be_val (firstn 4 body))) (-1)) as [E|].
  - destruct (Nat.eqb_spec (length (skipn 4 body)) 0) as [E0|]; [|discriminate]. injection Hr as <- <-.
    split; [reflexivity|]. exists (firstn 4 body). split; [exact Hl|]. split; [|exact E].
    apply length_zero_iff_nil in E0. rewrite <- (firstn_skipn 4 body) at 1. rewrite E0, app_nil_r. reflexivity.
  - destruct (_ || _); [discriminate|]. destruct (Z.eqb_spec (c_int (be_val (firstn 4 body))) (blen (skipn 4 body))) as [E|];
      [|discriminate]. injection Hr as <- <-. split; [reflexivity|]. exists (firstn 4 body).
    split; [exact Hl|]. rewrite firstn_skipn. auto.
Qed.

(** The first message of the server, from the draw [d]. *)
Definition first_reply (s : scram_secret) (first : client_first) (nonce : bytes) : bytes :=
  bytes_of_string "r=" ++ client_nonce first ++ nonce ++ bytes_of_string ",s=" ++ sec_salt s ++
  bytes_of_string ",i=" ++ format_d (sec_iterations s).

Definition challenged (st : scram_state) (first : client_first) (d : nat) : scram_state :=
  let nonce := enc (RAND d SCRAM_RAW_NONCE_LEN) in
  mkScram SCRAM_AUTH_SALT_SENT (st_port st) (channel_binding_in_use st) (st_secret st) first
    (first_reply (st_secret st) first nonce) nonce (doomed st).

Lemma RAND_bytes_inv n r e e' : or_error (RAND_bytes n) e = (Ok r, e') -> r = RAND (draws e) n.
Proof.
  intros Hr. apply or_error_inv in Hr. unfold RAND_bytes in Hr. minv Hr. destruct a; [|discriminate].
  destruct (attempt_run e) as (b & fs & Ha). rewrite Hm in Ha. injection Ha as _ ->.
  injection Hr as <- _. reflexivity.
Qed.

Lemma continue_inv st input e out st' e' :
  scram_exchange st (Some input) e = (Ok (PG_SASL_EXCHANGE_CONTINUE, out, st'), e') ->
  st_state st = SCRAM_AUTH_INIT /\ exists first e1, st' = challenged st first (draws e) /\
    read_client_first_message (channel_binding_in_use st) (st_port st) input e = (Ok first, e1).
Proof.
  intros Hr. unfold scram_exchange in Hr. destruct (Nat.eqb _ 0); [discriminate|].
  destruct (negb _); [discriminate|]. destruct (st_state st) eqn:Hst; [| |discriminate].
  2:{ minv Hr. destruct (negb _); [discriminate|]. minv Hr. destruct (_ || _); [discriminate|]. minv Hr. discriminate. }
  split; [reflexivity|]. minv Hr. rename a into first. exists first, s. split; [|exact Hm]. minv Hr. injection Hr as _ <- _.
  pose proof (preserves_read_client_first_message (fun e' => draws e' = draws e)
    (channel_binding_in_use st) (st_port st) input e eq_refl) as Hd.
  rewrite Hm in Hd. cbn [snd] in Hd. unfold build_server_first_message in Hm0. minv Hm0.
  apply RAND_bytes_inv in Hm1 as ->. minv Hm0. apply b64_inv in Hm1 as [Hb _].
  rewrite (encode_fits _ (RAND_bytes_wf _ _)) in Hb. injection Hb as <-. injection Hm0 as <- _.
  unfold challenged. rewrite Hd. reflexivity.
Qed.

(** Both steps of an exchange that ended well. *)
Lemma exchange_proves st m1 m2 e e1 e2 out st' e3 first :
  read_client_first_message (channel_binding_in_use st) (st_port st) m1 e = (Ok first, e1) ->
  scram_exchange (challenged st first (draws e)) (Some m2) e2 = (Ok (PG_SASL_EXCHANGE_SUCCESS, out, st'), e3) ->
  doomed st = false /\
  proves (st_port st) (st_secret st) (channel_binding_in_use st) (enc (RAND (draws e) SCRAM_RAW_NONCE_LEN)) m1 m2.
Proof.
  intros H1 Hr. unfold scram_exchange in Hr. destruct (Nat.eqb _ 0); [discriminate|].
  destruct (negb _); [discriminate|]. cbn [st_state challenged] in Hr. minv Hr. rename a into f, Hm into Hread.
  destruct (verify_final_nonce _ f) eqn:Hn; [|discriminate]. cbn [negb] in Hr. minv Hr. rename Hm into Hproof.
  destruct (negb a || _) eqn:Hd; [discriminate|]. apply orb_false_iff in Hd as [Ha Hd]. destruct a; [|discriminate].
  split; [exact Hd|]. apply verify_final_nonce_iff in Hn. cbn [challenged st_first server_nonce] in Hn.
  apply read_first_inv in H1 as (gs2 & ext1 & -> & Hx1 & Hb & Hu & Hc & Hgs).
  apply read_final_inv in Hread as (cb & ext2 & value & tail & Hw & -> & Hcb & Hfn & Hv & Hx2 & Ht & Hdec & e4 & u & e5 & Hbind).
  apply check_channel_binding_inv in Hbind. cbn [challenged channel_binding_in_use st_port st_first] in Hbind.
  unfold verify_client_proof in Hproof. minv Hproof. apply (partial_inv _ _ _ _ _ (hmac_partial _ _ _ _)) in Hm as [-> _].
  minv Hproof. apply (partial_inv _ _ _ _ _ (cryptohash_partial _ _ _)) in Hm as [-> _].
  injection Hproof as Hp _. apply bytes_eqb_eq in Hp. cbn [concat auth_message challenged st_first server_first_message st_secret] in Hp.
  rewrite !app_nil_r in Hp. rewrite Hn in Hw, Hfn.
  exists gs2, (client_username first), (client_nonce first), ext1, cb, ext2, value, tail, (ClientProof f). cbv zeta.
  rewrite <- Hb. rewrite <- app_assoc in Hw. rewrite <- Hw.
  split; [reflexivity|]. split; [reflexivity|]. split; [|repeat (split; [assumption|]); exact Hp].
  unfold channel_bound. destruct (channel_binding_in_use st).
  - split; [exact Hgs|]. rewrite Hgs. exact Hbind.
  - destruct Hbind as [[-> Hf]|[-> Hf]], Hgs as [[-> Hg]|(-> & Hg & Hs)]; rewrite Hf in Hg; try discriminate Hg; auto.
Qed.

Lemma salt_sent_proves mock port shadow st first m1 e e1 msgs sent sent' e2 e' :
  read_client_first_message (channel_binding_in_use st) (st_port st) m1 e = (Ok first, e1) ->
  sasl_loop mock port shadow (Some (challenged st first (draws e))) msgs sent e2 = (Ok (STATUS_OK, sent'), e') ->
  exists m2 rest, msgs = (chr "p", m2) :: rest /\ doomed st = false /\
    proves (st_port st) (st_secret st) (channel_binding_in_use st) (enc (RAND (draws e) SCRAM_RAW_NONCE_LEN)) m1 m2.
Proof.
  intros H1 Hr. destruct msgs as [|[mtype body] msgs]; [discriminate|]. cbn [sasl_loop] in Hr.
  destruct (Z.eqb_spec mtype (chr "p")) as [->|]; [|discriminate]. cbn [negb] in Hr.
  destruct (_ <? _); [discriminate|]. minv Hr. injection Hm as <- <-. cbn [fst snd] in Hr. minv Hr.
  destruct a as [[result out] st']. destruct result.
  - apply continue_inv in Hm as [Hst' _]. discriminate.
  - exists body, msgs. split; [reflexivity|]. apply (exchange_proves _ _ _ _ _ _ _ _ _ _ H1 Hm).
  - destruct out; discriminate.
Qed.

(** A step in the first state does not end the exchange well. *)
Lemma first_step_inv st input e out st' e' : st_state st = SCRAM_AUTH_INIT ->
  scram_exchange st (Some input) e <> (Ok (PG_SASL_EXCHANGE_SUCCESS, out, st'), e').
Proof.
  intros Hst Hr. unfold scram_exchange in Hr. destruct (Nat.eqb _ 0); [discriminate|].
  destruct (negb _); [discriminate|]. rewrite Hst in Hr. minv Hr. minv Hr. discriminate.
Qed.

Lemma init_proves mock port shadow st msgs sent sent' e e' :
  st_state st = SCRAM_AUTH_INIT ->
  sasl_loop mock port shadow (Some st) msgs sent e = (Ok (STATUS_OK, sent'), e') ->
  exists m1 m2 rest, msgs = (chr "p", m1) :: (chr "p", m2) :: rest /\ doomed st = false /\
    proves (st_port st) (st_secret st) (channel_binding_in_use st) (enc (RAND (draws e) SCRAM_RAW_NONCE_LEN)) m1 m2.
Proof.
  intros Hst Hr. destruct msgs as [|[mtype body] msgs]; [discriminate|]. cbn [sasl_loop] in Hr.
  destruct (Z.eqb_spec mtype (chr "p")) as [->|]; [|discriminate]. cbn [negb] in Hr.
  destruct (_ <? _); [discriminate|]. minv Hr. injection Hm as <- <-. cbn [fst snd] in Hr. minv Hr.
  destruct a as [[result out] st']. destruct result.
  - apply continue_inv in Hm as [_ (first & e1 & -> & H1)].
    destruct (salt_sent_proves _ _ _ _ _ _ _ _ _ _ _ _ _ H1 Hr) as (m2 & rest & -> & Hp). exists body, m2, rest. auto.
  - destruct (first_step_inv _ _ _ _ _ _ Hst Hm).
  - destruct out; discriminate.
Qed.

Lemma scram_init_inv mock port mech shadow st e e' :
  scram_init mock port mech shadow e = (Ok st, e') ->
  mech_accepted port mech /\ st_state st = SCRAM_AUTH_INIT /\ st_port st = port /\
  channel_binding_in_use st = binds mech /\ draws e' = draws e /\
  (doomed st = false -> exists secret, shadow = Some secret /\ parse_scram_secret secret = Some (st_secret st)).
Proof.
  intros Hr. unfold scram_init in Hr. minv Hr. destruct a as [[b t] k].
  apply select_mechanism_inv in Hm as (Hacc & -> & ->). split; [exact Hacc|]. revert Hr.
  destruct (match shadow with Some _ => _ | None => _ end) as [s|] eqn:Hs; intros Hr.
  - injection Hr as <- <-. repeat split. intros _. cbn [st_secret]. destruct shadow as [secret|]; [|discriminate].
    exists secret. split; [reflexivity|]. destruct (get_password_type secret); congruence.
  - minv Hr. injection Hr as <- <-. cbn. repeat split; [|discriminate]. unfold mock_scram_secret in Hm.
    destruct (match t with PG_SHA384 => _ | _ => _ end) as [[t' kl] it]. minv Hm.
    apply (partial_inv _ _ _ _ _ (cryptohash_partial _ _ _)) in Hm0 as [-> (fs & ->)]. minv Hm.
    apply b64_inv in Hm0 as [_ ->]. injection Hm as _ <-. reflexivity.
Qed.

Lemma rawstring_inv body mech rest e e' : pq_getmsgrawstring body e = (Ok (mech, rest), e') ->
  e' = e /\ body = mech ++ 0 :: rest.
Proof.
  unfold pq_getmsgrawstring. destruct (Nat.leb_spec (length body) (length (cstring body))) as [|Hlt]; [discriminate|].
  intros Hr. injection Hr as <- <- <-. split; [reflexivity|]. clear - Hlt. induction body as [|c body IH]; cbn in *; [lia|].
  destruct (c =? 0) eqn:E; cbn in *; [apply Z.eqb_eq in E; subst c; reflexivity|]. f_equal. apply IH. lia.
Qed.

(** Whoever passes the exchange, whatever messages they sent: the role has a
    SCRAM secret, they chose a mechanism its method accepts (under
    pqc-scram-sha-384 one of the SHA-384 mechanisms, never a SHA-256 one), and
    the two messages they sent after it prove knowledge of the stored key to
    the server that drew its nonce for this exchange. *)
Lemma sasl_sound mock port shadow msgs sent e e' :
  CheckSASLAuth mock port shadow msgs e = (Ok (STATUS_OK, sent), e') ->
  exists secret s mech m1 m2,
    shadow = Some secret /\ parse_scram_secret secret = Some s /\ mech_accepted port mech /\
    sends mech m1 m2 msgs /\ proves port s (binds mech) (enc (RAND (draws e) SCRAM_RAW_NONCE_LEN)) m1 m2.
Proof.
  intros Hr. unfold CheckSASLAuth in Hr. destruct msgs as [|[mtype body] msgs]; [discriminate|]. cbn [sasl_loop] in Hr.
  destruct (Z.eqb_spec mtype (chr "p")) as [->|]; [|discriminate]. cbn [negb] in Hr.
  destruct (_ <? _); [discriminate|]. minv Hr. minv Hm. destruct a0 as [mech rest]. minv Hm.
  rename a0 into st. minv Hm. rename a0 into response. injection Hm as <- <-. cbn [fst snd] in *.
  apply rawstring_inv in Hm0 as [-> ->]. apply scram_init_inv in Hm1 as (Hmech & Hst & <- & Hcb & Hd & Hs).
  apply initial_response_inv in Hm2 as [-> (len & Hl & Hresp)].
  assert (Hend : forall m1 m2, doomed st = false ->
    proves (st_port st) (st_secret st) (channel_binding_in_use st) (enc (RAND (draws s1) SCRAM_RAW_NONCE_LEN)) m1 m2 ->
    sends mech m1 m2 ((chr "p", mech ++ 0 :: rest) :: msgs) ->
    exists secret s mech' m1 m2, shadow = Some secret /\ parse_scram_secret secret = Some s /\
      mech_accepted (st_port st) mech' /\ sends mech' m1 m2 ((chr "p", mech ++ 0 :: rest) :: msgs) /\
      proves (st_port st) s (binds mech') (enc (RAND (draws e) SCRAM_RAW_NONCE_LEN)) m1 m2).
  { intros m1 m2 Hdm Hp Hsend. destruct (Hs Hdm) as (secret & -> & Hparse). rewrite Hcb, Hd in Hp.
    exists secret, (st_secret st), mech, m1, m2. auto. }
  minv Hr. destruct a as [[result out] st']. destruct response as [m1|].
  - destruct Hresp as [-> Hlen]. destruct result; [|destruct (first_step_inv _ _ _ _ _ _ Hst Hm)|destruct out; discriminate].
    apply continue_inv in Hm as [_ (first & e1 & -> & H1)].
    destruct (salt_sent_proves _ _ _ _ _ _ _ _ _ _ _ _ _ H1 Hr) as (m2 & more & -> & Hdm & Hp).
    apply (Hend m1 m2 Hdm Hp). exists len, more. auto.
  - destruct Hresp as [-> Hlen]. injection Hm as <- <- <- <-.
    destruct (init_proves _ _ _ _ _ _ _ _ _ Hst Hr) as (m1 & m2 & more & -> & Hdm & Hp).
    apply (Hend m1 m2 Hdm Hp). exists len, more. auto.
Qed.
End Soundness.
