(* ===== verification/FeScram.v ===== *)
(** * The client side of SCRAM (src/interfaces/libpq/fe-auth-scram.c, fe-auth.c)

    libpq's choice of a mechanism, its two messages and its check of the
    server's signature.  A client is a process of its own, with its own
    environment; [None] stands for a failure, whose message is not modelled. *)
From Stdlib Require Import ZArith Lia Bool String List Ascii.
From stdpp Require Import base gmap list strings.
From S2P Require Import Prelude CryptoIface Env CString Base64 ScramSecret Scram.
Import ListNotations.
Local Open Scope Z_scope.
Local Open Scope pg_scope.

(** The fields of a connection the exchange reads. *)
Record PGconn := mkConn {
  channel_binding : bytes;             (* disable, prefer or require *)
  conn_ssl_in_use : bool;
  conn_password : option bytes;
  peer_certificate_hash : option bytes (* pgtls_get_peer_certificate_hash *)
}.

Definition binding_is (c : ascii) (conn : PGconn) : bool := hd 0 (channel_binding conn) =? chr c.
Arguments binding_is c%_char_scope conn.

Inductive fe_scram_state_enum := FE_SCRAM_INIT | FE_SCRAM_NONCE_SENT | FE_SCRAM_PROOF_SENT | FE_SCRAM_FINISHED.

(** What comes from the server's first message. *)
Record server_first := mkServerFirst {
  sf_message : bytes;
  sf_salt : bytes;
  sf_iterations : Z;
  sf_nonce : bytes
}.

Record fe_scram_state := mkFe {
  fe_state : fe_scram_state_enum;
  fe_conn : PGconn;
  fe_password : bytes;
  sasl_mechanism : bytes;
  fe_hash_type : pg_cryptohash_type;
  fe_key_length : Z;
  fe_client_nonce : bytes;
  fe_first_message_bare : bytes;
  fe_server_first : server_first;
  fe_final_without_proof : bytes;
  fe_SaltedPassword : bytes
}.

Inductive SASLStatus := SASL_COMPLETE | SASL_FAILED | SASL_CONTINUE.

Definition bind_option {A B} (m : M env (option A)) (k : A -> M env (option B)) : M env (option B) :=
  let! r := m in match r with Some a => k a | None => ret None end.

Notation "'try!' x ':=' m 'in' k" := (bind_option m (fun x => k))
  (at level 10, x pattern, m at level 100, k at level 200) : pg_scope.

Definition no_server_first : server_first := mkServerFirst [] [] 0 [].

Section Client.
  Context `{Crypto} `{Digests} `{Saslprep}.

Definition fe_scram_init (conn : PGconn) (password mech : bytes) : fe_scram_state :=
  let '(t, key_length) :=
    if bytes_eqb mech SCRAM_SHA_384_NAME || bytes_eqb mech SCRAM_SHA_384_PLUS_NAME
    then (PG_SHA384, SCRAM_SHA_384_KEY_LEN) else (PG_SHA256, SCRAM_SHA_256_KEY_LEN) in
  mkFe FE_SCRAM_INIT conn (prepared password) mech t key_length [] [] no_server_first [] [].

Definition scram_channel_bound (st : fe_scram_state) : bool :=
  match fe_state st with
  | FE_SCRAM_FINISHED =>
      bytes_eqb (sasl_mechanism st) SCRAM_SHA_256_PLUS_NAME || bytes_eqb (sasl_mechanism st) SCRAM_SHA_384_PLUS_NAME
  | _ => false
  end.

(** ** Messages of the client *)

(** Client supports channel binding, but thinks the server does not. *)
Definition unbound_flag (conn : PGconn) : bool := negb (binding_is "d" conn) && conn_ssl_in_use conn.

Definition build_client_first_message (st : fe_scram_state) : M env (option (bytes * fe_scram_state)) :=
  try! raw_nonce := RAND_bytes SCRAM_RAW_NONCE_LEN in
  try! nonce := ret (pg_b64_encode raw_nonce (pg_b64_enc_len (blen raw_nonce))) in
  let channel_info :=
    if bytes_eqb (sasl_mechanism st) SCRAM_SHA_256_PLUS_NAME then bytes_of_string "p=tls-server-end-point"
    else if unbound_flag (fe_conn st) then bytes_of_string "y" else bytes_of_string "n" in
  let bare := bytes_of_string "n=,r=" ++ nonce in
  ret (Some (channel_info ++ bytes_of_string ",," ++ bare,
    mkFe FE_SCRAM_NONCE_SENT (fe_conn st) (fe_password st) (sasl_mechanism st) (fe_hash_type st) (fe_key_length st)
      nonce bare no_server_first [] [])).

Definition fe_auth_message (bare sfm without : bytes) : list bytes := [bare; [chr ","]; sfm; [chr ","]; without].

(** The proof and the salted password it rests on. *)
Definition calculate_client_proof (st : fe_scram_state) (sf : server_first) (without : bytes)
    : M env (option (bytes * bytes)) :=
  let t := fe_hash_type st in
  let len := fe_key_length st in
  try! SaltedPassword := scram_SaltedPassword (fe_password st) t len (sf_salt sf) (sf_iterations sf) in
  try! ClientKey := scram_ClientKey SaltedPassword t len in
  try! StoredKey := scram_H ClientKey t len in
  try! ClientSignature := hmac t StoredKey (fe_auth_message (fe_first_message_bare st) (sf_message sf) without) len in
  ret (Some (xor_bytes ClientKey ClientSignature, SaltedPassword)).

Definition channel_attribute (st : fe_scram_state) : M env (option bytes) :=
  if bytes_eqb (sasl_mechanism st) SCRAM_SHA_256_PLUS_NAME then
    try! cbind_data := ret (peer_certificate_hash (fe_conn st)) in
    let cbind_input := bytes_of_string "p=tls-server-end-point,," ++ cbind_data in
    try! b := ret (pg_b64_encode cbind_input (pg_b64_enc_len (blen cbind_input))) in
    ret (Some (bytes_of_string "c=" ++ b))
  else if unbound_flag (fe_conn st) then ret (Some (bytes_of_string "c=eSws"))
  else ret (Some (bytes_of_string "c=biws")).

Definition build_client_final_message (st : fe_scram_state) (sf : server_first)
    : M env (option (bytes * fe_scram_state)) :=
  try! c := channel_attribute st in
  let without := c ++ bytes_of_string ",r=" ++ sf_nonce sf in
  try! p := calculate_client_proof st sf without in
  let '(client_proof, SaltedPassword) := p in
  try! b := ret (pg_b64_encode client_proof (pg_b64_enc_len (fe_key_length st))) in
  ret (Some (without ++ bytes_of_string ",p=" ++ b,
    mkFe FE_SCRAM_PROOF_SENT (fe_conn st) (fe_password st) (sasl_mechanism st) (fe_hash_type st) (fe_key_length st)
      (fe_client_nonce st) (fe_first_message_bare st) sf without SaltedPassword)).

(** ** Messages of the server *)

Definition fe_read_attr_value (input : bytes) (attr : Z) : option (bytes * bytes) :=
  match input with
  | a :: e :: rest => if (a =? attr) && (e =? chr "=") then Some (attr_tail rest) else None
  | _ => None
  end.

(** Text after the iteration count only adds an error message. *)
Definition read_server_first_message (st : fe_scram_state) (input : bytes) : option server_first :=
  match fe_read_attr_value input (chr "r") with
  | None => None
  | Some (nonce, r) =>
      let c := fe_client_nonce st in
      if (length nonce <? length c)%nat || negb (bytes_eqb (firstn (length c) nonce) c) then None
      else
        match fe_read_attr_value r (chr "s") with
        | None => None
        | Some (encoded_salt, r) =>
            match pg_b64_decode encoded_salt (pg_b64_dec_len (blen encoded_salt)) with
            | None => None
            | Some salt =>
                match fe_read_attr_value r (chr "i") with
                | None => None
                | Some (iterations_str, _) =>
                    let '(v, endptr, _) := strtol iterations_str in
                    let iterations := c_int v in
                    if negb (Nat.eqb (length endptr) 0) || (iterations <? 1) then None
                    else Some (mkServerFirst input salt iterations nonce)
                end
            end
        end
  end.

Definition read_server_final_message (st : fe_scram_state) (input : bytes) : option bytes :=
  if hd 0 input =? chr "e" then None
  else
    match fe_read_attr_value input (chr "v") with
    | None => None
    | Some (encoded_server_signature, _) => decode_key encoded_server_signature (fe_key_length st)
    end.

Definition verify_server_signature (st : fe_scram_state) (signature : bytes) : M env (option bool) :=
  let t := fe_hash_type st in
  let len := fe_key_length st in
  try! ServerKey := scram_ServerKey (fe_SaltedPassword st) t len in
  try! expected := hmac t ServerKey
    (fe_auth_message (fe_first_message_bare st) (sf_message (fe_server_first st)) (fe_final_without_proof st)) len in
  ret (Some (bytes_eqb expected signature)).

(** ** One step *)

Definition bad_input (input : bytes) : bool :=
  Nat.eqb (length input) 0 || negb (Nat.eqb (length input) (length (cstring input))).

Definition fe_scram_exchange (st : fe_scram_state) (input : bytes)
    : M env (SASLStatus * option bytes * fe_scram_state) :=
  let failed := ret (SASL_FAILED, None, st) in
  match fe_state st with
  | FE_SCRAM_INIT =>
      let! r := build_client_first_message st in
      match r with
      | None => failed
      | Some (out, st') => ret (SASL_CONTINUE, Some out, st')
      end
  | FE_SCRAM_NONCE_SENT =>
      if bad_input input then failed
      else
        match read_server_first_message st input with
        | None => failed
        | Some sf =>
            let! r := build_client_final_message st sf in
            match r with
            | None => failed
            | Some (out, st') => ret (SASL_CONTINUE, Some out, st')
            end
        end
  | FE_SCRAM_PROOF_SENT =>
      if bad_input input then failed
      else
        match read_server_final_message st input with
        | None => failed
        | Some signature =>
            let! r := verify_server_signature st signature in
            match r with
            | None => failed
            | Some matches =>
                let st' := mkFe FE_SCRAM_FINISHED (fe_conn st) (fe_password st) (sasl_mechanism st) (fe_hash_type st)
                  (fe_key_length st) (fe_client_nonce st) (fe_first_message_bare st) (fe_server_first st)
                  (fe_final_without_proof st) (fe_SaltedPassword st) in
                ret ((if matches then SASL_COMPLETE else SASL_FAILED), None, st')
            end
        end
  | FE_SCRAM_FINISHED => failed
  end.

(** ** The exchange as fe-auth.c drives it *)

(** One mechanism of the server's list, given the one selected so far; [None]
    when the client gives up. *)
Definition consider (conn : PGconn) (selected : option bytes) (mech : bytes) : option (option bytes) :=
  if bytes_eqb mech SCRAM_SHA_384_PLUS_NAME then
    if conn_ssl_in_use conn then
      Some (if negb (binding_is "d" conn) then Some SCRAM_SHA_384_PLUS_NAME else selected)
    else None
  else if bytes_eqb mech SCRAM_SHA_256_PLUS_NAME then
    if conn_ssl_in_use conn then
      Some (if negb (binding_is "d" conn) then
              match selected with
              | Some s => if bytes_eqb s SCRAM_SHA_384_PLUS_NAME then selected else Some SCRAM_SHA_256_PLUS_NAME
              | None => Some SCRAM_SHA_256_PLUS_NAME
              end
            else selected)
    else None
  else
    match selected with
    | Some _ => Some selected
    | None =>
        Some (if bytes_eqb mech SCRAM_SHA_384_NAME then Some SCRAM_SHA_384_NAME
              else if bytes_eqb mech SCRAM_SHA_256_NAME then Some SCRAM_SHA_256_NAME
              else None)
    end.

Fixpoint consider_all (conn : PGconn) (selected : option bytes) (mechs : list bytes) : option (option bytes) :=
  match mechs with
  | [] => Some selected
  | m :: mechs' =>
      match consider conn selected m with
      | None => None
      | Some selected => consider_all conn selected mechs'
      end
  end.

Definition SASLInitialResponse (mech response : bytes) : Z * bytes :=
  (chr "p", mech ++ [0] ++ be_bytes 4 (blen response) ++ response).

Definition pg_SASL_init (conn : PGconn) (mechs : list bytes) : M env (option (Z * bytes * fe_scram_state)) :=
  if binding_is "r" conn && negb (conn_ssl_in_use conn) then ret None
  else
    match consider_all conn None mechs with
    | Some (Some selected) =>
        if binding_is "r" conn && negb (bytes_eqb selected SCRAM_SHA_256_PLUS_NAME) &&
           negb (bytes_eqb selected SCRAM_SHA_384_PLUS_NAME) then ret None
        else
          match conn_password conn with
          | None | Some [] => ret None
          | Some password =>
              let! r := fe_scram_exchange (fe_scram_init conn password selected) [] in
              match r with
              | (SASL_CONTINUE, Some response, st) => ret (Some (SASLInitialResponse selected response, st))
              | _ => ret None
              end
          end
    | _ => ret None
    end.

(** [pg_SASL_continue]: whether it goes on, what it sends, and its state. *)
Definition pg_SASL_continue (st : fe_scram_state) (challenge : bytes) (final : bool)
    : M env (Z * option (Z * bytes) * fe_scram_state) :=
  let! r := fe_scram_exchange st challenge in
  let '(status, output, st') := r in
  let sent := match output with Some o => Some (chr "p", o) | None => None end in
  match status, output with
  | SASL_CONTINUE, None => ret (STATUS_ERROR, None, st')
  | SASL_CONTINUE, Some _ => if final then ret (STATUS_ERROR, None, st') else ret (STATUS_OK, sent, st')
  | SASL_FAILED, _ => ret (STATUS_ERROR, sent, st')
  | SASL_COMPLETE, _ => ret (STATUS_OK, sent, st')
  end.
End Client.

(** ** Lemmas: text without separators *)

(** No terminator and no comma. *)
Definition clean (l : bytes) : Prop := forallb (fun c => negb (c =? 0) && negb (c =? chr ",")) l = true.

Lemma clean_app a b : clean a -> clean b -> clean (a ++ b).
Proof. unfold clean. rewrite forallb_app. intros -> ->. reflexivity. Qed.

Lemma clean_enc l : clean (enc l).
Proof.
  unfold clean. pose proof (enc_b64 l) as Hl. rewrite forallb_forall in *. intros c Hc. specialize (Hl c Hc).
  unfold is_b64, PAD in Hl. change (chr ",") with 44. lia.
Qed.

Lemma clean_format n : 0 <= n -> clean (format_d n).
Proof.
  intros Hn. destruct (format_d_digits n Hn) as [Hd _]. unfold clean. rewrite forallb_forall in *.
  intros c Hc. specialize (Hd c Hc). unfold isdigit in Hd. change (chr ",") with 44. lia.
Qed.

Lemma printable_enc l : is_scram_printable (enc l) = true.
Proof.
  unfold is_scram_printable. pose proof (enc_b64 l) as Hl. rewrite forallb_forall in *. intros c Hc.
  specialize (Hl c Hc). unfold is_b64, PAD in Hl. change (chr ",") with 44. lia.
Qed.

(** An attribute that is followed by another, and one at the end. *)
Lemma attr_tail_more v r : clean v -> attr_tail (v ++ chr "," :: r) = (v, r).
Proof.
  intros Hv. unfold attr_tail. rewrite (span_all _ v (chr "," :: r)); [reflexivity| |reflexivity].
  unfold clean in Hv. rewrite forallb_forall in *. intros c Hc. specialize (Hv c Hc). apply andb_prop in Hv. tauto.
Qed.

Lemma attr_tail_end v : clean v -> attr_tail v = (v, []).
Proof.
  intros Hv. unfold attr_tail. rewrite <- (app_nil_r v) at 1. rewrite (span_all _ v []); [reflexivity| |exact I].
  unfold clean in Hv. rewrite forallb_forall in *. intros c Hc. specialize (Hv c Hc). apply andb_prop in Hv. tauto.
Qed.

Definition text (l : bytes) : Prop := forallb (fun c => negb (c =? 0)) l = true.

Lemma text_clean l : clean l -> text l.
Proof.
  unfold clean, text. rewrite !forallb_forall. intros Hl c Hc. specialize (Hl c Hc). apply andb_prop in Hl. tauto.
Qed.

Lemma text_app a b : text a -> text b -> text (a ++ b).
Proof. unfold text. rewrite forallb_app. intros -> ->. reflexivity. Qed.

Lemma cstring_text l : text l -> cstring l = l.
Proof.
  unfold text. induction l as [|c l IH]; [reflexivity|]. cbn. destruct (c =? 0); [discriminate|]. intros Hl. rewrite IH; auto.
Qed.

Lemma good_input l : text l -> l <> [] -> bad_input l = false.
Proof. intros Ht Hl. unfold bad_input. rewrite cstring_text, Nat.eqb_refl by exact Ht. destruct l; [congruence|reflexivity]. Qed.

Create HintDb scram.
#[export] Hint Resolve clean_app clean_enc clean_format text_clean text_app : scram.
#[export] Hint Extern 1 (clean (bytes_of_string _)) => reflexivity : scram.
#[export] Hint Extern 1 (text (bytes_of_string _)) => reflexivity : scram.

(** ** The two sides together *)

Section Login.
  Context `{CL : CryptoLaws} `{DL : DigestLaws} `{Saslprep}.

Lemma try_step {A B} (m : M env (option A)) (k : A -> M env (option B)) e a e' :
  m e = (Ok (Some a), e') -> bind_option m k e = k a e'.
Proof. intros Hm. unfold bind_option. mrun Hm. reflexivity. Qed.

Lemma RAND_wf_18 d : wf_bytes (RAND d SCRAM_RAW_NONCE_LEN) = true.
Proof. apply RAND_bytes_wf. Qed.

Definition bare_of (nonce : bytes) : bytes := bytes_of_string "n=,r=" ++ nonce.

(** How the client flags the channel, and how it repeats that at the end. *)
Definition channel_flag (conn : PGconn) (mech : bytes) : bytes :=
  if bytes_eqb mech SCRAM_SHA_256_PLUS_NAME then bytes_of_string "p=tls-server-end-point"
  else if unbound_flag conn then bytes_of_string "y" else bytes_of_string "n".

Lemma client_first_run conn password mech e :
  no_faults e ->
  let st := fe_scram_init conn password mech in
  let nonce := enc (RAND (draws e) SCRAM_RAW_NONCE_LEN) in
  build_client_first_message st e =
  (Ok (Some (channel_flag conn mech ++ bytes_of_string ",," ++ bare_of nonce,
     mkFe FE_SCRAM_NONCE_SENT conn (prepared password) mech (fe_hash_type st) (fe_key_length st)
       nonce (bare_of nonce) no_server_first [] [])), set_draws (S (draws e)) e).
Proof.
  intros He st nonce. unfold build_client_first_message.
  rewrite (try_step _ _ _ _ _ (RAND_bytes_ok SCRAM_RAW_NONCE_LEN e He)).
  rewrite encode_fits by apply RAND_wf_18. unfold st, fe_scram_init, channel_flag.
  destruct (bytes_eqb mech SCRAM_SHA_384_NAME || bytes_eqb mech SCRAM_SHA_384_PLUS_NAME); reflexivity.
Qed.

(** A flag the server takes, for a mechanism that binds the channel or not. *)
Definition flag_accepted (in_use : bool) (flag : bytes) : Prop :=
  (in_use = false /\ flag = bytes_of_string "n") \/ (in_use = true /\ flag = bytes_of_string "p=tls-server-end-point").

Lemma server_reads_first in_use port flag nonce e :
  flag_accepted in_use flag -> clean nonce -> is_scram_printable nonce = true ->
  read_client_first_message in_use port (flag ++ bytes_of_string ",," ++ bare_of nonce) e =
  (Ok (mkFirst (hd 0 flag) (bare_of nonce) [] nonce), e).
Proof.
  intros Hf Hn Hp. unfold read_client_first_message.
  assert (Hflag : read_cbind_flag in_use port (flag ++ bytes_of_string ",," ++ bare_of nonce) e =
                  (Ok (chr "," :: bare_of nonce), e)).
  { destruct Hf as [[-> ->]|[-> ->]]; reflexivity. }
  mrun Hflag. cbn [Z.eqb]. change (chr "," =? chr "a") with false. change (chr "," =? chr ",") with true. cbn [negb].
  assert (Hu : read_attr_value (bare_of nonce) (chr "n") e = (Ok ([], bytes_of_string "r=" ++ nonce), e)) by reflexivity.
  assert (Hr : read_attr_value (bytes_of_string "r=" ++ nonce) (chr "r") e = (Ok (nonce, []), e)).
  { cbn. unfold ret. rewrite attr_tail_end by exact Hn. reflexivity. }
  erewrite bind_step; [|reflexivity]. mrun Hu. cbn [snd]. mrun Hr. cbn [fst snd]. rewrite Hp.
  destruct Hf as [[-> ->]|[-> ->]]; reflexivity.
Qed.

Definition first_of (flag nonce : bytes) : client_first := mkFirst (hd 0 flag) (bare_of nonce) [] nonce.

Lemma exchange_input st m e : text m -> m <> [] ->
  scram_exchange st (Some m) e =
  match st_state st with
  | SCRAM_AUTH_INIT =>
      (let! first := read_client_first_message (channel_binding_in_use st) (st_port st) m in
       let! st' := build_server_first_message st first in
       ret (PG_SASL_EXCHANGE_CONTINUE, Some (server_first_message st'), st')) e
  | SCRAM_AUTH_SALT_SENT =>
      (let! f := read_client_final_message st m in
       if negb (verify_final_nonce st f) then protocol_violation
       else
         let! ok := verify_client_proof st f in
         if negb ok || doomed st then ret (PG_SASL_EXCHANGE_FAILURE, None, st)
         else
           let! out := build_server_final_message st f in
           ret (PG_SASL_EXCHANGE_SUCCESS, Some out,
                mkScram SCRAM_AUTH_FINISHED (st_port st) (channel_binding_in_use st) (st_secret st)
                  (st_first st) (server_first_message st) (server_nonce st) (doomed st))) e
  | SCRAM_AUTH_FINISHED => raise ERRCODE_INTERNAL_ERROR e
  end.
Proof.
  intros Ht Hne. unfold scram_exchange. rewrite cstring_text, Nat.eqb_refl by exact Ht.
  destruct m; [congruence|]. cbn [length Nat.eqb negb]. destruct (st_state st); reflexivity.
Qed.

Lemma server_challenges st flag nonce e :
  st_state st = SCRAM_AUTH_INIT -> flag_accepted (channel_binding_in_use st) flag -> clean nonce ->
  is_scram_printable nonce = true -> no_faults e ->
  let st' := challenged st (first_of flag nonce) (draws e) in
  scram_exchange st (Some (flag ++ bytes_of_string ",," ++ bare_of nonce)) e =
  (Ok (PG_SASL_EXCHANGE_CONTINUE, Some (server_first_message st'), st'), set_draws (S (draws e)) e).
Proof.
  intros Hst Hf Hn Hp He st'.
  rewrite exchange_input, Hst.
  - mrun (server_reads_first _ (st_port st) flag nonce e Hf Hn Hp).
    assert (Hb : build_server_first_message st (first_of flag nonce) e = (Ok st', set_draws (S (draws e)) e)).
    { unfold build_server_first_message. mrun (or_error_ok _ _ _ _ (RAND_bytes_ok SCRAM_RAW_NONCE_LEN e He)).
      mrun (b64_or_error_ok _ (set_draws (S (draws e)) e) (RAND_wf_18 (draws e))). reflexivity. }
    mrun Hb. reflexivity.
  - unfold bare_of. destruct Hf as [[_ ->]|[_ ->]]; auto with scram.
  - destruct Hf as [[_ ->]|[_ ->]]; discriminate.
Qed.

(** The client reads what the server sends. *)
Lemma client_reads_first st s first sn salt :
  fe_client_nonce st = client_nonce first -> clean (client_nonce first) -> clean sn ->
  sec_salt s = enc salt -> wf_bytes salt = true -> 1 <= sec_iterations s < 2 ^ 31 ->
  read_server_first_message st (first_reply s first sn) =
  Some (mkServerFirst (first_reply s first sn) salt (sec_iterations s) (client_nonce first ++ sn)).
Proof.
  intros Hc Hcn Hsn Hsalt Hwf Hit. set (cn := client_nonce first) in *.
  assert (Hm : first_reply s first sn =
    chr "r" :: chr "=" :: (cn ++ sn) ++ chr "," :: chr "s" :: chr "=" :: enc salt ++
    chr "," :: chr "i" :: chr "=" :: format_d (sec_iterations s)).
  { unfold first_reply. fold cn. rewrite Hsalt. cbn [bytes_of_string app]. rewrite <- !app_assoc. reflexivity. }
  unfold read_server_first_message. rewrite Hm at 1. cbn [fe_read_attr_value].
  change (chr "r" =? chr "r") with true. change (chr "=" =? chr "=") with true. cbn [andb].
  rewrite attr_tail_more by auto with scram. rewrite Hc.
  destruct (Nat.ltb_spec (length (cn ++ sn)) (length cn)) as [Hl|_]; [rewrite length_app in Hl; lia|].
  rewrite firstn_app_exact, bytes_eqb_refl by reflexivity. cbn [orb negb].
  cbn [fe_read_attr_value]. change (chr "s" =? chr "s") with true. change (chr "=" =? chr "=") with true. cbn [andb].
  rewrite attr_tail_more by auto with scram. rewrite (decode_enc salt Hwf).
  cbn [fe_read_attr_value]. change (chr "i" =? chr "i") with true. change (chr "=" =? chr "=") with true. cbn [andb].
  rewrite attr_tail_end by (apply clean_format; lia).
  rewrite <- (app_nil_r (format_d (sec_iterations s))), strtol_format by (auto; lia).
  rewrite c_int_small by lia. cbn [length Nat.eqb negb orb]. destruct (Z.ltb_spec (sec_iterations s) 1); [lia|reflexivity].
Qed.

Lemma text_first_reply s first sn salt : clean (client_nonce first) -> clean sn -> sec_salt s = enc salt ->
  0 <= sec_iterations s -> text (first_reply s first sn).
Proof. intros Hc Hn Hs Hi. unfold first_reply. rewrite Hs. auto 12 with scram. Qed.

Definition without_proof (cb nonce : bytes) : bytes := bytes_of_string "c=" ++ cb ++ bytes_of_string ",r=" ++ nonce.

(** The proof of a client that knows the salted password [S]. *)
Definition proof_of (t : pg_cryptohash_type) (S : bytes) (auth : list bytes) : bytes :=
  xor_bytes (ClientKey t S) (HMAC t (StoredKey t S) (concat auth)).

Lemma proof_blen t S auth : blen (proof_of t S auth) = digest_length t.
Proof.
  unfold proof_of, blen. rewrite length_xor_bytes. unfold ClientKey.
  pose proof (HMAC_length t S (bytes_of_string "Client Key")) as Q1.
  pose proof (HMAC_length t (StoredKey t S) (concat auth)) as Q2. unfold blen in *. lia.
Qed.

Lemma proof_wf t S auth : wf_bytes (proof_of t S auth) = true.
Proof. apply wf_xor_bytes; apply HMAC_wf. Qed.

Lemma client_final_run st sf cb e :
  no_faults e -> channel_attribute st e = (Ok (Some (bytes_of_string "c=" ++ cb)), e) ->
  fe_key_length st = digest_length (fe_hash_type st) ->
  let t := fe_hash_type st in
  let S := Hi (fe_password st) t (sf_salt sf) (sf_iterations sf) in
  let without := without_proof cb (sf_nonce sf) in
  let auth := fe_auth_message (fe_first_message_bare st) (sf_message sf) without in
  build_client_final_message st sf e =
  (Ok (Some (without ++ bytes_of_string ",p=" ++ enc (proof_of t S auth),
    mkFe FE_SCRAM_PROOF_SENT (fe_conn st) (fe_password st) (sasl_mechanism st) t (fe_key_length st)
      (fe_client_nonce st) (fe_first_message_bare st) sf without S)), e).
Proof.
  intros He Hc Hk t S without auth. unfold build_client_final_message. rewrite (try_step _ _ _ _ _ Hc).
  rewrite <- app_assoc. fold (without_proof cb (sf_nonce sf)). fold without.
  assert (Hp : calculate_client_proof st sf without e = (Ok (Some (proof_of t S auth, S)), e)).
  { assert (Hl : digest_length t <= digest_length t) by lia.
    unfold calculate_client_proof. rewrite Hk. fold t.
    rewrite (try_step _ _ _ _ _ (SaltedPassword_ok (fe_password st) t _ (sf_salt sf) (sf_iterations sf) e He Hl)).
    fold S. rewrite (try_step _ _ _ _ _ (ClientKey_ok S t _ e He Hl)).
    rewrite (try_step _ _ _ _ _ (H_ok (ClientKey t S) t _ e He Hl)). fold auth.
    rewrite (try_step _ _ _ _ _ (hmac_ok t (DIGEST t (ClientKey t S)) auth _ e He Hl)). reflexivity. }
  rewrite (try_step _ _ _ _ _ Hp), Hk. fold t. rewrite <- (proof_blen t S auth) at 1.
  rewrite encode_fits by apply proof_wf. reflexivity.
Qed.

Lemma server_reads_final st cb nonce proof e :
  clean cb -> clean nonce -> check_channel_binding st cb e = (Ok tt, e) ->
  wf_bytes proof = true ->
  read_client_final_message st (without_proof cb nonce ++ bytes_of_string ",p=" ++ enc proof) e =
  (if blen proof =? sec_key_length (st_secret st) then Ok (mkFinal (without_proof cb nonce) nonce proof)
   else Err ERRCODE_PROTOCOL_VIOLATION, e).
Proof.
  intros Hcb Hn Hcheck Hwf. unfold read_client_final_message.
  set (input := without_proof cb nonce ++ bytes_of_string ",p=" ++ enc proof).
  assert (Q1 : read_attr_value input (chr "c") e =
    (Ok (cb, chr "r" :: chr "=" :: nonce ++ chr "," :: chr "p" :: chr "=" :: enc proof), e)).
  { unfold input, without_proof. cbn [bytes_of_string app read_attr_value].
    change (chr "c" =? chr "c") with true. change (chr "=" =? chr "=") with true. cbn [andb]. unfold ret.
    rewrite <- !app_assoc. cbn [app]. rewrite attr_tail_more by exact Hcb. reflexivity. }
  mrun Q1. cbn [fst snd]. mrun Hcheck.
  assert (Q2 : read_attr_value (chr "r" :: chr "=" :: nonce ++ chr "," :: chr "p" :: chr "=" :: enc proof) (chr "r") e =
    (Ok (nonce, chr "p" :: chr "=" :: enc proof), e)).
  { cbn [read_attr_value]. change (chr "r" =? chr "r") with true. change (chr "=" =? chr "=") with true. cbn [andb].
    unfold ret. rewrite attr_tail_more by exact Hn. reflexivity. }
  mrun Q2. cbn [fst snd].
  assert (Q3 : find_proof (S (length input)) input (chr "p" :: chr "=" :: enc proof) e =
    (Ok (without_proof cb nonce, enc proof, []), e)).
  { cbn [find_proof]. cbv zeta. cbn [read_any_attr]. change (is_alpha (chr "p") && (chr "=" =? chr "=")) with true.
    cbv iota. rewrite attr_tail_end by apply clean_enc. cbn [bind ret]. change (chr "p" =? chr "p") with true. cbv iota.
    assert (Hw : firstn (length input - length (chr "p" :: chr "=" :: enc proof) - 1) input = without_proof cb nonce).
    { replace (length input - length (chr "p" :: chr "=" :: enc proof) - 1)%nat with (length (without_proof cb nonce)).
      - apply firstn_app_exact. reflexivity.
      - unfold input. rewrite !length_app. cbn [length bytes_of_string]. lia. }
    rewrite Hw. reflexivity. }
  mrun Q3. unfold decode_key. rewrite (decode_enc proof Hwf). destruct (_ =? _); reflexivity.
Qed.

(** The proof is accepted, and the server's answer is what the client expects. *)
Lemma server_verifies st f t S :
  sec_hash_type (st_secret st) = t -> sec_key_length (st_secret st) = digest_length t ->
  sec_StoredKey (st_secret st) = StoredKey t S -> ClientProof f = proof_of t S (auth_message st f) ->
  forall e, no_faults e -> verify_client_proof st f e = (Ok true, e).
Proof.
  intros Ht Hk Hs Hp e He. unfold verify_client_proof. rewrite Ht, Hk, Hs.
  assert (Hl : digest_length t <= digest_length t) by lia.
  mrun (or_error_ok _ _ _ _ (hmac_ok t (StoredKey t S) (auth_message st f) _ e He Hl)).
  rewrite Hp. unfold proof_of. rewrite xor_bytes_involutive.
  - mrun (or_error_ok _ _ _ _ (H_ok (ClientKey t S) t _ e He Hl)). unfold ret, StoredKey.
    rewrite bytes_eqb_refl. reflexivity.
  - pose proof (HMAC_length t S (bytes_of_string "Client Key")) as Q1.
    pose proof (HMAC_length t (StoredKey t S) (concat (auth_message st f))) as Q2.
    apply Nat.eq_le_incl, Nat2Z.inj. etransitivity; [exact Q1|symmetry; exact Q2].
Qed.

Lemma server_signs st f t :
  sec_hash_type (st_secret st) = t -> sec_key_length (st_secret st) = digest_length t ->
  forall e, no_faults e -> build_server_final_message st f e =
  (Ok (bytes_of_string "v=" ++ enc (HMAC t (sec_ServerKey (st_secret st)) (concat (auth_message st f)))), e).
Proof.
  intros Ht Hk e He. unfold build_server_final_message. rewrite Ht, Hk.
  mrun (or_error_ok _ _ _ _ (hmac_ok t (sec_ServerKey (st_secret st)) (auth_message st f) _ e He (Z.le_refl _))).
  mrun (b64_or_error_ok _ e (HMAC_wf t (sec_ServerKey (st_secret st)) (concat (auth_message st f)))). reflexivity.
Qed.

Lemma client_accepts cst t S auth e :
  fe_state cst = FE_SCRAM_PROOF_SENT -> fe_hash_type cst = t -> fe_key_length cst = digest_length t ->
  fe_SaltedPassword cst = S ->
  fe_auth_message (fe_first_message_bare cst) (sf_message (fe_server_first cst)) (fe_final_without_proof cst) = auth ->
  no_faults e ->
  exists cst', fe_scram_exchange cst (bytes_of_string "v=" ++ enc (HMAC t (ServerKey t S) (concat auth))) e =
    (Ok (SASL_COMPLETE, None, cst'), e) /\ fe_state cst' = FE_SCRAM_FINISHED /\ sasl_mechanism cst' = sasl_mechanism cst.
Proof.
  intros Hst Ht Hk HS Ha He. set (sig := HMAC t (ServerKey t S) (concat auth)).
  eexists. unfold fe_scram_exchange. rewrite Hst, good_input by (auto with scram || discriminate).
  assert (Hr : read_server_final_message cst (bytes_of_string "v=" ++ enc sig) = Some sig).
  { unfold read_server_final_message. cbn [bytes_of_string app hd fe_read_attr_value].
    change (chr "v" =? chr "e") with false. change ((chr "v" =? chr "v") && (chr "=" =? chr "=")) with true. cbv iota.
    rewrite attr_tail_end by apply clean_enc. rewrite Hk, <- (HMAC_length t (ServerKey t S) (concat auth)).
    apply decode_key_enc, HMAC_wf. }
  rewrite Hr.
  assert (Hv : verify_server_signature cst sig e = (Ok (Some true), e)).
  { unfold verify_server_signature. rewrite Ht, Hk, HS, Ha.
    rewrite (try_step _ _ _ _ _ (ServerKey_ok S t _ e He (Z.le_refl _))).
    rewrite (try_step _ _ _ _ _ (hmac_ok t (ServerKey t S) auth _ e He (Z.le_refl _))).
    fold sig. unfold ret. rewrite bytes_eqb_refl. reflexivity. }
  mrun Hv. split; [reflexivity|split; reflexivity].
Qed.

(** Both sides see the channel the same way. *)
Record channel_agreed (st : scram_state) (conn : PGconn) (mech cb : bytes) : Prop := {
  ca_flag : flag_accepted (channel_binding_in_use st) (channel_flag conn mech);
  ca_clean : clean cb;
  ca_short : blen cb <= 120;
  ca_attribute : forall cst e, fe_conn cst = conn -> sasl_mechanism cst = mech ->
    channel_attribute cst e = (Ok (Some (bytes_of_string "c=" ++ cb)), e);
  ca_check : forall nonce d e,
    check_channel_binding (challenged st (first_of (channel_flag conn mech) nonce) d) cb e = (Ok tt, e)
}.

(** The secret of a role with a given password. *)
Definition role_secret (t : pg_cryptohash_type) (iterations : Z) (salt password : bytes) : scram_secret :=
  let S := Hi (prepared password) t salt iterations in
  mkSecret iterations t (digest_length t) (enc salt) (StoredKey t S) (ServerKey t S).

Lemma nonce_blen d : blen (enc (RAND d SCRAM_RAW_NONCE_LEN)) = 24.
Proof. rewrite blen_enc. unfold blen. rewrite RAND_length. reflexivity. Qed.

Section Exchange.
  Variables (st : scram_state) (conn : PGconn) (password mech cb salt : bytes) (t : pg_cryptohash_type)
    (iterations : Z) (e_s e_c : env).

(** The messages and states of a run between the two. *)
Definition x_flag : bytes := channel_flag conn mech.
Definition x_cn : bytes := enc (RAND (draws e_c) SCRAM_RAW_NONCE_LEN).
Definition x_m1 : bytes := x_flag ++ bytes_of_string ",," ++ bare_of x_cn.
Definition x_st1 : scram_state := challenged st (first_of x_flag x_cn) (draws e_s).
Definition x_s1 : bytes := server_first_message x_st1.
Definition x_nonce : bytes := x_cn ++ server_nonce x_st1.
Definition x_S : bytes := Hi (prepared password) t salt iterations.
Definition x_sf : server_first := mkServerFirst x_s1 salt iterations x_nonce.
Definition x_without : bytes := without_proof cb x_nonce.
Definition x_auth : list bytes := fe_auth_message (bare_of x_cn) x_s1 x_without.
Definition x_final : client_final := mkFinal x_without x_nonce (proof_of t x_S x_auth).
Definition x_m2 : bytes := x_without ++ bytes_of_string ",p=" ++ enc (proof_of t x_S x_auth).
Definition x_s2 : bytes := bytes_of_string "v=" ++ enc (HMAC t (ServerKey t x_S) (concat x_auth)).
Definition x_c1 : fe_scram_state :=
  mkFe FE_SCRAM_NONCE_SENT conn (prepared password) mech t (digest_length t) x_cn (bare_of x_cn) no_server_first [] [].
Definition x_c2 : fe_scram_state :=
  mkFe FE_SCRAM_PROOF_SENT conn (prepared password) mech t (digest_length t) x_cn (bare_of x_cn) x_sf x_without x_S.
Definition x_es : env := set_draws (S (draws e_s)) e_s.
Definition x_ec : env := set_draws (S (draws e_c)) e_c.

  Hypothesis Hst : st_state st = SCRAM_AUTH_INIT.
  Hypothesis Hd : doomed st = false.
  Hypothesis Hsalt : sec_salt (st_secret st) = enc salt.
  Hypothesis Hiter : sec_iterations (st_secret st) = iterations.
  Hypothesis Ht : fe_hash_type (fe_scram_init conn password mech) = t.
  Hypothesis Hk : fe_key_length (fe_scram_init conn password mech) = digest_length t.
  Hypothesis Hch : channel_agreed st conn mech cb.
  Hypothesis Hwf : wf_bytes salt = true.
  Hypothesis Hit : 1 <= iterations < 2 ^ 31.
  Hypothesis Hlen : digest_length t <= 64.
  Hypothesis Hes : no_faults e_s.
  Hypothesis Hec : no_faults e_c.

Lemma x_client_1 : fe_scram_exchange (fe_scram_init conn password mech) [] e_c = (Ok (SASL_CONTINUE, Some x_m1, x_c1), x_ec).
Proof.
  assert (Hc := client_first_run conn password mech e_c Hec). cbv zeta in Hc. rewrite Ht, Hk in Hc.
  unfold fe_scram_exchange. replace (fe_state (fe_scram_init conn password mech)) with FE_SCRAM_INIT.
  - mrun Hc. reflexivity.
  - unfold fe_scram_init. destruct (_ || _); reflexivity.
Qed.

Lemma x_server_1 : scram_exchange st (Some x_m1) e_s = (Ok (PG_SASL_EXCHANGE_CONTINUE, Some x_s1, x_st1), x_es).
Proof. apply (server_challenges st x_flag x_cn e_s Hst (ca_flag _ _ _ _ Hch) (clean_enc _) (printable_enc _) Hes). Qed.

Lemma x_client_2 : fe_scram_exchange x_c1 x_s1 x_ec = (Ok (SASL_CONTINUE, Some x_m2, x_c2), x_ec).
Proof.
  unfold fe_scram_exchange. cbn [fe_state x_c1]. change x_s1 with (first_reply (st_secret st) (first_of x_flag x_cn) (server_nonce x_st1)).
  rewrite good_input.
  - rewrite (client_reads_first x_c1 _ _ _ salt), Hiter by (auto; rewrite ?Hiter; auto; apply clean_enc).
    mrun (client_final_run x_c1 x_sf cb x_ec Hec (ca_attribute _ _ _ _ Hch x_c1 _ eq_refl eq_refl) eq_refl). reflexivity.
  - apply text_first_reply with salt; try apply clean_enc; [exact Hsalt|rewrite Hiter; lia].
  - discriminate.
Qed.

Lemma x_server_reads :
  read_client_final_message x_st1 x_m2 x_es =
  (if digest_length t =? sec_key_length (st_secret st) then Ok x_final else Err ERRCODE_PROTOCOL_VIOLATION, x_es).
Proof.
  unfold x_m2, x_without. rewrite server_reads_final;
    [rewrite proof_blen; reflexivity|apply (ca_clean _ _ _ _ Hch)|apply clean_app; apply clean_enc
    |apply (ca_check _ _ _ _ Hch)|apply proof_wf].
Qed.

Lemma x_m2_text : text x_m2 /\ x_m2 <> [].
Proof.
  pose proof (ca_clean _ _ _ _ Hch) as Hcb. assert (Hcl : clean x_nonce) by (apply clean_app; apply clean_enc).
  unfold x_m2, x_without, without_proof. split; [auto 12 with scram|discriminate].
Qed.

(** A server that expects a proof of another length refuses. *)
Lemma x_server_refuses : digest_length t <> sec_key_length (st_secret st) ->
  scram_exchange x_st1 (Some x_m2) x_es = (Err ERRCODE_PROTOCOL_VIOLATION, x_es).
Proof.
  intros Hne. rewrite exchange_input by apply x_m2_text. cbn [st_state x_st1 challenged].
  apply bind_err. rewrite x_server_reads. apply Z.eqb_neq in Hne. rewrite Hne. reflexivity.
Qed.

  Hypothesis Hs : st_secret st = role_secret t iterations salt password.

Lemma x_server_2 : exists st2, scram_exchange x_st1 (Some x_m2) x_es = (Ok (PG_SASL_EXCHANGE_SUCCESS, Some x_s2, st2), x_es).
Proof.
  assert (Hs1 : st_secret x_st1 = role_secret t iterations salt password) by exact Hs.
  assert (Hr : read_client_final_message x_st1 x_m2 x_es = (Ok x_final, x_es))
    by (rewrite x_server_reads, Hs; cbn; rewrite Z.eqb_refl; reflexivity).
  eexists. rewrite exchange_input by apply x_m2_text.
  cbn [st_state x_st1 challenged]. mrun Hr. rewrite (proj2 (verify_final_nonce_iff x_st1 x_final)) by reflexivity. cbn [negb].
  mrun (server_verifies x_st1 x_final t x_S ltac:(rewrite Hs1; reflexivity) ltac:(rewrite Hs1; reflexivity)
    ltac:(rewrite Hs1; reflexivity) eq_refl x_es Hes).
  cbn [negb orb x_st1 challenged doomed]. rewrite Hd.
  mrun (server_signs x_st1 x_final t ltac:(rewrite Hs1; reflexivity) ltac:(rewrite Hs1; reflexivity) x_es Hes).
  rewrite Hs1. reflexivity.
Qed.

Lemma x_client_3 : exists c3, fe_scram_exchange x_c2 x_s2 x_ec = (Ok (SASL_COMPLETE, None, c3), x_ec) /\
  fe_state c3 = FE_SCRAM_FINISHED /\ sasl_mechanism c3 = mech.
Proof. apply (client_accepts x_c2 t x_S x_auth x_ec); auto. Qed.

Lemma x_m1_blen : 0 < blen x_m1 <= 100.
Proof.
  assert (Hf : 0 <= blen x_flag <= 22).
  { destruct (ca_flag _ _ _ _ Hch) as [[_ E]|[_ E]]; unfold x_flag; rewrite E; vm_compute; split; discriminate. }
  unfold x_m1, bare_of, x_cn. rewrite !blen_app, nonce_blen.
  change (blen (bytes_of_string ",,")) with 2. change (blen (bytes_of_string "n=,r=")) with 5. lia.
Qed.

Lemma x_m2_blen : blen x_m2 <= 400.
Proof.
  unfold x_m2, x_without, without_proof, x_nonce, x_cn. rewrite !blen_app.
  cbn [x_st1 challenged server_nonce]. rewrite !nonce_blen, blen_enc, proof_blen. pose proof (ca_short _ _ _ _ Hch).
  change (blen (bytes_of_string ",p=")) with 3. change (blen (bytes_of_string "c=")) with 2.
  change (blen (bytes_of_string ",r=")) with 3. unfold pg_b64_enc_len.
  assert ((digest_length t + 2) / 3 <= 22) by (apply Z.lt_succ_r, Z.div_lt_upper_bound; lia). lia.
Qed.
End Exchange.

(** ** The connection as a whole *)

(** The mechanism libpq selects from what the server offers. *)
Definition chosen (port : Port) (conn : PGconn) : bytes :=
  if is_method uaPQCSCRAM port
  then if unbound_flag conn then SCRAM_SHA_384_PLUS_NAME else SCRAM_SHA_384_NAME
  else if unbound_flag conn then SCRAM_SHA_256_PLUS_NAME else SCRAM_SHA_256_NAME.

Lemma chosen_ok port conn : conn_ssl_in_use conn = ssl_in_use port ->
  consider_all conn None (scram_get_mechanisms port) = Some (Some (chosen port conn)).
Proof.
  intros Hssl. unfold scram_get_mechanisms, chosen, unbound_flag. rewrite <- Hssl.
  destruct (is_method uaPQCSCRAM port), (conn_ssl_in_use conn) eqn:E, (binding_is "d" conn) eqn:E';
    cbn [app consider_all negb andb]; unfold consider; rewrite ?E, ?E'; reflexivity.
Qed.

Lemma chosen_short port conn : text (chosen port conn) /\ blen (chosen port conn) <= 20.
Proof.
  unfold chosen. destruct (is_method uaPQCSCRAM port), (unbound_flag conn); (split; [reflexivity|vm_compute; discriminate]).
Qed.

Lemma getmsgrawstring_ok mech rest e : text mech ->
  pq_getmsgrawstring (mech ++ 0 :: rest) e = (Ok (mech, rest), e).
Proof.
  intros Ht. assert (Hc : cstring (mech ++ 0 :: rest) = mech).
  { unfold text in Ht. induction mech as [|c mech IH]; [reflexivity|]. cbn in *. destruct (c =? 0); [discriminate|].
    cbn in Ht. rewrite IH by exact Ht. reflexivity. }
  unfold pq_getmsgrawstring. rewrite Hc, length_app. cbn [length].
  destruct (Nat.leb_spec (length mech + S (length rest)) (length mech)); [lia|].
  rewrite firstn_app_exact by reflexivity. change (0 :: rest) with ([0] ++ rest).
  rewrite app_assoc, skipn_app_exact; [reflexivity|]. rewrite length_app. cbn. lia.
Qed.

Lemma initial_response_ok m e : 0 <= blen m < 2 ^ 31 ->
  initial_response (be_bytes 4 (blen m) ++ m) e = (Ok (Some m), e).
Proof.
  intros Hm. unfold initial_response. rewrite firstn_app_exact, skipn_app_exact by apply length_be_bytes.
  rewrite length_app, length_be_bytes, be_val_be_bytes, c_int_small by lia. cbn [Nat.add Nat.ltb Nat.leb].
  destruct (Z.eqb_spec (blen m) (-1)); [lia|]. destruct (Z.ltb_spec (blen m) 0); [lia|].
  rewrite Z.ltb_irrefl, Z.eqb_refl. reflexivity.
Qed.

(** The first message starts the exchange. *)
Lemma loop_starts mock port shadow mech m st sent rest e e1 :
  text mech -> blen mech <= 20 -> 0 <= blen m <= 100 -> scram_init mock port mech shadow e = (Ok st, e1) ->
  (forall out st1 e2, scram_exchange st (Some m) e1 = (Ok (PG_SASL_EXCHANGE_CONTINUE, Some out, st1), e2) ->
   sasl_loop mock port shadow None (SASLInitialResponse mech m :: rest) sent e =
   sasl_loop mock port shadow (Some st1) rest (sent ++ [AUTH_REQ_SASL_CONT out]) e2) /\
  (forall c e2, scram_exchange st (Some m) e1 = (Err c, e2) ->
   sasl_loop mock port shadow None (SASLInitialResponse mech m :: rest) sent e = (Err c, e2)).
Proof.
  intros Ht Hl Hm Hi. unfold SASLInitialResponse. cbn [sasl_loop]. change (chr "p" =? chr "p") with true. cbn [negb].
  assert (Hlen : blen (mech ++ [0] ++ be_bytes 4 (blen m) ++ m) + 4 <= PG_MAX_SASL_MESSAGE_LENGTH).
  { rewrite !blen_app. unfold blen at 3. rewrite length_be_bytes. change (blen [0]) with 1.
    unfold PG_MAX_SASL_MESSAGE_LENGTH. lia. }
  destruct (Z.ltb_spec PG_MAX_SASL_MESSAGE_LENGTH (blen (mech ++ [0] ++ be_bytes 4 (blen m) ++ m) + 4)); [lia|].
  cbn [app].
  assert (Hstart : (let! sel := pq_getmsgrawstring (mech ++ 0 :: be_bytes 4 (blen m) ++ m) in
    let! st0 := scram_init mock port sel.1 shadow in let! input := initial_response sel.2 in ret (st0, input)) e =
    (Ok (st, Some m), e1)).
  { mrun (getmsgrawstring_ok mech (be_bytes 4 (blen m) ++ m) e Ht). cbn [fst snd]. mrun Hi.
    mrun (initial_response_ok m e1 ltac:(lia)). reflexivity. }
  split; [intros out st1 e2 Hx|intros c e2 Hx]; mrun Hstart; cbn [fst snd].
  - mrun Hx. reflexivity.
  - rewrite (bind_err _ _ _ _ _ Hx). reflexivity.
Qed.

Lemma loop_finishes mock port shadow st m out st2 sent rest e e2 :
  blen m <= 400 -> scram_exchange st (Some m) e = (Ok (PG_SASL_EXCHANGE_SUCCESS, Some out, st2), e2) ->
  sasl_loop mock port shadow (Some st) ((chr "p", m) :: rest) sent e = (Ok (STATUS_OK, sent ++ [AUTH_REQ_SASL_FIN out]), e2).
Proof.
  intros Hm Hx. cbn [sasl_loop]. change (chr "p" =? chr "p") with true. cbn [negb].
  destruct (Z.ltb_spec PG_MAX_SASL_MESSAGE_LENGTH (blen m + 4)); [unfold PG_MAX_SASL_MESSAGE_LENGTH in *; lia|].
  erewrite bind_step; [|reflexivity]. cbn [fst snd]. mrun Hx. reflexivity.
Qed.

(** What the server starts with for a role that has a secret. *)
Lemma init_with_secret mock port mech shadow s e :
  mech_accepted port mech -> parse_scram_secret shadow = Some s ->
  get_password_type shadow = PASSWORD_TYPE_SCRAM_SHA_256 \/ get_password_type shadow = PASSWORD_TYPE_SCRAM_SHA_384 ->
  scram_init mock port mech (Some shadow) e =
  (Ok (mkScram SCRAM_AUTH_INIT port (binds mech) s (mkFirst 0 [] [] []) [] [] false), e).
Proof.
  intros Hm Hp Ht. unfold scram_init.
  assert (Hsel : exists t k, select_mechanism port mech e = (Ok (binds mech, t, k), e)).
  { unfold select_mechanism, mech_accepted, is_method in *.
    destruct Hm as [[-> ->] | [-> | [Hm [[-> ->] | ->]]]]; try (do 2 eexists; reflexivity);
      destruct (auth_method (hba port)); try congruence; do 2 eexists; reflexivity. }
  destruct Hsel as (t & k & Hsel). mrun Hsel. destruct Ht as [-> | ->]; rewrite Hp; reflexivity.
Qed.

(** A client and a server that can talk: they agree on whether the connection
    is encrypted; where libpq binds the channel, both see the same certificate
    and the method is not pqc-scram-sha-384. *)
Record compatible (port : Port) (conn : PGconn) (password : bytes) : Prop := {
  co_ssl : conn_ssl_in_use conn = ssl_in_use port;
  co_password : conn_password conn = Some password /\ password <> [];
  co_require : binding_is "r" conn = true -> conn_ssl_in_use conn = true;
  co_bound : unbound_flag conn = true -> auth_method (hba port) <> uaPQCSCRAM /\
    exists hash, certificate_hash port = Some hash /\ peer_certificate_hash conn = Some hash /\
      wf_bytes hash = true /\ 0 < blen hash <= 64
}.

Definition starting (port : Port) (mech : bytes) (s : scram_secret) : scram_state :=
  mkScram SCRAM_AUTH_INIT port (binds mech) s (mkFirst 0 [] [] []) [] [] false.

Lemma not_pqcscram port : auth_method (hba port) <> uaPQCSCRAM -> is_method uaPQCSCRAM port = false.
Proof. unfold is_method. destruct (auth_method (hba port)); congruence. Qed.

Lemma channel_unbound port conn s : unbound_flag conn = false ->
  channel_agreed (starting port (chosen port conn) s) conn (chosen port conn) (bytes_of_string "biws").
Proof.
  intros Hu.
  assert (Hm : bytes_eqb (chosen port conn) SCRAM_SHA_256_PLUS_NAME = false /\ binds (chosen port conn) = false)
    by (unfold chosen; rewrite Hu; destruct (is_method uaPQCSCRAM port); split; reflexivity).
  destruct Hm as [Hp Hb].
  assert (Hf : channel_flag conn (chosen port conn) = bytes_of_string "n")
    by (unfold channel_flag; rewrite Hp, Hu; reflexivity).
  split.
  - left. split; [exact Hb|exact Hf].
  - reflexivity.
  - vm_compute. discriminate.
  - intros cst e Hc Hsm. unfold channel_attribute. rewrite Hsm, Hp, Hc, Hu. reflexivity.
  - intros nonce d e. unfold check_channel_binding, challenged, starting. cbn [channel_binding_in_use st_first st_port].
    rewrite Hb, Hf. reflexivity.
Qed.

Lemma channel_bound port conn s hash : unbound_flag conn = true -> auth_method (hba port) <> uaPQCSCRAM ->
  certificate_hash port = Some hash -> peer_certificate_hash conn = Some hash -> wf_bytes hash = true ->
  0 < blen hash <= 64 ->
  channel_agreed (starting port (chosen port conn) s) conn (chosen port conn)
    (enc (bytes_of_string "p=tls-server-end-point,," ++ hash)).
Proof.
  intros Hu Hm Hc Hpc Hwf Hl. set (input := bytes_of_string "p=tls-server-end-point,," ++ hash).
  assert (Hi : wf_bytes input = true) by (unfold input; rewrite wf_bytes_app, Hwf; reflexivity).
  assert (Hch : chosen port conn = SCRAM_SHA_256_PLUS_NAME)
    by (unfold chosen; rewrite Hu, (not_pqcscram port Hm); reflexivity).
  rewrite Hch. split.
  - right. split; reflexivity.
  - apply clean_enc.
  - rewrite blen_enc. unfold input. rewrite blen_app. change (blen (bytes_of_string "p=tls-server-end-point,,")) with 24.
    unfold pg_b64_enc_len. assert ((24 + blen hash + 2) / 3 <= 30) by (apply Z.lt_succ_r, Z.div_lt_upper_bound; lia). lia.
  - intros cst e Hcn Hsm. unfold channel_attribute. rewrite Hsm, Hcn, Hpc. change (bytes_eqb _ _) with true. cbv iota.
    unfold bind_option. cbn [bind ret]. fold input. rewrite (encode_fits input Hi). reflexivity.
  - intros nonce d e. unfold check_channel_binding, challenged, starting. cbn [channel_binding_in_use st_first st_port].
    change (binds SCRAM_SHA_256_PLUS_NAME) with true. cbv iota. rewrite Hc.
    destruct hash as [|h hash]; [unfold blen in Hl; cbn in Hl; lia|]. fold input. mrun (b64_or_error_ok input e Hi).
    rewrite bytes_eqb_refl. reflexivity.
Qed.

Lemma agreed port conn password s : compatible port conn password ->
  exists cb, channel_agreed (starting port (chosen port conn) s) conn (chosen port conn) cb.
Proof.
  intros Hc. destruct (unbound_flag conn) eqn:Hu; [|eexists; apply channel_unbound, Hu].
  destruct (co_bound _ _ _ Hc Hu) as (Hm & hash & Hh & Hp & Hwf & Hl). eexists. eapply channel_bound; eauto.
Qed.

Lemma chosen_accepted port conn password : compatible port conn password -> mech_accepted port (chosen port conn).
Proof.
  intros Hc. unfold mech_accepted, chosen. destruct (unbound_flag conn) eqn:Hu.
  - destruct (co_bound _ _ _ Hc Hu) as (Hm & _). rewrite (not_pqcscram port Hm). right. right. split; [exact Hm|].
    left. split; [reflexivity|]. rewrite <- (co_ssl _ _ _ Hc). unfold unbound_flag in Hu. apply andb_prop in Hu. tauto.
  - destruct (is_method uaPQCSCRAM port) eqn:Hm; [tauto|]. right. right. split; [|tauto].
    intros E. unfold is_method in Hm. rewrite E in Hm. discriminate.
Qed.

Definition hash_of (port : Port) : pg_cryptohash_type := if is_method uaPQCSCRAM port then PG_SHA384 else PG_SHA256.

Lemma client_hash port conn password :
  fe_hash_type (fe_scram_init conn password (chosen port conn)) = hash_of port /\
  fe_key_length (fe_scram_init conn password (chosen port conn)) = digest_length (hash_of port).
Proof. unfold chosen, hash_of. destruct (is_method uaPQCSCRAM port), (unbound_flag conn); split; reflexivity. Qed.

(** The client's side of [pg_SASL_init], up to its first message. *)
Lemma SASL_init_run port conn password m c e e' :
  conn_ssl_in_use conn = ssl_in_use port -> conn_password conn = Some password -> password <> [] ->
  (binding_is "r" conn = true -> conn_ssl_in_use conn = true) ->
  fe_scram_exchange (fe_scram_init conn password (chosen port conn)) [] e = (Ok (SASL_CONTINUE, Some m, c), e') ->
  pg_SASL_init conn (scram_get_mechanisms port) e = (Ok (Some (SASLInitialResponse (chosen port conn) m, c)), e').
Proof.
  intros Hssl Hpw Hne Hreq Hx. unfold pg_SASL_init. rewrite (chosen_ok port conn Hssl), Hpw.
  assert (Hr : binding_is "r" conn && negb (conn_ssl_in_use conn) = false).
  { destruct (binding_is "r" conn); [rewrite Hreq|]; reflexivity. }
  assert (Hr2 : binding_is "r" conn && negb (bytes_eqb (chosen port conn) SCRAM_SHA_256_PLUS_NAME) &&
                negb (bytes_eqb (chosen port conn) SCRAM_SHA_384_PLUS_NAME) = false).
  { destruct (binding_is "r" conn) eqn:Er; [|reflexivity].
    assert (Hu : unbound_flag conn = true).
    { unfold unbound_flag. rewrite Hreq by reflexivity. unfold binding_is in *. apply Z.eqb_eq in Er. rewrite Er. reflexivity. }
    unfold chosen. rewrite Hu. destruct (is_method uaPQCSCRAM port); reflexivity. }
  rewrite Hr, Hr2. destruct password; [congruence|]. mrun Hx. reflexivity.
Qed.

Lemma SASL_continue_run c m out c' e : fe_scram_exchange c m e = (Ok (SASL_CONTINUE, Some out, c'), e) ->
  pg_SASL_continue c m false e = (Ok (STATUS_OK, Some (chr "p", out), c'), e).
Proof. intros Hx. unfold pg_SASL_continue. mrun Hx. reflexivity. Qed.

Lemma SASL_final_run c m c' e : fe_scram_exchange c m e = (Ok (SASL_COMPLETE, None, c'), e) ->
  pg_SASL_continue c m true e = (Ok (STATUS_OK, None, c'), e).
Proof. intros Hx. unfold pg_SASL_continue. mrun Hx. reflexivity. Qed.

(** The run up to the client's second message, whatever the secret. *)
Lemma login_opening mock port conn password shadow s salt e_s e_c :
  let mech := chosen port conn in let st := starting port mech s in let t := hash_of port in
  let it := sec_iterations s in
  compatible port conn password -> parse_scram_secret shadow = Some s ->
  get_password_type shadow = PASSWORD_TYPE_SCRAM_SHA_256 \/ get_password_type shadow = PASSWORD_TYPE_SCRAM_SHA_384 ->
  sec_salt s = enc salt -> wf_bytes salt = true -> 1 <= it < 2 ^ 31 -> no_faults e_s -> no_faults e_c ->
  exists cb, channel_agreed st conn mech cb /\
    pg_SASL_init conn (scram_get_mechanisms port) e_c =
      (Ok (Some (SASLInitialResponse mech (x_m1 conn mech e_c), x_c1 conn password mech t e_c)), x_ec e_c) /\
    pg_SASL_continue (x_c1 conn password mech t e_c) (x_s1 st conn mech e_s e_c) false (x_ec e_c) =
      (Ok (STATUS_OK, Some (chr "p", x_m2 st conn password mech cb salt t it e_s e_c),
           x_c2 st conn password mech cb salt t it e_s e_c), x_ec e_c) /\
    forall rest, CheckSASLAuth mock port (Some shadow) (SASLInitialResponse mech (x_m1 conn mech e_c) :: rest) e_s =
      sasl_loop mock port (Some shadow) (Some (x_st1 st conn mech e_s e_c)) rest
        [AUTH_REQ_SASL (scram_get_mechanisms port); AUTH_REQ_SASL_CONT (x_s1 st conn mech e_s e_c)] (x_es e_s).
Proof.
  intros mech st t it Hco Hp Hty Hsalt Hwf Hit Hes Hec.
  destruct (agreed port conn password s Hco) as (cb & Hch). exists cb.
  destruct (client_hash port conn password) as [Hh Hk]. destruct (co_password _ _ _ Hco) as [Hpw Hne].
  pose proof (x_m1_blen st conn mech cb e_c Hch) as Hb1. destruct (chosen_short port conn) as [Htx Hsh].
  assert (Hb1' : 0 <= blen (x_m1 conn mech e_c) <= 100) by lia.
  split; [exact Hch|]. split; [|split].
  - eapply SASL_init_run; eauto; [apply (co_ssl _ _ _ Hco)|apply (co_require _ _ _ Hco)|].
    apply (x_client_1 conn password mech t e_c Hh Hk Hec).
  - apply SASL_continue_run, (x_client_2 st conn password mech cb salt t it e_s e_c Hsalt eq_refl Hch Hwf Hit Hec).
  - intros rest. unfold CheckSASLAuth.
    rewrite (proj1 (loop_starts mock port (Some shadow) mech _ st _ rest e_s e_s Htx Hsh Hb1'
      (init_with_secret mock port mech shadow s e_s (chosen_accepted port conn password Hco) Hp Hty)) _ _ _
      (x_server_1 st conn mech cb e_s e_c eq_refl Hch Hes)). reflexivity.
Qed.

Lemma hash_of_short port : digest_length (hash_of port) <= 64.
Proof. unfold hash_of. destruct (is_method uaPQCSCRAM port); cbn; lia. Qed.

(** The run of both sides for a secret of the method's hash. *)
Lemma login_run mock port conn password shadow iterations salt e_s e_c :
  compatible port conn password -> parse_scram_secret shadow = Some (role_secret (hash_of port) iterations salt password) ->
  get_password_type shadow = PASSWORD_TYPE_SCRAM_SHA_256 \/ get_password_type shadow = PASSWORD_TYPE_SCRAM_SHA_384 ->
  wf_bytes salt = true -> 1 <= iterations < 2 ^ 31 -> no_faults e_s -> no_faults e_c ->
  exists m1 m2 s1 s2 c1 c2 c3 e_s' e_c',
    pg_SASL_init conn (scram_get_mechanisms port) e_c = (Ok (Some (m1, c1)), e_c') /\
    pg_SASL_continue c1 s1 false e_c' = (Ok (STATUS_OK, Some m2, c2), e_c') /\
    pg_SASL_continue c2 s2 true e_c' = (Ok (STATUS_OK, None, c3), e_c') /\
    CheckSASLAuth mock port (Some shadow) [m1; m2] e_s =
      (Ok (STATUS_OK, [AUTH_REQ_SASL (scram_get_mechanisms port); AUTH_REQ_SASL_CONT s1; AUTH_REQ_SASL_FIN s2]), e_s') /\
    scram_channel_bound c3 = unbound_flag conn.
Proof.
  intros Hco Hp Hty Hwf Hit Hes Hec. set (mech := chosen port conn). set (t := hash_of port).
  set (s := role_secret t iterations salt password) in *. set (st := starting port mech s).
  destruct (login_opening mock port conn password shadow s salt e_s e_c Hco Hp Hty eq_refl Hwf Hit Hes Hec)
    as (cb & Hch & Q1 & Q2 & Q3).
  destruct (x_server_2 st conn password mech cb salt t iterations e_s e_c eq_refl Hch Hes eq_refl) as (st2 & Q4).
  destruct (x_client_3 st conn password mech cb salt t iterations e_s e_c Hec) as (c3 & Q5 & Hf & Hm3).
  pose proof (x_m2_blen st conn password mech cb salt t iterations e_s e_c Hch (hash_of_short port)) as Hb2.
  eexists _, _, _, _, _, _, c3, _, _. split; [exact Q1|]. split; [exact Q2|]. split; [apply SASL_final_run, Q5|]. split.
  - rewrite Q3. rewrite (loop_finishes mock port (Some shadow) _ _ _ _ _ [] _ _ Hb2 Q4). reflexivity.
  - unfold scram_channel_bound. rewrite Hf, Hm3. unfold mech, chosen.
    destruct (is_method uaPQCSCRAM port), (unbound_flag conn); reflexivity.
Qed.

(** C7: functional.  A role whose password was stored for the method of its
    line in pg_hba.conf (SCRAM-SHA-384 for pqc-scram-sha-384, SCRAM-SHA-256
    otherwise) completes the exchange with that password where client and server
    can talk ([compatible]) and no call fails.  The password is not empty and
    does not have the form of a stored secret.  Client and server must agree on
    whether TLS is used, libpq must have the password and require channel binding
    only over TLS, and where libpq binds the channel both must have the same
    certificate hash of 1 to 64 bytes and the method must not be
    pqc-scram-sha-384: over TLS with channel binding that method does not work.
    Then libpq picks a mechanism from the server's list, the server accepts its
    proof, libpq accepts the server's signature, and the channel is bound exactly
    when libpq asked for it.  For pqc-scram-sha-384 the server must have been
    built without assertions, as one of them (auth.c, CheckPWChallengeAuth)
    excludes the method. *)
Theorem scram_login_succeeds mock port conn role password shadow iterations e0 e0' e_s e_c :
  compatible port conn password -> get_password_type password = PASSWORD_TYPE_PLAINTEXT ->
  1 <= iterations < 2 ^ 31 -> no_faults e0 -> no_faults e_s -> no_faults e_c ->
  encrypt_password iterations
    (if is_method uaPQCSCRAM port then PASSWORD_TYPE_SCRAM_SHA_384 else PASSWORD_TYPE_SCRAM_SHA_256) role password e0
    = (Ok shadow, e0') ->
  exists m1 m2 s1 s2 c1 c2 c3 e_s' e_c',
    pg_SASL_init conn (scram_get_mechanisms port) e_c = (Ok (Some (m1, c1)), e_c') /\
    pg_SASL_continue c1 s1 false e_c' = (Ok (STATUS_OK, Some m2, c2), e_c') /\
    pg_SASL_continue c2 s2 true e_c' = (Ok (STATUS_OK, None, c3), e_c') /\
    CheckSASLAuth mock port (Some shadow) [m1; m2] e_s =
      (Ok (STATUS_OK, [AUTH_REQ_SASL (scram_get_mechanisms port); AUTH_REQ_SASL_CONT s1; AUTH_REQ_SASL_FIN s2]), e_s') /\
    scram_channel_bound c3 = unbound_flag conn.
Proof.
  intros Hco Hp Hit He0 Hes Hec Henc.
  assert (Hne : RAND (draws e0) SCRAM_DEFAULT_SALT_LEN <> [])
    by (intros E; pose proof (RAND_length (draws e0) SCRAM_DEFAULT_SALT_LEN) as El; rewrite E in El; discriminate).
  pose proof (RAND_bytes_wf (draws e0) SCRAM_DEFAULT_SALT_LEN) as Hwf.
  pose proof (fun tgt Ht => encrypt_password_run iterations tgt role password e0 Hp Ht He0) as Hrun.
  assert (Hs : exists it, 1 <= it < 2 ^ 31 /\
    let salt := RAND (draws e0) SCRAM_DEFAULT_SALT_LEN in let S := Hi (prepared password) (hash_of port) salt it in
    shadow = secret_text (hash_of port) it salt (StoredKey (hash_of port) S) (ServerKey (hash_of port) S)).
  { unfold hash_of. destruct (is_method uaPQCSCRAM port).
    - destruct (Hrun PASSWORD_TYPE_SCRAM_SHA_384) as (sh & e1 & Hr & _ & Hsh); [discriminate|].
      rewrite Henc in Hr. injection Hr as <- <-. exists 4096. split; [lia|exact Hsh].
    - destruct (Hrun PASSWORD_TYPE_SCRAM_SHA_256) as (sh & e1 & Hr & _ & Hsh); [discriminate|].
      rewrite Henc in Hr. injection Hr as <- <-. exists iterations. split; [lia|exact Hsh]. }
  destruct Hs as (it & Hit' & ->).
  assert (Hsup : supported (hash_of port)) by (unfold hash_of, supported; destruct (is_method uaPQCSCRAM port); tauto).
  assert (Hparse := parse_built (hash_of port) _ it (prepared password) Hsup ltac:(lia) Hne Hwf).
  eapply login_run; eauto. rewrite (type_of_secret (hash_of port) it _ _ _ _ Hsup Hparse eq_refl).
  unfold hash_of. destruct (is_method uaPQCSCRAM port); tauto.
Qed.

Lemma init_total mock port mech shadow e : mech_accepted port mech -> no_faults e ->
  exists st, scram_init mock port mech shadow e = (Ok st, e).
Proof.
  intros Hm He. assert (Hsel : exists b t k, select_mechanism port mech e = (Ok (b, t, k), e)).
  { unfold select_mechanism, mech_accepted, is_method in *.
    destruct Hm as [[-> ->] | [-> | [Hm [[-> ->] | ->]]]]; try (do 3 eexists; reflexivity);
      destruct (auth_method (hba port)); try congruence; do 3 eexists; reflexivity. }
  destruct Hsel as (b & t & k & Hsel). unfold scram_init. mrun Hsel.
  destruct (match shadow with Some _ => _ | None => _ end) as [s|]; [eexists; reflexivity|].
  assert (Hmock : exists s, mock_scram_secret mock (user_name port) t e = (Ok s, e)).
  { unfold mock_scram_secret. destruct t;
      (mrun (or_error_ok _ _ _ _ (cryptohash_ok PG_SHA384 [user_name port; mock] SCRAM_SHA_384_KEY_LEN e He (Z.le_refl 48))) ||
       mrun (or_error_ok _ _ _ _ (cryptohash_ok PG_SHA256 [user_name port; mock] SCRAM_SHA_256_KEY_LEN e He (Z.le_refl 32))));
      erewrite bind_step by (apply b64_or_error_ok, wf_bytes_firstn, DIGEST_wf); eexists; reflexivity. }
  destruct Hmock as (s & Hs). mrun Hs. eexists. reflexivity.
Qed.

(** C36: error.  Over an encrypted connection no libpq client logs in with
    pqc-scram-sha-384 unless it disables channel binding: it selects
    SCRAM-SHA-384-PLUS and then flags the channel as for a mechanism without
    binding, which the server refuses, whatever the password. *)
Theorem pqc_scram_fails_over_tls mock port conn password shadow rest e_s e_c :
  auth_method (hba port) = uaPQCSCRAM -> ssl_in_use port = true -> conn_ssl_in_use conn = true ->
  binding_is "d" conn = false -> conn_password conn = Some password -> password <> [] ->
  no_faults e_s -> no_faults e_c ->
  exists m c e_c', pg_SASL_init conn (scram_get_mechanisms port) e_c = (Ok (Some (m, c)), e_c') /\
    CheckSASLAuth mock port shadow (m :: rest) e_s = (Err ERRCODE_PROTOCOL_VIOLATION, e_s).
Proof.
  intros Hm Hps Hcs Hb Hpw Hne Hes Hec.
  assert (Hu : unbound_flag conn = true) by (unfold unbound_flag; rewrite Hb, Hcs; reflexivity).
  assert (Hch : chosen port conn = SCRAM_SHA_384_PLUS_NAME) by (unfold chosen, is_method; rewrite Hm, Hu; reflexivity).
  pose proof (client_first_run conn password SCRAM_SHA_384_PLUS_NAME e_c Hec) as Hc. cbv zeta in Hc.
  assert (Hflag : channel_flag conn SCRAM_SHA_384_PLUS_NAME = bytes_of_string "y")
    by (unfold channel_flag; rewrite Hu; reflexivity). rewrite Hflag in Hc.
  set (m := bytes_of_string "y" ++ bytes_of_string ",," ++ bare_of (enc (RAND (draws e_c) SCRAM_RAW_NONCE_LEN))) in *.
  assert (Hx : exists c e', fe_scram_exchange (fe_scram_init conn password (chosen port conn)) [] e_c =
                            (Ok (SASL_CONTINUE, Some m, c), e')).
  { rewrite Hch. eexists _, _. unfold fe_scram_exchange.
    change (fe_state (fe_scram_init conn password SCRAM_SHA_384_PLUS_NAME)) with FE_SCRAM_INIT. cbv iota.
    mrun Hc. reflexivity. }
  destruct Hx as (c & e_c' & Hx).
  destruct (init_total mock port (chosen port conn) shadow e_s) as (st & Hi); [left; rewrite Hch; auto|exact Hes|].
  pose proof Hi as Hi'. apply scram_init_inv in Hi' as (_ & Hst & _ & Hcb & _).
  assert (Hbl : 0 <= blen m <= 100)
    by (unfold m, bare_of; rewrite !blen_app, nonce_blen; vm_compute; split; discriminate).
  eexists _, c, e_c'. split; [apply SASL_init_run with password; eauto; congruence|].
  destruct (chosen_short port conn) as [Htx Hsh]. unfold CheckSASLAuth.
  apply (proj2 (loop_starts mock port shadow (chosen port conn) m st _ rest e_s e_s Htx Hsh Hbl Hi)).
  rewrite exchange_input, Hst; [|unfold m, bare_of; auto 8 with scram|discriminate].
  rewrite Hcb, Hch. reflexivity.
Qed.

Lemma loop_refuses mock port shadow st m sent rest e e2 c :
  blen m <= 400 -> scram_exchange st (Some m) e = (Err c, e2) ->
  sasl_loop mock port shadow (Some st) ((chr "p", m) :: rest) sent e = (Err c, e2).
Proof.
  intros Hm Hx. cbn [sasl_loop]. change (chr "p" =? chr "p") with true. cbn [negb].
  destruct (Z.ltb_spec PG_MAX_SASL_MESSAGE_LENGTH (blen m + 4)); [unfold PG_MAX_SASL_MESSAGE_LENGTH in *; lia|].
  erewrite bind_step; [|reflexivity]. cbn [fst snd]. apply (bind_err _ _ _ _ _ Hx).
Qed.

(** A role cannot log in when its secret is of the other hash: the
    server takes the hash from the secret, libpq from the mechanism of the
    method.  So pqc-scram-sha-384 refuses roles with SCRAM-SHA-256 secrets, and
    scram-sha-256 refuses those whose password was set under
    password_encryption = scram-sha-384, the right password notwithstanding. *)
Theorem scram_hash_mismatch_refused mock port conn password shadow s salt e_s e_c :
  compatible port conn password -> parse_scram_secret shadow = Some s ->
  get_password_type shadow = (if is_method uaPQCSCRAM port then PASSWORD_TYPE_SCRAM_SHA_256 else PASSWORD_TYPE_SCRAM_SHA_384) ->
  sec_salt s = enc salt -> wf_bytes salt = true -> 1 <= sec_iterations s < 2 ^ 31 -> no_faults e_s -> no_faults e_c ->
  exists m1 m2 s1 c1 c2 e_s' e_c',
    pg_SASL_init conn (scram_get_mechanisms port) e_c = (Ok (Some (m1, c1)), e_c') /\
    pg_SASL_continue c1 s1 false e_c' = (Ok (STATUS_OK, Some m2, c2), e_c') /\
    (exists e_s1, CheckSASLAuth mock port (Some shadow) [m1] e_s =
      (Ok (STATUS_EOF, [AUTH_REQ_SASL (scram_get_mechanisms port); AUTH_REQ_SASL_CONT s1]), e_s1)) /\
    forall rest, CheckSASLAuth mock port (Some shadow) (m1 :: m2 :: rest) e_s = (Err ERRCODE_PROTOCOL_VIOLATION, e_s').
Proof.
  intros Hco Hp Hty Hsalt Hwf Hit Hes Hec.
  assert (Hty' : get_password_type shadow = PASSWORD_TYPE_SCRAM_SHA_256 \/ get_password_type shadow = PASSWORD_TYPE_SCRAM_SHA_384)
    by (rewrite Hty; destruct (is_method uaPQCSCRAM port); auto).
  assert (Hk : digest_length (hash_of port) <> sec_key_length s).
  { unfold get_password_type in Hty. rewrite Hp in Hty. destruct (_ && _); [destruct (is_method uaPQCSCRAM port); discriminate|].
    pose proof (parse_key_length _ _ Hp) as [Hsup ->]. unfold hash_of. destruct Hsup as [E|E]; rewrite E in *;
      destruct (is_method uaPQCSCRAM port); discriminate. }
  destruct (login_opening mock port conn password shadow s salt e_s e_c Hco Hp Hty' Hsalt Hwf Hit Hes Hec)
    as (cb & Hch & Q1 & Q2 & Q3).
  eexists _, _, _, _, _, _, _. split; [exact Q1|]. split; [exact Q2|]. split; [eexists; rewrite Q3; reflexivity|].
  intros rest. rewrite Q3. apply loop_refuses; [eapply x_m2_blen; [exact Hch|apply hash_of_short]|].
  apply x_server_refuses; assumption.
Qed.
End Login.

(** ** Concrete connections *)
Import Toy ToyDigests.

Definition pw : bytes := bytes_of_string "secret".

Definition server_port (m : UserAuth) (tls : bool) : Port :=
  mkPort (mkHba ctHost m None clientCertOff clientCertCN) (bytes_of_string "alice") tls None None false None
    (if tls then Some [1; 2; 3] else None).

Definition client_conn (binding : string) (tls : bool) : PGconn :=
  mkConn (bytes_of_string binding) tls (Some pw) (if tls then Some [1; 2; 3] else None).

Lemma plain_compatible : compatible (server_port uaPQCSCRAM false) (client_conn "prefer" false) pw.
Proof. split; [reflexivity|split; [reflexivity|discriminate]|discriminate|discriminate]. Qed.

Lemma tls_compatible : compatible (server_port uaSCRAM true) (client_conn "require" true) pw.
Proof.
  split; [reflexivity|split; [reflexivity|discriminate]|reflexivity|]. intros _. split; [discriminate|].
  exists [1; 2; 3]. repeat split; reflexivity || discriminate.
Qed.

(** scram-sha-256 over TLS, with the channel bound. *)
Lemma scram_login_succeeds_witness :
  exists shadow e0' m1 m2 s1 s2 c1 c2 c3 e_s' e_c',
    encrypt_password 4096 PASSWORD_TYPE_SCRAM_SHA_256 [] pw quiet = (Ok shadow, e0') /\
    pg_SASL_init (client_conn "require" true) (scram_get_mechanisms (server_port uaSCRAM true)) quiet =
      (Ok (Some (m1, c1)), e_c') /\
    pg_SASL_continue c1 s1 false e_c' = (Ok (STATUS_OK, Some m2, c2), e_c') /\
    pg_SASL_continue c2 s2 true e_c' = (Ok (STATUS_OK, None, c3), e_c') /\
    CheckSASLAuth [] (server_port uaSCRAM true) (Some shadow) [m1; m2] quiet =
      (Ok (STATUS_OK, [AUTH_REQ_SASL [SCRAM_SHA_256_PLUS_NAME; SCRAM_SHA_256_NAME]; AUTH_REQ_SASL_CONT s1;
                       AUTH_REQ_SASL_FIN s2]), e_s') /\
    scram_channel_bound c3 = true.
Proof.
  destruct (encrypt_password_run 4096 PASSWORD_TYPE_SCRAM_SHA_256 [] pw quiet) as (shadow & e0' & Henc & _ & _);
    [vm_compute; reflexivity|discriminate|reflexivity|].
  destruct (scram_login_succeeds [] (server_port uaSCRAM true) (client_conn "require" true) [] pw shadow 4096
    quiet e0' quiet quiet tls_compatible) as (m1 & m2 & s1 & s2 & c1 & c2 & c3 & es & ec & Q1 & Q2 & Q3 & Q4 & Q5);
    [vm_compute; reflexivity|lia|reflexivity|reflexivity|reflexivity|exact Henc|].
  exists shadow, e0', m1, m2, s1, s2, c1, c2, c3, es, ec. auto 8.
Defined.

Lemma pqc_scram_fails_over_tls_witness :
  exists m c e_c', pg_SASL_init (client_conn "prefer" true) (scram_get_mechanisms (server_port uaPQCSCRAM true)) quiet =
      (Ok (Some (m, c)), e_c') /\
    CheckSASLAuth [] (server_port uaPQCSCRAM true) None [m] quiet = (Err ERRCODE_PROTOCOL_VIOLATION, quiet).
Proof.
  apply (pqc_scram_fails_over_tls [] (server_port uaPQCSCRAM true) (client_conn "prefer" true) pw None [] quiet quiet);
    reflexivity || discriminate.
Defined.

(** A secret for SCRAM-SHA-256, as alice had it before the change of method. *)
Definition old_secret : bytes :=
  let S := Hi (prepared pw) PG_SHA256 [1; 2; 3; 4] 2 in
  secret_text PG_SHA256 2 [1; 2; 3; 4] (StoredKey PG_SHA256 S) (ServerKey PG_SHA256 S).

Lemma old_secret_parses : parse_scram_secret old_secret = Some (role_secret PG_SHA256 2 [1; 2; 3; 4] pw).
Proof. apply parse_built; [left; reflexivity|lia|discriminate|reflexivity]. Qed.

Lemma old_secret_type : get_password_type old_secret = PASSWORD_TYPE_SCRAM_SHA_256.
Proof. apply (type_of_secret PG_SHA256 2 _ _ _ _ (or_introl eq_refl) old_secret_parses eq_refl). Qed.

Lemma scram_hash_mismatch_refused_witness :
  exists m1 m2 s1 c1 c2 e_s' e_c',
    pg_SASL_init (client_conn "prefer" false) (scram_get_mechanisms (server_port uaPQCSCRAM false)) quiet =
      (Ok (Some (m1, c1)), e_c') /\
    pg_SASL_continue c1 s1 false e_c' = (Ok (STATUS_OK, Some m2, c2), e_c') /\
    (exists e_s1, CheckSASLAuth [] (server_port uaPQCSCRAM false) (Some old_secret) [m1] quiet =
      (Ok (STATUS_EOF, [AUTH_REQ_SASL [SCRAM_SHA_384_NAME]; AUTH_REQ_SASL_CONT s1]), e_s1)) /\
    forall rest, CheckSASLAuth [] (server_port uaPQCSCRAM false) (Some old_secret) (m1 :: m2 :: rest) quiet =
      (Err ERRCODE_PROTOCOL_VIOLATION, e_s').
Proof.
  apply (scram_hash_mismatch_refused [] (server_port uaPQCSCRAM false) (client_conn "prefer" false) pw old_secret
    (role_secret PG_SHA256 2 [1; 2; 3; 4] pw) [1; 2; 3; 4] quiet quiet plain_compatible old_secret_parses);
    [exact old_secret_type|reflexivity|reflexivity|cbn; lia|reflexivity|reflexivity].
Defined.
