(* ===== verification/Auth.v ===== *)
(** * Client authentication (src/backend/libpq/auth.c, auth-pqc.c, hba.c)

    The dispatch of [ClientAuthentication] with the methods this repository
    adds, certificates with a post-quantum signature and SCRAM-SHA-384, and
    those they build on: password challenges, certificates, user name maps and
    the options of a line of pg_hba.conf.  Other methods are a parameter, and
    so are OpenSSL's names of objects, the regular expression engine and role
    membership; the log is not modelled. *)
From Stdlib Require Import ZArith Lia Bool String List Ascii.
From stdpp Require Import base gmap list strings.
From S2P Require Import Prelude CryptoIface Env CString Base64 ScramSecret Scram FeScram.
Import ListNotations.
Local Open Scope Z_scope.
Local Open Scope pg_scope.

(** ** Options of a line of pg_hba.conf *)

Definition set_usermap (v : bytes) (l : HbaLine) : HbaLine :=
  mkHba (conntype l) (auth_method l) (Some v) (clientcert l) (clientcertname l).
Definition set_clientcert (v : ClientCertMode) (l : HbaLine) : HbaLine :=
  mkHba (conntype l) (auth_method l) (usermap l) v (clientcertname l).
Definition set_clientcertname (v : ClientCertName) (l : HbaLine) : HbaLine :=
  mkHba (conntype l) (auth_method l) (usermap l) (clientcert l) v.

Definition is_hostssl (l : HbaLine) : bool := match conntype l with ctHostSSL => true | _ => false end.
Definition is_cert (l : HbaLine) : bool := match auth_method l with uaCert => true | _ => false end.

Definition eqs (a : bytes) (s : string) : bool := bytes_eqb a (bytes_of_string s).

(** [parse_hba_auth_opt] for the options the modelled methods read; the others
    set fields of other methods, and [other] says whether they are valid. *)
Definition parse_hba_auth_opt (other : HbaLine -> bytes -> bytes -> bool) (name val : bytes) (l : HbaLine)
    : option HbaLine :=
  if eqs name "map" then
    match auth_method l with
    | uaIdent | uaPeer | uaGSS | uaSSPI | uaCert => Some (set_usermap val l)
    | _ => None
    end
  else if eqs name "clientcert" then
    if negb (is_hostssl l) then None
    else if eqs val "verify-full" then Some (set_clientcert clientCertFull l)
    else if eqs val "verify-ca" then if is_cert l then None else Some (set_clientcert clientCertCA l)
    else None
  else if eqs name "clientname" then
    if negb (is_hostssl l) then None
    else if eqs val "CN" then Some (set_clientcertname clientCertCN l)
    else if eqs val "DN" then Some (set_clientcertname clientCertDN l)
    else None
  else if other l name val then Some l else None.

(** The remaining fields of the line, each of the form [name=value]. *)
Fixpoint parse_hba_fields (other : HbaLine -> bytes -> bytes -> bool) (fields : list bytes) (l : HbaLine)
    : option HbaLine :=
  match fields with
  | [] => Some l
  | field :: fields' =>
      let '(name, val) := span (fun c => negb (c =? chr "=")) field in
      match val with
      | [] => None
      | _ :: val =>
          match parse_hba_auth_opt other name val l with
          | Some l' => parse_hba_fields other fields' l'
          | None => None
          end
      end
  end.

(** What [parse_hba_line] does once it knows the type of connection and the
    method: certificates need hostssl, then the options, then the checks of
    LDAP and RADIUS lines ([method_checks]) and what the method implies. *)
Definition finish_hba_line (other : HbaLine -> bytes -> bytes -> bool) (method_checks : HbaLine -> bool)
    (ct : ConnType) (m : UserAuth) (fields : list bytes) : option HbaLine :=
  let l := mkHba ct m None clientCertOff clientCertCN in
  if negb (is_hostssl l) && is_cert l then None
  else
    match parse_hba_fields other fields l with
    | None => None
    | Some l =>
        if negb (method_checks l) then None
        else Some (if is_cert l then set_clientcert clientCertFull l else l)
    end.

(** ** User name maps *)

Class Regex := {
  regex_t : Type;
  pg_regexec : regex_t -> bytes -> Z * option (nat * nat)   (* result, first group *)
}.

Definition REG_OKAY : Z := 0.
Definition REG_NOMATCH : Z := 1.

(** The catalog of roles: the row of a role (password and expiry), its OID
    (0 when there is none) and membership. *)
Class Roles := {
  pg_authid : bytes -> option (option bytes * option Z);
  get_role_oid : bytes -> Z;
  is_member_of_role_nosuper : Z -> Z -> bool
}.

Section Usermap.
  Context `{Regex} `{Roles}.

Record AuthToken := mkToken {
  tok_string : bytes;
  tok_quoted : bool;
  tok_regex : option regex_t
}.

Record IdentLine := mkIdent {
  id_usermap : bytes;
  id_system_user : AuthToken;
  id_pg_user : AuthToken
}.

Definition token_is_member_check (t : AuthToken) : bool := negb (tok_quoted t) && (hd 0 (tok_string t) =? chr "+").
Definition token_is_keyword (t : AuthToken) (k : string) : bool := negb (tok_quoted t) && eqs (tok_string t) k.

Definition bytes_lower (l : bytes) : bytes := map (fun c => if (65 <=? c) && (c <=? 90) then c + 32 else c) l.

Definition token_matches (case_insensitive : bool) (t : AuthToken) (k : bytes) : bool :=
  if case_insensitive then bytes_eqb (bytes_lower (tok_string t)) (bytes_lower k) else bytes_eqb (tok_string t) k.

Definition is_member (userid : Z) (role : bytes) : bool :=
  if userid =? 0 then false
  else let roleid := get_role_oid role in
       if roleid =? 0 then false else is_member_of_role_nosuper userid roleid.

Fixpoint check_role (role : bytes) (roleid : Z) (tokens : list AuthToken) (case_insensitive : bool) : bool :=
  match tokens with
  | [] => false
  | tok :: tokens' =>
      (if token_is_member_check tok then is_member roleid (tl (tok_string tok))
       else if token_is_keyword tok "all" then true
       else
         match tok_regex tok with
         | Some r => fst (pg_regexec r role) =? REG_OKAY
         | None => token_matches case_insensitive tok role
         end) || check_role role roleid tokens' case_insensitive
  end.

(** The offset of the first [\1]. *)
Fixpoint find_backref (s : bytes) : option nat :=
  match s with
  | a :: ((b :: _) as s') => if (a =? 92) && (b =? 49) then Some O else option_map S (find_backref s')
  | _ => None
  end.

(** Whether the line grants the access, and whether it is in error. *)
Definition check_ident_usermap (line : IdentLine) (usermap_name pg_user system_user : bytes)
    (case_insensitive : bool) : bool * bool :=
  if negb (bytes_eqb (id_usermap line) usermap_name) then (false, false)
  else
    let roleid := get_role_oid pg_user in
    match tok_regex (id_system_user line) with
    | Some re =>
        let '(r, group) := pg_regexec re system_user in
        if negb (r =? REG_OKAY) then (false, negb (r =? REG_NOMATCH))
        else
          let tok := id_pg_user line in
          let backref :=
            if negb (token_is_member_check tok) && match tok_regex tok with None => true | Some _ => false end
            then find_backref (tok_string tok) else None in
          match backref with
          | Some ofs =>
              match group with
              | None => (false, true)
              | Some (so, eo) =>
                  let expanded := firstn ofs (tok_string tok) ++ firstn (eo - so) (skipn so system_user) ++
                                  skipn (ofs + 2) (tok_string tok) in
                  (check_role pg_user roleid [mkToken expanded true None] case_insensitive, false)
              end
          | None => (check_role pg_user roleid [tok] case_insensitive, false)
          end
    | None =>
        if token_matches case_insensitive (id_system_user line) system_user
        then (check_role pg_user roleid [id_pg_user line] case_insensitive, false) else (false, false)
    end.

Fixpoint scan_ident_lines (lines : list IdentLine) (usermap_name pg_user system_user : bytes)
    (case_insensitive : bool) : bool :=
  match lines with
  | [] => false
  | line :: lines' =>
      let '(found, error) := check_ident_usermap line usermap_name pg_user system_user case_insensitive in
      if found || error then found else scan_ident_lines lines' usermap_name pg_user system_user case_insensitive
  end.

Definition check_usermap (lines : list IdentLine) (usermap_name : option bytes) (pg_user system_user : bytes)
    (case_insensitive : bool) : Z :=
  match usermap_name with
  | None | Some [] =>
      if (if case_insensitive then bytes_eqb (bytes_lower pg_user) (bytes_lower system_user)
          else bytes_eqb pg_user system_user) then STATUS_OK else STATUS_ERROR
  | Some name => if scan_ident_lines lines name pg_user system_user case_insensitive then STATUS_OK else STATUS_ERROR
  end.
End Usermap.

(** ** The methods *)

(** The state of a backend that authenticates: the environment and the
    identity and method of MyClientConnectionInfo. *)
Abbreviation auth_state := (env * option (bytes * UserAuth))%type.

Definition set_authn_id (port : Port) (id : bytes) : M auth_state unit :=
  let! s := get in
  match snd s with
  | Some _ => fatal
  | None => put (fst s, Some (id, auth_method (hba port)))
  end.

Definition pqc_sig_algorithm_names : list bytes :=
  map bytes_of_string
  ["ML-DSA-44"; "ML-DSA-65"; "ML-DSA-87"; "SLH-DSA-SHA2-128s"; "SLH-DSA-SHA2-128f"; "SLH-DSA-SHA2-192s";
   "SLH-DSA-SHA2-192f"; "SLH-DSA-SHA2-256s"; "SLH-DSA-SHA2-256f"; "SLH-DSA-SHAKE-128s"; "SLH-DSA-SHAKE-128f";
   "SLH-DSA-SHAKE-192s"; "SLH-DSA-SHAKE-192f"; "SLH-DSA-SHAKE-256s"; "SLH-DSA-SHAKE-256f";
   "mldsa44"; "mldsa65"; "mldsa87"; "dilithium2"; "dilithium3"; "dilithium5"]%string.

Definition is_pqc_signature_algorithm (alg_name : bytes) : bool :=
  existsb (fun n => bytes_eqb (bytes_lower alg_name) (bytes_lower n)) pqc_sig_algorithm_names.

Class Objects := { OBJ_nid2sn : Z -> option bytes }.
Definition NID_undef : Z := 0.

Section Methods.
  Context `{CR : Crypto} `{DG : Digests} `{SP : Saslprep} `{RX : Regex} `{RO : Roles} `{OB : Objects}.
  Variable parsed_ident_lines : list IdentLine.

(** The object of the signature algorithm: by its NID, else its text, which
    goes through a buffer of 256 bytes. *)
Definition object_name (obj : Z * bytes) (sig_alg_name : option bytes) : option bytes :=
  let '(nid, txt) := obj in
  if negb (nid =? NID_undef) then OBJ_nid2sn nid
  else if 0 <? blen txt then Some (firstn 255 txt) else sig_alg_name.

Definition signature_algorithm (cert : X509) : option bytes :=
  let sig_nid := x509_signature_nid cert in
  let sig_alg_name := if negb (sig_nid =? NID_undef) then OBJ_nid2sn sig_nid else None in
  if match sig_alg_name with None => true | Some n => eqs n "UNDEF" end then
    match x509_signature_object cert with
    | Some obj => object_name obj sig_alg_name
    | None => sig_alg_name
    end
  else sig_alg_name.

(** The field of the certificate that names the user. *)
Definition peer_username (port : Port) : option bytes :=
  match clientcertname (hba port) with clientCertDN => peer_dn port | clientCertCN => peer_cn port end.

Definition map_user (port : Port) (name : bytes) : Z :=
  check_usermap parsed_ident_lines (usermap (hba port)) (user_name port) name false.

Definition CheckPQCCertAuth (port : Port) : M auth_state Z :=
  if negb (peer_cert_valid port) then ret STATUS_ERROR
  else
    match peer port with
    | None => ret STATUS_ERROR
    | Some peer_cert =>
        match signature_algorithm peer_cert with
        | None => ret STATUS_ERROR
        | Some sig_alg_name =>
            if negb (is_pqc_signature_algorithm sig_alg_name) then ret STATUS_ERROR
            else
              match peer_username port, peer_dn port with
              | None, _ | Some [], _ | _, None => ret STATUS_ERROR
              | Some name, Some dn => let! _ := set_authn_id port dn in ret (map_user port name)
              end
        end
    end.

Definition CheckCertAuth (port : Port) : M auth_state Z :=
  match peer_username port with
  | None | Some [] => ret STATUS_ERROR
  | Some name =>
      if is_cert (hba port) then
        match peer_dn port with
        | None => ret STATUS_ERROR
        | Some dn => let! _ := set_authn_id port dn in ret (map_user port name)
        end
      else ret (map_user port name)
  end.

(** ** Passwords *)

Definition get_role_password (now : Z) (role : bytes) : option bytes :=
  match pg_authid role with
  | None | Some (None, _) => None
  | Some (Some shadow_pass, Some vuntil) => if vuntil <? now then None else Some shadow_pass
  | Some (Some shadow_pass, None) => Some shadow_pass
  end.

Definition PG_MAX_AUTH_TOKEN_LENGTH : Z := 65535.

Definition recv_password_packet (msgs : list (Z * bytes)) : M env (option bytes) :=
  match msgs with
  | [] => ret None
  | (mtype, body) :: _ =>
      if negb (mtype =? chr "p") then protocol_violation
      else if PG_MAX_AUTH_TOKEN_LENGTH <? blen body + 4 then ret None
      else if negb (Nat.eqb (length (cstring body) + 1) (length body)) then protocol_violation
      else if Nat.eqb (length body) 1 then raise ERRCODE_INVALID_PASSWORD
      else ret (Some (cstring body))
  end.

Definition md5_crypt_verify (shadow_pass client_pass md5_salt : bytes) : M env Z :=
  match get_password_type shadow_pass with
  | PASSWORD_TYPE_MD5 =>
      let! crypt_pwd := pg_md5_encrypt (skipn 3 shadow_pass) md5_salt in
      ret (match crypt_pwd with
           | Some c => if bytes_eqb client_pass c then STATUS_OK else STATUS_ERROR
           | None => STATUS_ERROR
           end)
  | _ => ret STATUS_ERROR
  end.

Definition CheckMD5Auth (shadow_pass : option bytes) (msgs : list (Z * bytes)) : M env (Z * list auth_request) :=
  let! salt := RAND_bytes 4 in
  match salt with
  | None => ret (STATUS_ERROR, [])
  | Some md5Salt =>
      let! passwd := recv_password_packet msgs in
      let! result :=
        match passwd, shadow_pass with
        | None, _ => ret STATUS_EOF
        | Some p, Some shadow => md5_crypt_verify shadow p md5Salt
        | Some _, None => ret STATUS_ERROR
        end in
      ret (result, [AUTH_REQ_MD5 md5Salt])
  end.

(** The role is authenticated under its own name. *)
Definition authenticated (port : Port) (r : Z * list auth_request) : M auth_state (Z * list auth_request) :=
  let! _ := if fst r =? STATUS_OK then set_authn_id port (user_name port) else ret tt in
  ret r.

Definition CheckPasswordAuth (now : Z) (port : Port) (msgs : list (Z * bytes)) : M auth_state (Z * list auth_request) :=
  let! passwd := zoom fstL (recv_password_packet msgs) in
  let! result :=
    match passwd, get_role_password now (user_name port) with
    | None, _ => ret STATUS_EOF
    | Some p, Some shadow =>
        let! ok := zoom fstL (plain_crypt_verify (user_name port) shadow p) in
        ret (if ok : bool then STATUS_OK else STATUS_ERROR)
    | Some _, None => ret STATUS_ERROR
    end in
  authenticated port (result, [AUTH_REQ_PASSWORD]).

Definition CheckPWChallengeAuth (mock_auth_nonce : bytes) (Password_encryption : PasswordType) (now : Z) (port : Port)
    (msgs : list (Z * bytes)) : M auth_state (Z * list auth_request) :=
  let shadow_pass := get_role_password now (user_name port) in
  let pwtype := match shadow_pass with None => Password_encryption | Some s => get_password_type s end in
  let! r := zoom fstL
    (match is_method uaMD5 port, pwtype with
     | true, PASSWORD_TYPE_MD5 => CheckMD5Auth shadow_pass msgs
     | _, _ => CheckSASLAuth mock_auth_nonce port shadow_pass msgs
     end) in
  authenticated port r.

(** ** The dispatch *)

(** A connection that is refused ends the process. *)
Definition auth_failed {A} : M auth_state A := fatal.

Definition cert_off (l : HbaLine) : bool := match clientcert l with clientCertOff => true | _ => false end.
Definition cert_full (l : HbaLine) : bool := match clientcert l with clientCertFull => true | _ => false end.

(** [other_method] stands for the methods of external services; the requests
    sent to the client are the result. *)
Definition ClientAuthentication (other_method : Port -> list (Z * bytes) -> M auth_state (Z * list auth_request))
    (secure_loaded_verify_locations : bool) (mock_auth_nonce : bytes) (Password_encryption : PasswordType) (now : Z)
    (port : Port) (msgs : list (Z * bytes)) : M auth_state (list auth_request) :=
  if negb (cert_off (hba port)) && negb (secure_loaded_verify_locations && peer_cert_valid port) then fatal
  else
    let! r :=
      match auth_method (hba port) with
      | uaReject | uaImplicitReject => fatal
      | uaMD5 | uaSCRAM | uaPQCSCRAM => CheckPWChallengeAuth mock_auth_nonce Password_encryption now port msgs
      | uaPassword => CheckPasswordAuth now port msgs
      | uaCert | uaTrust => ret (STATUS_OK, [])
      | uaPQCCert =>
          if negb (ssl_in_use port) then ret (STATUS_ERROR, [])
          else let! status := CheckPQCCertAuth port in ret (status, [])
      | uaGSS | uaSSPI | uaPeer | uaIdent | uaPAM | uaBSD | uaLDAP | uaRADIUS => other_method port msgs
      end in
    let! status :=
      if ((fst r =? STATUS_OK) && cert_full (hba port)) || is_cert (hba port) then CheckCertAuth port
      else ret (fst r) in
    if status =? STATUS_OK then ret (snd r ++ [AUTH_REQ_OK]) else auth_failed.
End Methods.

(** ** Lines of the configuration *)

Definition only_pqc_cert (l : HbaLine) : Prop := auth_method l = uaPQCCert /\ usermap l = None.

Lemma auth_opt_pqc_cert other name val l l' :
  only_pqc_cert l -> parse_hba_auth_opt other name val l = Some l' -> only_pqc_cert l'.
Proof.
  intros [Hm Hu]. unfold parse_hba_auth_opt. rewrite Hm.
  repeat case_match; intros; simplify_eq; split; assumption.
Qed.

Lemma fields_pqc_cert other fields : forall l l',
  only_pqc_cert l -> parse_hba_fields other fields l = Some l' -> only_pqc_cert l'.
Proof.
  induction fields as [|f fields IH]; cbn [parse_hba_fields]; intros l l' Hl Hp; [congruence|].
  destruct (span _ f) as [name [|c val]]; [discriminate|].
  destruct (parse_hba_auth_opt other name val l) as [l1|] eqn:E; [|discriminate].
  eapply IH; [eapply auth_opt_pqc_cert; eassumption|exact Hp].
Qed.

(** A line with the method pqc-cert never has a user name map. *)
Lemma hba_line_pqc_cert other checks ct fields l :
  finish_hba_line other checks ct uaPQCCert fields = Some l -> only_pqc_cert l.
Proof.
  unfold finish_hba_line. cbn [is_cert auth_method]. rewrite andb_false_r. intros Hf.
  destruct (parse_hba_fields _ _ _) as [l1|] eqn:E; [|discriminate].
  apply fields_pqc_cert in E as [Hm Hu]; [|split; reflexivity].
  destruct (negb _); [discriminate|]. unfold is_cert in Hf. rewrite Hm in Hf. injection Hf as <-. split; assumption.
Qed.

Section Logins.
  Context `{CL : CryptoLaws} `{DL : DigestLaws} `{SP : Saslprep} `{RX : Regex} `{RO : Roles} `{OB : Objects}.
  Variable parsed_ident_lines : list IdentLine.
  Variable other_method : Port -> list (Z * bytes) -> M auth_state (Z * list auth_request).

Abbreviation authenticate := (ClientAuthentication parsed_ident_lines other_method).

Lemma map_user_none port name : usermap (hba port) = None ->
  map_user parsed_ident_lines port name = STATUS_OK <-> name = user_name port.
Proof.
  intros Hu. unfold map_user, check_usermap. rewrite Hu. destruct (bytes_eqb _ _) eqn:E.
  - apply bytes_eqb_eq in E. split; auto.
  - split; [discriminate|]. intros ->. rewrite bytes_eqb_refl in E. discriminate.
Qed.

(** What a certificate has to be, with the identity it gives. *)
Record pqc_certified (port : Port) (dn : bytes) : Prop := {
  pc_tls : ssl_in_use port = true;
  pc_valid : peer_cert_valid port = true;
  pc_name : user_name port <> [] /\ peer_username port = Some (user_name port);
  pc_dn : peer_dn port = Some dn;
  pc_algorithm : exists cert alg, peer port = Some cert /\ signature_algorithm cert = Some alg /\
                   is_pqc_signature_algorithm alg = true
}.

Lemma pqc_cert_check port e s' : only_pqc_cert (hba port) -> ssl_in_use port = true ->
  CheckPQCCertAuth parsed_ident_lines port (e, None) = (Ok STATUS_OK, s') <->
  exists dn, pqc_certified port dn /\ s' = (e, Some (dn, uaPQCCert)).
Proof.
  intros [Hm Hu] Hssl. unfold CheckPQCCertAuth. split.
  - destruct (peer_cert_valid port) eqn:Hv; [|discriminate]. destruct (peer port) as [cert|] eqn:Hc; [|discriminate].
    cbn [negb]. destruct (signature_algorithm cert) as [alg|] eqn:Ha; [|discriminate].
    destruct (is_pqc_signature_algorithm alg) eqn:Hq; [|discriminate]. cbn [negb].
    destruct (peer_username port) as [[|c name]|] eqn:Hn; [discriminate| |discriminate].
    destruct (peer_dn port) as [dn|] eqn:Hd; [|discriminate]. cbn. intros [= Hmap <-].
    apply (map_user_none port _ Hu) in Hmap. exists dn. rewrite Hm. split; [|reflexivity].
    split; auto; [|eauto]. rewrite <- Hmap. split; [discriminate|exact Hn].
  - intros (dn & [_ Hv [Hne Hn] Hd (cert & alg & Hc & Ha & Hq)] & ->). rewrite Hv, Hc, Ha, Hq, Hn, Hd. cbn [negb].
    destruct (user_name port) as [|c name] eqn:E; [contradiction|].
    cbn. rewrite (proj2 (map_user_none port _ Hu)) by auto. rewrite Hm. reflexivity.
Qed.

(** The check that clientcert=verify-full adds repeats the one on the name. *)
Lemma cert_check_again port dn s : only_pqc_cert (hba port) -> pqc_certified port dn ->
  CheckCertAuth parsed_ident_lines port s = (Ok STATUS_OK, s).
Proof.
  intros [Hm Hu] [_ _ [Hne Hn] _ _]. unfold CheckCertAuth, is_cert. rewrite Hn, Hm.
  destruct (user_name port) as [|c name] eqn:E; [contradiction|].
  unfold ret. rewrite (proj2 (map_user_none port _ Hu)) by auto. reflexivity.
Qed.

(** When such a connection is let in. *)
Lemma pqc_cert_login opts checks ct fields loaded mock enc now port msgs e sent s' :
  finish_hba_line opts checks ct uaPQCCert fields = Some (hba port) ->
  authenticate loaded mock enc now port msgs (e, None) = (Ok sent, s') <->
  (clientcert (hba port) <> clientCertOff -> loaded = true) /\
  sent = [AUTH_REQ_OK] /\ exists dn, pqc_certified port dn /\ s' = (e, Some (dn, uaPQCCert)).
Proof.
  intros Hl. apply hba_line_pqc_cert in Hl as Hp. pose proof Hp as [Hm _].
  assert (Hic : is_cert (hba port) = false) by (unfold is_cert; rewrite Hm; reflexivity).
  unfold ClientAuthentication. rewrite Hm, Hic. split.
  - destruct (_ && _) eqn:Hg; [discriminate|]. intros Hr. minv Hr. minv Hr. rewrite orb_false_r in Hm1.
    destruct (Z.eqb_spec a0 STATUS_OK) as [->|]; [|discriminate]. injection Hr as <- <-.
    destruct (ssl_in_use port) eqn:Hssl; cbn [negb] in Hm0; [|injection Hm0 as <- <-; discriminate].
    minv Hm0. injection Hm0 as <- <-. cbn [fst snd] in *.
    destruct (Z.eqb_spec a0 STATUS_OK) as [->|Hne]; [|injection Hm1 as Ha _; contradiction].
    apply pqc_cert_check in Hm2 as (dn & Hc & ->); [|assumption..]. cbn [andb] in Hm1.
    split; [|split; [reflexivity|exists dn; split; [exact Hc|]]].
    + unfold cert_off in Hg. rewrite (pc_valid _ _ Hc), andb_true_r in Hg.
      destruct (clientcert (hba port)), loaded; (reflexivity || discriminate || contradiction).
    + destruct (cert_full (hba port)); [|injection Hm1 as <-; reflexivity].
      rewrite (cert_check_again port dn _ Hp Hc) in Hm1. injection Hm1 as <-. reflexivity.
  - intros (Hload & -> & dn & Hc & ->).
    replace (_ && _) with false.
    2:{ symmetry. unfold cert_off. rewrite (pc_valid _ _ Hc).
        destruct (clientcert (hba port)); [reflexivity| |]; rewrite Hload by discriminate; reflexivity. }
    rewrite (pc_tls _ _ Hc). cbn [negb].
    assert (Hrun : CheckPQCCertAuth parsed_ident_lines port (e, None) = (Ok STATUS_OK, (e, Some (dn, uaPQCCert)))).
    { apply pqc_cert_check; [exact Hp|exact (pc_tls _ _ Hc)|eauto]. }
    erewrite bind_step; [|mrun Hrun; reflexivity]. cbn [fst snd]. rewrite orb_false_r.
    destruct (cert_full (hba port)); [|reflexivity].
    erewrite bind_step; [|apply (cert_check_again port dn _ Hp Hc)]. reflexivity.
Qed.

(** C6: safety.  A connection under a pqc-cert line of pg_hba.conf, whatever
    options the line has, is let in exactly when it uses TLS, its certificate
    verified and is signed with an algorithm of the post-quantum list, and
    the CN or DN the line selects is the role's name itself: a line cannot
    have a user name map.  The identity is then the subject DN, recorded once
    even if clientcert=verify-full checks the name again, and nothing the
    client sends matters. *)
Theorem pqc_cert_login_iff opts checks ct fields loaded mock enc now port msgs e sent s' :
  finish_hba_line opts checks ct uaPQCCert fields = Some (hba port) ->
  authenticate loaded mock enc now port msgs (e, None) = (Ok sent, s') <->
  (clientcert (hba port) <> clientCertOff -> loaded = true) /\
  sent = [AUTH_REQ_OK] /\ exists dn, pqc_certified port dn /\ s' = (e, Some (dn, uaPQCCert)).
Proof. apply pqc_cert_login. Qed.

Lemma authenticated_inv port r r' e s' :
  authenticated port r (e, None) = (Ok r', s') -> r' = r /\ fst s' = e /\
  (fst r = STATUS_OK -> snd s' = Some (user_name port, auth_method (hba port))).
Proof.
  unfold authenticated. destruct (Z.eqb_spec (fst r) STATUS_OK) as [E|E]; cbn; intros [= <- <-];
    repeat split; auto; contradiction.
Qed.

(** The check of the certificate leaves the identity a password gave. *)
Lemma cert_check_keeps port s st s' : is_cert (hba port) = false ->
  CheckCertAuth parsed_ident_lines port s = (Ok st, s') -> s' = s.
Proof.
  unfold CheckCertAuth. intros ->. destruct (peer_username port) as [[|c n]|]; intros [= _ <-]; reflexivity.
Qed.

Lemma get_role_password_some now role secret : get_role_password now role = Some secret ->
  exists vuntil, pg_authid role = Some (Some secret, vuntil) /\ forall v, vuntil = Some v -> now <= v.
Proof.
  unfold get_role_password. destruct (pg_authid role) as [[[p|] [v|]]|]; try discriminate.
  - destruct (Z.ltb_spec v now); [discriminate|]. intros [= ->]. exists (Some v). split; [reflexivity|]. intros ? [= <-]. lia.
  - intros [= ->]. exists None. split; [reflexivity|discriminate].
Qed.

(** An exchange that succeeds lets the role in. *)
Lemma scram_let_in loaded mock enc now port secret msgs sent e e' :
  auth_method (hba port) = uaSCRAM \/ auth_method (hba port) = uaPQCSCRAM -> clientcert (hba port) = clientCertOff ->
  get_role_password now (user_name port) = Some secret ->
  CheckSASLAuth mock port (Some secret) msgs e = (Ok (STATUS_OK, sent), e') ->
  authenticate loaded mock enc now port msgs (e, None) =
    (Ok (sent ++ [AUTH_REQ_OK]), (e', Some (user_name port, auth_method (hba port)))).
Proof.
  intros Hm Hc Hg Hs.
  assert (Hpw : CheckPWChallengeAuth mock enc now port msgs (e, None) =
                (Ok (STATUS_OK, sent), (e', Some (user_name port, auth_method (hba port))))).
  { unfold CheckPWChallengeAuth. rewrite Hg.
    replace (is_method uaMD5 port) with false by (unfold is_method; destruct Hm as [-> | ->]; reflexivity).
    erewrite bind_step; [|cbn; rewrite Hs; reflexivity]. reflexivity. }
  unfold ClientAuthentication, cert_off, cert_full, is_cert. rewrite Hc.
  destruct Hm as [E|E]; rewrite E in *; cbn [negb andb]; mrun Hpw; reflexivity.
Qed.

(** Whoever is let in by SCRAM has passed the exchange with the stored secret. *)
Lemma scram_let_in_inv loaded mock enc now port msgs e sent s' :
  auth_method (hba port) = uaSCRAM \/ auth_method (hba port) = uaPQCSCRAM ->
  authenticate loaded mock enc now port msgs (e, None) = (Ok sent, s') ->
  exists sent0 e1, CheckSASLAuth mock port (get_role_password now (user_name port)) msgs e = (Ok (STATUS_OK, sent0), e1) /\
    snd s' = Some (user_name port, auth_method (hba port)).
Proof.
  intros Hm Hr.
  assert (Hn : is_cert (hba port) = false /\ is_method uaMD5 port = false)
    by (unfold is_cert, is_method; destruct Hm as [-> | ->]; split; reflexivity).
  destruct Hn as [Hic Hmd]. unfold ClientAuthentication in Hr. rewrite Hic in Hr.
  destruct (_ && _); [discriminate|]. minv Hr. minv Hr. rewrite orb_false_r in Hm1.
  destruct (Z.eqb_spec a0 STATUS_OK) as [->|]; [|discriminate]. injection Hr as _ <-.
  assert (Hpw : CheckPWChallengeAuth mock enc now port msgs (e, None) = (Ok a, s))
    by (destruct Hm as [E|E]; rewrite E in Hm0; exact Hm0).
  unfold CheckPWChallengeAuth in Hpw. rewrite Hmd in Hpw. minv Hpw. rename a0 into r. cbn in Hm2.
  destruct (CheckSASLAuth _ _ _ _ e) as [o e1] eqn:Hs. injection Hm2 as -> <-.
  apply authenticated_inv in Hpw as (-> & _ & Hid). destruct r as [st0 sent0]. cbn [fst snd] in *.
  assert (Hok : st0 = STATUS_OK /\ s0 = s).
  { destruct (Z.eqb_spec st0 STATUS_OK) as [->|]; [|injection Hm1; auto].
    destruct (cert_full _); [|injection Hm1; auto]. apply cert_check_keeps in Hm1; auto. }
  destruct Hok as [-> ->]. exists sent0, e1. split; [reflexivity|exact (Hid eq_refl)].
Qed.

(** C5: safety.  Whoever is let in under scram-sha-256 or pqc-scram-sha-384,
    whatever messages they sent: the role exists with an unexpired password
    that is a SCRAM secret, they chose a mechanism the method accepts (under
    pqc-scram-sha-384 a SHA-384 one, never SHA-256), and the two messages that
    followed are those of a client who proves knowledge of the stored key to
    this server: the last one repeats the nonce of the first followed by the
    nonce drawn for this exchange, names the server's certificate if the
    mechanism binds the channel, and carries a proof of exactly the bytes
    exchanged that hashes to the stored key with the hash of the secret.  The
    identity is the role. *)
Theorem scram_login_sound loaded mock enc now port msgs e sent s' :
  auth_method (hba port) = uaSCRAM \/ auth_method (hba port) = uaPQCSCRAM ->
  authenticate loaded mock enc now port msgs (e, None) = (Ok sent, s') ->
  exists secret vuntil s mech m1 m2,
    pg_authid (user_name port) = Some (Some secret, vuntil) /\ (forall v, vuntil = Some v -> now <= v) /\
    parse_scram_secret secret = Some s /\ mech_accepted port mech /\ sends mech m1 m2 msgs /\
    proves port s (binds mech) (Base64.enc (RAND (draws e) SCRAM_RAW_NONCE_LEN)) m1 m2 /\
    snd s' = Some (user_name port, auth_method (hba port)).
Proof.
  intros Hm Hr. destruct (scram_let_in_inv _ _ _ _ _ _ _ _ _ Hm Hr) as (sent0 & e1 & Hs & ->).
  apply sasl_sound in Hs as (secret & sec & mech & m1 & m2 & Hg & Hrest).
  destruct (get_role_password_some _ _ _ Hg) as (vu & Ha & Hv).
  exists secret, vu, sec, mech, m1, m2. tauto.
Qed.
End Logins.

(** ** Concrete connections *)
Import Toy ToyDigests.

Definition alice : bytes := bytes_of_string "alice".
Definition alice_dn : bytes := bytes_of_string "CN=alice,O=example".

(** No regular expressions, one role, and OpenSSL that knows one NID. *)
Definition no_regex : Regex := {| regex_t := Empty_set; pg_regexec := fun r _ => match r with end |}.
Definition one_role : Roles :=
  {| pg_authid := fun r => if bytes_eqb r alice then Some (Some old_secret, Some 100) else None;
     get_role_oid := fun r => if bytes_eqb r alice then 16384 else 0;
     is_member_of_role_nosuper := fun _ _ => false |}.
Definition one_object : Objects := {| OBJ_nid2sn := fun n => if n =? 7 then Some (bytes_of_string "ML-DSA-65") else None |}.
#[local] Existing Instances no_regex one_role one_object.

Definition no_method : Port -> list (Z * bytes) -> M auth_state (Z * list auth_request) :=
  fun _ _ => ret (STATUS_ERROR, []).

Definition cert_port : Port :=
  mkPort (mkHba ctHostSSL uaPQCCert None clientCertFull clientCertCN) alice true (Some alice) (Some alice_dn) true
    (Some (mkX509 7 None)) None.

Lemma pqc_cert_login_iff_witness :
  finish_hba_line (fun _ _ _ => false) (fun _ => true) ctHostSSL uaPQCCert [bytes_of_string "clientcert=verify-full"] =
    Some (hba cert_port) /\
  ClientAuthentication [] no_method true [] PASSWORD_TYPE_SCRAM_SHA_384 0 cert_port [] (quiet, None) =
    (Ok [AUTH_REQ_OK], (quiet, Some (alice_dn, uaPQCCert))).
Proof.
  split; [reflexivity|].
  apply (pqc_cert_login_iff [] no_method (fun _ _ _ => false) (fun _ => true) ctHostSSL
    [bytes_of_string "clientcert=verify-full"] true [] PASSWORD_TYPE_SCRAM_SHA_384 0 cert_port [] quiet); [reflexivity|].
  split; [reflexivity|split; [reflexivity|]]. exists alice_dn. split; [|reflexivity].
  split; [reflexivity|reflexivity|split; [discriminate|reflexivity]|reflexivity|].
  exists (mkX509 7 None), (bytes_of_string "ML-DSA-65"). repeat split; reflexivity.
Defined.

Lemma scram_login_sound_witness :
  exists msgs sent s' secret vuntil s mech m1 m2,
    let port := server_port uaSCRAM true in
    ClientAuthentication [] no_method false [] PASSWORD_TYPE_SCRAM_SHA_256 0 port msgs (quiet, None) = (Ok sent, s') /\
    pg_authid alice = Some (Some secret, vuntil) /\ (forall v, vuntil = Some v -> 0 <= v) /\
    parse_scram_secret secret = Some s /\ mech_accepted port mech /\ sends mech m1 m2 msgs /\
    proves port s (binds mech) (Base64.enc (RAND 0 SCRAM_RAW_NONCE_LEN)) m1 m2 /\ snd s' = Some (alice, uaSCRAM).
Proof.
  set (port := server_port uaSCRAM true).
  destruct (login_run [] port (client_conn "require" true) pw old_secret 2 [1; 2; 3; 4] quiet quiet
    tls_compatible old_secret_parses (or_introl old_secret_type))
    as (m1 & m2 & s1 & s2 & c1 & c2 & c3 & es & ec & _ & _ & _ & Q & _); [reflexivity|lia|reflexivity|reflexivity|].
  pose proof (scram_let_in [] no_method false [] PASSWORD_TYPE_SCRAM_SHA_256 0 port old_secret [m1; m2] _ quiet es
    (or_introl eq_refl) eq_refl eq_refl Q) as R.
  destruct (scram_login_sound [] no_method false [] PASSWORD_TYPE_SCRAM_SHA_256 0 port [m1; m2] quiet _ _
    (or_introl eq_refl) R) as (secret & vu & s & mech & in1 & in2 & Hall).
  eexists [m1; m2], _, (es, Some (alice, uaSCRAM)), secret, vu, s, mech, in1, in2.
  split; [exact R|exact Hall].
Defined.
