(* ===== verification/Credentials.v ===== *)
(** * Migration of credentials (contrib/pgcrypto_pqc/pgcrypto_pqc.c)

    The function [pqc_migrate_credentials] reports the kinds of password the
    roles have, or removes those for SCRAM-SHA-256.  The catalog pg_authid is a
    list of rows, which the login of Auth.v reads.  A read-only statement of SPI
    sees the snapshot its caller entered with (src/backend/executor/spi.c), so
    not what an earlier statement of the same call changed. *)
From Stdlib Require Import ZArith Lia Bool String List Ascii.
From stdpp Require Import base gmap list strings.
From S2P Require Import Prelude CryptoIface Env PqcRegistry CString Base64 ScramSecret Scram FeScram Auth.
Import ListNotations.
Local Open Scope Z_scope.
Local Open Scope pg_scope.

(** The columns of pg_authid concerned. *)
Record authid := mkAuthid {
  rolname : bytes;
  rolcanlogin : bool;
  rolpassword : option bytes;
  rolvaliduntil : option Z
}.

(** The catalog, and the session: its privileges and the start of its
    transaction. *)
Record catalog := mkCatalog {
  c_env : env;
  c_authid : list authid;
  c_superuser : bool;
  c_may_read : bool;          (* SELECT on pg_authid *)
  c_now : Z
}.

Definition cenvL : lens catalog env :=
  Lens c_env (fun e c => mkCatalog e (c_authid c) (c_superuser c) (c_may_read c) (c_now c)).

Definition set_authid (rows : list authid) (c : catalog) : catalog :=
  mkCatalog (c_env c) rows (c_superuser c) (c_may_read c) (c_now c).

(** A statement runs or raises an error. *)
Definition statement {A} (m : M catalog A) : M catalog A :=
  let! ok := zoom cenvL attempt in
  if negb ok then raise ERRCODE_INTERNAL_ERROR else m.

(** [LIKE 'p%'] for a [p] without special characters. *)
Definition like_prefix (p : string) (s : bytes) : bool :=
  bytes_eqb (firstn (length (bytes_of_string p)) s) (bytes_of_string p).

(** The WHERE clause of the UPDATE, and what it does to a row. *)
Definition to_reset (r : authid) : bool :=
  match rolpassword r with Some p => like_prefix "SCRAM-SHA-256$" p | None => false end.

Definition reset (now : Z) (r : authid) : authid :=
  if to_reset r then mkAuthid (rolname r) (rolcanlogin r) None (Some now) else r.

Definition current_type (password : option bytes) : string :=
  match password with
  | None => "none"
  | Some p =>
      if like_prefix "SCRAM-SHA-256$" p then "SCRAM-SHA-256"
      else if like_prefix "md5" p then "md5"
      else "unknown"
  end.

Definition recommended_action (current_type : string) : string :=
  if pg_strcasecmp current_type "SCRAM-SHA-256" =? 0 then "migrate to PQC-SCRAM"
  else if pg_strcasecmp current_type "md5" =? 0 then "upgrade to PQC-SCRAM (currently md5)"
  else if pg_strcasecmp current_type "none" =? 0 then "no password set"
  else "review manually".

(** [ORDER BY rolname]: names compare by their bytes. *)
Fixpoint name_le (a b : bytes) : bool :=
  match a, b with
  | [], _ => true
  | _ :: _, [] => false
  | x :: a', y :: b' => if x =? y then name_le a' b' else x <? y
  end.

Fixpoint insert_role (r : authid) (l : list authid) : list authid :=
  match l with
  | [] => [r]
  | r' :: l' => if name_le (rolname r) (rolname r') then r :: l else r' :: insert_role r l'
  end.

Definition by_name (l : list authid) : list authid := foldr insert_role [] l.

Definition report_row (r : authid) : bytes * string * string :=
  let t := current_type (rolpassword r) in (rolname r, t, recommended_action t).

(** The rows the set-returning function returns over its calls.  [snapshot] is
    the table as it was on entry. *)
Definition pqc_migrate_credentials (mode : string) : M catalog (list (bytes * string * string)) :=
  let! snapshot := gets c_authid in
  if negb (pg_strcasecmp mode "report" =? 0) && negb (pg_strcasecmp mode "force-reset" =? 0)
  then raise ERRCODE_INVALID_PARAMETER_VALUE
  else
    do! (if pg_strcasecmp mode "force-reset" =? 0 then
           let! c := get in
           if negb (c_superuser c) then raise ERRCODE_INSUFFICIENT_PRIVILEGE
           else statement (modify (fun c => set_authid (map (reset (c_now c)) (c_authid c)) c))
         else ret tt) in
    statement
      (let! c := get in
       if negb (c_superuser c || c_may_read c) then raise ERRCODE_INSUFFICIENT_PRIVILEGE
       else ret (map report_row (by_name (List.filter rolcanlogin snapshot)))).

(** ** The catalog as logins see it *)

Definition role_row (rows : list authid) (role : bytes) : option authid :=
  List.find (fun r => bytes_eqb (rolname r) role) rows.

Section Roles.
  Context (oid : bytes -> Z) (member : Z -> Z -> bool).

Definition roles_of (rows : list authid) : Roles := {|
  pg_authid := fun role =>
    match role_row rows role with Some r => Some (rolpassword r, rolvaliduntil r) | None => None end;
  get_role_oid := oid;
  is_member_of_role_nosuper := member
|}.
End Roles.

(** ALTER ROLE with a password and no VALID UNTIL. *)
Definition give_password (role : bytes) (p : option bytes) (rows : list authid) : list authid :=
  map (fun r => if bytes_eqb (rolname r) role then mkAuthid (rolname r) (rolcanlogin r) p (rolvaliduntil r) else r) rows.

(** ** Lemmas *)

Lemma role_row_map f rows role : (forall r, rolname (f r) = rolname r) ->
  role_row (map f rows) role = option_map f (role_row rows role).
Proof.
  intros Hf. unfold role_row. induction rows as [|r rows IH]; [reflexivity|]. cbn. rewrite Hf.
  destruct (bytes_eqb (rolname r) role); [reflexivity|exact IH].
Qed.

Lemma role_row_name rows role r : role_row rows role = Some r -> bytes_eqb (rolname r) role = true.
Proof. unfold role_row. intros Hr. apply List.find_some in Hr. apply Hr. Qed.

Lemma reset_name now r : rolname (reset now r) = rolname r.
Proof. unfold reset. destruct (to_reset r); reflexivity. Qed.

Lemma statement_inv {A} (m : M catalog A) c a c' : statement m c = (Ok a, c') ->
  exists e, m (over cenvL e c) = (Ok a, c').
Proof.
  unfold statement. intros Hm. minv Hm. unfold zoom in Hm0.
  destruct (attempt (view cenvL c)) as [o e] eqn:E.
  injection Hm0 as -> <-. destruct a0; [|discriminate]. exists e. exact Hm.
Qed.

Lemma force_reset_inv mode c rows c' :
  pg_strcasecmp mode "force-reset" = 0 -> pqc_migrate_credentials mode c = (Ok rows, c') ->
  c_superuser c = true /\ c_authid c' = map (reset (c_now c)) (c_authid c) /\
  rows = map report_row (by_name (List.filter rolcanlogin (c_authid c))).
Proof.
  intros Hmode Hr. unfold pqc_migrate_credentials in Hr. rewrite Hmode in Hr.
  minv Hr. injection Hm as <- <-. rewrite andb_false_r in Hr. minv Hr.
  change (0 =? 0) with true in Hm. cbv iota in Hm. minv Hm. injection Hm0 as <- <-.
  destruct (c_superuser c) eqn:Hsu; [|discriminate]. cbn [negb] in Hm.
  apply statement_inv in Hm as (e & Hm). injection Hm as <- <-.
  apply statement_inv in Hr as (e' & Hr). minv Hr. injection Hm as <- <-.
  cbn [c_superuser set_authid over cenvL] in Hr. rewrite Hsu in Hr. injection Hr as <- <-.
  split; [reflexivity|]. split; reflexivity.
Qed.

Section Logins.
  Context `{CL : CryptoLaws} `{DL : DigestLaws} `{SP : Saslprep} `{RX : Regex} `{OB : Objects}.
  Context (oid : bytes -> Z) (member : Z -> Z -> bool).
  Variable parsed_ident_lines : list IdentLine.
  Variable other_method : Port -> list (Z * bytes) -> M auth_state (Z * list auth_request).

(** A login against the rows of the catalog. *)
Definition login (rows : list authid) (loaded : bool) (mock : bytes) (enc : PasswordType) (now : Z) (port : Port)
    (msgs : list (Z * bytes)) : M auth_state (list auth_request) :=
  ClientAuthentication (RO := roles_of oid member rows) parsed_ident_lines other_method loaded mock enc now port msgs.

Lemma no_password_no_scram rows loaded mock enc now port msgs e sent s' :
  auth_method (hba port) = uaSCRAM \/ auth_method (hba port) = uaPQCSCRAM ->
  get_role_password (RO := roles_of oid member rows) now (user_name port) = None ->
  login rows loaded mock enc now port msgs (e, None) <> (Ok sent, s').
Proof.
  intros Hm Hp Hr. destruct (scram_let_in_inv _ _ _ _ _ _ _ _ _ _ _ Hm Hr) as (sent0 & e1 & Hs & _).
  rewrite Hp in Hs. apply sasl_sound in Hs as (secret & parsed & mech & m1 & m2 & Hsome & _). discriminate.
Qed.

(** What a reset role still has is an expiry in the past. *)
Lemma reset_role_password rows role r now0 p now :
  role_row rows role = Some r -> to_reset r = true -> now0 < now ->
  get_role_password (RO := roles_of oid member (give_password role p (map (reset now0) rows))) now role = None.
Proof.
  intros Hr Ht Hlt. unfold get_role_password, give_password. cbn [pg_authid roles_of].
  rewrite role_row_map by (intros r'; destruct (bytes_eqb (rolname r') role); reflexivity).
  rewrite role_row_map by (intros r'; apply reset_name). rewrite Hr. cbn [option_map].
  rewrite reset_name, (role_row_name _ _ _ Hr). cbn [rolpassword rolvaliduntil].
  unfold reset. rewrite Ht. cbn [rolvaliduntil]. destruct p; [|reflexivity].
  destruct (Z.ltb_spec now0 now); [reflexivity|lia].
Qed.

(** A force-reset that returns has locked out every role whose
    password was for SCRAM-SHA-256, and no other: no exchange lets such a role
    in any more, not even after it was given a new password, because its
    validity ended with the reset; all other roles keep their rows.  The
    report returned describes the passwords as they were before. *)
Theorem force_reset_locks_out mode c rows c' :
  pg_strcasecmp mode "force-reset" = 0 -> pqc_migrate_credentials mode c = (Ok rows, c') ->
  rows = map report_row (by_name (List.filter rolcanlogin (c_authid c))) /\
  forall role r, role_row (c_authid c) role = Some r ->
    (to_reset r = false -> role_row (c_authid c') role = Some r) /\
    (to_reset r = true -> forall p loaded mock enc now port msgs e sent s',
       c_now c < now -> user_name port = role ->
       auth_method (hba port) = uaSCRAM \/ auth_method (hba port) = uaPQCSCRAM ->
       login (give_password role p (c_authid c')) loaded mock enc now port msgs (e, None) <> (Ok sent, s')).
Proof.
  intros Hmode Hr. destruct (force_reset_inv _ _ _ _ Hmode Hr) as (_ & Hc & Hrows). split; [exact Hrows|].
  intros role r Hrow. rewrite Hc. split; intros Ht.
  - rewrite role_row_map by (intros; apply reset_name). rewrite Hrow. cbn. unfold reset. rewrite Ht. reflexivity.
  - intros p loaded mock enc now port msgs e sent s' Hlt <- Hm.
    apply no_password_no_scram; [exact Hm|]. eapply reset_role_password; eassumption.
Qed.
End Logins.

(** ** Witness *)
Import Toy ToyDigests.
#[local] Existing Instances no_regex one_object.

Definition sample_catalog : catalog :=
  mkCatalog quiet [mkAuthid (bytes_of_string "carol") true (Some (bytes_of_string "md5x")) None;
                   mkAuthid alice true (Some old_secret) None] true true 100.

Lemma force_reset_locks_out_witness :
  exists rows c', pqc_migrate_credentials "FORCE-reset" sample_catalog = (Ok rows, c') /\
    map (fun x => snd (fst x)) rows = ["SCRAM-SHA-256"; "md5"]%string /\
    forall p msgs sent s',
      login (fun _ => 0) (fun _ _ => false) [] no_method (give_password alice p (c_authid c')) false []
        PASSWORD_TYPE_SCRAM_SHA_384 101 (server_port uaPQCSCRAM true) msgs (quiet, None) <> (Ok sent, s').
Proof.
  assert (Hr : exists rows c', pqc_migrate_credentials "FORCE-reset" sample_catalog = (Ok rows, c'))
    by (do 2 eexists; reflexivity).
  destruct Hr as (rows & c' & Hr). exists rows, c'. split; [exact Hr|].
  destruct (force_reset_locks_out (fun _ => 0) (fun _ _ => false) [] no_method "FORCE-reset" sample_catalog rows c'
    eq_refl Hr) as [Hrows Hall].
  split; [rewrite Hrows; vm_compute; reflexivity|].
  intros p msgs sent s'. destruct (Hall alice (mkAuthid alice true (Some old_secret) None)) as [_ Hreset];
    [vm_compute; reflexivity|]. apply Hreset; [vm_compute; reflexivity|reflexivity|reflexivity|right; reflexivity].
Defined.
