(* ===== verification/Rotation.v ===== *)
(** * Key rotation and key reports (contrib/pgcrypto_pqc/pgcrypto_pqc.c)

    The functions an administrator calls: new keys for the WAL and for
    tablespaces, the age of keys, the algorithms liboqs has, and the keys a
    backup needs with their escrow.  They run in a backend, which has both the
    state of a server process and the tables of the extension. *)
From Stdlib Require Import ZArith Lia Bool String Ascii List.
From stdpp Require Import base gmap list strings.
From S2P Require Import Prelude CryptoIface Env Spec KeyCache PqcRegistry PqcKem PqcSig Server KeyManage WalKeys Envelope AuditLog AuditChain CString.
Import ListNotations.
Local Open Scope Z_scope.
Local Open Scope pg_scope.

(** A backend, its tables, and the number of rows of pg_tablespace. *)
Record admin := mkAdmin {
  a_sv : server;
  a_db : db;
  a_tablespaces : Z
}.

Definition svL : lens admin server := Lens a_sv (fun s a => mkAdmin s (a_db a) (a_tablespaces a)).
Definition backendL : lens admin backend :=
  Lens (fun a => (sv_pqc (a_sv a), a_db a))
       (fun b a => mkAdmin (over pqcL (fst b) (a_sv a)) (snd b) (a_tablespaces a)).

#[export] Instance svL_laws : LensLaws svL.
Proof. split; intros; destruct s; reflexivity. Qed.
#[export] Instance backendL_laws : LensLaws backendL.
Proof.
  split; [intros [? ?] [[] ? ?]|intros [[] ? ?]|intros [? ?] [? ?] [[] ? ?]]; reflexivity.
Qed.

(** ** New keys for the WAL *)

Definition hex_digit (n : Z) : ascii := ascii_of_N (Z.to_N (if n <? 10 then 48 + n else 87 + n)).

(** [%08x] is [lower_hex 8]. *)
Fixpoint lower_hex (n : nat) (x : Z) : string :=
  match n with
  | O => EmptyString
  | S n' => lower_hex n' (x / 16) ++ String (hex_digit (x mod 16)) EmptyString
  end.

(** The first four bytes of the key as a [uint32].  A key that is NULL while its
    length is not ends the process. *)
Definition key_fingerprint {S} (pk : option bytes) (pk_len : nat) : M S string :=
  if (4 <? pk_len)%nat then
    match pk with
    | None => fatal
    | Some k => ret ("pk-" ++ lower_hex 8 (le_val (firstn 4 k)))%string
    end
  else ret ("pk-" ++ lower_hex 8 0)%string.

Record wal_rotation := mkWalRotation {
  wr_status : string;
  old_key_id : string;
  new_key_id : string;
  algorithm_used : string;
  wr_rotated_at : Z
}.

Section Rotation.
  Context `{Crypto}.

Definition current_key_id : M server string :=
  let! (pk, pk_len) := pqc_wal_get_public_key in key_fingerprint pk pk_len.

(** Not STRICT: a NULL algorithm is read through. *)
Definition pqc_rotate_wal_signing_keys (algorithm : option string) (now_ts : Z) : M admin wal_rotation :=
  match algorithm with
  | None => fatal
  | Some alg_name =>
      let! d := gets a_db in
      if negb (d_superuser d) then raise ERRCODE_INSUFFICIENT_PRIVILEGE
      else
        do! zoom svL (zoom pqcL init_if_needed) in
        let! s := gets a_sv in
        let key_path := wal_pqc_key_path (sv_guc s) in
        if empty_path key_path then raise ERRCODE_INVALID_PARAMETER_VALUE
        else
          let! old_id := zoom svL (pg_try current_key_id (fun _ => ret "(none)"%string)) in
          do! zoom svL (pqc_wal_generate_signing_keys key_path (Some alg_name)) in
          do! zoom svL (pqc_wal_load_signing_keys key_path (Some alg_name)) in
          let! new_id := zoom svL current_key_id in
          ret (mkWalRotation "success" old_id new_id alg_name now_ts)
  end.

(** ** A new master key *)

(** The row: status, the number of tablespaces as an [int], and the time. *)
Definition pqc_rotate_tde_master_key (now_ts : Z) : M admin (string * Z * Z) :=
  let! d := gets a_db in
  if negb (d_superuser d) then raise ERRCODE_INSUFFICIENT_PRIVILEGE
  else
    do! zoom svL (zoom pqcL init_if_needed) in
    do! zoom svL tde_rotate_master_key in
    let! a := get in
    let! rewrapped := zoom backendL (SPI (ret (c_int (a_tablespaces a)))) in
    ret ("success"%string, rewrapped, now_ts).
End Rotation.

(** ** The age of keys *)

Definition USECS_PER_DAY : Z := 86400000000.

Record key_status := mkKeyStatus {
  key_type : string;
  key_id_str : string;
  alg_str : string;
  created : Z;
  age_days : Z;
  rotation_recommended : bool
}.

Definition age_in_days (now_ts created : Z) : Z := c_int (Z.quot (c_long (now_ts - created)) USECS_PER_DAY).

(** The newest active key of a purpose: its algorithm and creation. *)
Definition newest_key (purpose : string) : M admin (option (string * Z)) :=
  zoom backendL (SPI (gets (fun d =>
    (fun k => (key_algorithm k, created_at k)) <$>
      newest key_id (List.filter (active_key purpose) (d_keys d))))).

(** The row of the call number [call_cntr], at the time of that call. *)
Definition key_status_row (call_cntr : nat) (now_ts : Z) : M admin (option key_status) :=
  match call_cntr with
  | 0%nat =>
      let! s := gets a_sv in
      ret (Some (mkKeyStatus "wal_signing"
        (default "(not configured)"%string (wal_pqc_key_path (sv_guc s)))
        (default "ML-DSA-65"%string (wal_pqc_signing_algorithm_string (sv_guc s)))
        now_ts 0 false))
  | 1%nat =>
      let! k := newest_key "classical" in
      let created := match k with Some (_, ts) => ts | None => now_ts end in
      let age_days := age_in_days now_ts created in
      ret (Some (mkKeyStatus "audit_classical" "pqc_audit_keys" "Ed25519" created age_days (90 <? age_days)))
  | 2%nat =>
      let! k := newest_key "pqc" in
      let alg := match k with Some (a, _) => a | None => "ML-DSA-65"%string end in
      let created := match k with Some (_, ts) => ts | None => now_ts end in
      let age_days := age_in_days now_ts created in
      ret (Some (mkKeyStatus "audit_pqc" "pqc_audit_keys" alg created age_days (90 <? age_days)))
  | _ => ret None
  end.

(** The calls of the set-returning function, which reads the clock in each. *)
Definition pqc_key_rotation_status (clock : nat -> Z) : M admin (list key_status) :=
  let! w := key_status_row 0 (clock 0%nat) in
  let! c := key_status_row 1 (clock 1%nat) in
  let! p := key_status_row 2 (clock 2%nat) in
  ret (option_list w ++ option_list c ++ option_list p).

(** ** The algorithms *)

(** Name, type, level, and the sizes of public key, secret key, and ciphertext
    or signature. *)
Definition algorithm_row (info : PqcAlgorithmInfo) : string * string * Z * Z * Z * Z :=
  (name info, match type info with PQC_TYPE_KEM => "KEM" | PQC_TYPE_SIG => "SIG" end%string,
   nist_level info, c_int (Z.of_nat (public_key_len info)), c_int (Z.of_nat (secret_key_len info)),
   c_int (Z.of_nat (match type info with PQC_TYPE_KEM => ciphertext_len info
                                       | PQC_TYPE_SIG => signature_len info end))).

(** Whether liboqs gave the row its sizes. *)
Definition has_sizes (info : PqcAlgorithmInfo) : bool :=
  negb ((public_key_len info =? 0)%nat && (secret_key_len info =? 0)%nat).

(** The loop that collects the indices. *)
Fixpoint available_algs (todo i : nat) : M pqc (list nat) :=
  match todo with
  | O => ret []
  | S todo' =>
      let! info := pqc_get_algorithm_info (Z.of_nat i) in
      let! rest := available_algs todo' (S i) in
      ret (match info with
           | Some row => if has_sizes row then i :: rest else rest
           | None => rest
           end)
  end.

(** The calls that follow, one per index. *)
Fixpoint algorithm_rows (l : list nat) : M pqc (list (string * string * Z * Z * Z * Z)) :=
  match l with
  | [] => ret []
  | i :: l' =>
      let! info := pqc_get_algorithm_info (Z.of_nat i) in
      match info with
      | None => ret []
      | Some row => let! rest := algorithm_rows l' in ret (algorithm_row row :: rest)
      end
  end.

Definition pqc_algorithms_list `{Crypto} : M pqc (list (string * string * Z * Z * Z * Z)) :=
  do! init_if_needed in
  let! algs := available_algs (Z.to_nat PQC_ALG_COUNT) 0 in
  algorithm_rows algs.

(** ** The keys of a backup *)

Record backup_key := mkBackupKey {
  bk_type : string;
  bk_algorithm : string;
  bk_key_id : bytes;
  bk_created_at : Z;
  bk_escrow : option (string * Z * Z)     (* name, shares and threshold, or NULLs *)
}.

Definition key_label (id : Z) : bytes := bytes_of_string "key-" ++ format_d id.

Definition join_row (k : audit_key) (e : option escrow_row) : backup_key :=
  mkBackupKey (key_purpose k) (key_algorithm k) (key_label (key_id k)) (created_at k)
    ((fun e => (escrow_name e, escrow_shares e, escrow_threshold e)) <$> e).

(** The rows of one key: its matches in the escrow table, or one without. *)
Definition left_join (es : list escrow_row) (k : audit_key) : list backup_key :=
  match List.filter (fun e => String.eqb (escrow_algorithm e) (key_algorithm k)) es with
  | [] => [join_row k None]
  | l => map (fun e => join_row k (Some e)) l
  end.

Definition pqc_backup_key_info : M admin (list backup_key) :=
  zoom backendL (SPI (gets (fun d =>
    mjoin (map (left_join (d_escrow d)) (sort_by key_id (List.filter is_active (d_keys d))))))).

(** ** Lemmas *)

Lemma zoom_sv_run {A} (m : M server A) a o s :
  m (a_sv a) = (o, s) -> zoom svL m a = (o, over svL s a).
Proof. intros Hm. unfold zoom. cbn. rewrite Hm. reflexivity. Qed.

Lemma spi_calm {A} (f : db -> A) a :
  no_faults (sv_env (a_sv a)) -> zoom backendL (SPI (gets f)) a = (Ok (f (a_db a)), a).
Proof.
  intros Hn. destruct a as [[[[fs d fi di v c lg] ? ? ? ?] ? ? ? ? ?] db n]. unfold no_faults in Hn.
  cbn in Hn. subst fs. reflexivity.
Qed.

Section Sizes.
  Context `{CL : CryptoLaws}.

(** A process has the sizes of the algorithms once it has initialised the layer. *)
Definition sized (p : pqc) : Prop :=
  pqc_initialized p = true /\ pqc_algorithms p = filled <$> pqc_algorithms_static.

(** The registry of any process: as compiled in, or as [pqc_init] left it. *)
Definition registry_history (p : pqc) : Prop :=
  pqc_algorithms p = pqc_algorithms_static /\ pqc_initialized p = false \/
  pqc_algorithms p = filled <$> pqc_algorithms_static.

Lemma filled_filled i : filled (filled i) = filled i.
Proof.
  unfold filled. destruct (type i) eqn:Ht, (OQS_KEM_new (oqs_name i)) eqn:Hk,
    (OQS_SIG_new (oqs_name i)) eqn:Hg; cbn; rewrite ?Ht, ?Hk, ?Hg; reflexivity.
Qed.

Lemma filled_registry_ok p : pqc_algorithms p = filled <$> pqc_algorithms_static -> registry_ok p.
Proof.
  intros Hp. unfold registry_ok. rewrite Hp, <- list_fmap_compose. apply list_fmap_ext.
  intros ? ? _. apply ident_filled.
Qed.

Lemma init_if_needed_sized p : registry_history p ->
  exists p', init_if_needed p = (Ok tt, p') /\ sized p' /\ logs (p_env p) (p_env p').
Proof.
  intros Hh. unfold init_if_needed, pqc_is_available.
  rewrite (bind_step _ _ p (pqc_initialized p) p) by reflexivity.
  destruct (pqc_initialized p) eqn:Hi.
  - exists p. split; [reflexivity|]. split; [|apply logs_refl]. split; [exact Hi|].
    destruct Hh as [[_ Hf]|Hh]; [congruence|exact Hh].
  - destruct (pqc_init_run p Hi) as (e' & Hr & Hl).
    { destruct Hh as [[-> _]| ->]; [reflexivity|]. rewrite length_fmap. reflexivity. }
    eexists. mrun Hr. split; [reflexivity|]. split; [split; [reflexivity|]|exact Hl].
    cbn [pqc_algorithms]. destruct Hh as [[-> _]| ->]; [reflexivity|]. rewrite <- list_fmap_compose.
    apply list_fmap_ext. intros ? ? _. apply filled_filled.
Qed.

Lemma sized_agree p n alg g : sized p -> sig_alg_named n alg g -> sizes_agree p alg g.
Proof.
  intros [_ Hp] (row0 & _ & H0 & Ht & _ & Hg) row Hrow.
  rewrite Hp, list_lookup_fmap, H0 in Hrow. injection Hrow as <-.
  unfold filled. rewrite Ht, Hg. destruct (OQS_KEM_new (oqs_name row0)); split; right; reflexivity.
Qed.

Lemma sized_ensure : preserves sized ensure_pqc_init.
Proof.
  intros p Hp. unfold ensure_pqc_init, pqc_is_available.
  rewrite (bind_step _ _ p (pqc_initialized p) p) by reflexivity. rewrite (proj1 Hp). exact Hp.
Qed.

Lemma sized_env {A} (m : M env A) : preserves sized (zoom envL m).
Proof. apply preserves_zoom_frame. intros e p Hp. exact Hp. Qed.

#[local] Hint Resolve sized_ensure sized_env : pg.

Lemma sized_sig_new alg : preserves sized (pqc_sig_new alg).
Proof. unfold pqc_sig_new, pqc_get_algorithm_info. msteps. Qed.

Lemma sized_keygen ctx : preserves sized (pqc_sig_keygen ctx).
Proof. unfold pqc_sig_keygen. msteps. Qed.

Lemma sized_generate key_path algorithm :
  preserves (fun s => sized (sv_pqc s)) (pqc_wal_generate_signing_keys key_path algorithm).
Proof.
  assert (Hp : forall A (m : M pqc A), preserves sized m -> preserves (fun s => sized (sv_pqc s)) (zoom pqcL m))
    by (intros A m Hm; apply (preserves_zoom pqcL); exact Hm).
  assert (He : forall A (m : M env A), preserves (fun s => sized (sv_pqc s)) (zoom senvL m))
    by (intros; apply preserves_zoom_frame; intros e s Hs; exact Hs).
  assert (Hw : forall f, preserves (fun s => sized (sv_pqc s)) (set_wal f))
    by (intros; apply preserves_zoom_frame; intros e s Hs; exact Hs).
  assert (Hr : preserves (fun s => sized (sv_pqc s)) (pqc_wal_resolve_algorithm algorithm)).
  { unfold pqc_wal_resolve_algorithm. msteps; apply Hp;
      unfold pqc_algorithm_from_name, pqc_algorithm_is_sig, pqc_get_algorithm_info; destruct algorithm; msteps. }
  unfold pqc_wal_generate_signing_keys. destruct (empty_path key_path); [auto with pg|]. cbv zeta.
  apply preserves_bind; [apply He|]. intros [[]|]; [|auto with pg..].
  apply preserves_bind; [exact Hr|]. intros alg. apply preserves_bind; [apply Hw|]. intros _.
  apply preserves_bind; [apply Hp, sized_sig_new|]. intros ctx.
  apply preserves_bind; [apply Hp, sized_keygen|]. intros [st [[pk sk]|]]; [|auto with pg].
  repeat (apply preserves_bind; [apply He|intros _]). apply Hw.
Qed.
End Sizes.

(** ** Properties *)

Section Properties.
  Context `{CL : CryptoLaws}.

(** The fingerprint of a key in memory. *)
Definition fingerprint (pk : bytes) : string :=
  if (4 <? length pk)%nat then ("pk-" ++ lower_hex 8 (le_val (firstn 4 pk)))%string
  else ("pk-" ++ lower_hex 8 0)%string.

(** The length of a key is not kept without the key. *)
Definition no_dangling_key (w : wal_state) : Prop :=
  wal_public_key w = None -> wal_keys_loaded w = true -> (wal_public_key_len w <= 4)%nat.

Lemma old_key_id_total s : no_dangling_key (sv_wal s) ->
  exists id, pg_try current_key_id (fun _ => ret "(none)"%string) s = (Ok id, s).
Proof.
  intros Hd. unfold current_key_id, pqc_wal_get_public_key.
  unfold pg_try, bind, gets, no_dangling_key in *. destruct (wal_keys_loaded (sv_wal s)) eqn:Hl; cbn.
  - unfold key_fingerprint. destruct (wal_public_key (sv_wal s)) as [pk|] eqn:Hk.
    + destruct (4 <? wal_public_key_len (sv_wal s))%nat; eexists; reflexivity.
    + destruct (Nat.ltb_spec 4 (wal_public_key_len (sv_wal s))); [|eexists; reflexivity].
      specialize (Hd eq_refl eq_refl). lia.
  - eexists. reflexivity.
Qed.

Lemma current_key_id_ok s pk : wal_keys_loaded (sv_wal s) = true -> wal_public_key (sv_wal s) = Some pk ->
  wal_public_key_len (sv_wal s) = length pk -> current_key_id s = (Ok (fingerprint pk), s).
Proof.
  intros Hl Hp Hn. unfold current_key_id, pqc_wal_get_public_key, bind, gets. rewrite Hl. cbn.
  rewrite Hp, Hn. unfold key_fingerprint, fingerprint. destruct (4 <? length pk)%nat; reflexivity.
Qed.

(** Generating keys and loading them again, in an initialised process. *)
Lemma generate_load_ok s dir n alg g :
  ready s -> sized (sv_pqc s) -> dir <> EmptyString -> dir ∈ dirs (sv_env s) -> sig_alg_named n alg g ->
  sk_path dir <> pk_path dir ->
  exists s1 s2 d fs fp, pqc_wal_generate_signing_keys (Some dir) (Some n) s = (Ok tt, s1) /\
    pqc_wal_load_signing_keys (Some dir) (Some n) s1 = (Ok tt, s2) /\ ready s2 /\
    OQS_SIG_keypair g d = (f_data fp, f_data fs) /\
    sv_wal s2 = mkWalState (wal_pqc_signing (sv_wal s1)) (Some (f_data fs)) (length (f_data fs))
                  (Some (f_data fp)) (length (f_data fp)) alg true /\
    files (sv_env s2) !! sk_path dir = Some fs /\ files (sv_env s2) !! pk_path dir = Some fp.
Proof.
  intros Hs Hz Hdir Hin Hnm Hne. pose proof (sig_laws_named _ _ _ Hnm) as Hl.
  destruct (wal_generate_ok s dir n alg g Hs Hdir Hin Hnm Hne) as (s1 & d & fs & fp & H1 & R1 & Hw).
  pose proof (sized_generate (Some dir) (Some n) s Hz) as Hz1. rewrite H1 in Hz1. cbn in Hz1.
  pose proof (sig_pk_length g Hl d) as Hpk. pose proof (sig_sk_length g Hl d) as Hsk.
  pose proof (sig_sizes g Hl) as Hsz.
  destruct (OQS_SIG_keypair g d) as [pk sk] eqn:Hkp. cbn [fst snd] in Hpk, Hsk.
  destruct Hw as (Hw & Hfs & <- & Hfp & <-).
  destruct (load_ok s1 dir n alg g fs fp R1 Hdir Hnm) as (s2 & H2 & Hw2 & R2 & Hf2);
    [rewrite Hsk, Hpk; exact (sized_agree _ n _ _ Hz1 Hnm)|exact Hfs|exact Hfp|unfold blen; lia|unfold blen; lia|].
  exists s1, s2, d, fs, fp. rewrite Hf2. auto 10.
Qed.

(** The steps before the new keys are generated. *)
Lemma wal_rotation_start a dir n now_ts :
  registry_history (sv_pqc (a_sv a)) -> no_dangling_key (sv_wal (a_sv a)) ->
  d_superuser (a_db a) = true -> wal_pqc_key_path (sv_guc (a_sv a)) = Some dir -> dir <> EmptyString ->
  exists p1 old_id, sized p1 /\ logs (sv_env (a_sv a)) (p_env p1) /\
    pqc_rotate_wal_signing_keys (Some n) now_ts a =
      (do! zoom svL (pqc_wal_generate_signing_keys (Some dir) (Some n)) in
       do! zoom svL (pqc_wal_load_signing_keys (Some dir) (Some n)) in
       let! new_id := zoom svL current_key_id in
       ret (mkWalRotation "success" old_id new_id n now_ts)) (over svL (over pqcL p1 (a_sv a)) a).
Proof.
  intros Hh Hd Hsu Hkp Hdir. destruct (init_if_needed_sized _ Hh) as (p1 & Hi & Hz & Hlog).
  set (s1 := over pqcL p1 (a_sv a)). destruct (old_key_id_total s1 Hd) as (old_id & Hold).
  exists p1, old_id. split; [exact Hz|]. split; [exact Hlog|].
  unfold pqc_rotate_wal_signing_keys. rewrite (bind_step _ _ a (a_db a) a) by reflexivity. rewrite Hsu. cbn [negb].
  mrun (zoom_sv_run _ a _ _ (zoom_pqc_run _ (a_sv a) _ _ Hi)). fold s1.
  rewrite (bind_step _ _ (over svL s1 a) s1 (over svL s1 a)) by reflexivity. cbv zeta.
  change (wal_pqc_key_path (sv_guc s1)) with (wal_pqc_key_path (sv_guc (a_sv a))). rewrite Hkp.
  replace (empty_path (Some dir)) with false by (destruct dir; [contradiction|reflexivity]).
  mrun (zoom_sv_run _ (over svL s1 a) _ _ Hold). reflexivity.
Qed.

Lemma wal_rotation_run a dir n alg g now_ts :
  ready (a_sv a) -> registry_history (sv_pqc (a_sv a)) -> no_dangling_key (sv_wal (a_sv a)) ->
  d_superuser (a_db a) = true -> wal_pqc_key_path (sv_guc (a_sv a)) = Some dir -> dir <> EmptyString ->
  dir ∈ dirs (sv_env (a_sv a)) -> sk_path dir <> pk_path dir -> sig_alg_named n alg g ->
  exists r s3 d fs fp signing, pqc_rotate_wal_signing_keys (Some n) now_ts a = (Ok r, over svL s3 a) /\
    new_key_id r = fingerprint (f_data fp) /\ ready s3 /\ OQS_SIG_keypair g d = (f_data fp, f_data fs) /\
    sv_wal s3 = mkWalState signing (Some (f_data fs)) (length (f_data fs)) (Some (f_data fp))
                  (length (f_data fp)) alg true /\
    files (sv_env s3) !! sk_path dir = Some fs /\ files (sv_env s3) !! pk_path dir = Some fp.
Proof.
  intros Hs Hh Hd Hsu Hkp Hdir Hin Hne Hnm.
  destruct (wal_rotation_start a dir n now_ts Hh Hd Hsu Hkp Hdir) as (p1 & old_id & Hz & [lg Hlog] & Hr).
  set (s1 := over pqcL p1 (a_sv a)) in *.
  assert (He : sv_env s1 = set_log lg (sv_env (a_sv a))) by exact Hlog.
  assert (R1 : ready s1).
  { split; [unfold no_faults; rewrite He; apply Hs|apply filled_registry_ok, (proj2 Hz)]. }
  destruct (generate_load_ok s1 dir n alg g R1 Hz Hdir) as (s2 & s3 & d & fs & fp & H2 & H3 & R3 & Hpair & Hw & Hfs & Hfp);
    [rewrite He; exact Hin|exact Hnm|exact Hne|].
  exists (mkWalRotation "success" old_id (fingerprint (f_data fp)) n now_ts), s3, d, fs, fp.
  eexists. split; [|split; [reflexivity|eauto 10]]. rewrite Hr.
  mrun (zoom_sv_run _ (over svL s1 a) _ _ H2). mrun (zoom_sv_run _ (over svL s2 (over svL s1 a)) _ _ H3).
  erewrite (bind_step (zoom svL current_key_id)) by
    (apply zoom_sv_run, (current_key_id_ok s3 (f_data fp)); rewrite Hw; reflexivity). reflexivity.
Qed.

(** Where nothing fails, a rotation of the WAL signing keys
    puts one new key pair into the two files and into the memory of the process,
    and names it in its result.  A process that loads the keys afterwards
    verifies what the rotating process signs.  A process that does not goes on
    signing with the key it has: whether the new public key accepts those
    signatures is what the scheme says of a signature by another key. *)
Theorem wal_rotation_takes_over a dir n alg g now_ts :
  ready (a_sv a) -> registry_history (sv_pqc (a_sv a)) -> no_dangling_key (sv_wal (a_sv a)) ->
  d_superuser (a_db a) = true -> wal_pqc_key_path (sv_guc (a_sv a)) = Some dir -> dir <> EmptyString ->
  dir ∈ dirs (sv_env (a_sv a)) -> sk_path dir <> pk_path dir -> sig_alg_named n alg g ->
  exists r a' d pk sk, pqc_rotate_wal_signing_keys (Some n) now_ts a = (Ok r, a') /\
    OQS_SIG_keypair g d = (pk, sk) /\ new_key_id r = fingerprint pk /\
    wal_public_key (sv_wal (a_sv a')) = Some pk /\
    forall data buflen, (sig_length_signature g <= buflen)%nat ->
      (forall s2, ready s2 -> sizes_agree (sv_pqc s2) alg g -> files (sv_env s2) = files (sv_env (a_sv a')) ->
       exists s3 sg s4 s5, pqc_wal_load_signing_keys (Some dir) (Some n) s2 = (Ok tt, s3) /\
         pqc_wal_sign_data data buflen (a_sv a') = (Ok (Some sg), s4) /\
         pqc_wal_verify_data data sg (wal_public_key (sv_wal s3)) (wal_public_key_len (sv_wal s3)) s3
           = (Ok true, s5)) /\
      (forall s2 old, ready s2 -> wal_sig_algorithm (sv_wal s2) = alg -> wal_keys_loaded (sv_wal s2) = true ->
       wal_secret_key (sv_wal s2) = Some old -> wal_secret_key_len (sv_wal s2) = length old ->
       length old = sig_length_secret_key g ->
       exists d' s3 s4, pqc_wal_sign_data data buflen s2 = (Ok (Some (OQS_SIG_sign g data old d')), s3) /\
         pqc_wal_verify_data data (OQS_SIG_sign g data old d') (Some pk) (length pk) (a_sv a')
           = (Ok (OQS_SIG_verify g data (OQS_SIG_sign g data old d') pk), s4)).
Proof.
  intros Hs Hh Hd Hsu Hkp Hdir Hin Hne Hnm. pose proof (sig_laws_named _ _ _ Hnm) as Hl.
  destruct (wal_rotation_run a dir n alg g now_ts) as (r & s3 & d & fs & fp & sg0 & Hr & Hid & R3 & Hpair & Hw & Hfs & Hfp);
    [assumption..|].
  pose proof (sig_pk_length g Hl d) as Hpk. pose proof (sig_sk_length g Hl d) as Hsk.
  pose proof (sig_sizes g Hl) as Hsz. rewrite Hpair in Hpk, Hsk. cbn [fst snd] in Hpk, Hsk.
  exists r, (over svL s3 a), d, (f_data fp), (f_data fs).
  split; [exact Hr|split; [exact Hpair|split; [exact Hid|split; [cbn; rewrite Hw; reflexivity|]]]].
  intros data buflen Hbuf. split.
  + intros t2 T2 Hag Hfiles. change (a_sv (over svL s3 a)) with s3 in Hfiles. rewrite <- Hfiles in Hfs, Hfp.
    destruct (load_ok t2 dir n alg g fs fp T2 Hdir Hnm) as (t3 & L3 & Wt & T3 & _);
      [rewrite Hsk, Hpk; exact Hag|exact Hfs|exact Hfp|unfold blen; lia|unfold blen; lia|].
    destruct (sign_data_ok s3 n g data (f_data fs) buflen R3) as (d' & t4 & S4 & _);
      [rewrite Hw; exact Hnm|exact Hl|rewrite Hw; reflexivity..|exact Hsk|exact Hbuf|].
    destruct (verify_data_ok t3 n g data (OQS_SIG_sign g data (f_data fs) d') (f_data fp) T3)
      as (t5 & V5 & _); [rewrite Wt; exact Hnm|exact Hpk|].
    do 4 eexists. split; [exact L3|]. split; [exact S4|]. rewrite Wt. cbn [wal_public_key wal_public_key_len].
    rewrite V5. pose proof (sig_correct g Hl data d d') as Hc. rewrite Hpair in Hc. rewrite Hc. reflexivity.
  + intros t2 old T2 <- Hld Hk Hkl Hol.
    destruct (sign_data_ok t2 n g data old buflen T2 Hnm Hl Hld Hk Hkl Hol Hbuf) as (d' & t3 & S3 & _).
    destruct (verify_data_ok s3 n g data (OQS_SIG_sign g data old d') (f_data fp) R3) as (t4 & V4 & _);
      [rewrite Hw; exact Hnm|exact Hpk|]. exists d', t3, t4. split; [exact S3|exact V4].
Qed.

(** The calls that succeed until the public key file is opened. *)
Definition second_file_fails : list (option nat) := repeat None 7 ++ [Some 0%nat].

Lemma generate_second_file_fails s dir n alg g :
  faults (sv_env s) = second_file_fails -> registry_ok (sv_pqc s) -> dir <> EmptyString ->
  dir ∈ dirs (sv_env s) -> sig_alg_named n alg g ->
  exists s' d m, pqc_wal_generate_signing_keys (Some dir) (Some n) s = (Err ERRCODE_FILE_ACCESS, s') /\
    files (sv_env s') = <[sk_path dir := mkFile (snd (OQS_SIG_keypair g d)) m]> (files (sv_env s)).
Proof.
  intros Hfs Hok Hdir Hin Hnm. unfold pqc_wal_generate_signing_keys.
  replace (empty_path (Some dir)) with false by (destruct dir; [contradiction|reflexivity]).
  cbn [default]. destruct s as [[[fs d0 fi di v c lg] ini algs seg att] gu ks ma wa qu].
  cbn in Hfs, Hin. subst fs.
  set (s1 := mkServer (mkPqc (mkEnv (repeat None 6 ++ [Some 0%nat]) d0 fi di v c lg) ini algs seg att) gu ks ma wa qu).
  rewrite (bind_step _ _ _ (Some true) s1).
  2:{ unfold stat_isdir. cbn. rewrite bool_decide_eq_true_2 by exact Hin. reflexivity. }
  mrun (resolve_ok s1 n alg g Hok Hnm). rewrite set_wal_step.
  destruct Hnm as (row0 & Hp & H0 & Ht & _ & Hg).
  destruct (pqc_sig_new_run (sv_pqc s1) alg row0 g) as (p' & Hr & (l & Hl) & _); auto.
  mrun (zoom_pqc_run _ (over walL (set_alg alg (sv_wal s1)) s1) _ _ Hr).
  destruct p' as [e2 ini2 algs2 seg2 att2]. cbn in Hl. subst e2.
  cbn. destruct (OQS_SIG_keypair g d0) as [pk sk] eqn:Hpair.
  unfold write_key_file, bind at 1, zoom at 1. cbn. unfold fwrite_bytes, append_file, bind, zoom. cbn.
  rewrite lookup_insert_eq. cbn. rewrite insert_insert_eq.
  eexists _, d0, _. rewrite Hpair. split; reflexivity.
Qed.

(** The two files are not replaced together.  When the public key
    file cannot be opened, the rotation raises an error with the new secret key
    already written and the old public key in place.  A process that loads the
    two files takes the mismatched pair without complaint, and its own public
    key accepts its signatures only if the scheme accepts those of another key. *)
Theorem interrupted_wal_rotation a dir n alg g now_ts fp :
  faults (sv_env (a_sv a)) = second_file_fails -> registry_history (sv_pqc (a_sv a)) ->
  no_dangling_key (sv_wal (a_sv a)) -> d_superuser (a_db a) = true ->
  wal_pqc_key_path (sv_guc (a_sv a)) = Some dir -> dir <> EmptyString ->
  dir ∈ dirs (sv_env (a_sv a)) -> sk_path dir <> pk_path dir -> sig_alg_named n alg g ->
  files (sv_env (a_sv a)) !! pk_path dir = Some fp -> length (f_data fp) = sig_length_public_key g ->
  exists a' d, pqc_rotate_wal_signing_keys (Some n) now_ts a = (Err ERRCODE_FILE_ACCESS, a') /\
    let sk := snd (OQS_SIG_keypair g d) in
    forall s2, ready s2 -> sizes_agree (sv_pqc s2) alg g -> files (sv_env s2) = files (sv_env (a_sv a')) ->
    exists s3, pqc_wal_load_signing_keys (Some dir) (Some n) s2 = (Ok tt, s3) /\
      wal_keys_loaded (sv_wal s3) = true /\
      wal_secret_key (sv_wal s3) = Some sk /\ wal_public_key (sv_wal s3) = Some (f_data fp) /\
      forall data buflen, (sig_length_signature g <= buflen)%nat ->
        exists d' s4 s5, pqc_wal_sign_data data buflen s3 = (Ok (Some (OQS_SIG_sign g data sk d')), s4) /\
          pqc_wal_verify_data data (OQS_SIG_sign g data sk d') (Some (f_data fp)) (length (f_data fp)) s3
            = (Ok (OQS_SIG_verify g data (OQS_SIG_sign g data sk d') (f_data fp)), s5).
Proof.
  intros Hfs Hh Hd Hsu Hkp Hdir Hin Hne Hnm Hfp Hlen. pose proof (sig_laws_named _ _ _ Hnm) as Hl.
  destruct (wal_rotation_start a dir n now_ts Hh Hd Hsu Hkp Hdir) as (p1 & old_id & Hz & [lg Hlog] & Hr).
  set (s1 := over pqcL p1 (a_sv a)) in *.
  assert (He : sv_env s1 = set_log lg (sv_env (a_sv a))) by exact Hlog.
  destruct (generate_second_file_fails s1 dir n alg g) as (s2 & d & m & H2 & Hf);
    [rewrite He; exact Hfs|apply filled_registry_ok, (proj2 Hz)|exact Hdir|rewrite He; exact Hin|exact Hnm|].
  exists (over svL s2 a), d. split.
  - rewrite Hr. apply bind_err. exact (zoom_sv_run _ (over svL s1 a) _ _ H2).
  - intros sk t2 T2 Hag Hfiles. change (a_sv (over svL s2 a)) with s2 in Hfiles. rewrite Hf, He in Hfiles.
    pose proof (sig_sk_length g Hl d) as Hsk. pose proof (sig_sizes g Hl) as Hsz. fold sk in Hsk, Hfiles.
    destruct (load_ok t2 dir n alg g (mkFile sk m) fp T2 Hdir Hnm) as (t3 & L3 & W3 & T3 & _);
      [cbn [f_data]; rewrite Hsk, Hlen; exact Hag|rewrite Hfiles; apply lookup_insert_eq
      |rewrite Hfiles, lookup_insert_ne by congruence; exact Hfp|unfold blen; cbn; lia|unfold blen; lia|].
    exists t3. rewrite W3. do 4 (split; [first [exact L3|reflexivity]|]). intros data buflen Hbuf.
    destruct (sign_data_ok t3 n g data sk buflen T3) as (d' & t4 & S4 & _);
      [rewrite W3; exact Hnm|exact Hl|rewrite W3; reflexivity..|exact Hsk|exact Hbuf|].
    destruct (verify_data_ok t3 n g data (OQS_SIG_sign g data sk d') (f_data fp) T3) as (t5 & V5 & _);
      [rewrite W3; exact Hnm|exact Hlen|]. eauto.
Qed.

(** *** The algorithms *)

Definition supported (i : PqcAlgorithmInfo) : bool :=
  match type i with
  | PQC_TYPE_KEM => match OQS_KEM_new (oqs_name i) with Some _ => true | None => false end
  | PQC_TYPE_SIG => match OQS_SIG_new (oqs_name i) with Some _ => true | None => false end
  end.

Lemma get_info_row p i row : (i < 18)%nat -> pqc_algorithms p !! i = Some row ->
  pqc_get_algorithm_info (Z.of_nat i) p = (Ok (Some row), p).
Proof.
  intros Hi Hrow. cbn. unfold PQC_ALG_COUNT. replace ((Z.of_nat i <? 0) || (18 <=? Z.of_nat i)) with false by lia.
  cbn. rewrite Nat2Z.id, Hrow. reflexivity.
Qed.

Lemma available_run p todo : length (pqc_algorithms p) = 18%nat -> forall i, (i + todo = 18)%nat ->
  exists l, available_algs todo i p = (Ok l, p) /\
    algorithm_rows l p = (Ok (map algorithm_row (List.filter has_sizes (drop i (pqc_algorithms p)))), p).
Proof.
  intros Hlen. induction todo as [|todo IH]; intros i Hi.
  - exists []. split; [reflexivity|]. rewrite drop_ge by lia. reflexivity.
  - destruct (lookup_lt_is_Some_2 (pqc_algorithms p) i) as [row Hrow]; [lia|].
    destruct (IH (S i)) as (l & Ha & Hr); [lia|]. cbn [available_algs].
    mrun (get_info_row p i row ltac:(lia) Hrow). mrun Ha. rewrite (drop_S _ _ _ Hrow). cbn [List.filter].
    eexists. split; [reflexivity|]. destruct (has_sizes row); [|exact Hr]. cbn [algorithm_rows map].
    mrun (get_info_row p i row ltac:(lia) Hrow). mrun Hr. reflexivity.
Qed.

Lemma has_sizes_filled i row : pqc_algorithms_static !! i = Some row -> has_sizes (filled row) = supported row.
Proof.
  intros Hi. pose proof (static_oqs_name _ _ Hi) as Hn.
  assert (Hz : public_key_len row = 0%nat /\ secret_key_len row = 0%nat).
  { clear Hn. do 18 (destruct i as [|i]; [injection Hi as <-; split; reflexivity|]). discriminate. }
  unfold filled, supported, has_sizes. destruct (type row).
  - destruct (OQS_KEM_new (oqs_name row)) as [k|] eqn:Hk; [|destruct Hz as [-> ->]; reflexivity].
    cbn. pose proof (kem_sizes k (KEM_laws _ k Hn Hk)).
    destruct (Nat.eqb_spec (kem_length_public_key k) 0); [lia|reflexivity].
  - destruct (OQS_KEM_new (oqs_name row)), (OQS_SIG_new (oqs_name row)) as [g|] eqn:Hg;
      try (destruct Hz as [-> ->]; reflexivity);
      cbn; pose proof (sig_sizes g (SIG_laws _ g Hn Hg));
      (destruct (Nat.eqb_spec (sig_length_public_key g) 0); [lia|reflexivity]).
Qed.

(** The listing has one row for each algorithm of the table
    that liboqs provides and none for the others, in the order of the table,
    with the sizes liboqs reports, in a process that has used the layer or not. *)
Theorem algorithms_listed p : registry_history p ->
  exists p', pqc_algorithms_list p =
    (Ok (map (fun i => algorithm_row (filled i)) (List.filter supported pqc_algorithms_static)), p').
Proof.
  intros Hh. destruct (init_if_needed_sized p Hh) as (p' & Hi & [_ Hz] & _). exists p'.
  unfold pqc_algorithms_list. mrun Hi.
  destruct (available_run p' 18) with (i := 0%nat) as (l & Ha & Hr); [rewrite Hz, length_fmap; reflexivity|reflexivity|].
  change (Z.to_nat PQC_ALG_COUNT) with 18%nat. mrun Ha. rewrite Hr, drop_0, Hz.
  assert (Hall : forall l0, (forall row, In row l0 -> has_sizes (filled row) = supported row) ->
    List.filter has_sizes (filled <$> l0) = map filled (List.filter supported l0)).
  { induction l0 as [|row l0 IH]; intros Hin; [reflexivity|]. cbn. rewrite Hin by (left; reflexivity).
    destruct (supported row); cbn; rewrite IH by (intros; apply Hin; right; assumption); reflexivity. }
  rewrite Hall, map_map; [reflexivity|]. intros row Hrow. apply list_elem_of_In, list_elem_of_lookup in Hrow as [i Hrow].
  exact (has_sizes_filled i row Hrow).
Qed.

(** *** Ages and reports *)

Lemma age_exact now_ts created : Z.abs (now_ts - created) < 2 ^ 63 ->
  age_in_days now_ts created = Z.quot (now_ts - created) USECS_PER_DAY.
Proof.
  intros Hb. unfold age_in_days, c_long. rewrite Z.mod_small by lia.
  replace (now_ts - created + 2 ^ 63 - 2 ^ 63) with (now_ts - created) by lia.
  unfold c_int. assert (Z.abs (Z.quot (now_ts - created) USECS_PER_DAY) < 2 ^ 31).
  { rewrite <- Z.quot_abs by discriminate. rewrite Z.quot_div_nonneg by (unfold USECS_PER_DAY; lia).
    apply Z.div_lt_upper_bound; unfold USECS_PER_DAY; lia. }
  rewrite Z.mod_small; lia.
Qed.

Lemma over_90_days now_ts created : Z.abs (now_ts - created) < 2 ^ 63 ->
  (90 <? age_in_days now_ts created) = (created + 91 * USECS_PER_DAY <=? now_ts).
Proof.
  intros Hb. rewrite age_exact by exact Hb. unfold USECS_PER_DAY in *.
  pose proof (Z.quot_rem' (now_ts - created) 86400000000) as Hq.
  pose proof (Z.rem_bound_abs (now_ts - created) 86400000000 ltac:(lia)) as Hr.
  pose proof (Z.rem_sign_nz (now_ts - created) 86400000000 ltac:(lia)) as Hs.
  apply eq_true_iff_eq. rewrite Z.ltb_lt, Z.leb_le.
  destruct (Z.eq_dec (Z.rem (now_ts - created) 86400000000) 0) as [E|E]; [lia|]. specialize (Hs E).
  destruct (Z.lt_trichotomy (now_ts - created) 0) as [Hn|[Hn|Hn]]; [|rewrite Hn in *; cbn in *; lia|].
  - assert (Z.rem (now_ts - created) 86400000000 < 0)
      by (rewrite (Z.sgn_neg (now_ts - created)) in Hs by lia; apply Z.sgn_neg_iff; exact Hs). lia.
  - assert (0 < Z.rem (now_ts - created) 86400000000)
      by (rewrite (Z.sgn_pos (now_ts - created)) in Hs by lia; apply Z.sgn_pos_iff; exact Hs). lia.
Qed.

(** When the key of a purpose was made: the newest active one, or now. *)
Definition key_time (d : db) (purpose : string) (now_ts : Z) : Z :=
  match newest key_id (List.filter (active_key purpose) (d_keys d)) with
  | Some k => created_at k
  | None => now_ts
  end.

(** Of the three rows of the status, the rotation of an audit key
    is recommended exactly from ninety-one days after its creation, at any
    distance of times an [int64] can hold and without overflow of the number of
    days; it is never recommended for a key that does not exist, nor for the
    WAL signing key, whose age is reported as 0 whatever it is. *)
Theorem rotation_recommended_from a clock :
  no_faults (sv_env (a_sv a)) ->
  Z.abs (clock 1%nat - key_time (a_db a) "classical" (clock 1%nat)) < 2 ^ 63 ->
  Z.abs (clock 2%nat - key_time (a_db a) "pqc" (clock 2%nat)) < 2 ^ 63 ->
  exists w c p, pqc_key_rotation_status clock a = (Ok [w; c; p], a) /\
    age_days w = 0 /\ rotation_recommended w = false /\
    rotation_recommended c
      = (key_time (a_db a) "classical" (clock 1%nat) + 91 * USECS_PER_DAY <=? clock 1%nat) /\
    rotation_recommended p
      = (key_time (a_db a) "pqc" (clock 2%nat) + 91 * USECS_PER_DAY <=? clock 2%nat).
Proof.
  intros Hn Hc Hp. unfold pqc_key_rotation_status. cbn [key_status_row].
  rewrite (bind_step _ _ a _ a) by reflexivity. rewrite bind_assoc, (bind_step _ _ a _ a) by (apply spi_calm, Hn).
  rewrite bind_ret_l, bind_assoc, (bind_step _ _ a _ a) by (apply spi_calm, Hn). rewrite bind_ret_l.
  do 3 eexists. split; [reflexivity|]. split; [reflexivity|]. split; [reflexivity|].
  unfold key_time in *. cbn [rotation_recommended].
  destruct (newest key_id (List.filter (active_key "classical") (d_keys (a_db a)))),
    (newest key_id (List.filter (active_key "pqc") (d_keys (a_db a)))); cbn; split; apply over_90_days; assumption.
Qed.

Lemma zoom_fst_inv {A} (m : M pqc A) (b b' : backend) o : zoom fstL m b = (o, b') -> snd b' = snd b.
Proof. unfold zoom. destruct (m (view fstL b)). intros E. injection E as <- <-. reflexivity. Qed.

Lemma spi_inv {A} (m : M db A) (b b' : backend) x : SPI m b = (Ok x, b') -> m (snd b) = (Ok x, snd b').
Proof.
  unfold SPI. intros Hm. minv Hm. unfold zoom in Hm0. destruct (attempt (view benvL b)) as [o e].
  injection Hm0 as -> <-. destruct a; [|discriminate]. unfold zoom in Hm. cbn in Hm.
  destruct (m (snd b)) as [o1 d1]. injection Hm as -> <-. reflexivity.
Qed.

(** What new audit keys leave in the tables. *)
Lemma init_keys_inv calg palg b b' : pqc_audit_init_keys calg palg b = (Ok tt, b') ->
  exists k0 pk sk, d_escrow (snd b') = d_escrow (snd b) /\
    d_keys (snd b') = (map deactivate (d_keys (snd b)) ++ [k0]) ++
      [mkAuditKey (d_key_seq (snd b) + 1) "pqc" palg pk sk (d_now (snd b)) true].
Proof.
  intros Hr. unfold pqc_audit_init_keys in Hr. destruct (negb _); [discriminate|].
  minv Hr. apply zoom_fst_inv in Hm. minv Hr. apply zoom_fst_inv in Hm0.
  destruct (_ || _); [discriminate|]. minv Hr. apply zoom_fst_inv in Hm1.
  minv Hr. destruct a2 as [epk esk]. apply zoom_fst_inv in Hm2. minv Hr. apply zoom_fst_inv in Hm3.
  minv Hr. destruct a3 as [ppk psk]. apply zoom_fst_inv in Hm4.
  minv Hr. apply spi_inv in Hm5. minv Hr. apply spi_inv in Hm6. apply spi_inv in Hr.
  injection Hm5 as _ E5. injection Hm6 as _ E6. injection Hr as E7. rewrite <- E7, <- E6, <- E5.
  assert (E : snd s4 = snd b) by congruence. cbn. rewrite E. eauto.
Qed.

Lemma elem_of_insert_by {A} (id : A -> Z) (x y : A) l : In y (insert_by id x l) <-> y = x \/ In y l.
Proof.
  induction l as [|z l IH]; cbn; [intuition congruence|].
  destruct (id x <=? id z); cbn; [|rewrite IH]; intuition congruence.
Qed.

Lemma elem_of_sort_by {A} (id : A -> Z) (y : A) l : In y (sort_by id l) <-> In y l.
Proof.
  induction l as [|x l IH]; [reflexivity|]. cbn. rewrite elem_of_insert_by, IH. intuition congruence.
Qed.

(** The report of backup keys pairs an active key with every
    escrow of its algorithm, whichever key the shares were made of: after new
    audit keys, the new secret key is reported as held in escrow by any escrow
    recorded for an earlier key of the same algorithm. *)
Theorem escrow_reported_for_new_key calg palg p d b' e a :
  pqc_audit_init_keys calg palg (p, d) = (Ok tt, b') -> In e (d_escrow d) -> escrow_algorithm e = palg ->
  a_db a = snd b' -> no_faults (sv_env (a_sv a)) ->
  exists rows pk sk, pqc_backup_key_info a = (Ok rows, a) /\
    let k := mkAuditKey (d_key_seq d + 1) "pqc" palg pk sk (d_now d) true in
    In k (d_keys (a_db a)) /\ In (join_row k (Some e)) rows.
Proof.
  intros Hi He Ha Hd Hn. apply init_keys_inv in Hi as (k0 & pk & sk & Hesc & Hks). cbn [snd] in Hesc, Hks.
  do 3 eexists. split; [apply spi_calm, Hn|]. cbv beta zeta. rewrite Hd, Hesc, Hks.
  split; [apply in_or_app; right; left; reflexivity|].
  apply list_elem_of_In, list_elem_of_join. eexists. split.
  2:{ apply list_elem_of_In, in_map, elem_of_sort_by, filter_In. split; [apply in_or_app; right; left; reflexivity|reflexivity]. }
  apply list_elem_of_In. unfold left_join. cbn [key_algorithm].
  assert (Hf : In e (List.filter (fun x => String.eqb (escrow_algorithm x) palg) (d_escrow d)))
    by (apply filter_In; split; [exact He|rewrite Ha; apply String.eqb_refl]).
  destruct (List.filter _ (d_escrow d)) as [|e0 l0]; [destruct Hf|].
  apply (in_map (fun x => join_row _ (Some x))), Hf.
Qed.
End Properties.

(** ** Witnesses *)

Import Toy.

(** The server of the samples with a key directory, in which other keys are. *)
Definition sample_admin (fs : list (option nat)) : admin :=
  mkAdmin (over senvL (set_faults fs sample_wal_env) sample_server) fresh_db 3.

(** A process with other keys signs what the new public key does not accept. *)
Definition stale_server : server :=
  over walL (mkWalState true (Some (repeat 9 7)) 7 (Some (repeat 9 6)) 6 PQC_ALG_ML_DSA_65 true) sample_server.

Lemma wal_rotation_takes_over_witness :
  exists r a' sg s3 s4, pqc_rotate_wal_signing_keys (Some "ml-dsa-65"%string) 5 (sample_admin []) = (Ok r, a') /\
    old_key_id r = "(none)"%string /\
    pqc_wal_sign_data [1; 2] 20 stale_server = (Ok (Some sg), s3) /\
    pqc_wal_verify_data [1; 2] sg (wal_public_key (sv_wal (a_sv a'))) 6 (a_sv a') = (Ok false, s4).
Proof.
  destruct (wal_rotation_takes_over (sample_admin []) "/keys" "ml-dsa-65" PQC_ALG_ML_DSA_65 (toy_sig 6 7 20) 5)
    as (r & a' & d & pk & sk & Hr & Hpair & _ & Hpk & Hsign);
    [split; reflexivity|left; split; reflexivity|discriminate|reflexivity|reflexivity|discriminate|reflexivity
    |discriminate|exact sample_alg|].
  destruct (Hsign [1; 2] 20%nat (le_n _)) as [_ Hstale].
  destruct (Hstale stale_server (repeat 9 7)) as (d' & s3 & s4 & H3 & H4);
    [split; reflexivity|reflexivity..|].
  assert (Hd : pk = spread 6 0) by (vm_compute in Hr; injection Hr as <- <-; injection Hpk as <-; reflexivity).
  assert (Hold : old_key_id r = "(none)"%string) by (vm_compute in Hr; injection Hr as <- <-; reflexivity).
  exists r, a'. do 3 eexists. split; [exact Hr|]. split; [exact Hold|]. split; [exact H3|].
  rewrite Hpk. subst pk. etransitivity; [exact H4|]. vm_compute. reflexivity.
Defined.

Lemma interrupted_wal_rotation_witness :
  exists a' d, pqc_rotate_wal_signing_keys (Some "ml-dsa-65"%string) 5 (sample_admin second_file_fails)
      = (Err ERRCODE_FILE_ACCESS, a') /\
    exists s3, pqc_wal_load_signing_keys (Some "/keys"%string) (Some "ml-dsa-65"%string)
        (over senvL (set_files (files (sv_env (a_sv a'))) env0) sample_server) = (Ok tt, s3) /\
      wal_secret_key (sv_wal s3) = Some (snd (OQS_SIG_keypair (toy_sig 6 7 20) d)) /\
      wal_public_key (sv_wal s3) = Some (repeat 2 6).
Proof.
  destruct (interrupted_wal_rotation (sample_admin second_file_fails) "/keys" "ml-dsa-65" PQC_ALG_ML_DSA_65
    (toy_sig 6 7 20) 5 (mkFile (repeat 2 6) 420)) as (a' & d & Hr & Hload);
    [reflexivity|left; split; reflexivity|discriminate|reflexivity|reflexivity|discriminate|reflexivity
    |discriminate|exact sample_alg|reflexivity|reflexivity|].
  exists a', d. split; [exact Hr|].
  destruct (Hload (over senvL (set_files (files (sv_env (a_sv a'))) env0) sample_server))
    as (s3 & H3 & _ & Hsk & Hpk & _); [split; reflexivity| |reflexivity|exists s3; auto].
  intros row Hrow. vm_compute in Hrow. injection Hrow as <-. split; left; reflexivity.
Defined.

Lemma algorithms_listed_witness :
  exists p', pqc_algorithms_list (pqc_boot env0 None false) =
    (Ok [("ML-KEM-512", "KEM", 1, 6, 9, 7); ("ML-KEM-768", "KEM", 3, 8, 12, 10);
         ("ML-KEM-1024", "KEM", 5, 10, 15, 12); ("ML-DSA-44", "SIG", 2, 5, 6, 18);
         ("ML-DSA-65", "SIG", 3, 6, 7, 20); ("ML-DSA-87", "SIG", 5, 7, 8, 22)]%string, p').
Proof.
  destruct (algorithms_listed (pqc_boot env0 None false)) as [p' Hp']; [left; split; reflexivity|].
  exists p'. exact Hp'.
Defined.

(** Keys of the first day, one of each purpose. *)
Definition sample_keyring : db := snd (snd (pqc_audit_init_keys "Ed25519" "ML-DSA-65" audit0)).

Lemma rotation_recommended_from_witness :
  exists w c p, pqc_key_rotation_status (fun n => 91 * USECS_PER_DAY - 2 + Z.of_nat n)
      (mkAdmin (server_boot sample_guc env0) sample_keyring 3) = (Ok [w; c; p],
      mkAdmin (server_boot sample_guc env0) sample_keyring 3) /\
    rotation_recommended c = false /\ rotation_recommended p = true.
Proof.
  destruct (rotation_recommended_from (mkAdmin (server_boot sample_guc env0) sample_keyring 3)
    (fun n => 91 * USECS_PER_DAY - 2 + Z.of_nat n)) as (w & c & p & Hr & _ & _ & Hc & Hp);
    [reflexivity|vm_compute; reflexivity|vm_compute; reflexivity|].
  exists w, c, p. split; [exact Hr|]. split; [rewrite Hc|rewrite Hp]; vm_compute; reflexivity.
Defined.

(** An escrow of the keys above, and new keys after it. *)
Definition escrowed : db := set_escrow [mkEscrowRow "vault" "ML-DSA-65" 5 3] sample_keyring.

Lemma escrow_reported_for_new_key_witness :
  exists b' rows k, pqc_audit_init_keys "Ed25519" "ML-DSA-65" (pqc_boot env0 None false, escrowed) = (Ok tt, b') /\
    pqc_backup_key_info (mkAdmin (server_boot sample_guc env0) (snd b') 3)
      = (Ok rows, mkAdmin (server_boot sample_guc env0) (snd b') 3) /\
    ~ In k (d_keys escrowed) /\ In (join_row k (Some (mkEscrowRow "vault" "ML-DSA-65" 5 3))) rows.
Proof.
  destruct (pqc_audit_init_keys "Ed25519" "ML-DSA-65" (pqc_boot env0 None false, escrowed)) as [o b'] eqn:Hi.
  assert (o = Ok tt) as -> by (vm_compute in Hi; injection Hi as <- _; reflexivity).
  destruct (escrow_reported_for_new_key "Ed25519" "ML-DSA-65" (pqc_boot env0 None false) escrowed b'
    (mkEscrowRow "vault" "ML-DSA-65" 5 3) (mkAdmin (server_boot sample_guc env0) (snd b') 3))
    as (rows & pk & sk & Hr & _ & Hin);
    [exact Hi|left; reflexivity|reflexivity|reflexivity|reflexivity|].
  exists b', rows. eexists. split; [reflexivity|]. split; [exact Hr|]. split; [|exact Hin].
  vm_compute. intros [E|[E|[]]]; discriminate E.
Defined.
