(* ===== verification/SignQueue.v ===== *)
(** * Every finished segment is signed

    The queue and the signer of src/backend/access/transam/xlog.c over a whole
    round: segments are finished, and the deferred signing that follows leaves a
    signature next to each of them. *)
From Stdlib Require Import ZArith Lia Bool String List.
From stdpp Require Import base gmap list strings.
From S2P Require Import Prelude CryptoIface Env PqcRegistry PqcSig Server KeyManage WalKeys WalSign Rotation.
Import ListNotations.
Local Open Scope Z_scope.
Local Open Scope pg_scope.

(** The ends of the segments [l], in order. *)
Fixpoint finish_all (l : list (Z * Z)) : M server unit :=
  match l with
  | [] => ret tt
  | (segno, tli) :: l' => do! segment_finished segno tli in finish_all l'
  end.

Section Round.
  Context `{CL : CryptoLaws} (wal_segment_size : Z).

Local Abbreviation path sg := (XLogFilePath (snd sg) (fst sg) wal_segment_size).

(** *** Files *)

Lemma sig_path_not_segment (a b : Z * Z) : sig_path (path a) <> path b.
Proof.
  rewrite sig_path_eq, XLogFilePath_eq. intros Heq. apply (f_equal String.length) in Heq.
  rewrite !append_length, !length_XLogFileName in Heq. cbn in Heq. lia.
Qed.

Lemma sig_path_inj (a b : Z * Z) : sig_path (path a) = sig_path (path b) -> path a = path b.
Proof.
  rewrite !sig_path_eq, !XLogFilePath_eq. intros Heq. apply append_inj in Heq as [_ Heq]; [|reflexivity].
  apply append_inj in Heq as [-> _]; [reflexivity|]. rewrite !length_XLogFileName. reflexivity.
Qed.

(** *** Signing keeps the sizes *)

#[local] Hint Resolve sized_ensure sized_env sized_sig_new : pg.

Lemma sized_bump f : preserves sized (bump f).
Proof.
  intros p Hp. unfold bump, modify. cbn. destruct (pqc_stat_counters p); exact Hp.
Qed.

Lemma sized_size f alg : preserves sized (sig_size f alg).
Proof. unfold sig_size, pqc_get_algorithm_info. msteps. Qed.

Lemma sized_sign ctx m ml sk skl : preserves sized (pqc_sig_sign ctx m ml sk skl).
Proof. unfold pqc_sig_sign, pqc_stat_count_sig_sign. msteps. apply sized_bump. Qed.

Lemma sized_sign_segment segno tli :
  preserves (fun s => sized (sv_pqc s)) (XLogPqcSignSegment wal_segment_size segno tli).
Proof.
  assert (Hp : forall A (m : M pqc A), preserves sized m -> preserves (fun s => sized (sv_pqc s)) (zoom pqcL m))
    by (intros A m Hm; apply (preserves_zoom pqcL); exact Hm).
  assert (He : forall A (m : M env A), preserves (fun s => sized (sv_pqc s)) (zoom senvL m))
    by (intros; apply preserves_zoom_frame; intros e s Hs; exact Hs).
  unfold XLogPqcSignSegment, pqc_wal_sign_data. cbv zeta.
  repeat (mstep || apply He || (apply Hp; first [apply sized_sig_new | apply sized_sign | apply sized_size]) || solve [auto with pg]).
Qed.

Lemma sized_sign_buffer s s' : sized (sv_pqc s) -> sized (sv_pqc s') -> sign_buffer s' = sign_buffer s.
Proof.
  intros [_ H1] [_ H2]. unfold sign_buffer, pqc_sig_max_signature_len.
  rewrite (sig_size_same signature_len PQC_ALG_ML_DSA_65 s s') by congruence. reflexivity.
Qed.

(** The buffer is as long as a signature of ML-DSA-65, whatever the keys are. *)
Lemma sign_buffer_size s g65 :
  sized (sv_pqc s) -> OQS_SIG_new "ML-DSA-65" = Some g65 -> sign_buffer s = sig_length_signature g65.
Proof.
  intros [_ Hp] Hg. assert (Hl : sig_laws g65) by (apply (SIG_laws "ML-DSA-65"); [cbn; tauto|exact Hg]).
  destruct (sig_sizes g65 Hl) as (_ & _ & Hz). unfold sign_buffer, pqc_sig_max_signature_len, sig_size.
  assert (Hrow : exists row, pqc_get_algorithm_info PQC_ALG_ML_DSA_65 (sv_pqc s) = (Ok (Some row), sv_pqc s) /\
    type row = PQC_TYPE_SIG /\ signature_len row = sig_length_signature g65).
  { assert (Hi : pqc_algorithms (sv_pqc s) !! Z.to_nat PQC_ALG_ML_DSA_65
      = filled <$> (pqc_algorithms_static !! Z.to_nat PQC_ALG_ML_DSA_65)) by (rewrite Hp; apply list_lookup_fmap).
    eexists. split; [change (pqc_get_algorithm_info PQC_ALG_ML_DSA_65 (sv_pqc s))
      with (@Ok (option PqcAlgorithmInfo) (pqc_algorithms (sv_pqc s) !! Z.to_nat PQC_ALG_ML_DSA_65), sv_pqc s);
      rewrite Hi; reflexivity|].
    unfold filled. cbn. rewrite Hg. split; reflexivity. }
  destruct Hrow as (row & Hrow & Ht & Hs). unfold zoom. change (view pqcL s) with (sv_pqc s).
  rewrite (bind_step _ _ _ _ _ Hrow). unfold is_type. rewrite bool_decide_eq_true_2 by exact Ht. cbn [fst ret]. rewrite Hs.
  destruct (Nat.eqb_spec (sig_length_signature g65) 0); [lia|reflexivity].
Qed.

(** *** A round *)

(** The process holds a key pair of the algorithm [g]. *)
Definition holder (n : string) (g : OQS_SIG) (sk pk : bytes) (s : server) : Prop :=
  ready s /\ sized (sv_pqc s) /\ holds_keys s n g sk pk.

(** It can sign: the signatures of [g] fit the buffer. *)
Definition signer (n : string) (g : OQS_SIG) (sk pk : bytes) (s : server) : Prop :=
  ready s /\ sized (sv_pqc s) /\ holds_keys s n g sk pk /\ (sig_length_signature g <= sign_buffer s)%nat.

(** Next to the segment is a signature of its hash. *)
Definition signed (g : OQS_SIG) (pk : bytes) (s : server) (sg : Z * Z) : Prop :=
  exists f sigf, files (sv_env s) !! path sg = Some f /\ files (sv_env s) !! sig_path (path sg) = Some sigf /\
    OQS_SIG_verify g (SHA256 (f_data f)) (f_data sigf) pk = true.

Definition present (s : server) (sg : Z * Z) : Prop := is_Some (files (sv_env s) !! path sg).

Lemma sign_one n g sk pk d0 s sg :
  signer n g sk pk s -> OQS_SIG_keypair g d0 = (pk, sk) -> present s sg ->
  exists s', XLogPqcSignSegment wal_segment_size (fst sg) (snd sg) s = (Ok tt, s') /\ framed s s' /\
    signer n g sk pk s' /\ signed g pk s' sg /\
    (forall x, files (sv_env s') !! path x = files (sv_env s) !! path x) /\
    (forall x, signed g pk s x -> signed g pk s' x).
Proof.
  intros (Hr & Hz & Hk & Hb) Hkp [f Hf].
  destruct (sign_segment_ok s (fst sg) (snd sg) wal_segment_size n g sk pk f Hr Hk Hf Hb)
    as (s' & d & m & Hs & [p ->] & Hr' & Hfiles).
  pose proof (sized_sign_segment (fst sg) (snd sg) s Hz) as Hz'. rewrite Hs in Hz'. cbn [snd] in Hz'.
  exists (over pqcL p s). set (s' := over pqcL p s) in *.
  assert (Hsame : forall x, files (sv_env s') !! path x = files (sv_env s) !! path x)
    by (intros x; rewrite Hfiles; apply lookup_insert_ne, sig_path_not_segment).
  assert (Hown : signed g pk s' sg).
  { exists f, (mkFile (OQS_SIG_sign g (SHA256 (f_data f)) sk d) m). rewrite Hsame. split; [exact Hf|].
    split; [rewrite Hfiles; apply lookup_insert_eq|]. cbn [f_data].
    pose proof (sig_correct g (sig_laws_of_alg _ _ _ (proj1 Hk)) (SHA256 (f_data f)) d0 d) as Hc.
    rewrite Hkp in Hc. exact Hc. }
  split; [exact Hs|]. split; [exists p; reflexivity|]. split; [|split; [exact Hown|split; [exact Hsame|]]].
  - repeat split; try apply Hk; try apply Hr'; try apply Hz'. rewrite (sized_sign_buffer s s' Hz Hz'). exact Hb.
  - intros x (fx & sx & Hx1 & Hx2 & Hv).
    destruct (decide (sig_path (path sg) = sig_path (path x))) as [E|Hne].
    + unfold signed in Hown |- *. rewrite <- E, <- (sig_path_inj _ _ E). exact Hown.
    + exists fx, sx. rewrite Hsame. split; [exact Hx1|]. split; [|exact Hv].
      rewrite Hfiles, lookup_insert_ne by exact Hne. exact Hx2.
Qed.

Lemma sign_all_signed n g sk pk d0 l : OQS_SIG_keypair g d0 = (pk, sk) ->
  forall s, signer n g sk pk s -> Forall (present s) l ->
  exists s', sign_all wal_segment_size l s = (Ok tt, s') /\ framed s s' /\ Forall (signed g pk s') l /\
    (forall x, files (sv_env s') !! path x = files (sv_env s) !! path x) /\
    (forall x, signed g pk s x -> signed g pk s' x).
Proof.
  intros Hkp. induction l as [|[segno tli] l IH]; intros s Hs Hp.
  - exists s. split; [reflexivity|]. split; [exists (sv_pqc s); destruct s; reflexivity|]. auto.
  - apply Forall_cons in Hp as [Hp Hl].
    destruct (sign_one n g sk pk d0 s (segno, tli) Hs Hkp Hp) as (s1 & H1 & F1 & Hs1 & Hown & Hsame & Hkeep).
    destruct (IH s1 Hs1) as (s2 & H2 & F2 & Hall & Hsame2 & Hkeep2).
    { eapply Forall_impl; [exact Hl|]. intros x Hx. unfold present. rewrite Hsame. exact Hx. }
    exists s2. cbn [sign_all]. mrun H1. split; [exact H2|]. split; [eapply framed_trans; eassumption|].
    split; [constructor; auto|]. split; [intros x; rewrite Hsame2; apply Hsame|auto].
Qed.

(** A signature that does not fit is made and thrown away. *)
Lemma sign_data_long s n g data sk buflen :
  ready s -> sig_alg_named n (wal_sig_algorithm (sv_wal s)) g ->
  wal_keys_loaded (sv_wal s) = true -> wal_secret_key (sv_wal s) = Some sk ->
  wal_secret_key_len (sv_wal s) = length sk -> length sk = sig_length_secret_key g ->
  (forall d, buflen < length (OQS_SIG_sign g data sk d))%nat ->
  exists s', pqc_wal_sign_data data buflen s = (Ok None, s') /\ framed s s' /\ ready s' /\
    files (sv_env s') = files (sv_env s).
Proof.
  intros Hs Hnm Hld Hsk Hskl Hlen Hbuf. unfold pqc_wal_sign_data.
  rewrite (bind_step _ _ _ (sv_wal s) s) by reflexivity. rewrite Hld. cbn [negb].
  destruct (sig_new_ok s n _ g (proj2 Hs) Hnm) as (s1 & H1 & F1 & R1 & E1). mrun H1.
  rewrite Hsk, Hskl.
  destruct (sign_run (mkSigContext g (wal_sig_algorithm (sv_wal s))) data sk (sv_pqc s1) Hlen)
    as (r & p2 & H2 & Hr & Hk & Hnf).
  mrun (zoom_pqc_run _ s1 _ _ H2). destruct (Hnf (proj1 (R1 Hs))) as [Hn2 Hne].
  destruct Hr as [->|[d ->]]; [contradiction|]. cbn [oqs_sig]. specialize (Hbuf d).
  destruct (Nat.eqb_spec (length (OQS_SIG_sign g data sk d)) 0); [lia|].
  replace (buflen <? length (OQS_SIG_sign g data sk d))%nat with true by (symmetry; apply Nat.ltb_lt; exact Hbuf).
  eexists. split; [reflexivity|]. split; [destruct F1 as [q ->]; eexists; reflexivity|].
  split; [exact (ready_same_keys _ _ Hk Hn2 (R1 Hs))|]. destruct Hk as (_ & _ & Hf). rewrite <- E1. exact Hf.
Qed.

Lemma sign_one_long n g sk pk s sg :
  holder n g sk pk s -> (forall m d, sign_buffer s < length (OQS_SIG_sign g m sk d))%nat -> present s sg ->
  exists s', XLogPqcSignSegment wal_segment_size (fst sg) (snd sg) s = (Ok tt, s') /\ framed s s' /\
    holder n g sk pk s' /\ sign_buffer s' = sign_buffer s /\ files (sv_env s') = files (sv_env s).
Proof.
  intros (Hr & Hz & Hk) Hlong [f Hf]. pose proof (sized_sign_segment (fst sg) (snd sg) s Hz) as Hz'.
  assert (Hrun : exists s', XLogPqcSignSegment wal_segment_size (fst sg) (snd sg) s = (Ok tt, s') /\ framed s s' /\
    ready s' /\ files (sv_env s') = files (sv_env s)).
  { unfold XLogPqcSignSegment. cbv zeta. mrun (zoom_env_same _ s _ (hash_segment_ok _ _ _ (proj1 Hr) Hf)).
    unfold sign_buffer in Hlong.
    destruct (zoom pqcL (pqc_sig_max_signature_len PQC_ALG_ML_DSA_65) s) as [o s0] eqn:Hmax.
    pose proof (sig_size_pure _ _ _ _ _ Hmax) as (-> & max & ->). cbn [fst] in Hlong. mrun Hmax.
    destruct Hk as (Hnm & Hld & Hsk & Hskl & _ & _ & Hlen & _).
    destruct (sign_data_long s n g (SHA256 (f_data f)) sk _ Hr Hnm Hld Hsk Hskl Hlen (Hlong (SHA256 (f_data f))))
      as (s1 & H1 & [p ->] & R1 & E1).
    mrun H1. eexists. split; [reflexivity|]. split; [eexists; reflexivity|]. split; [exact R1|exact E1]. }
  destruct Hrun as (s' & Hs & [p ->] & R' & E'). rewrite Hs in Hz'. cbn [snd] in Hz'.
  exists (over pqcL p s). split; [exact Hs|]. split; [eexists; reflexivity|]. split; [split; [exact R'|split; [exact Hz'|exact Hk]]|].
  split; [apply sized_sign_buffer; assumption|exact E'].
Qed.

Lemma sign_all_long n g sk pk l : forall s,
  holder n g sk pk s -> (forall m d, sign_buffer s < length (OQS_SIG_sign g m sk d))%nat -> Forall (present s) l ->
  exists s', sign_all wal_segment_size l s = (Ok tt, s') /\ framed s s' /\ files (sv_env s') = files (sv_env s).
Proof.
  induction l as [|[segno tli] l IH]; intros s Hs Hlong Hp.
  - exists s. split; [reflexivity|]. split; [exists (sv_pqc s); destruct s; reflexivity|reflexivity].
  - apply Forall_cons in Hp as [Hp Hl].
    destruct (sign_one_long n g sk pk s (segno, tli) Hs Hlong Hp) as (s1 & H1 & F1 & Hs1 & Hb & E1).
    destruct (IH s1 Hs1) as (s2 & H2 & F2 & E2).
    { rewrite Hb. exact Hlong. }
    { eapply Forall_impl; [exact Hl|]. intros x Hx. unfold present. rewrite E1. exact Hx. }
    exists s2. cbn [sign_all]. mrun H1. split; [exact H2|]. split; [eapply framed_trans; eassumption|congruence].
Qed.

Lemma finish_all_run l : forall s, wal_pqc_signing (sv_wal s) = true ->
  finish_all l s = (Ok tt, over queueL (snd (enqueue_all l (sv_queue s))) s).
Proof.
  induction l as [|[segno tli] l IH]; intros s Hs; [destruct s; reflexivity|].
  cbn [finish_all]. set (q1 := snd (XLogPqcEnqueueSign segno tli (sv_queue s))).
  rewrite (bind_step _ _ _ tt (over queueL q1 s)).
  - rewrite IH by exact Hs. reflexivity.
  - unfold segment_finished. rewrite (bind_step _ _ _ (sv_wal s) s) by reflexivity. rewrite Hs. reflexivity.
Qed.

(** C16: liveness.  No finished segment is left without a signature where
    signatures are no longer than those of ML-DSA-65.  Where nothing fails, the
    process holds a key pair and no more than eight segments are waiting, the
    deferred signing that follows the end of the segments ends without an error
    and empties the queue.  If the signatures of the algorithm fit the buffer,
    which is as long as a signature of ML-DSA-65 whatever the algorithm is, it
    changes no segment and leaves next to every one of them, those that were
    waiting before as well, a signature of its SHA-256 that the public key
    verifies.  If they are longer, as those of ML-DSA-87 and of SLH-DSA are, it
    writes nothing, and the segments stay unsigned without being queued again. *)
Theorem finished_segments_signed l n g g65 sk pk d0 s :
  holder n g sk pk s -> OQS_SIG_keypair g d0 = (pk, sk) -> wal_pqc_signing (sv_wal s) = true ->
  OQS_SIG_new "ML-DSA-65" = Some g65 ->
  wf_queue (sv_queue s) -> (length (queued (sv_queue s) ++ l) <= PQC_SIGN_QUEUE_SIZE)%nat ->
  Forall (present s) (queued (sv_queue s) ++ l) ->
  let round := (do! finish_all l in XLogPqcProcessDeferredSigning wal_segment_size) in
  ((sig_length_signature g <= sig_length_signature g65)%nat ->
   exists s', round s = (Ok tt, s') /\ queued (sv_queue s') = [] /\
     Forall (signed g pk s') (queued (sv_queue s) ++ l) /\
     forall x, files (sv_env s') !! path x = files (sv_env s) !! path x) /\
  ((forall m d, sig_length_signature g65 < length (OQS_SIG_sign g m sk d))%nat ->
   exists s', round s = (Ok tt, s') /\ queued (sv_queue s') = [] /\ files (sv_env s') = files (sv_env s)).
Proof.
  intros (Hr & Hz & Hk) Hkp Hon Hg Hwf Hlen Hp round. unfold round. rewrite <- (sign_buffer_size s g65 Hz Hg).
  mrun (finish_all_run l s Hon).
  destruct (enqueue_all_run l _ Hwf) as [Hwf' Hq]. rewrite firstn_all2 in Hq by exact Hlen.
  set (q' := snd (enqueue_all l (sv_queue s))) in *.
  rewrite (process_queue_run wal_segment_size (over queueL q' s)) by exact Hwf'.
  change (sv_queue (over queueL q' s)) with q'. rewrite Hq.
  set (s1 := over queueL (mkQueue 0 (q_segno q') (q_tli q')) (over queueL q' s)). split.
  - intros Hb. destruct (sign_all_signed n g sk pk d0 _ Hkp s1 (conj Hr (conj Hz (conj Hk Hb))) Hp)
      as (s2 & H2 & [p ->] & Hall & Hsame & _).
    eexists. split; [exact H2|]. split; [reflexivity|]. split; [exact Hall|exact Hsame].
  - intros Hb. destruct (sign_all_long n g sk pk _ s1 (conj Hr (conj Hz Hk)) Hb Hp) as (s2 & H2 & [p ->] & E2).
    eexists. split; [exact H2|]. split; [reflexivity|exact E2].
Qed.
End Round.

(** ** Witness *)

Import Toy.

(** A process that has initialised the layer and holds a key pair of an
    algorithm, with one segment waiting and one about to be finished. *)
Definition sample_round (g : OQS_SIG) (alg : PqcAlgorithm) : server :=
  let e := set_files {[XLogFilePath 1 7 (2 ^ 24) := mkFile [1; 2; 3] 384; XLogFilePath 1 8 (2 ^ 24) := mkFile [4] 384]} env0 in
  let '(pk, sk) := OQS_SIG_keypair g 0 in
  mkServer (mkPqc e true (filled <$> pqc_algorithms_static) None false) (sv_guc sample_reload) (sv_keys sample_reload)
    (sv_master sample_reload) (mkWalState true (Some sk) (length sk) (Some pk) (length pk) alg true)
    (mkQueue 1 (7 :: repeat 0 7) (1 :: repeat 0 7)).

Definition sig65 : OQS_SIG := toy_sig 6 7 20.
Definition sig87 : OQS_SIG := toy_sig 7 8 22.

Lemma alg87 : sig_alg_named "ml-dsa-87" PQC_ALG_ML_DSA_87 sig87.
Proof.
  exists (sig_row PQC_ALG_ML_DSA_87 "ML-DSA-87" "ML-DSA-87" 5). split; [discriminate|]. repeat split.
Qed.

Lemma sample_present g alg : Forall (present (2 ^ 24) (sample_round g alg)) [(7, 1); (8, 1)].
Proof.
  assert (Hf : files (sv_env (sample_round g alg)) =
    {[XLogFilePath 1 7 (2 ^ 24) := mkFile [1; 2; 3] 384; XLogFilePath 1 8 (2 ^ 24) := mkFile [4] 384]})
    by (unfold sample_round; destruct (OQS_SIG_keypair g 0); reflexivity).
  unfold present. rewrite Hf. apply Forall_cons_2; [|apply Forall_cons_2; [|apply Forall_nil_2]];
    (eexists; vm_compute; reflexivity).
Qed.

(** With keys of ML-DSA-65 both segments are signed, with those of ML-DSA-87,
    whose signatures are longer, none is. *)
Lemma finished_segments_signed_witness :
  let round := (do! finish_all [(8, 1)] in XLogPqcProcessDeferredSigning (2 ^ 24)) in
  (exists s', round (sample_round sig65 PQC_ALG_ML_DSA_65) = (Ok tt, s') /\
     Forall (signed (2 ^ 24) sig65 (fst (OQS_SIG_keypair sig65 0)) s') [(7, 1); (8, 1)]) /\
  exists s', round (sample_round sig87 PQC_ALG_ML_DSA_87) = (Ok tt, s') /\ queued (sv_queue s') = [] /\
    files (sv_env s') = files (sv_env (sample_round sig87 PQC_ALG_ML_DSA_87)).
Proof.
  intros round. split.
  - destruct (finished_segments_signed (2 ^ 24) [(8, 1)] "ml-dsa-65" sig65 sig65
      (snd (OQS_SIG_keypair sig65 0)) (fst (OQS_SIG_keypair sig65 0)) 0 (sample_round sig65 PQC_ALG_ML_DSA_65)) as [Hfit _].
    + split; [split; [reflexivity|apply filled_registry_ok; reflexivity]|]. split; [split; reflexivity|].
      split; [exact sample_alg|]. repeat split.
    + reflexivity.
    + reflexivity.
    + reflexivity.
    + repeat split; cbn; unfold PQC_SIGN_QUEUE_SIZE; lia.
    + cbn. unfold PQC_SIGN_QUEUE_SIZE. lia.
    + apply sample_present.
    + destruct Hfit as (s' & Hr & _ & Hall & _); [reflexivity|]. exists s'. split; [exact Hr|exact Hall].
  - destruct (finished_segments_signed (2 ^ 24) [(8, 1)] "ml-dsa-87" sig87 sig65
      (snd (OQS_SIG_keypair sig87 0)) (fst (OQS_SIG_keypair sig87 0)) 0 (sample_round sig87 PQC_ALG_ML_DSA_87)) as [_ Hlong].
    + split; [split; [reflexivity|apply filled_registry_ok; reflexivity]|]. split; [split; reflexivity|].
      split; [exact alg87|]. repeat split.
    + reflexivity.
    + reflexivity.
    + reflexivity.
    + repeat split; cbn; unfold PQC_SIGN_QUEUE_SIZE; lia.
    + cbn. unfold PQC_SIGN_QUEUE_SIZE. lia.
    + apply sample_present.
    + apply Hlong. intros m d. unfold sig87, sig65, toy_sig. cbn [sig_length_signature OQS_SIG_sign].
      rewrite length_spread. lia.
Defined.
