(* ===== verification/Compliance.v ===== *)
(** * Compliance reports (contrib/pgcrypto_pqc/pgcrypto_pqc--1.2--1.3.sql)

    The function [pqc_audit_compliance_report] and the view
    [pg_pqc_compliance_status] read parameters by name, count the rows of the
    audit log and verify the end of its chain.  Of the rows of the report the
    section and the status are modelled; the requirement and the detail are
    texts. *)
From Stdlib Require Import ZArith Lia Bool String Ascii List Sorted.
From stdpp Require Import base gmap list strings.
From S2P Require Import Prelude CryptoIface Env Spec PqcRegistry Server Envelope AuditLog AuditChain CryptoPolicy.
Import ListNotations.
Local Open Scope Z_scope.
Local Open Scope pg_scope.

(** ** Booleans from text (src/backend/utils/adt/bool.c) *)

Definition char_code (c : ascii) : Z := Z.of_N (N_of_ascii c).

Definition parse_bool_with_len (value : string) (len : nat) : option bool :=
  let same w n := pg_strncasecmp n value w =? 0 in
  match value with
  | EmptyString => None
  | String c _ =>
      (if (c =? "t")%char || (c =? "T")%char then if same "true" len then Some true else None
      else if (c =? "f")%char || (c =? "F")%char then if same "false" len then Some false else None
      else if (c =? "y")%char || (c =? "Y")%char then if same "yes" len then Some true else None
      else if (c =? "n")%char || (c =? "N")%char then if same "no" len then Some false else None
      else if (c =? "o")%char || (c =? "O")%char then
        if same "on" (if 2 <? len then len else 2)%nat then Some true
        else if same "off" (if 2 <? len then len else 2)%nat then Some false
        else None
      else if (c =? "1")%char then if (len =? 1)%nat then Some true else None
      else if (c =? "0")%char then if (len =? 1)%nat then Some false else None
      else None)%string
  end.

Fixpoint skip_space (s : string) : string :=
  match s with
  | String c s' => if isspace (char_code c) then skip_space s' else s
  | EmptyString => EmptyString
  end.

(** The length without the white space at the end. *)
Fixpoint length_trimmed (s : string) : nat :=
  match s with
  | EmptyString => O
  | String c s' =>
      match length_trimmed s' with
      | O => if isspace (char_code c) then O else 1%nat
      | n => S n
      end
  end.

(** [None] is an error. *)
Definition boolin (in_str : string) : option bool :=
  let str := skip_space in_str in parse_bool_with_len str (length_trimmed str).

(** ** Parameters by name *)

(** The parameters of the server, those of the policy, and custom ones, which
    are not in any table and which any session can set. *)
Record settings := mkSettings {
  st_server : guc;
  st_wal_pqc_signing : bool;
  st_policy : gucs;
  st_custom : gmap string string
}.

Definition show_bool (b : bool) : string := if b then "on" else "off".

(** [current_setting(name, true)] *)
Definition current_setting (cfg : settings) (name : string) : option string :=
  if String.eqb name "tde_enabled" then Some (show_bool (tde_enabled (st_server cfg)))
  else if String.eqb name "wal_pqc_signing" then Some (show_bool (st_wal_pqc_signing cfg))
  else match st_policy cfg !! name with
       | Some r => Some (p_value r)
       | None => st_custom cfg !! name
       end.

(** [current_setting(name, true)::boolean], false when the cast fails. *)
Definition boolean_setting (cfg : settings) (name : string) : option bool :=
  match current_setting cfg name with
  | None => None
  | Some t => match boolin t with Some b => Some b | None => Some false end
  end.

(** A condition that is NULL does not hold. *)
Definition holds_true (b : option bool) : bool := match b with Some true => true | _ => false end.

(** [x IN (...)] *)
Definition one_of (x : option string) (l : list string) : bool :=
  match x with Some v => existsb (String.eqb v) l | None => false end.

(** [upper], of ASCII letters. *)
Definition upper_char (c : ascii) : ascii :=
  let n := N_of_ascii c in
  if ((97 <=? n) && (n <=? 122))%N then ascii_of_N (n - 32) else c.
Fixpoint upper (s : string) : string :=
  match s with EmptyString => EmptyString | String c s' => String (upper_char c) (upper s') end.

Section Compliance.
  Context `{Crypto}.

(** ** The report *)

Definition count_log : M backend Z := SPI (gets (fun d => Z.of_nat (length (d_log d)))).

(** Whether a row of the verification says that the chain is not valid. *)
Definition chain_broken (v : Z * bool * bool * bool) : bool := let '(_, chain, _, _) := v in negb chain.

(** The section that depends on the framework; an unknown one or NULL has none. *)
Definition framework_rows (framework : option string) (v_crypto_policy : option string)
    (v_tde_enabled v_wal_signing : option bool) (v_audit_count : Z) : list (string * string) :=
  match framework with
  | None => []
  | Some f =>
      (if String.eqb (upper f) "HIPAA" then
        [("HIPAA Access Controls",
          if (0 <? v_audit_count)%Z && one_of v_crypto_policy ["pqc-only"; "hybrid"] then "PASS" else "WARN")]
      else if String.eqb (upper f) "FEDRAMP" then
        [("FedRAMP FIPS 140-3",
          if one_of v_crypto_policy ["pqc-only"] then "PASS"
          else if one_of v_crypto_policy ["hybrid"] then "PASS" else "FAIL")]
      else if String.eqb (upper f) "SOC2" then
        [("SOC2 CC6.1 - Logical Access",
          if holds_true v_tde_enabled && holds_true v_wal_signing then "PASS" else "WARN")]
      else [])%string
  end.

Definition pqc_audit_compliance_report (cfg : settings) (framework : option string)
    : M backend (list (string * string)) :=
  let v_crypto_policy := current_setting cfg "crypto_policy" in
  let v_tde_enabled := boolean_setting cfg "pqc_tde.enabled" in
  let v_wal_signing := boolean_setting cfg "wal_pqc_signing" in
  let! v_audit_count := count_log in
  let! v_chain_valid :=
    if 0 <? v_audit_count then
      let! vs := pqc_audit_verify_chain (Some (Z.max 1 (v_audit_count - 100))) None in
      ret (negb (existsb chain_broken vs))
    else ret true in
  ret ([("Encryption at Rest", if holds_true v_tde_enabled then "PASS" else "FAIL");
        ("Cryptographic Policy",
         if one_of v_crypto_policy ["pqc-only"; "hybrid"; "transitional"] then "PASS" else "WARN");
        ("WAL Integrity", if holds_true v_wal_signing then "PASS" else "FAIL");
        ("Audit Logging", if (0 <? v_audit_count)%Z then "PASS" else "FAIL");
        ("Audit Chain Integrity", if v_chain_valid : bool then "PASS" else "FAIL")]%string
       ++ framework_rows framework v_crypto_policy v_tde_enabled v_wal_signing v_audit_count).

(** ** The view *)

Record compliance_status := mkStatus {
  cs_crypto_policy : option string;
  cs_tde_status : string;
  cs_wal_signing_status : string;
  cs_audit_entry_count : Z;
  cs_hash_chain_status : string;
  cs_compliance_readiness : string
}.

Definition max_log_id (d : db) : option Z := log_id <$> newest log_id (d_log d).

Definition pg_pqc_compliance_status (cfg : settings) : M backend compliance_status :=
  let policy := current_setting cfg "crypto_policy" in
  let tde := default "off"%string (current_setting cfg "pqc_tde.enabled") in
  let wal := default "off"%string (current_setting cfg "wal_pqc_signing") in
  let! count := count_log in
  let! chain :=
    if count =? 0 then ret "N/A"%string
    else
      let! last := SPI (gets max_log_id) in
      let! vs := pqc_audit_verify_chain (Some (Z.max 1 (default 1 last - 100))) None in
      ret (if negb (existsb chain_broken vs) then "INTACT" else "BROKEN")%string in
  ret (mkStatus policy tde wal count chain
         (if one_of policy ["pqc-only"; "hybrid"] && String.eqb tde "on" && String.eqb wal "on" && (0 <? count)%Z
          then "COMPLIANT" else "NOT COMPLIANT")%string).
End Compliance.

Arguments one_of : simpl never.
Arguments current_setting : simpl never.

(** ** Lemmas *)

(** The policy is one of the names of its type. *)
Lemma policy_setting cfg ops : st_policy cfg = snd (run_settings ops boot_gucs) ->
  exists v, current_setting cfg "crypto_policy" = Some v /\ In v crypto_policy_options.
Proof.
  intros Hg. destruct (run_settings_typed ops boot_gucs boot_typed) as [Hs Ht].
  destruct (shape_of _ "crypto_policy" (boot_param PGC_SIGHUP (Some crypto_policy_options) "custom") Hs)
    as (r & Hr & Hsh); [vm_compute; reflexivity|]. injection Hsh as _ Ho _.
  exists (p_value r). unfold current_setting. cbn [String.eqb Ascii.eqb Bool.eqb]. rewrite Hg, Hr.
  split; [reflexivity|]. specialize (Ht _ r Hr). unfold typed_param in Ht. rewrite Ho in Ht. apply Ht.
Qed.

Section Reports.
  Context `{CR : Crypto}.

Lemma policy_not_asked v l : In v crypto_policy_options -> forallb (fun x => negb (existsb (String.eqb x) crypto_policy_options)) l = true ->
  one_of (Some v) l = false.
Proof.
  intros Hv Hl. apply not_true_is_false. unfold one_of. rewrite existsb_exists. intros (x & Hx & E).
  apply String.eqb_eq in E as <-. rewrite forallb_forall in Hl. specialize (Hl v Hx).
  apply negb_true_iff, not_true_iff_false in Hl. apply Hl, existsb_exists. exists v.
  split; [exact Hv|apply String.eqb_refl].
Qed.

(** The reports ask for policies that do not exist: after any
    settings whatever, the view says NOT COMPLIANT and the report fails the
    section of FedRAMP and does not pass that of HIPAA, with every protection of
    the server switched on. *)
Theorem compliance_never_reached cfg ops :
  st_policy cfg = snd (run_settings ops boot_gucs) ->
  (forall b st b', pg_pqc_compliance_status cfg b = (Ok st, b') -> cs_compliance_readiness st = "NOT COMPLIANT"%string) /\
  (forall f b rows b' status, pqc_audit_compliance_report cfg (Some f) b = (Ok rows, b') ->
     (In ("FedRAMP FIPS 140-3"%string, status) rows -> status = "FAIL"%string) /\
     (In ("HIPAA Access Controls"%string, status) rows -> status = "WARN"%string)).
Proof.
  intros Hg. destruct (policy_setting cfg ops Hg) as (v & Hv & Hin).
  assert (H2 : forall l, incl l ["pqc-only"; "hybrid"]%string -> one_of (Some v) l = false).
  { intros l Hl. apply policy_not_asked; [exact Hin|]. apply forallb_forall. intros x Hx.
    destruct (Hl x Hx) as [<-|[<-|[]]]; reflexivity. }
  split.
  - intros b st b' Hr. unfold pg_pqc_compliance_status in Hr. cbv zeta in Hr. rewrite Hv in Hr.
    minv Hr. minv Hr. apply (f_equal fst) in Hr. injection Hr as <-. cbn [cs_compliance_readiness].
    rewrite H2 by apply incl_refl. reflexivity.
  - intros f b rows b' status Hr. unfold pqc_audit_compliance_report in Hr. cbv zeta in Hr. rewrite Hv in Hr.
    minv Hr. minv Hr. injection Hr as <- _. unfold framework_rows.
    rewrite (H2 ["pqc-only"; "hybrid"]%string), (H2 ["pqc-only"]%string), (H2 ["hybrid"]%string), andb_false_r
      by (intros x; cbn; tauto).
    split; intros Hrow; cbn [app In] in Hrow; do 5 (destruct Hrow as [Hrow|Hrow]; [discriminate|]);
      repeat match type of Hrow with context [if ?c then _ else _] => destruct c end;
      cbn in Hrow; intuition congruence.
Qed.

(** Encryption at rest is judged by a parameter no part of the
    server has: a server that encrypts fails the section unless someone made up
    that parameter, and a session that sets it to a spelling of true passes it
    on a server that does not encrypt. *)
Theorem encryption_section_spoofed cfg ops framework b rows b' :
  st_policy cfg = snd (run_settings ops boot_gucs) ->
  pqc_audit_compliance_report cfg framework b = (Ok rows, b') ->
  hd_error rows = Some ("Encryption at Rest"%string,
    if holds_true (match st_custom cfg !! "pqc_tde.enabled"%string with
                   | Some t => boolin t | None => None end) then "PASS" else "FAIL")%string.
Proof.
  intros Hg Hr. destruct (run_settings_typed ops boot_gucs boot_typed) as [Hs _].
  rewrite <- Hg in Hs. apply (f_equal (lookup "pqc_tde.enabled"%string)) in Hs. rewrite !lookup_fmap in Hs.
  unfold pqc_audit_compliance_report in Hr. cbv zeta in Hr. minv Hr. minv Hr. injection Hr as <- _.
  cbn. unfold boolean_setting, current_setting. cbn [String.eqb Ascii.eqb Bool.eqb].
  destruct (st_policy cfg !! _); [discriminate|].
  destruct (st_custom cfg !! _) as [t|]; [destruct (boolin t) as [[]|]|]; reflexivity.
Qed.
End Reports.

(** ** The sample of the chain *)

Section Sample.
  Context `{CL : CryptoLaws} `{JL : JsonbLaws}.

(** The stored hash is the hash of the row. *)
Definition hash_matches (r : audit_row) : bool :=
  (length (entry_hash r) =? AUDIT_HASH_LEN)%nat && bytes_eqb (SHA384 (row_message r)) (entry_hash r).

Lemma sorted_ids_count l1 r l2 b :
  StronglySorted Z.lt (map log_id (l1 ++ r :: l2)) -> Forall (fun x => b <= log_id x) (l1 ++ r :: l2) ->
  b + Z.of_nat (length l1) <= log_id r.
Proof.
  revert b. induction l1 as [|x l1 IH]; intros b Hs Hf; apply Forall_cons in Hf as [Hx Hf]; [cbn; lia|].
  cbn in Hs. apply StronglySorted_inv in Hs as [Hs Hlt].
  specialize (IH (b + 1) Hs). cbn [length]. apply Z.le_trans with (b + 1 + Z.of_nat (length l1)); [lia|]. apply IH.
  apply Forall_forall. intros y Hy. rewrite List.Forall_forall in Hlt.
  assert (log_id x < log_id y) by (apply Hlt, in_map, list_elem_of_In, Hy). lia.
Qed.

(** The section of the chain, in tables with keys and rows of their algorithms. *)
Lemma report_chain p d k cfg fw :
  registry_ok p -> no_faults (p_env p) -> log_ok d -> holds_keys d k ->
  Forall (same_algorithms k) (d_log d) -> d_log d <> [] ->
  exists rows p', pqc_audit_compliance_report cfg fw (p, d) = (Ok rows, (p', d)) /\
    nth_error rows 4 = Some ("Audit Chain Integrity"%string,
      if forallb hash_matches
           (List.filter (in_range (Z.max 1 (Z.of_nat (length (d_log d)) - 100)) None) (d_log d))
      then "PASS" else "FAIL")%string.
Proof.
  intros Hp Hn [Hs _] Hk Ha Hne. unfold pqc_audit_compliance_report. cbv zeta.
  destruct (calm_spec _ _ _ _ (bspec_read d true (fun d => Z.of_nat (length (d_log d)))) (p, d) (conj Hp eq_refl) Hn)
    as (n & [p1 d1] & H1 & [Hp1 Hd1] & Hn1 & ->). cbn in Hp1, Hd1. subst d1.
  unfold count_log. mrun H1.
  replace (0 <? Z.of_nat (length (d_log d))) with true
    by (symmetry; apply Z.ltb_lt; destruct (d_log d); [contradiction|cbn [length]; lia]).
  set (st := Z.max 1 (Z.of_nat (length (d_log d)) - 100)).
  destruct (verify_chain_calm d k (Some st) None Hk Hs) with (s := (p1, d))
    as (vs & [p2 d2] & H2 & [_ Hd2] & _ & ->);
    [apply (proj2 (Forall_forall _ _)); intros x Hx; apply list_elem_of_In, filter_In in Hx as [Hx _];
     apply (proj1 (Forall_forall _ _) Ha), list_elem_of_In, Hx|split; [exact Hp1|reflexivity]|exact Hn1|].
  cbn in Hd2. subst d2. rewrite bind_assoc. mrun H2. rewrite bind_ret_l.
  do 2 eexists. split; [reflexivity|]. cbn [nth_error app default]. do 2 f_equal.
  match goal with |- (if ?a then _ else _) = (if ?b then _ else _) => assert (E : a = b); [|rewrite E; reflexivity] end.
  clear H2. induction (List.filter _ (d_log d)) as [|r l IH]; [reflexivity|]. cbn [map existsb forallb].
  rewrite negb_orb, IH. unfold chain_broken at 1, verdict. rewrite negb_involutive. reflexivity.
Qed.

(** The report passes an intact log, and fails one in which any
    of the last hundred and one rows does not match its hash: the rows counted
    from the end all have ids in the range the report verifies, whatever rows
    are missing before them. *)
Theorem report_checks_recent_rows p d k cfg fw :
  registry_ok p -> no_faults (p_env p) -> log_ok d -> holds_keys d k ->
  Forall (same_algorithms k) (d_log d) -> d_log d <> [] -> Forall (fun r => 1 <= log_id r) (d_log d) ->
  exists rows p' status, pqc_audit_compliance_report cfg fw (p, d) = (Ok rows, (p', d)) /\
    nth_error rows 4 = Some ("Audit Chain Integrity"%string, status) /\
    (forallb hash_matches (d_log d) = true -> status = "PASS"%string) /\
    (forall l1 r l2, d_log d = l1 ++ r :: l2 -> (length l2 <= 100)%nat -> hash_matches r = false ->
       status = "FAIL"%string).
Proof.
  intros Hp Hn Hl Hk Ha Hne Hid. destruct (report_chain p d k cfg fw) as (rows & p' & Hr & Hs); [assumption..|].
  exists rows, p'. eexists. split; [exact Hr|]. split; [exact Hs|]. split.
  - intros Hall. replace (forallb _ _) with true; [reflexivity|]. symmetry. apply forallb_forall.
    intros x Hx. apply filter_In in Hx as [Hx _]. exact (proj1 (forallb_forall _ _) Hall x Hx).
  - intros l1 r l2 Hd Hlen Hbad. replace (forallb _ _) with false; [reflexivity|]. symmetry.
    apply not_true_iff_false. rewrite forallb_forall. intros Hall.
    enough (hash_matches r = true) by congruence. apply Hall, filter_In.
    destruct Hl as [Hsort _]. rewrite Hd in Hsort, Hid. rewrite Hd. split; [apply in_or_app; right; left; reflexivity|].
    pose proof (sorted_ids_count l1 r l2 1 Hsort Hid). unfold in_range. rewrite andb_true_r, length_app. cbn [length].
    apply Z.leb_le. lia.
Qed.
End Sample.

(** ** Witnesses *)

Import Toy ToyJson.

(** A server with every protection on and the strictest policy. *)
Definition strict_ops : list setting :=
  [("crypto_policy", Some "FIPS-pqc-level5", PGC_SIGHUP, PGC_S_FILE)]%string.

Definition strict (custom : gmap string string) : settings :=
  mkSettings sample_guc true (snd (run_settings strict_ops boot_gucs)) custom.

Lemma compliance_never_reached_witness :
  exists st b', pg_pqc_compliance_status (strict {["pqc_tde.enabled" := "on"]}%string) audit2 = (Ok st, b') /\
    cs_tde_status st = "on"%string /\ cs_wal_signing_status st = "on"%string /\
    cs_hash_chain_status st = "INTACT"%string /\
    cs_crypto_policy st = Some "fips-pqc-level5"%string /\
    cs_compliance_readiness st = "NOT COMPLIANT"%string.
Proof.
  destruct (pg_pqc_compliance_status (strict {["pqc_tde.enabled" := "on"]}%string) audit2) as [o b'] eqn:Hr.
  pose proof (f_equal fst Hr) as Ho. vm_compute in Ho. destruct o as [st|e|]; [|discriminate|discriminate].
  exists st, b'. split; [reflexivity|].
  pose proof (proj1 (compliance_never_reached (strict {["pqc_tde.enabled" := "on"]}%string) strict_ops eq_refl)
    audit2 st b' Hr) as Hc.
  injection Ho as Ho. rewrite <- Ho in Hc |- *. do 4 (split; [reflexivity|]). exact Hc.
Defined.

(** Encryption is on; then it is off, and a session spells true. *)
Definition bare_guc : guc := mkGuc "/pgdata" false 0 None None None None false.

Lemma encryption_section_spoofed_witness :
  exists rows b' rows2 b2,
    pqc_audit_compliance_report (strict ∅) None audit0 = (Ok rows, b') /\
    hd_error rows = Some ("Encryption at Rest", "FAIL")%string /\
    pqc_audit_compliance_report (mkSettings bare_guc false boot_gucs {["pqc_tde.enabled" := " Tr "]}%string)
      None audit0 = (Ok rows2, b2) /\
    hd_error rows2 = Some ("Encryption at Rest", "PASS")%string.
Proof.
  destruct (pqc_audit_compliance_report (strict ∅) None audit0) as [o b'] eqn:H1.
  destruct (pqc_audit_compliance_report (mkSettings bare_guc false boot_gucs {["pqc_tde.enabled" := " Tr "]}%string)
    None audit0) as [o2 b2] eqn:H2.
  pose proof (f_equal fst H1) as E1. pose proof (f_equal fst H2) as E2. vm_compute in E1, E2.
  destruct o as [rows|?|], o2 as [rows2|?|]; try discriminate. exists rows, b', rows2, b2.
  split; [reflexivity|]. split; [exact (encryption_section_spoofed (strict ∅) strict_ops None audit0 rows b' eq_refl H1)|].
  split; [reflexivity|].
  exact (encryption_section_spoofed (mkSettings bare_guc false boot_gucs {["pqc_tde.enabled" := " Tr "]}%string)
    [] None audit0 rows2 b2 eq_refl H2).
Defined.

(** The log of the samples, its last row changed afterwards. *)
Definition forged_row (r : audit_row) : audit_row :=
  mkAuditRow (log_id r) (session_id r) (user_name r) (database_name r) (event_type r) "{}" (classical_sig_alg r)
    (classical_signature r) (pqc_sig_alg r) (pqc_signature r) (prev_hash r) (entry_hash r).
Definition forged_log : list audit_row := Eval vm_compute in take 2 rows2 ++ map forged_row (drop 2 rows2).
Definition forged_last : audit_row :=
  List.last forged_log (mkAuditRow 0 "a" "a" "a" "a" "a" "a" [] "a" [] None []).
Definition forged_db : db := set_rows forged_log (d_log_seq (snd audit2)) (snd audit2).

Lemma report_checks_recent_rows_witness :
  exists rows p', pqc_audit_compliance_report (strict ∅) (Some "soc2"%string) (fst audit2, forged_db)
      = (Ok rows, (p', forged_db)) /\
    nth_error rows 4 = Some ("Audit Chain Integrity", "FAIL")%string.
Proof.
  destruct (report_checks_recent_rows (fst audit2) forged_db (ring 0 1) (strict ∅) (Some "soc2"%string))
    as (rows & p' & status & Hr & Hs & _ & Hbad).
  - vm_compute; reflexivity.
  - vm_compute; reflexivity.
  - split; vm_compute; repeat constructor.
  - apply ring_holds; vm_compute; reflexivity.
  - repeat (constructor; [split; vm_compute; reflexivity|]). constructor.
  - discriminate.
  - repeat (constructor; [vm_compute; discriminate|]). constructor.
  - exists rows, p'. split; [exact Hr|]. rewrite Hs.
    rewrite (Hbad (take 2 forged_log) forged_last []); [reflexivity|vm_compute; reflexivity|cbn; lia|vm_compute; reflexivity].
Defined.
