(* ===== verification/HbaFile.v ===== *)
(** * Reading the authentication files (src/backend/libpq/hba.c)

    The tokenizer of pg_hba.conf and pg_ident.conf: lines with continuations,
    tokens with quotes, fields with commas, and files included by a line or by
    an [@] token.  A line ends at a NUL byte for the scanner, as in C; what
    [fgets] makes of NUL bytes in a file, error texts and the memory contexts
    are not modelled.  The resolution of file names
    (src/backend/utils/misc/conffiles.c) is a parameter. *)
From Stdlib Require Import ZArith Lia Bool String List.
From stdpp Require Import base gmap list strings.
From S2P Require Import Prelude CryptoIface Env CString ScramSecret Scram Auth.
Import ListNotations.
Local Open Scope Z_scope.
Local Open Scope pg_scope.

Definition CONF_FILE_MAX_DEPTH : nat := 10.

(** ** Tokens *)

Definition pg_isblank (c : Z) : bool := (c =? 32) || (c =? 9) || (c =? 13).

Definition COMMA : Z := 44.
Definition QUOTE : Z := 34.
Definition HASH : Z := 35.
Definition BACKSLASH : Z := 92.

(** What the loop over the characters of a token leaves: the buffer, the flags,
    and the rest of the line from the character that ended it. *)
Record scanned := mkScanned {
  sc_buf : bytes;
  sc_saw_quote : bool;
  initial_quote : bool;
  terminating_comma : bool;
  sc_rest : bytes
}.

(** The line ends where its bytes do or at a NUL. *)
Definition at_eol (l : bytes) : bool := match l with [] => true | c :: _ => c =? 0 end.

Fixpoint skip_to_token (l : bytes) : bytes :=
  match l with
  | c :: l' => if negb (c =? 0) && (pg_isblank c || (c =? COMMA)) then skip_to_token l' else l
  | [] => []
  end.

Fixpoint skip_to_eol (l : bytes) : bytes :=
  match l with
  | c :: l' => if negb (c =? 0) then skip_to_eol l' else l
  | [] => []
  end.

Fixpoint token_loop (l buf : bytes) (in_quote was_quote saw_quote initial : bool) : scanned :=
  match l with
  | [] => mkScanned buf saw_quote initial false []
  | c :: l' =>
      if (c =? 0) || (pg_isblank c && negb in_quote) then mkScanned buf saw_quote initial false l
      else if (c =? HASH) && negb in_quote then mkScanned buf saw_quote initial false (skip_to_eol l')
      else if (c =? COMMA) && negb in_quote then mkScanned buf saw_quote initial true l
      else
        let buf' := if negb (c =? QUOTE) || was_quote then buf ++ [c] else buf in
        let was_quote' := if in_quote && (c =? QUOTE) then negb was_quote else false in
        if c =? QUOTE then
          token_loop l' buf' (negb in_quote) was_quote' true (initial || (length buf' =? 0)%nat)
        else token_loop l' buf' in_quote was_quote' saw_quote initial
  end.

(** Whether there was a token, and what was scanned. *)
Definition next_token (l : bytes) : bool * scanned :=
  let s := token_loop (skip_to_token l) [] false false false false in
  (sc_saw_quote s || (0 <? length (sc_buf s))%nat, s).

(** A token as the tokenizer makes it: its text and whether it began with a
    quote. *)
Definition token : Type := bytes * bool.

Record TokenizedAuthLine := mkTokLine {
  tl_fields : list (list token);
  tl_line_num : Z;
  tl_error : bool               (* err_msg is not NULL *)
}.

(** What opening an included file gives: the lines of the file, or why it could
    not be opened. *)
Inductive inclusion :=
| Included (lines : list TokenizedAuthLine)
| NotFound
| NotOpened.

(** ** Fields *)

Section Fields.
  Variable expand_file : bytes -> M env inclusion.    (* at the next depth *)

(** [tokenize_expand_file]: the tokens of all lines up to one in error. *)
Fixpoint flatten_lines (lines : list TokenizedAuthLine) : list token * bool :=
  match lines with
  | [] => ([], false)
  | l :: lines' =>
      if tl_error l then ([], true)
      else let '(ts, err) := flatten_lines lines' in (mjoin (tl_fields l) ++ ts, err)
  end.

Definition tokenize_expand_file (inc_filename : bytes) : M env (list token * bool) :=
  let! inc := expand_file inc_filename in
  match inc with
  | Included lines => ret (flatten_lines lines)
  | NotFound | NotOpened => ret ([], true)
  end.

(** Whether the token refers to a file. *)
Definition refers_to_file (s : scanned) : bool :=
  negb (initial_quote s) && (1 <? length (sc_buf s))%nat && (hd 0 (sc_buf s) =? 64).

(** The tokens of a field, whether there was an error, and the rest. *)
Fixpoint field_loop (fuel : nat) (l : bytes) (tokens : list token) : M env (list token * bool * bytes) :=
  match fuel with
  | O => ret (tokens, false, l)
  | S fuel' =>
      let '(found, s) := next_token l in
      if negb found then ret (tokens, false, sc_rest s)
      else
        let! (more, err) :=
          if refers_to_file s then tokenize_expand_file (tl (sc_buf s))
          else ret ([(sc_buf s, initial_quote s)], false) in
        let tokens := tokens ++ more in
        if terminating_comma s && negb err then field_loop fuel' (sc_rest s) tokens
        else ret (tokens, err, sc_rest s)
  end.

Definition next_field_expand (l : bytes) : M env (list token * bool * bytes) :=
  field_loop (S (length l)) l [].

(** The loop over the fields of a line; fields without tokens are dropped. *)
Fixpoint fields_loop (fuel : nat) (l : bytes) (current_line : list (list token))
    : M env (list (list token) * bool) :=
  match fuel with
  | O => ret (current_line, false)
  | S fuel' =>
      if at_eol l then ret (current_line, false)
      else
        let! (field, err, rest) := next_field_expand l in
        let current_line := match field with [] => current_line | _ => current_line ++ [field] end in
        if err : bool then ret (current_line, true) else fields_loop fuel' rest current_line
  end.

Definition parse_fields (l : bytes) : M env (list (list token) * bool) := fields_loop (S (length l)) l [].
End Fields.

(** ** Lines *)

(** The lines of a file, without their newlines. *)
Fixpoint split_lines (text : bytes) : list bytes :=
  match text with
  | [] => []
  | c :: text' =>
      if c =? 10 then [] :: split_lines text'
      else match split_lines text' with
           | [] => [[c]]
           | l :: ls => (c :: l) :: ls
           end
  end.

(** [pg_strip_crlf] *)
Fixpoint strip_crlf (l : bytes) : bytes :=
  match l with
  | [] => []
  | c :: l' =>
      match strip_crlf l' with
      | [] => if (c =? 10) || (c =? 13) then [] else [c]
      | t => c :: t
      end
  end.

(** Lines joined while they end in a backslash that is after the last join.
    [None] is an I/O error; otherwise the line, the number of continuations and
    the lines that follow. *)
Fixpoint collect_line (ls : list bytes) (buf : bytes) (last_backslash_buflen continuations : nat)
    : M env (option (bytes * nat * list bytes)) :=
  match ls with
  | [] => let! ok := attempt in ret (if ok then Some (buf, continuations, []) else None)
  | l :: ls' =>
      let! ok := attempt in
      if negb ok then ret None
      else
        let buf := strip_crlf (buf ++ l) in
        if (last_backslash_buflen <? length buf)%nat && (List.last buf 0 =? BACKSLASH)
        then let buf := removelast buf in collect_line ls' buf (length buf) (S continuations)
        else ret (Some (buf, continuations, ls'))
  end.

(** ** Files *)

Section Files.
  Variable AbsoluteConfigLocation : bytes -> string -> string.
  (** The files of a directory, [None] when it cannot be read. *)
  Variable GetConfFilesInDir : bytes -> string -> M env (option (list bytes)).
  (** Whether [errno] happens to be ENOENT where the depth is exceeded, which
      does not set it. *)
  Variable stale_enoent : bool.

(** [include] and its variants: the lines to append and whether there was an
    error. *)
Definition tokenize_include_file (open : bytes -> M env inclusion) (inc_filename : bytes) (missing_ok : bool)
    : M env (list TokenizedAuthLine * bool) :=
  let! inc := open inc_filename in
  ret (match inc with
       | Included lines => (lines, false)
       | NotFound => ([], negb missing_ok)
       | NotOpened => ([], true)
       end).

(** The files of a directory in order; an error of any is one of the line. *)
Fixpoint include_all (open : bytes -> M env inclusion) (names : list bytes)
    : M env (list TokenizedAuthLine * bool) :=
  match names with
  | [] => ret ([], false)
  | name :: names' =>
      let! (lines, err) := tokenize_include_file open name false in
      let! (lines', err') := include_all open names' in
      ret (lines ++ lines', err || err')
  end.

(** The directive of a line of two fields, if it is one, and its argument. *)
Definition first_text (field : list token) : bytes := match field with (s, _) :: _ => s | [] => [] end.

(** The lines a line gives: those of the files it includes, and itself unless
    it was an inclusion without error. *)
Definition process_line (open : bytes -> M env inclusion) (filename : string) (line_number : Z)
    (current_line : list (list token)) (err : bool) : M env (list TokenizedAuthLine) :=
  let emit lines err := ret (lines ++ if err : bool then [mkTokLine current_line line_number true] else []) in
  match current_line, err with
  | [], false => ret []
  | [first; second], false =>
      if eqs (first_text first) "include" then
        let! (lines, err) := tokenize_include_file open (first_text second) false in emit lines err
      else if eqs (first_text first) "include_dir" then
        let! names := GetConfFilesInDir (first_text second) filename in
        match names with
        | None => emit [] true
        | Some names => let! (lines, err) := include_all open names in emit lines err
        end
      else if eqs (first_text first) "include_if_exists" then
        let! (lines, err) := tokenize_include_file open (first_text second) true in emit lines err
      else ret [mkTokLine current_line line_number false]
  | _, _ => ret [mkTokLine current_line line_number err]
  end.

(** The loop over the lines.  A read error ends it; nothing is emitted for it. *)
Fixpoint lines_loop (fuel : nat) (open : bytes -> M env inclusion) (filename : string) (ls : list bytes)
    (line_number : Z) : M env (list TokenizedAuthLine) :=
  match fuel with
  | O => ret []
  | S fuel' =>
      match ls with
      | [] => ret []
      | _ :: _ =>
          let! r := collect_line ls [] 0 0 in
          match r with
          | None => ret []
          | Some (buf, continuations, rest) =>
              let! (fields, err) := parse_fields open buf in
              let! lines := process_line open filename line_number fields err in
              let! more := lines_loop fuel' open filename rest (line_number + Z.of_nat continuations + 1) in
              ret (lines ++ more)
          end
      end
  end.

(** [open_auth_file] and [tokenize_auth_file] of an included file, with [depth]
    levels left below the current one. *)
Fixpoint include_at (depth : nat) (outer_filename : string) (inc_filename : bytes) : M env inclusion :=
  match depth with
  | O => ret (if stale_enoent then NotFound else NotOpened)
  | S depth' =>
      let inc_fullname := AbsoluteConfigLocation inc_filename outer_filename in
      let! ok := attempt in
      if negb ok then ret NotOpened
      else
        let! file := gets (fun e => f_data <$> files e !! inc_fullname) in
        match file with
        | None => ret NotFound
        | Some text =>
            let! lines := lines_loop (length (split_lines text)) (include_at depth' inc_fullname) inc_fullname
                            (split_lines text) 1 in
            ret (Included lines)
        end
  end.

(** The file the server reads, at depth 0; [None] when it cannot be opened. *)
Definition tokenize_auth_file (filename : string) : M env (option (list TokenizedAuthLine)) :=
  let! file := fopen_read filename in
  match file with
  | None => ret None
  | Some text =>
      let! lines := lines_loop (length (split_lines text)) (include_at CONF_FILE_MAX_DEPTH filename) filename
                      (split_lines text) 1 in
      ret (Some lines)
  end.
End Files.

(** ** Lemmas *)

Lemma skip_shorter l : (length (skip_to_token l) <= length l)%nat.
Proof. induction l as [|c l IH]; cbn; [lia|]. destruct (_ && _); cbn in *; lia. Qed.

Lemma skip_to_eol_shorter l : (length (skip_to_eol l) <= length l)%nat.
Proof. induction l as [|c l IH]; cbn; [lia|]. destruct (negb _); cbn in *; lia. Qed.

Lemma token_loop_shorter l : forall buf q w s i, (length (sc_rest (token_loop l buf q w s i)) <= length l)%nat.
Proof.
  induction l as [|c l IH]; intros; cbn [token_loop]; [cbn; lia|].
  destruct (_ || _); [cbn; lia|]. destruct (_ && _); [pose proof (skip_to_eol_shorter l); cbn; lia|].
  destruct (_ && _); [cbn; lia|].
  cbv zeta. destruct (c =? QUOTE); (eapply Nat.le_trans; [apply IH|cbn; lia]).
Qed.

Lemma next_token_shorter l : (length (sc_rest (snd (next_token l))) <= length l)%nat.
Proof. unfold next_token. cbn [snd]. etransitivity; [apply token_loop_shorter|apply skip_shorter]. Qed.

(** A token takes at least one character of the line. *)
Lemma next_token_progress l : at_eol l = false -> (length (sc_rest (snd (next_token l))) < length l)%nat.
Proof.
  destruct l as [|c l]; [discriminate|]. cbn [at_eol]. intros H0.
  unfold next_token. cbn [snd skip_to_token]. rewrite H0. cbn [negb andb]. destruct (pg_isblank c || (c =? COMMA)) eqn:Hsep.
  - pose proof (token_loop_shorter (skip_to_token l) [] false false false false).
    pose proof (skip_shorter l). cbn [length]. lia.
  - apply orb_false_iff in Hsep as [Hb Hc]. cbn [token_loop]. rewrite H0, Hb, Hc, !andb_false_l.
    cbn [negb orb]. destruct (_ && _); [pose proof (skip_to_eol_shorter l); cbn; lia|]. cbv zeta.
    destruct (c =? QUOTE); (eapply Nat.le_lt_trans; [apply token_loop_shorter|cbn; lia]).
Qed.

(** At the end of the line there is no token. *)
Lemma next_token_eol l : at_eol l = true -> fst (next_token l) = false.
Proof.
  destruct l as [|c l]; [reflexivity|]. cbn [at_eol]. intros H0. unfold next_token. cbn [fst skip_to_token].
  rewrite H0. cbn [negb andb token_loop]. rewrite H0. reflexivity.
Qed.

Lemma next_token_found l s : next_token l = (true, s) -> (length (sc_rest s) < length l)%nat.
Proof.
  intros Hs. destruct (at_eol l) eqn:He.
  - apply next_token_eol in He. rewrite Hs in He. discriminate.
  - apply next_token_progress in He. rewrite Hs in He. exact He.
Qed.

(** *** The loops end by themselves *)

Section Loops.
  Variable open : bytes -> M env inclusion.

Lemma field_loop_fuel n : forall m l tokens, (length l < n)%nat -> (length l < m)%nat ->
  meq (field_loop open n l tokens) (field_loop open m l tokens).
Proof.
  induction n as [|n IH]; intros m l tokens Hn Hm; [lia|]. destruct m as [|m]; [lia|]. cbn [field_loop].
  destruct (next_token l) as [found s] eqn:Hs. destruct found; cbn [negb]; [|reflexivity].
  apply bind_proper; [reflexivity|]. intros [more err]. cbv zeta.
  destruct (terminating_comma s && negb err); [|reflexivity].
  apply next_token_found in Hs. apply IH; lia.
Qed.

Lemma field_loop_rest n : forall l tokens e ts err rest e',
  field_loop open n l tokens e = (Ok (ts, err, rest), e') -> (0 < n)%nat ->
  (length rest <= length l)%nat /\ (at_eol l = false -> (length rest < length l)%nat).
Proof.
  induction n as [|n IH]; intros l tokens e ts err rest e' Hr Hn; [lia|]. cbn [field_loop] in Hr.
  assert (Hle : (length (sc_rest (snd (next_token l))) <= length l)%nat /\
    (at_eol l = false -> (length (sc_rest (snd (next_token l))) < length l)%nat)).
  { split; [apply next_token_shorter|apply next_token_progress]. }
  destruct (next_token l) as [found s]. cbn [snd] in Hle. destruct found; cbn [negb] in Hr.
  2:{ injection Hr as _ _ <- _. exact Hle. }
  minv Hr. destruct a as [more err1]. cbv zeta in Hr.
  destruct (terminating_comma s && negb err1); [|injection Hr as _ _ <- _; exact Hle].
  destruct n as [|n]; [injection Hr as _ _ <- _; exact Hle|].
  apply IH in Hr as [Hr _]; [|lia]. split; [lia|]. intros Hl. destruct Hle as [_ Hle]. specialize (Hle Hl). lia.
Qed.

Lemma fields_loop_fuel n : forall m l fields, (length l < n)%nat -> (length l < m)%nat ->
  meq (fields_loop open n l fields) (fields_loop open m l fields).
Proof.
  induction n as [|n IH]; intros m l fields Hn Hm e; [lia|]. destruct m as [|m]; [lia|]. cbn [fields_loop].
  destruct (at_eol l) eqn:Hl; [reflexivity|]. unfold bind.
  destruct (next_field_expand open l e) as [[[[field err] rest]|er|] e1] eqn:Hf; [|reflexivity|reflexivity].
  destruct err; [reflexivity|]. apply field_loop_rest in Hf as [_ Hf]; [|lia]. specialize (Hf Hl).
  apply IH; lia.
Qed.

Lemma collect_shorter ls : forall buf k n e line c rest e',
  collect_line ls buf k n e = (Ok (Some (line, c, rest)), e') ->
  (length rest <= length ls)%nat /\ (ls <> [] -> (length rest < length ls)%nat).
Proof.
  induction ls as [|l ls IH]; intros buf k n e line c rest e' Hr; cbn [collect_line] in Hr; minv Hr.
  - destruct a; injection Hr as _ _ <- _ || discriminate. split; [lia|contradiction].
  - destruct a; cbn [negb] in Hr; [|discriminate]. cbv zeta in Hr. destruct (_ && _).
    + apply IH in Hr as [Hr _]. cbn. split; intros; lia.
    + injection Hr as _ _ <- _. cbn. split; intros; lia.
Qed.
End Loops.

(** A program that returns a value, whatever fails. *)
Definition total {A} (m : M env A) : Prop := forall e, exists a e', m e = (Ok a, e').

Lemma total_bind {A B} (m : M env A) (k : A -> M env B) :
  total m -> (forall a, total (k a)) -> total (bind m k).
Proof. intros Hm Hk e. destruct (Hm e) as (a & e1 & H1). mrun H1. apply Hk. Qed.

Lemma total_ret {A} (a : A) : total (ret a).
Proof. intros e. do 2 eexists. reflexivity. Qed.

Lemma total_gets {A} (f : env -> A) : total (gets f).
Proof. intros e. do 2 eexists. reflexivity. Qed.

Lemma total_attempt : total attempt.
Proof. intros e. unfold attempt, next_fault, bind. destruct (faults e); do 2 eexists; reflexivity. Qed.

#[export] Hint Resolve total_ret total_gets total_attempt : pg.

(** [tstep] opens one layer of a program that is to be total. *)
Ltac tstep :=
  match goal with
  | |- total (bind _ _) => apply total_bind; [|intros ?]
  | |- total (if ?c then _ else _) => destruct c
  | |- total (match ?x with _ => _ end) => destruct x
  end.
Ltac tsteps := repeat (tstep || solve [auto with pg]).

Lemma field_loop_total open n : (forall b, total (open b)) -> forall l tokens, total (field_loop open n l tokens).
Proof.
  intros Ho. induction n as [|n IH]; intros l tokens; cbn [field_loop]; [auto with pg|].
  destruct (next_token l) as [found s]. destruct (negb found); [auto with pg|]. unfold tokenize_expand_file.
  tsteps.
Qed.

Lemma parse_fields_total open l : (forall b, total (open b)) -> total (parse_fields open l).
Proof.
  intros Ho. unfold parse_fields. generalize (S (length l)), (@nil (list token)). intros n. revert l.
  induction n as [|n IH]; intros l fields; cbn [fields_loop]; [auto with pg|]. unfold next_field_expand.
  destruct (at_eol l); [auto with pg|]. apply total_bind; [apply field_loop_total, Ho|].
  intros [[field err] rest]. cbv zeta. destruct err; auto with pg.
Qed.

Lemma collect_total ls : forall buf k n, total (collect_line ls buf k n).
Proof. induction ls as [|l ls IH]; intros; cbn [collect_line]; tsteps. Qed.

Section FileLoops.
  Variable AbsoluteConfigLocation : bytes -> string -> string.
  Variable GetConfFilesInDir : bytes -> string -> M env (option (list bytes)).
  Variable stale_enoent : bool.
  Hypothesis conf_files_total : forall d f, total (GetConfFilesInDir d f).

#[local] Hint Resolve conf_files_total : pg.

Lemma include_file_total open name ok : (forall b, total (open b)) -> total (tokenize_include_file open name ok).
Proof. intros Ho. unfold tokenize_include_file. tsteps. Qed.

Lemma include_all_total open names : (forall b, total (open b)) -> total (include_all open names).
Proof.
  intros Ho. induction names as [|n names IH]; cbn [include_all]; [auto with pg|].
  apply total_bind; [apply include_file_total, Ho|]. intros [? ?]. tsteps.
Qed.

Lemma process_line_total open f n fields err : (forall b, total (open b)) ->
  total (process_line GetConfFilesInDir open f n fields err).
Proof.
  intros Ho. pose proof (fun name ok => include_file_total open name ok Ho).
  pose proof (fun names => include_all_total open names Ho).
  unfold process_line. destruct fields as [|? [|? [|]]], err; tsteps.
Qed.

Lemma lines_loop_total open f fuel : (forall b, total (open b)) ->
  forall ls n, total (lines_loop GetConfFilesInDir fuel open f ls n).
Proof.
  intros Ho. induction fuel as [|fuel IH]; intros ls n; cbn [lines_loop]; [auto with pg|].
  destruct ls; [auto with pg|]. apply total_bind; [apply collect_total|]. intros [[[buf c] rest]|]; [|auto with pg].
  apply total_bind; [apply parse_fields_total, Ho|]. intros [fields err].
  apply total_bind; [apply process_line_total, Ho|]. intros lines. tsteps.
Qed.

Lemma include_at_total depth : forall f name,
  total (include_at AbsoluteConfigLocation GetConfFilesInDir stale_enoent depth f name).
Proof.
  induction depth as [|depth IH]; intros f name; cbn [include_at]; [auto with pg|].
  tsteps. apply lines_loop_total. intros b. apply IH.
Qed.

Lemma lines_loop_fuel open f n : forall m ls num, (length ls <= n)%nat -> (length ls <= m)%nat ->
  meq (lines_loop GetConfFilesInDir n open f ls num) (lines_loop GetConfFilesInDir m open f ls num).
Proof.
  induction n as [|n IH]; intros m ls num Hn Hm e.
  - destruct ls; [|cbn in Hn; lia]. destruct m; reflexivity.
  - destruct m as [|m]; [destruct ls; [reflexivity|cbn in Hm; lia]|]. cbn [lines_loop].
    destruct ls as [|l ls]; [reflexivity|]. unfold bind at 1 5.
    destruct (collect_line (l :: ls) [] 0 0 e) as [[[[[buf c] rest]|]|er|] e1] eqn:Hc; try reflexivity.
    apply collect_shorter in Hc as [_ Hc]. specialize (Hc ltac:(discriminate)).
    apply bind_proper; [reflexivity|]. intros [fields err]. apply bind_proper; [reflexivity|]. intros lines.
    apply bind_proper; [|reflexivity]. apply IH; lia.
Qed.

(** C28: termination.  Reading an authentication file ends and gives a result
    however files include each other and whatever fails.  Each loop of the
    tokenizer ends by itself: with more rounds than it has characters or lines
    to read it does the same. *)
Theorem tokenizer_terminates filename e :
  (exists r e', tokenize_auth_file AbsoluteConfigLocation GetConfFilesInDir stale_enoent filename e = (Ok r, e')) /\
  (forall open n l tokens, (length l < n)%nat -> meq (field_loop open n l tokens) (field_loop open (S (length l)) l tokens)) /\
  (forall open n l, (length l < n)%nat -> meq (fields_loop open n l []) (parse_fields open l)) /\
  (forall open n ls num, (length ls <= n)%nat ->
     meq (lines_loop GetConfFilesInDir n open filename ls num)
         (lines_loop GetConfFilesInDir (length ls) open filename ls num)).
Proof.
  split; [|split; [|split]].
  - revert e. change (total (tokenize_auth_file
      AbsoluteConfigLocation GetConfFilesInDir stale_enoent filename)). unfold tokenize_auth_file, fopen_read.
    tsteps. apply lines_loop_total. intros b. apply include_at_total.
  - intros open n l tokens Hn. apply field_loop_fuel; lia.
  - intros open n l Hn. apply fields_loop_fuel; lia.
  - intros open n ls num Hn. apply lines_loop_fuel; lia.
Qed.
End FileLoops.

(** ** Writing what the tokenizer reads *)

Fixpoint quoted_body (t : bytes) : bytes :=
  match t with
  | [] => []
  | c :: t' => if c =? QUOTE then QUOTE :: QUOTE :: quoted_body t' else c :: quoted_body t'
  end.

(** A token in quotes, a field with commas, a line with blanks. *)
Definition print_token (t : bytes) : bytes := QUOTE :: quoted_body t ++ [QUOTE].
Fixpoint print_field (ts : list bytes) : bytes :=
  match ts with
  | [] => []
  | [t] => print_token t
  | t :: ts' => print_token t ++ COMMA :: print_field ts'
  end.
Fixpoint print_line (fs : list (list bytes)) : bytes :=
  match fs with
  | [] => []
  | f :: fs' => 32 :: print_field f ++ print_line fs'
  end.

(** What a line can hold: neither NUL nor newline. *)
Definition in_line (c : Z) : bool := negb (c =? 0) && negb (c =? 10).

Definition line_token (t : bytes) : Prop := forallb in_line t = true.

(** What can follow a token. *)
Definition ends_token (rest : bytes) : Prop :=
  match rest with [] => True | c :: _ => pg_isblank c = true \/ c = COMMA end.

Lemma token_loop_quoted t : line_token t -> forall buf rest,
  token_loop (quoted_body t ++ QUOTE :: rest) buf true false true true = token_loop rest (buf ++ t) false true true true.
Proof.
  intros Ht. induction t as [|c t IH]; intros buf rest; cbn [quoted_body app].
  - cbn [token_loop]. rewrite !andb_false_r, app_nil_r. reflexivity.
  - apply andb_true_iff in Ht as [H0 Ht]. apply andb_true_iff in H0 as [H0 _]. apply negb_true_iff in H0.
    specialize (IH Ht). destruct (Z.eqb_spec c QUOTE) as [->|Hc]; cbn [app token_loop]; rewrite ?andb_false_r.
    + cbn. rewrite IH, <- app_assoc. reflexivity.
    + apply Z.eqb_neq in Hc. rewrite H0, Hc. cbn. rewrite IH, <- app_assoc. reflexivity.
Qed.

Lemma token_loop_end buf rest : ends_token rest ->
  token_loop rest buf false true true true
    = mkScanned buf true true (match rest with c :: _ => c =? COMMA | [] => false end) rest.
Proof.
  destruct rest as [|c rest]; [reflexivity|]. intros Hc. cbn [token_loop]. rewrite !andb_true_r.
  destruct Hc as [Hc| ->]; [|reflexivity]. rewrite Hc, orb_true_r. f_equal. unfold pg_isblank in Hc. unfold COMMA. lia.
Qed.

Lemma next_token_printed seps t rest :
  line_token t -> forallb (fun c => pg_isblank c || (c =? COMMA)) seps = true -> ends_token rest ->
  next_token (seps ++ print_token t ++ rest)
    = (true, mkScanned t true true (match rest with c :: _ => c =? COMMA | [] => false end) rest).
Proof.
  intros Ht Hs Hr. unfold next_token.
  assert (Hk : skip_to_token (seps ++ print_token t ++ rest) = print_token t ++ rest).
  { induction seps as [|c seps IH]; [reflexivity|]. cbn in Hs. apply andb_true_iff in Hs as [Hc Hs].
    cbn. rewrite Hc, andb_true_r. replace (c =? 0) with false; [apply IH, Hs|].
    symmetry. unfold pg_isblank, COMMA in Hc. lia. }
  rewrite Hk. unfold print_token. cbn [app token_loop].
  replace (pg_isblank QUOTE) with false by reflexivity. change (QUOTE =? 0) with false. cbn [andb orb].
  change (QUOTE =? HASH) with false. change (QUOTE =? COMMA) with false. change (QUOTE =? QUOTE) with true.
  cbn [andb negb orb length Nat.eqb]. rewrite <- app_assoc.
  change ([QUOTE] ++ rest) with (QUOTE :: rest). rewrite token_loop_quoted by exact Ht. cbn [app].
  rewrite token_loop_end by exact Hr. reflexivity.
Qed.

Section Printed.
  Variable open : bytes -> M env inclusion.

Lemma printed_token_step n seps t rest acc :
  line_token t -> forallb (fun c => pg_isblank c || (c =? COMMA)) seps = true -> ends_token rest ->
  meq (field_loop open (S n) (seps ++ print_token t ++ rest) acc)
      (if match rest with c :: _ => c =? COMMA | [] => false end then field_loop open n rest (acc ++ [(t, true)])
       else ret (acc ++ [(t, true)], false, rest)).
Proof.
  intros Ht Hs Hr e. cbn [field_loop]. rewrite next_token_printed by assumption. cbn [negb refers_to_file initial_quote andb].
  rewrite bind_ret_l. cbn [terminating_comma sc_rest sc_buf initial_quote]. rewrite andb_true_r. reflexivity.
Qed.

Lemma field_loop_printed ts : Forall line_token ts -> forall n seps rest acc,
  forallb (fun c => pg_isblank c || (c =? COMMA)) seps = true -> ts <> [] ->
  match rest with [] => True | c :: _ => pg_isblank c = true end -> (length ts <= n)%nat ->
  meq (field_loop open n (seps ++ print_field ts ++ rest) acc)
      (ret (acc ++ map (fun t => (t, true)) ts, false, rest)).
Proof.
  induction ts as [|t ts IH]; intros Hts n seps rest acc Hs Hne Hr Hn; [contradiction|].
  apply Forall_cons in Hts as [Ht Hts]. specialize (IH Hts). destruct n as [|n]; [cbn in Hn; lia|]. destruct ts as [|t' ts].
  - cbn [print_field map]. rewrite printed_token_step; [|exact Ht|exact Hs|destruct rest; cbn; auto].
    destruct rest as [|c rest]; [reflexivity|]. unfold pg_isblank in Hr. unfold COMMA.
    destruct (Z.eqb_spec c 44); [subst; discriminate Hr|reflexivity].
  - change (print_field (t :: t' :: ts)) with (print_token t ++ COMMA :: print_field (t' :: ts)).
    rewrite <- app_assoc, <- app_comm_cons, printed_token_step; [|exact Ht|exact Hs|right; reflexivity].
    change (COMMA =? COMMA) with true. cbv iota.
    change (COMMA :: print_field (t' :: ts) ++ rest) with ([COMMA] ++ print_field (t' :: ts) ++ rest).
    rewrite IH; [rewrite <- app_assoc; reflexivity|reflexivity|discriminate|exact Hr|cbn in *; lia].
Qed.

Lemma print_field_length ts : ts <> [] -> (length ts <= length (print_field ts))%nat.
Proof.
  induction ts as [|t ts IH]; [contradiction|]. intros _. destruct ts as [|t' ts]; [cbn; lia|].
  change (print_field (t :: t' :: ts)) with (print_token t ++ COMMA :: print_field (t' :: ts)).
  rewrite length_app. specialize (IH ltac:(discriminate)). cbn [length] in *. lia.
Qed.

(** A line of fields, each a list of tokens. *)
Definition line_fields (fs : list (list bytes)) : Prop := Forall (fun ts => ts <> [] /\ Forall line_token ts) fs.

Definition read_fields (fs : list (list bytes)) : list (list token) := map (map (fun t => (t, true))) fs.

Lemma printed_fields_read_back fs : line_fields fs ->
  meq (parse_fields open (print_line fs)) (ret (read_fields fs, false)).
Proof.
  intros Hf. unfold parse_fields.
  enough (Hn : forall n acc, (length (print_line fs) < n)%nat ->
    meq (fields_loop open n (print_line fs) acc) (ret (acc ++ read_fields fs, false)))
    by (apply Hn; lia).
  induction fs as [|f fs IH]; intros n acc Hn; (destruct n as [|n]; [lia|]).
  - cbn. rewrite app_nil_r. reflexivity.
  - apply Forall_cons in Hf as [[Hne Hts] Hf]. specialize (IH Hf). cbn [print_line fields_loop at_eol]. change (32 =? 0) with false. cbv iota.
    assert (Hl : (length f <= S (length (print_line (f :: fs))))%nat)
      by (cbn; rewrite length_app; pose proof (print_field_length f Hne); lia).
    unfold next_field_expand. cbn [print_line] in Hl.
    change (32 :: print_field f ++ print_line fs) with ([32] ++ print_field f ++ print_line fs) in *.
    rewrite (field_loop_printed f Hts _ [32] (print_line fs) []); [|reflexivity|exact Hne|destruct fs; [exact I|reflexivity]|exact Hl].
    rewrite bind_ret_l. cbn [app]. destruct f as [|t f]; [contradiction|]. cbn [map].
    rewrite IH; [rewrite <- app_assoc; reflexivity|]. cbn [print_line length app] in Hn. rewrite length_app in Hn. lia.
Qed.

(** *** Whole files *)

Definition print_file (fss : list (list (list bytes))) : bytes := mjoin (map (fun fs => print_line fs ++ [10]) fss).

(** The words that make a line of two fields an inclusion. *)
Definition directive (t : bytes) : bool := eqs t "include" || eqs t "include_dir" || eqs t "include_if_exists".

Lemma quoted_in_line t : line_token t -> forallb in_line (quoted_body t) = true.
Proof.
  intros Ht. induction t as [|c t IH]; [reflexivity|]. apply andb_true_iff in Ht as [Hc Ht]. cbn [quoted_body].
  destruct (Z.eqb_spec c QUOTE) as [->|_]; cbn [forallb]; rewrite ?Hc, (IH Ht); reflexivity.
Qed.

Lemma field_in_line ts : Forall line_token ts -> forallb in_line (print_field ts) = true.
Proof.
  intros Hts. induction ts as [|t ts IH]; [reflexivity|]. apply Forall_cons in Hts as [Ht Hts].
  assert (Hp : forallb in_line (print_token t) = true)
    by (unfold print_token; cbn [forallb]; rewrite forallb_app, (quoted_in_line t Ht); reflexivity).
  destruct ts as [|t' ts]; [exact Hp|].
  change (print_field (t :: t' :: ts)) with (print_token t ++ COMMA :: print_field (t' :: ts)).
  rewrite forallb_app, Hp. cbn [forallb andb]. rewrite (IH Hts). reflexivity.
Qed.

Lemma line_in_line fs : line_fields fs -> forallb in_line (print_line fs) = true.
Proof.
  intros Hf. induction Hf as [|ts fs [_ Hts] _ IH]; [reflexivity|]. cbn [print_line forallb].
  rewrite forallb_app, (field_in_line ts Hts), IH. reflexivity.
Qed.

Lemma field_ends ts : ts <> [] -> exists l, print_field ts = l ++ [QUOTE].
Proof.
  induction ts as [|t ts IH]; [contradiction|]. intros _. destruct ts as [|t' ts]; [exists (QUOTE :: quoted_body t); reflexivity|].
  destruct (IH ltac:(discriminate)) as [l Hl]. exists (print_token t ++ COMMA :: l).
  change (print_field (t :: t' :: ts)) with (print_token t ++ COMMA :: print_field (t' :: ts)).
  rewrite Hl, <- app_assoc. reflexivity.
Qed.

Lemma line_ends fs : line_fields fs -> fs <> [] -> exists l, print_line fs = l ++ [QUOTE].
Proof.
  intros Hf. induction Hf as [|ts fs [Hne _] Hf IH]; [contradiction|]. intros _. cbn [print_line].
  destruct fs as [|ts' fs].
  - destruct (field_ends ts Hne) as [l Hl]. exists (32 :: l). cbn [print_line]. rewrite app_nil_r, Hl. reflexivity.
  - destruct (IH ltac:(discriminate)) as [l Hl]. exists (32 :: print_field ts ++ l). rewrite Hl. cbn. rewrite <- app_assoc. reflexivity.
Qed.

Lemma strip_crlf_quote l : strip_crlf (l ++ [QUOTE]) = l ++ [QUOTE].
Proof.
  induction l as [|c l IH]; [reflexivity|]. cbn [app strip_crlf]. rewrite IH. destruct l; reflexivity.
Qed.

Lemma split_lines_line l text : forallb in_line l = true -> split_lines (l ++ 10 :: text) = l :: split_lines text.
Proof.
  induction l as [|c l IH]; intros Hl; [reflexivity|]. apply andb_true_iff in Hl as [Hc Hl]. cbn [app split_lines].
  apply andb_true_iff in Hc as [_ Hc]. apply negb_true_iff in Hc. rewrite Hc, (IH Hl). reflexivity.
Qed.

Lemma split_print_file fss rest : Forall line_fields fss ->
  split_lines (print_file fss ++ rest) = map print_line fss ++ split_lines rest.
Proof.
  intros Hf. induction Hf as [|fs fss Hfs _ IH]; [reflexivity|].
  change (print_file (fs :: fss)) with ((print_line fs ++ [10]) ++ print_file fss). rewrite <- !app_assoc.
  cbn [app]. rewrite (split_lines_line _ _ (line_in_line fs Hfs)), IH. reflexivity.
Qed.

Lemma collect_printed fs ls e e' : attempt e = (Ok true, e') -> line_fields fs -> fs <> [] ->
  collect_line (print_line fs :: ls) [] 0 0 e = (Ok (Some (print_line fs, 0%nat, ls)), e').
Proof.
  intros Ha Hf Hne. destruct (line_ends fs Hf Hne) as [l Hl]. cbn [collect_line].
  rewrite (bind_step _ _ _ _ _ Ha). cbn [negb app]. rewrite Hl, strip_crlf_quote.
  cbv zeta. rewrite List.last_last. change (QUOTE =? BACKSLASH) with false. rewrite andb_false_r. reflexivity.
Qed.

Lemma process_printed dir f fs num e : fs <> [] ->
  (forall t ts rest, fs = (t :: ts) :: rest -> directive t = false) -> Forall (fun ts => ts <> []) fs ->
  process_line dir open f num (read_fields fs) false e = (Ok [mkTokLine (read_fields fs) num false], e).
Proof.
  intros Hne Hd Hts. unfold process_line. destruct fs as [|ts [|ts' [|ts'' fs]]]; [contradiction|reflexivity| |reflexivity].
  apply Forall_cons in Hts as [Ht _]. destruct ts as [|t ts]; [contradiction|]. specialize (Hd t ts [ts'] eq_refl).
  unfold directive in Hd. apply orb_false_iff in Hd as [Hd H3]. apply orb_false_iff in Hd as [H1 H2].
  cbn [read_fields map first_text]. rewrite H1, H2, H3. reflexivity.
Qed.

(** A line that is not an inclusion. *)
Definition ordinary (fs : list (list bytes)) : Prop := exists t ts rest, fs = (t :: ts) :: rest /\ directive t = false.

(** The tokenized lines of printed ones. *)
Definition read_lines (num : Z) (fss : list (list (list bytes))) : list TokenizedAuthLine :=
  imap (fun i fs => mkTokLine (read_fields fs) (num + Z.of_nat i) false) fss.

Lemma read_lines_cons num fs fss :
  read_lines num (fs :: fss) = mkTokLine (read_fields fs) num false :: read_lines (num + Z.of_nat 0 + 1) fss.
Proof.
  unfold read_lines. cbn [imap]. assert (E0 : num + Z.of_nat 0 = num) by lia. rewrite E0. f_equal.
  apply imap_ext. intros i fs' _. unfold compose. f_equal. lia.
Qed.

Lemma line_step dir n f fs ls num e e1 lines e2 :
  line_fields fs -> ordinary fs -> attempt e = (Ok true, e1) ->
  lines_loop dir n open f ls (num + Z.of_nat 0 + 1) e1 = (Ok lines, e2) ->
  lines_loop dir (S n) open f (print_line fs :: ls) num e = (Ok (mkTokLine (read_fields fs) num false :: lines), e2).
Proof.
  intros Hfs (t & ts & rest & E & Hd) Ha Hl. cbn [lines_loop].
  rewrite (bind_step _ _ _ _ _ (collect_printed fs _ e e1 Ha Hfs ltac:(subst fs; discriminate))).
  rewrite (bind_step _ _ _ _ _ (printed_fields_read_back fs Hfs e1)).
  rewrite (bind_step _ _ _ _ _ (process_printed dir f fs num e1 ltac:(subst fs; discriminate)
    ltac:(intros t' ts' rest' E'; rewrite E in E'; injection E' as <- <- <-; exact Hd)
    ltac:(eapply Forall_impl; [exact Hfs|]; cbn; tauto))).
  rewrite (bind_step _ _ _ _ _ Hl). reflexivity.
Qed.

Lemma lines_loop_printed dir f fss e : no_faults e -> Forall line_fields fss -> Forall ordinary fss -> forall num,
  lines_loop dir (length fss) open f (map print_line fss) num e = (Ok (read_lines num fss), e).
Proof.
  intros Hn Hf Hd. induction Hf as [|fs fss Hfs Hf IH]; intros num; [reflexivity|].
  apply Forall_cons in Hd as [Hd0 Hd]. rewrite read_lines_cons. cbn [length map].
  apply (line_step _ _ _ _ _ _ _ e); auto using attempt_no_faults.
Qed.

(** A read error after some lines: they are all the loop gives. *)
Lemma lines_loop_cut dir f fss ls k fl : ls <> [] -> Forall line_fields fss -> Forall ordinary fss -> forall num e,
  faults e = repeat None (length fss) ++ Some k :: fl ->
  exists e', lines_loop dir (length fss + length ls) open f (map print_line fss ++ ls) num e = (Ok (read_lines num fss), e').
Proof.
  intros Hls Hf Hd. induction Hf as [|fs fss Hfs Hf IH]; intros num e He; cbn [length repeat app map Nat.add] in *.
  - destruct ls as [|l ls]; [contradiction|]. cbn [length lines_loop].
    rewrite (bind_step _ _ e None (set_faults fl e)) by (cbn; unfold attempt, next_fault, bind; rewrite He; reflexivity).
    eexists. reflexivity.
  - apply Forall_cons in Hd as [Hd0 Hd]. rewrite read_lines_cons.
    set (e1 := set_faults (repeat None (length fss) ++ Some k :: fl) e).
    destruct (IH Hd (num + Z.of_nat 0 + 1) e1 eq_refl) as [e' Hr]. exists e'.
    apply (line_step _ _ _ _ _ _ _ e1); auto. unfold attempt, next_fault, bind. rewrite He. reflexivity.
Qed.
End Printed.

Section PrintedFile.
  Variable AbsoluteConfigLocation : bytes -> string -> string.
  Variable GetConfFilesInDir : bytes -> string -> M env (option (list bytes)).
  Variable stale_enoent : bool.

(** C31: roundtrip.  A file of quoted lines is read back.  Its lines hold at
    least one field, its fields at least one token, and its tokens any bytes but
    NUL and newline: quotes, commas, blanks, hash and at signs, backslashes and
    carriage returns included.  Where no line begins with the name of an
    inclusion and reading does not fail, the tokenizer gives exactly these
    tokens in these fields and lines, with their numbers and without an error:
    no other file is read, no comment is taken and no line is continued. *)
Theorem printed_file_read_back filename mode fss e :
  no_faults e -> files e !! filename = Some (mkFile (print_file fss) mode) ->
  Forall line_fields fss -> Forall ordinary fss ->
  tokenize_auth_file AbsoluteConfigLocation GetConfFilesInDir stale_enoent filename e
    = (Ok (Some (read_lines 1 fss)), e).
Proof.
  intros Hn Hf Hl Hd. unfold tokenize_auth_file, fopen_read.
  rewrite (bind_step _ _ e (Some (print_file fss)) e)
    by (unfold attempt, next_fault, bind, gets; rewrite Hn; cbn; rewrite Hf; reflexivity).
  pose proof (split_print_file fss [] Hl) as Hs. rewrite !app_nil_r in Hs. rewrite Hs, length_map.
  rewrite (bind_step _ _ _ _ _ (lines_loop_printed _ GetConfFilesInDir filename fss e Hn Hl Hd 1)). reflexivity.
Qed.

(** The file is opened, the lines [fss] are read, and reading on fails. *)
Lemma tokenize_cut filename mode fss rest k fl e :
  files e !! filename = Some (mkFile (print_file fss ++ rest) mode) -> rest <> [] ->
  Forall line_fields fss -> Forall ordinary fss -> faults e = None :: repeat None (length fss) ++ Some k :: fl ->
  exists e', tokenize_auth_file AbsoluteConfigLocation GetConfFilesInDir stale_enoent filename e
    = (Ok (Some (read_lines 1 fss)), e').
Proof.
  intros Hf Hr Hl Hd He. unfold tokenize_auth_file, fopen_read.
  set (e1 := set_faults (repeat None (length fss) ++ Some k :: fl) e).
  rewrite (bind_step _ _ e (Some (print_file fss ++ rest)) e1)
    by (unfold attempt, next_fault, bind, gets; rewrite He; cbn; rewrite Hf; reflexivity).
  rewrite (split_print_file fss rest Hl), length_app, length_map.
  assert (Hne : split_lines rest <> []).
  { destruct rest as [|c rest]; [contradiction|]. cbn. destruct (c =? 10); [discriminate|].
    destruct (split_lines rest); discriminate. }
  destruct (lines_loop_cut (include_at AbsoluteConfigLocation GetConfFilesInDir stale_enoent CONF_FILE_MAX_DEPTH filename)
    GetConfFilesInDir filename fss (split_lines rest) k fl Hne Hl Hd 1 e1 eq_refl) as [e' Hr'].
  exists e'. rewrite (bind_step _ _ _ _ _ Hr'). reflexivity.
Qed.
End PrintedFile.

(** ** Files that include themselves *)

Section Cycle.
  Variable AbsoluteConfigLocation : bytes -> string -> string.
  Variable GetConfFilesInDir : bytes -> string -> M env (option (list bytes)).
  Variable stale_enoent : bool.

Definition include_x : bytes := bytes_of_string "include x".
Definition x_name : bytes := bytes_of_string "x".

(** The line of an inclusion that failed. *)
Definition include_failed : TokenizedAuthLine :=
  mkTokLine [[(bytes_of_string "include", false)]; [(x_name, false)]] 1 true.

Lemma include_line_run open f e r : no_faults e -> open x_name e = (Ok r, e) ->
  lines_loop GetConfFilesInDir 1 open f [include_x] 1 e
    = (Ok (match r with Included lines => lines | _ => [include_failed] end), e).
Proof.
  intros Hn Ho. cbn [lines_loop].
  rewrite (bind_step _ _ e (Some (include_x, 0%nat, [])) e)
    by (unfold collect_line, attempt, next_fault, bind; rewrite Hn; reflexivity).
  rewrite (bind_step _ _ e ([[(bytes_of_string "include", false)]; [(x_name, false)]], false) e) by reflexivity.
  cbv beta iota. unfold process_line.
  change (eqs (first_text [(bytes_of_string "include", false)]) "include") with true. cbv iota.
  change (first_text [(x_name, false)]) with x_name. unfold tokenize_include_file, bind. rewrite Ho.
  destruct r; cbn; rewrite ?app_nil_r; reflexivity.
Qed.

(** A file that includes itself is not read without end: at the
    allowed depth the inclusion is an error of its line, and that line, in
    error, is all the file gives. *)
Theorem inclusion_cycle_is_error filename mode e :
  no_faults e -> files e !! filename = Some (mkFile include_x mode) -> AbsoluteConfigLocation x_name filename = filename ->
  tokenize_auth_file AbsoluteConfigLocation GetConfFilesInDir stale_enoent filename e
    = (Ok (Some [include_failed]), e).
Proof.
  intros Hn Hf Hloc.
  assert (Hd : forall d, include_at AbsoluteConfigLocation GetConfFilesInDir stale_enoent (S d) filename x_name e
    = (Ok (Included [include_failed]), e)).
  { induction d as [|d IH]; cbn [include_at]; rewrite Hloc;
      rewrite (bind_step _ _ e true e) by (unfold attempt, next_fault, bind; rewrite Hn; reflexivity); cbn [negb];
      rewrite (bind_step _ _ e (Some include_x) e) by (unfold gets; rewrite Hf; reflexivity);
      change (split_lines include_x) with [include_x]; cbn [length].
    - rewrite (bind_step _ _ e [include_failed] e); [reflexivity|].
      rewrite (include_line_run _ _ e (if stale_enoent then NotFound else NotOpened) Hn eq_refl).
      destruct stale_enoent; reflexivity.
    - rewrite (bind_step _ _ e [include_failed] e); [reflexivity|].
      rewrite (include_line_run _ _ e (Included [include_failed]) Hn IH). reflexivity. }
  unfold tokenize_auth_file, fopen_read.
  rewrite (bind_step _ _ e (Some include_x) e)
    by (unfold attempt, next_fault, bind, gets; rewrite Hn; cbn; rewrite Hf; reflexivity).
  change (split_lines include_x) with [include_x]. cbn [length].
  rewrite (bind_step _ _ e [include_failed] e); [reflexivity|].
  rewrite (include_line_run _ _ e (Included [include_failed]) Hn); [reflexivity|].
  exact (Hd 9%nat).
Qed.
End Cycle.

(** ** Witnesses *)

(** Names are absolute, and there are no directories. *)
Fixpoint string_of_bytes (l : bytes) : string :=
  match l with
  | [] => EmptyString
  | c :: l' => String (Ascii.ascii_of_N (Z.to_N c)) (string_of_bytes l')
  end.
Definition absolute (name : bytes) (_ : string) : string := string_of_bytes name.
Definition no_directory (_ : bytes) (_ : string) : M env (option (list bytes)) := ret None.

Definition file_env (l : list (string * string)) : env :=
  mkEnv [] 0 (list_to_map (map (fun '(n, t) => (n, mkFile (bytes_of_string t) 384)) l)) ∅ ∅ ∅ [].

Lemma tokenizer_terminates_witness :
  exists r e', tokenize_auth_file absolute no_directory false "a"
    (file_env [("a", "include b"); ("b", "include a")]%string) = (Ok r, e').
Proof. apply (tokenizer_terminates absolute no_directory false). intros d f. apply total_ret. Defined.

(** Two lines with an at sign, a blank, a quote, a comma, a hash, a carriage
    return and a backslash in their tokens. *)
Definition sample_file : list (list (list bytes)) :=
  [[[bytes_of_string "@a b"; [34; 44]]; [[]]]; [[[35; 13; 92]]; [bytes_of_string "include"]]].

Lemma printed_file_read_back_witness :
  let e := mkEnv [] 0 {["f"%string := mkFile (print_file sample_file) 384]} ∅ ∅ ∅ [] in
  tokenize_auth_file absolute no_directory false "f" e
    = (Ok (Some [mkTokLine [[(bytes_of_string "@a b", true); ([34; 44], true)]; [([], true)]] 1 false;
                 mkTokLine [[([35; 13; 92], true)]; [(bytes_of_string "include", true)]] 2 false]), e).
Proof.
  intros e. apply (printed_file_read_back absolute no_directory false "f" 384 sample_file e); [reflexivity|reflexivity| |].
  - unfold sample_file, line_fields, line_token. repeat constructor; discriminate.
  - repeat constructor; (do 3 eexists; split; reflexivity).
Defined.

Lemma inclusion_cycle_is_error_witness :
  tokenize_auth_file absolute no_directory true "x" (file_env [("x", "include x")]%string)
    = (Ok (Some [include_failed]), file_env [("x", "include x")]%string).
Proof. apply (inclusion_cycle_is_error absolute no_directory true "x" 384); reflexivity. Defined.
