(* ===== verification/Hba.v ===== *)
(** * Lines of pg_hba.conf (src/backend/libpq/hba.c, src/backend/libpq/ifaddr.c)

    A tokenized line is parsed into an entry, the entries of a file replace the
    ones in use when all of them parse, and a connection is given the first
    entry that matches its type, address, database and role.  The resolver and
    the interfaces of the machine are a class, and so is the compiler of regular
    expressions; which methods the server was built with, and the options of
    LDAP and RADIUS, are parameters. *)
From Stdlib Require Import ZArith Lia Bool String List Ascii.
From stdpp Require Import base gmap list strings.
From S2P Require Import Prelude CryptoIface Env CString ScramSecret Scram FeScram Auth HbaFile.
Import ListNotations.
Local Open Scope Z_scope.
Local Open Scope pg_scope.

(** ** Addresses *)

(** An address by its family: the bytes of an IPv4 or IPv6 address in network
    order. *)
Inductive SockAddr :=
| AF_UNIX
| AF_INET (a : bytes)
| AF_INET6 (a : bytes)
| AF_OTHER.

Inductive gai :=
| GaiAddress (a : SockAddr)
| GaiNoName
| GaiFailure.

Class Network := {
  getaddrinfo_numeric : bytes -> gai;                     (* with AI_NUMERICHOST *)
  getnameinfo : SockAddr -> option bytes;
  getaddrinfo : bytes -> option (list SockAddr);
  getifaddrs : option (list (SockAddr * option SockAddr))
}.

(** *** Masks *)

Definition cidr_mask4 (bits : Z) : bytes :=
  be_bytes 4 (if 0 <? bits then Z.land (Z.shiftl 0xffffffff (32 - bits)) 0xffffffff else 0).

Fixpoint cidr_mask6 (todo : nat) (bits : Z) : bytes :=
  match todo with
  | O => []
  | S todo' =>
      (if bits <=? 0 then 0 else if 8 <=? bits then 0xff else Z.land (Z.shiftl 0xff (8 - bits)) 0xff)
        :: cidr_mask6 todo' (bits - 8)
  end.

(** [numbits] is NULL for a full mask; [None] is the result -1. *)
Definition pg_sockaddr_cidr_mask (numbits : option bytes) (family : SockAddr) : option SockAddr :=
  let bits :=
    match numbits with
    | None => Some (match family with AF_INET _ => 32 | _ => 128 end)
    | Some s =>
        let '(bits, endptr, _) := strtol s in
        match s, endptr with
        | _ :: _, [] => Some bits
        | _, _ => None
        end
    end in
  match bits with
  | None => None
  | Some bits =>
      match family with
      | AF_INET _ => if (bits <? 0) || (32 <? bits) then None else Some (AF_INET (cidr_mask4 bits))
      | AF_INET6 _ => if (bits <? 0) || (128 <? bits) then None else Some (AF_INET6 (cidr_mask6 16 bits))
      | _ => None
      end
  end.

(** An IPv4 address is compared as the integer its four bytes are in memory. *)
Definition range_sockaddr_AF_INET (addr netaddr netmask : bytes) : bool :=
  Z.land (Z.lxor (le_val addr) (le_val netaddr)) (le_val netmask) =? 0.

Fixpoint range_sockaddr_AF_INET6 (addr netaddr netmask : bytes) : bool :=
  match addr, netaddr, netmask with
  | a :: addr', n :: netaddr', m :: netmask' =>
      if negb (Z.land (Z.lxor a n) m =? 0) then false else range_sockaddr_AF_INET6 addr' netaddr' netmask'
  | _, _, _ => true
  end.

Definition check_ip (raddr addr mask : SockAddr) : bool :=
  match raddr, addr, mask with
  | AF_INET r, AF_INET a, AF_INET m => range_sockaddr_AF_INET r a m
  | AF_INET6 r, AF_INET6 a, AF_INET6 m => range_sockaddr_AF_INET6 r a m
  | _, _, _ => false
  end.

(** *** The interfaces of the machine *)

(** The two methods that look at the interfaces; [ipCmpAll] and [ipCmpMask] are
    the other constructors of [address] below. *)
Inductive IPCompareMethod := ipCmpSameHost | ipCmpSameNet.

Definition unspecified (a : bytes) : bool := forallb (Z.eqb 0) a.

(** [run_ifaddr_callback] makes up a full mask for one that is missing, of
    another family or empty. *)
Definition run_ifaddr_mask (addr : SockAddr) (mask : option SockAddr) : option SockAddr :=
  match addr, mask with
  | AF_INET _, Some (AF_INET m) => if unspecified m then pg_sockaddr_cidr_mask None addr else Some (AF_INET m)
  | AF_INET6 _, Some (AF_INET6 m) => if unspecified m then pg_sockaddr_cidr_mask None addr else Some (AF_INET6 m)
  | _, _ => pg_sockaddr_cidr_mask None addr
  end.

Definition check_network_callback (raddr : SockAddr) (method : IPCompareMethod) (addr : SockAddr) (netmask : option SockAddr)
    : bool :=
  let mask := match method with
              | ipCmpSameHost => pg_sockaddr_cidr_mask None addr
              | ipCmpSameNet => run_ifaddr_mask addr netmask
              end in
  match mask with Some m => check_ip raddr addr m | None => false end.

Section Hosts.
  Context `{NW : Network}.

Definition check_same_host_or_net (raddr : SockAddr) (method : IPCompareMethod) : bool :=
  match getifaddrs with
  | None => false
  | Some l => existsb (fun '(addr, netmask) => check_network_callback raddr method addr netmask) l
  end.

(** *** Host names *)

Definition hostname_match (pattern actual_hostname : bytes) : bool :=
  match pattern with
  | 46 :: _ =>
      let plen := length pattern in let hlen := length actual_hostname in
      if (hlen <? plen)%nat then false
      else bytes_eqb (bytes_lower pattern) (bytes_lower (skipn (hlen - plen) actual_hostname))
  | _ => bytes_eqb (bytes_lower pattern) (bytes_lower actual_hostname)
  end.

(** What the port remembers of the client's name. *)
Record hostcache := mkHostcache {
  remote_hostname : option bytes;
  remote_hostname_resolv : Z
}.

Definition same_address (a b : SockAddr) : bool :=
  match a, b with
  | AF_INET x, AF_INET y | AF_INET6 x, AF_INET6 y => bytes_eqb x y
  | _, _ => false
  end.

Definition check_hostname (raddr : SockAddr) (hostname : bytes) : M hostcache bool :=
  let! c := get in
  if remote_hostname_resolv c <? 0 then ret false
  else
    let name := match remote_hostname c with Some h => Some h | None => getnameinfo raddr end in
    match name with
    | None => do! put (mkHostcache None (-2)) in ret false
    | Some h =>
        do! modify (fun c => mkHostcache (Some h) (remote_hostname_resolv c)) in
        if negb (hostname_match hostname h) then ret false
        else if remote_hostname_resolv c =? 1 then ret true
        else
          match getaddrinfo h with
          | None => do! put (mkHostcache (Some h) (-2)) in ret false
          | Some l =>
              let found := existsb (fun a => same_address a raddr) l in
              do! put (mkHostcache (Some h) (if found then 1 else -1)) in ret found
          end
    end.
End Hosts.

(** ** Parsing a line *)

Section Parse.
  Context `{RX : Regex} `{NW : Network}.
  Variable pg_regcomp : bytes -> option regex_t.
  (** Methods that depend on how the server was built. *)
  Variable built_with : UserAuth -> bool.
  Variable other : HbaLine -> bytes -> bytes -> bool.
  Variable method_checks : HbaLine -> bool.

Inductive address :=
| AddrAll
| AddrSame (method : IPCompareMethod)
| AddrHost (hostname : bytes)
| AddrMask (addr mask : SockAddr).

(** A line of the file: the part the methods read, and what it matches. *)
Record HbaEntry := mkEntry {
  e_line : HbaLine;
  e_databases : list AuthToken;
  e_roles : list AuthToken;
  e_address : address              (* not read for local lines *)
}.

(** [copy_auth_token] and [regcomp_auth_token] *)
Definition compile_token (t : token) : option AuthToken :=
  let '(s, quoted) := t in
  match s with
  | 47 :: re => match pg_regcomp re with Some r => Some (mkToken s quoted (Some r)) | None => None end
  | _ => Some (mkToken s quoted None)
  end.

Fixpoint compile_tokens (ts : list token) : option (list AuthToken) :=
  match ts with
  | [] => Some []
  | t :: ts' =>
      match compile_token t, compile_tokens ts' with
      | Some t, Some l => Some (t :: l)
      | _, _ => None
      end
  end.

Definition keyword (t : token) (k : string) : bool := negb (snd t) && eqs (fst t) k.

Definition connection_type (s : bytes) : option ConnType :=
  if eqs s "local" then Some ctLocal
  else if eqs s "host" then Some ctHost
  else if eqs s "hostssl" then Some ctHostSSL
  else if eqs s "hostnossl" then Some ctHostNoSSL
  else if eqs s "hostgssenc" then Some ctHostGSS
  else if eqs s "hostnogssenc" then Some ctHostNoGSS
  else None.

Definition auth_method_name (s : bytes) : option UserAuth :=
  if eqs s "trust" then Some uaTrust
  else if eqs s "ident" then Some uaIdent
  else if eqs s "peer" then Some uaPeer
  else if eqs s "password" then Some uaPassword
  else if eqs s "gss" then Some uaGSS
  else if eqs s "sspi" then Some uaSSPI
  else if eqs s "reject" then Some uaReject
  else if eqs s "md5" then Some uaMD5
  else if eqs s "scram-sha-256" then Some uaSCRAM
  else if eqs s "pam" then Some uaPAM
  else if eqs s "bsd" then Some uaBSD
  else if eqs s "ldap" then Some uaLDAP
  else if eqs s "cert" then Some uaCert
  else if eqs s "radius" then Some uaRADIUS
  else if eqs s "pqc-cert" then Some uaPQCCert
  else if eqs s "pqc-scram-sha-384" || eqs s "pqc-scram" then Some uaPQCSCRAM
  else None.

(** Whether the method needs something the server may have been built without. *)
Definition optional_method (m : UserAuth) : bool :=
  match m with
  | uaGSS | uaSSPI | uaPAM | uaBSD | uaLDAP | uaCert | uaPQCCert | uaPQCSCRAM => true
  | _ => false
  end.

Definition same_family (a b : SockAddr) : bool :=
  match a, b with
  | AF_INET _, AF_INET _ | AF_INET6 _, AF_INET6 _ | AF_UNIX, AF_UNIX | AF_OTHER, AF_OTHER => true
  | _, _ => false
  end.

(** The address and the fields after it; a netmask can be a field of its own. *)
Definition parse_address (fields : list (list token)) : option (address * list (list token)) :=
  match fields with
  | [t] :: fields =>
      if keyword t "all" then Some (AddrAll, fields)
      else if keyword t "samehost" then Some (AddrSame ipCmpSameHost, fields)
      else if keyword t "samenet" then Some (AddrSame ipCmpSameNet, fields)
      else
        let '(str, slash) := span (fun c => negb (c =? 47)) (fst t) in
        match getaddrinfo_numeric str, slash with
        | GaiFailure, _ => None
        | GaiNoName, [] => Some (AddrHost str, fields)
        | GaiNoName, _ :: _ => None
        | GaiAddress addr, _ :: numbits =>
            match pg_sockaddr_cidr_mask (Some numbits) addr with
            | Some mask => Some (AddrMask addr mask, fields)
            | None => None
            end
        | GaiAddress addr, [] =>
            match fields with
            | [m] :: fields =>
                match getaddrinfo_numeric (fst m) with
                | GaiAddress mask => if same_family addr mask then Some (AddrMask addr mask, fields) else None
                | _ => None
                end
            | _ => None
            end
        end
  | _ => None
  end.

Definition is_local (ct : ConnType) : bool := match ct with ctLocal => true | _ => false end.

(** The method and what follows it. *)
Definition parse_method (ct : ConnType) (fields : list (list token)) : option HbaLine :=
  match fields with
  | [(s, _)] :: fields =>
      match auth_method_name s with
      | None => None
      | Some m =>
          if optional_method m && negb (built_with m) then None
          else
            let m := match ct, m with ctLocal, uaIdent => uaPeer | _, _ => m end in
            match is_local ct, m with
            | true, uaGSS => None
            | false, uaPeer => None
            | _, _ => finish_hba_line other method_checks ct m (map fst (mjoin fields))
            end
      end
  | _ => None
  end.

(** [None] is NULL: the line is in error. *)
Definition parse_hba_line (fields : list (list token)) : option HbaEntry :=
  match fields with
  | [(s, _)] :: databases :: roles :: fields =>
      match connection_type s, compile_tokens databases, compile_tokens roles with
      | Some ct, Some databases, Some roles =>
          match (if is_local ct then Some (AddrAll, fields) else parse_address fields) with
          | None => None
          | Some (addr, fields) =>
              match parse_method ct fields with
              | Some line => Some (mkEntry line databases roles addr)
              | None => None
              end
          end
      | _, _, _ => None
      end
  | _ => None
  end.

(** ** Loading the file *)

(** The lines that parse, and whether all did. *)
Fixpoint parse_lines (lines : list TokenizedAuthLine) : list HbaEntry * bool :=
  match lines with
  | [] => ([], true)
  | l :: lines' =>
      let '(es, ok) := parse_lines lines' in
      if tl_error l then (es, false)
      else match parse_hba_line (tl_fields l) with
           | Some e => (e :: es, ok)
           | None => (es, false)
           end
  end.

Variable AbsoluteConfigLocation : bytes -> string -> string.
Variable GetConfFilesInDir : bytes -> string -> M env (option (list bytes)).
Variable stale_enoent : bool.

(** The result and the lines in use afterwards. *)
Definition load_hba (HbaFileName : string) (parsed_hba_lines : list HbaEntry) : M env (bool * list HbaEntry) :=
  let! lines := tokenize_auth_file AbsoluteConfigLocation GetConfFilesInDir stale_enoent HbaFileName in
  match lines with
  | None => ret (false, parsed_hba_lines)
  | Some lines =>
      let '(new_parsed_lines, ok) := parse_lines lines in
      match new_parsed_lines, ok with
      | _ :: _, true => ret (true, new_parsed_lines)
      | _, _ => ret (false, parsed_hba_lines)
      end
  end.

(** *** pg_ident.conf *)

Definition parse_ident_line (fields : list (list token)) : option IdentLine :=
  match fields with
  | [(usermap, _)] :: [system_user] :: [pg_user] :: _ =>
      match compile_token system_user, compile_token pg_user with
      | Some su, Some pu => Some (mkIdent usermap su pu)
      | _, _ => None
      end
  | _ => None
  end.

Fixpoint parse_ident_lines (lines : list TokenizedAuthLine) : list IdentLine * bool :=
  match lines with
  | [] => ([], true)
  | l :: lines' =>
      let '(es, ok) := parse_ident_lines lines' in
      if tl_error l then (es, false)
      else match parse_ident_line (tl_fields l) with
           | Some e => (e :: es, ok)
           | None => (es, false)
           end
  end.

(** A file without lines is valid here. *)
Definition load_ident (IdentFileName : string) (parsed_ident_lines : list IdentLine) : M env (bool * list IdentLine) :=
  let! lines := tokenize_auth_file AbsoluteConfigLocation GetConfFilesInDir stale_enoent IdentFileName in
  match lines with
  | None => ret (false, parsed_ident_lines)
  | Some lines =>
      let '(new_parsed_lines, ok) := parse_ident_lines lines in
      if ok : bool then ret (true, new_parsed_lines) else ret (false, parsed_ident_lines)
  end.
End Parse.

(** ** Matching a connection *)

(** What a connection shows of itself besides its port: the address, the
    database, whether GSSAPI encrypts it, and whether it is a walsender for
    physical replication. *)
Record Conn := mkConn {
  raddr : SockAddr;
  database_name : bytes;
  gss_enc : bool;
  physical_walsender : bool
}.

Section Match.
  Context `{RX : Regex} `{RO : Roles} `{NW : Network}.

Fixpoint check_db (walsender : bool) (dbname role : bytes) (roleid : Z) (tokens : list AuthToken) : bool :=
  match tokens with
  | [] => false
  | tok :: tokens' =>
      (if walsender then token_is_keyword tok "replication"
       else if token_is_keyword tok "all" then true
       else if token_is_keyword tok "sameuser" then bytes_eqb dbname role
       else if token_is_keyword tok "samegroup" || token_is_keyword tok "samerole" then is_member roleid dbname
       else if token_is_keyword tok "replication" then false
       else
         match tok_regex tok with
         | Some r => fst (pg_regexec r dbname) =? REG_OKAY
         | None => token_matches false tok dbname
         end) || check_db walsender dbname role roleid tokens'
  end.

(** The checks of the type of connection that do not look at the address. *)
Definition check_type (ssl gss : bool) (ct : ConnType) : bool :=
  (if ssl then match ct with ctHostNoSSL => false | _ => true end
   else match ct with ctHostSSL => false | _ => true end) &&
  (if gss then match ct with ctHostNoGSS => false | _ => true end
   else match ct with ctHostGSS => false | _ => true end).

Definition is_unix (a : SockAddr) : bool := match a with AF_UNIX => true | _ => false end.

Definition check_address (conn : Conn) (addr : address) : M hostcache bool :=
  match addr with
  | AddrAll => ret true
  | AddrSame method => ret (check_same_host_or_net (raddr conn) method)
  | AddrHost hostname => check_hostname (raddr conn) hostname
  | AddrMask a m => ret (check_ip (raddr conn) a m)
  end.

Definition implicit_reject : HbaLine := mkHba ctLocal uaImplicitReject None clientCertOff clientCertCN.

(** The loop of [check_hba]: the first line whose checks all pass. *)
Fixpoint check_hba (conn : Conn) (port : Port) (lines : list HbaEntry) : M hostcache HbaLine :=
  match lines with
  | [] => ret implicit_reject
  | e :: lines' =>
      let roleid := get_role_oid (user_name port) in
      let ct := conntype (e_line e) in
      let! reached :=
        if is_local ct then ret (is_unix (raddr conn))
        else if is_unix (raddr conn) then ret false
        else if negb (check_type (ssl_in_use port) (gss_enc conn) ct) then ret false
        else check_address conn (e_address e) in
      if reached && check_db (physical_walsender conn) (database_name conn) (user_name port) roleid (e_databases e) &&
         check_role (user_name port) roleid (e_roles e) false
      then ret (e_line e)
      else check_hba conn port lines'
  end.

(** [hba_getauthmethod], of a connection whose name was not looked up yet. *)
Definition hba_getauthmethod (conn : Conn) (port : Port) (lines : list HbaEntry) : outcome HbaLine :=
  fst (check_hba conn port lines (mkHostcache None 0)).

(** *** What a line matches *)

(** A name belongs to an address that both lookups agree on. *)
Definition named (a : SockAddr) (hostname : bytes) : bool :=
  match getnameinfo a with
  | None => false
  | Some h =>
      hostname_match hostname h &&
      match getaddrinfo h with Some l => existsb (fun x => same_address x a) l | None => false end
  end.

Definition address_matches (conn : Conn) (addr : address) : bool :=
  match addr with
  | AddrAll => true
  | AddrSame method => check_same_host_or_net (raddr conn) method
  | AddrHost hostname => named (raddr conn) hostname
  | AddrMask a m => check_ip (raddr conn) a m
  end.

Definition matches (conn : Conn) (port : Port) (e : HbaEntry) : bool :=
  let roleid := get_role_oid (user_name port) in
  let ct := conntype (e_line e) in
  (if is_local ct then is_unix (raddr conn)
   else negb (is_unix (raddr conn)) && check_type (ssl_in_use port) (gss_enc conn) ct &&
        address_matches conn (e_address e)) &&
  check_db (physical_walsender conn) (database_name conn) (user_name port) roleid (e_databases e) &&
  check_role (user_name port) roleid (e_roles e) false.

(** What the cache of lookups says is true. *)
Definition cache_ok (a : SockAddr) (c : hostcache) : Prop :=
  (forall h, remote_hostname c = Some h -> getnameinfo a = Some h) /\
  (remote_hostname_resolv c < 0 -> forall hostname, named a hostname = false) /\
  (remote_hostname_resolv c = 1 -> exists h l, remote_hostname c = Some h /\ getaddrinfo h = Some l /\
     existsb (fun x => same_address x a) l = true).

Lemma check_hostname_run a hostname c : cache_ok a c ->
  exists c', check_hostname a hostname c = (Ok (named a hostname), c') /\ cache_ok a c'.
Proof.
  intros (Hh & Hneg & Hpos). unfold check_hostname, bind, get, modify, put, ret.
  destruct (Z.ltb_spec (remote_hostname_resolv c) 0) as [Hlt|Hge].
  { exists c. rewrite Hneg by exact Hlt. repeat split; assumption. }
  destruct (match remote_hostname c with Some h => Some h | None => getnameinfo a end) as [h|] eqn:Hname.
  2:{ destruct (remote_hostname c); [discriminate|]. eexists. unfold named. rewrite Hname. split; [reflexivity|].
      split; [discriminate|]. split; [intros _ ?; unfold named; rewrite Hname; reflexivity|discriminate]. }
  assert (Hn : getnameinfo a = Some h).
  { destruct (remote_hostname c) as [h'|] eqn:Hc; [|exact Hname]. injection Hname as ->. apply Hh. reflexivity. }
  assert (Hs : forall h', Some h = Some h' -> getnameinfo a = Some h') by (intros h' [= <-]; exact Hn).
  unfold named. rewrite Hn. destruct (hostname_match hostname h); cbn [negb andb].
  - destruct (Z.eqb_spec (remote_hostname_resolv c) 1) as [H1|H1].
    + destruct (Hpos H1) as (h' & l & Hc & Hg & He). assert (h' = h) as -> by (rewrite Hc in Hname; congruence).
      eexists. rewrite Hg, He. split; [reflexivity|]. split; [exact Hs|]. cbn. split; [lia|]. eauto.
    + destruct (getaddrinfo h) as [l|] eqn:Hg; eexists; (split; [reflexivity|]); (split; [exact Hs|]); cbn.
      * destruct (existsb _ l) eqn:He; cbn; [split; [lia|eauto]|]. split; [|lia]. intros _ hn. unfold named.
        rewrite Hn, Hg, He, andb_false_r. reflexivity.
      * split; [|lia]. intros _ hn. unfold named. rewrite Hn, Hg, andb_false_r. reflexivity.
  - eexists. split; [reflexivity|]. split; [exact Hs|]. cbn. split; [lia|]. intros H1.
    destruct (Hpos H1) as (h' & l & Hc & Hg & He). rewrite Hc in Hname. injection Hname as ->. eauto.
Qed.

Lemma check_hba_run conn port lines : forall c, cache_ok (raddr conn) c ->
  exists c', check_hba conn port lines c
    = (Ok (match List.find (matches conn port) lines with Some e => e_line e | None => implicit_reject end), c').
Proof.
  induction lines as [|e lines IH]; intros c Hc; [eexists; reflexivity|]. cbn [check_hba List.find]. cbv zeta.
  assert (Hr : exists c', (if is_local (conntype (e_line e)) then ret (is_unix (raddr conn))
      else if is_unix (raddr conn) then ret false
      else if negb (check_type (ssl_in_use port) (gss_enc conn) (conntype (e_line e))) then ret false
      else check_address conn (e_address e)) c
    = (Ok (if is_local (conntype (e_line e)) then is_unix (raddr conn)
           else negb (is_unix (raddr conn)) && check_type (ssl_in_use port) (gss_enc conn) (conntype (e_line e)) &&
                address_matches conn (e_address e)), c') /\ cache_ok (raddr conn) c').
  { destruct (is_local _); [eexists; split; [reflexivity|exact Hc]|].
    destruct (is_unix _); [eexists; split; [reflexivity|exact Hc]|]. cbn [negb andb].
    destruct (check_type _ _ _); cbn [negb andb]; [|eexists; split; [reflexivity|exact Hc]].
    destruct (e_address e); cbn [check_address address_matches]; try (eexists; split; [reflexivity|exact Hc]).
    apply check_hostname_run, Hc. }
  destruct Hr as (c' & Hr & Hc'). mrun Hr. unfold matches at 1. cbv zeta.
  match type of Hr with _ = (Ok ?b, _) => generalize b end. intros reached.
  destruct (reached && _ && _); [eexists; reflexivity|apply IH, Hc'].
Qed.

Lemma cache_empty a : cache_ok a (mkHostcache None 0).
Proof. split; [discriminate|]. cbn. split; [lia|discriminate]. Qed.

(** C26: equivalence.  The scan of the lines, which looks names up only when a
    line needs them, stops at the first match and remembers answers from one
    line to the next, gives the connection the first line that matches it, a
    name matching when its address resolves to a name that fits and back, and
    the implicit rejection when none does. *)
Theorem first_match_wins conn port lines :
  hba_getauthmethod conn port lines
    = Ok (match List.find (matches conn port) lines with Some e => e_line e | None => implicit_reject end).
Proof.
  destruct (check_hba_run conn port lines _ (cache_empty _)) as [c' Hr].
  unfold hba_getauthmethod. rewrite Hr. reflexivity.
Qed.
End Match.

(** ** Networks *)

(** The first [bits] bits of an address of [length a] bytes. *)
Definition network_bits (a : bytes) (bits : Z) : Z := Z.shiftr (be_val a) (8 * blen a - bits).

Lemma be_val_cons a l : be_val (a :: l) = a * 256 ^ blen l + be_val l.
Proof.
  unfold be_val, blen. cbn [rev]. assert (H : forall x y, le_val (x ++ [y]) = le_val x + 256 ^ Z.of_nat (length x) * y).
  { induction x as [|b x IH]; intros y; cbn [app le_val length]; [cbn; lia|].
    rewrite IH, Nat2Z.inj_succ, Z.pow_succ_r by lia. lia. }
  rewrite H, length_rev. lia.
Qed.

Lemma be_val_range l : wf_bytes l = true -> 0 <= be_val l < 256 ^ blen l.
Proof.
  intros Hl. unfold be_val. pose proof (le_val_bound (rev l)) as H. unfold blen in *. rewrite length_rev in H.
  apply H. apply forallb_forall. intros x Hx.
  apply (proj1 (forallb_forall _ _) Hl), in_rev, Hx.
Qed.

(** Bits of the first byte only, of the bytes after it, or none. *)
Lemma network_bits_cons a l bits : is_byte a = true -> wf_bytes l = true ->
  network_bits (a :: l) bits =
    if bits <=? 0 then 0
    else if 8 <=? bits then a * 2 ^ (bits - 8) + network_bits l (bits - 8)
    else Z.shiftr a (8 - bits).
Proof.
  intros Ha Hl. apply is_byte_iff in Ha. pose proof (be_val_range l Hl) as Hr. unfold network_bits.
  assert (Hn : 0 <= blen l) by (unfold blen; lia).
  assert (Hb : blen (a :: l) = blen l + 1) by (unfold blen; cbn [length]; lia).
  rewrite be_val_cons, Hb. replace 256 with (2 ^ 8) in * by reflexivity. rewrite <- Z.pow_mul_r in * by lia.
  destruct (Z.leb_spec bits 0) as [H0|H0].
  - rewrite Z.shiftr_div_pow2 by lia. apply Z.div_small. split; [nia|].
    apply Z.lt_le_trans with (2 ^ (8 * (blen l + 1))); [|apply Z.pow_le_mono_r; lia].
    replace (8 * (blen l + 1)) with (8 + 8 * blen l) by lia. rewrite Z.pow_add_r by lia.
    change (2 ^ 8) with 256. nia.
  - destruct (Z.leb_spec 8 bits) as [H8|H8].
    + destruct (Z.le_gt_cases (8 * (blen l + 1) - bits) 0) as [Hs|Hs].
      * rewrite !(Z.shiftr_mul_pow2) by lia.
        replace (- (8 * blen l - (bits - 8))) with (- (8 * (blen l + 1) - bits)) by lia.
        replace (bits - 8) with (8 * blen l + - (8 * (blen l + 1) - bits)) by lia.
        rewrite Z.pow_add_r by lia. lia.
      * rewrite !Z.shiftr_div_pow2 by lia. replace (8 * blen l - (bits - 8)) with (8 * (blen l + 1) - bits) by lia.
        replace (8 * blen l) with ((bits - 8) + (8 * (blen l + 1) - bits)) by lia.
        rewrite Z.pow_add_r, Z.mul_assoc, Z.div_add_l by lia. reflexivity.
    + rewrite !Z.shiftr_div_pow2 by lia. replace (8 * (blen l + 1) - bits) with (8 * blen l + (8 - bits)) by lia.
      rewrite Z.pow_add_r, <- Z.div_div by lia. rewrite Z.div_add_l, (Z.div_small (be_val l)) by lia.
      rewrite Z.add_0_r. reflexivity.
Qed.

Lemma network_bits_bound l b : wf_bytes l = true -> 0 <= b -> 0 <= network_bits l b < 2 ^ b.
Proof.
  intros Hl Hb. pose proof (be_val_range l Hl) as Hr. unfold network_bits.
  assert (0 <= blen l) by (unfold blen; lia). replace 256 with (2 ^ 8) in Hr by reflexivity.
  rewrite <- Z.pow_mul_r in Hr by lia. destruct (Z.le_gt_cases (8 * blen l - b) 0) as [Hs|Hs].
  - rewrite Z.shiftr_mul_pow2 by lia.
    assert (E : 2 ^ b = 2 ^ (8 * blen l) * 2 ^ (- (8 * blen l - b))) by (rewrite <- Z.pow_add_r by lia; f_equal; lia).
    nia.
  - rewrite Z.shiftr_div_pow2 by lia. split; [apply Z.div_pos; lia|]. apply Z.div_lt_upper_bound; [lia|].
    rewrite <- Z.pow_add_r by lia. replace (8 * blen l - b + b) with (8 * blen l) by lia. apply Hr.
Qed.

Lemma network_bits_none l b : wf_bytes l = true -> b <= 0 -> network_bits l b = 0.
Proof.
  intros Hl Hb. pose proof (be_val_range l Hl) as Hr. unfold network_bits.
  assert (0 <= blen l) by (unfold blen; lia). rewrite Z.shiftr_div_pow2 by lia. apply Z.div_small.
  split; [lia|]. eapply Z.lt_le_trans; [apply Hr|]. replace 256 with (2 ^ 8) by reflexivity.
  rewrite <- Z.pow_mul_r by lia. apply Z.pow_le_mono_r; lia.
Qed.

Lemma is_byte_lxor a n : is_byte a = true -> is_byte n = true -> is_byte (Z.lxor a n) = true.
Proof. rewrite !is_byte_iff. apply lxor_byte. Qed.

(** The mask of one byte. *)
Definition byte_mask (bits : Z) : Z :=
  if bits <=? 0 then 0 else if 8 <=? bits then 0xff else Z.land (Z.shiftl 0xff (8 - bits)) 0xff.

Lemma byte_mask_partial x bits : is_byte x = true -> 0 < bits < 8 ->
  (Z.land x (byte_mask bits) =? 0) = (Z.shiftr x (8 - bits) =? 0).
Proof.
  intros Hx Hb. apply is_byte_iff in Hx.
  assert (Hall : forallb (fun n => forallb (fun b =>
      Bool.eqb (Z.land (Z.of_nat n) (byte_mask (Z.of_nat b)) =? 0) (Z.shiftr (Z.of_nat n) (8 - Z.of_nat b) =? 0))
    (seq 1 7)) (seq 0 256) = true) by (vm_compute; reflexivity).
  rewrite forallb_forall in Hall. specialize (Hall (Z.to_nat x)). rewrite forallb_forall in Hall.
  specialize (Hall ltac:(apply in_seq; lia) (Z.to_nat bits) ltac:(apply in_seq; lia)).
  rewrite !Z2Nat.id in Hall by lia. apply Bool.eqb_prop, Hall.
Qed.

Lemma lxor_zero a n : (Z.lxor a n =? 0) = (a =? n).
Proof.
  apply eq_true_iff_eq. rewrite !Z.eqb_eq. split; [apply Z.lxor_eq|intros ->; apply Z.lxor_nilpotent].
Qed.

Lemma range6_network addr : forall net bits, wf_bytes addr = true -> wf_bytes net = true ->
  length net = length addr ->
  range_sockaddr_AF_INET6 addr net (cidr_mask6 (length addr) bits) = (network_bits addr bits =? network_bits net bits).
Proof.
  induction addr as [|a addr IH]; intros [|n net] bits Ha Hn Hl; try discriminate.
  { unfold network_bits. rewrite Z.eqb_refl. reflexivity. }
  cbn [wf_bytes forallb] in Ha, Hn. apply andb_true_iff in Ha as [Ha Has], Hn as [Hn Hns].
  injection Hl as Hl. cbn [length cidr_mask6 range_sockaddr_AF_INET6]. fold (byte_mask bits).
  rewrite !network_bits_cons by assumption. rewrite IH by assumption.
  destruct (Z.leb_spec bits 0) as [H0|H0].
  - rewrite !network_bits_none by (assumption || lia). unfold byte_mask. replace (bits <=? 0) with true by lia.
    rewrite Z.land_0_r. reflexivity.
  - destruct (Z.leb_spec 8 bits) as [H8|H8].
    + pose proof (network_bits_bound addr (bits - 8) Has ltac:(lia)).
      pose proof (network_bits_bound net (bits - 8) Hns ltac:(lia)).
      assert (Hm : Z.land (Z.lxor a n) (byte_mask bits) = Z.lxor a n).
      { unfold byte_mask. replace (bits <=? 0) with false by lia. replace (8 <=? bits) with true by lia.
        change 0xff with (Z.ones 8). rewrite Z.land_ones by lia. apply Z.mod_small.
        pose proof (is_byte_lxor a n Ha Hn) as Hx. apply is_byte_iff in Hx. lia. }
      rewrite Hm, lxor_zero. destruct (Z.eqb_spec a n) as [->|Hne]; cbn [negb].
      * apply eq_true_iff_eq. rewrite !Z.eqb_eq. lia.
      * symmetry. apply Z.eqb_neq. nia.
    + rewrite byte_mask_partial by (try apply is_byte_lxor; auto; lia). rewrite Z.shiftr_lxor, lxor_zero.
      destruct (Z.shiftr a (8 - bits) =? Z.shiftr n (8 - bits)); [cbn [negb]|reflexivity].
      rewrite !network_bits_none by (assumption || lia). reflexivity.
Qed.

Lemma testbit_byte_cons x X i : is_byte x = true -> 0 <= i ->
  Z.testbit (x + 256 * X) i = if i <? 8 then Z.testbit x i else Z.testbit X (i - 8).
Proof.
  intros Hx Hi. apply is_byte_iff in Hx. destruct (Z.ltb_spec i 8) as [Hlt|Hge].
  - rewrite <- (Z.mod_pow2_bits_low (x + 256 * X) 8 i) by lia. change (2 ^ 8) with 256.
    rewrite Z.mul_comm, Z.mod_add, Z.mod_small by lia. reflexivity.
  - replace i with ((i - 8) + 8) at 1 by lia. rewrite <- Z.div_pow2_bits by lia. change (2 ^ 8) with 256.
    rewrite Z.mul_comm, Z.div_add, Z.div_small by lia. reflexivity.
Qed.

(** Comparing the integers is comparing the bytes. *)
Lemma range4_bytes a : forall n m, wf_bytes a = true -> wf_bytes n = true -> wf_bytes m = true ->
  length n = length a -> length m = length a ->
  range_sockaddr_AF_INET a n m = range_sockaddr_AF_INET6 a n m.
Proof.
  induction a as [|x a IH]; intros [|y n] [|z m] Ha Hn Hm Hl1 Hl2; try discriminate; [reflexivity|].
  cbn [wf_bytes forallb] in Ha, Hn, Hm. apply andb_true_iff in Ha as [Hx Ha], Hn as [Hy Hn], Hm as [Hz Hm].
  injection Hl1 as Hl1. injection Hl2 as Hl2. cbn [range_sockaddr_AF_INET6].
  rewrite <- IH by assumption. unfold range_sockaddr_AF_INET. cbn [le_val].
  assert (Hw : is_byte (Z.land (Z.lxor x y) z) = true).
  { pose proof (is_byte_lxor x y Hx Hy) as Hb. apply is_byte_iff in Hb, Hz. apply is_byte_iff.
    split; [apply Z.land_nonneg; lia|]. destruct (Z.eq_dec (Z.land (Z.lxor x y) z) 0) as [->|Hne]; [lia|].
    apply (Z.log2_lt_pow2 _ 8); [assert (0 <= Z.land (Z.lxor x y) z) by (apply Z.land_nonneg; lia); lia|].
    eapply Z.le_lt_trans; [apply Z.log2_land; lia|]. apply Z.min_lt_iff. right.
    destruct (Z.eq_dec z 0) as [->|]; [cbn; lia|]. apply Z.log2_lt_pow2; lia. }
  assert (E : Z.land (Z.lxor (x + 256 * le_val a) (y + 256 * le_val n)) (z + 256 * le_val m)
    = Z.land (Z.lxor x y) z + 256 * Z.land (Z.lxor (le_val a) (le_val n)) (le_val m)).
  { apply Z.bits_inj'. intros i Hi.
    rewrite Z.land_spec, Z.lxor_spec, !testbit_byte_cons by assumption.
    destruct (i <? 8); rewrite Z.land_spec, Z.lxor_spec; reflexivity. }
  rewrite E. pose proof (le_val_bound a Ha). pose proof (le_val_bound n Hn). pose proof (le_val_bound m Hm).
  assert (0 <= Z.land (Z.lxor (le_val a) (le_val n)) (le_val m))
    by (apply Z.land_nonneg; right; lia).
  apply is_byte_iff in Hw. destruct (Z.eqb_spec (Z.land (Z.lxor x y) z) 0) as [->|Hne]; cbn [negb].
  - apply eq_true_iff_eq. rewrite !Z.eqb_eq. lia.
  - apply Z.eqb_neq. lia.
Qed.

Lemma cidr_mask4_bytes bits : 0 <= bits <= 32 ->
  cidr_mask4 bits = cidr_mask6 4 bits /\ wf_bytes (cidr_mask4 bits) = true /\ length (cidr_mask4 bits) = 4%nat.
Proof.
  intros Hb. assert (Hall : forallb (fun n => bytes_eqb (cidr_mask4 (Z.of_nat n)) (cidr_mask6 4 (Z.of_nat n)) &&
    wf_bytes (cidr_mask4 (Z.of_nat n)) && (length (cidr_mask4 (Z.of_nat n)) =? 4)%nat) (seq 0 33) = true)
    by (vm_compute; reflexivity).
  rewrite forallb_forall in Hall. specialize (Hall (Z.to_nat bits) ltac:(apply in_seq; lia)).
  rewrite Z2Nat.id in Hall by lia. apply andb_true_iff in Hall as [Hall H3]. apply andb_true_iff in Hall as [H1 H2].
  apply bytes_eqb_eq in H1. apply Nat.eqb_eq in H3. auto.
Qed.

Definition address_bytes (a : SockAddr) : bytes := match a with AF_INET b | AF_INET6 b => b | _ => [] end.

(** An address with as many bytes as its family has. *)
Definition wf_address (a : SockAddr) : Prop :=
  match a with
  | AF_INET b => length b = 4%nat /\ wf_bytes b = true
  | AF_INET6 b => length b = 16%nat /\ wf_bytes b = true
  | _ => False
  end.

Lemma check_ip_network client addr bits mask :
  wf_address client -> wf_address addr -> 0 <= bits ->
  (match addr with AF_INET _ => bits <= 32 /\ mask = AF_INET (cidr_mask4 bits)
   | _ => bits <= 128 /\ mask = AF_INET6 (cidr_mask6 16 bits) end) ->
  check_ip client addr mask
    = same_family client addr && (network_bits (address_bytes client) bits =? network_bits (address_bytes addr) bits).
Proof.
  intros Hc Ha Hb Hm. destruct client as [|c|c|], addr as [|a|a|]; try contradiction; cbn [same_family andb];
    destruct Hc as [Hlc Hwc], Ha as [Hla Hwa], Hm as [Hmax ->]; cbn [check_ip address_bytes].
  - destruct (cidr_mask4_bytes bits ltac:(lia)) as (E & Hw & Hl).
    rewrite range4_bytes by congruence. rewrite E. replace 4%nat with (length c) by exact Hlc.
    apply range6_network; congruence.
  - reflexivity.
  - reflexivity.
  - replace 16%nat with (length c) by exact Hlc. apply range6_network; congruence.
Qed.

(** ** Properties *)

Section CidrLines.
  Context `{NW : Network}.

Lemma span_slash str rest : forallb (fun c => negb (c =? 47)) str = true ->
  span (fun c => negb (c =? 47)) (str ++ 47 :: rest) = (str, 47 :: rest).
Proof.
  induction str as [|c str IH]; intros Hs; [reflexivity|]. cbn in Hs. apply andb_true_iff in Hs as [Hc Hs].
  cbn. rewrite Hc, IH by exact Hs. reflexivity.
Qed.

Lemma no_keyword_with_slash str rest q k : forallb (fun c => negb (c =? 47)) (bytes_of_string k) = true ->
  keyword (str ++ 47 :: rest, q) k = false.
Proof.
  intros Hk. unfold keyword, eqs. cbn [fst snd]. apply andb_false_iff. right. apply not_true_iff_false.
  rewrite bytes_eqb_eq. intros E. rewrite <- E, forallb_app in Hk. cbn in Hk. rewrite andb_false_r in Hk. discriminate.
Qed.

(** C32: functional.  An address field [address/bits] of a line gives a mask with
    which the line matches exactly the clients of the same family whose first
    [bits] bits are those of the address, for every number of bits of an IPv4 or
    IPv6 address, 0 and all of them included; a number beyond them is an error
    of the line. *)
Theorem cidr_field_matches str addr bits quoted fields :
  forallb (fun c => negb (c =? 47)) str = true -> getaddrinfo_numeric str = GaiAddress addr -> wf_address addr ->
  0 <= bits < 10 ^ 10 ->
  let field := [(str ++ 47 :: format_d bits, quoted)] in
  if bits <=? 8 * blen (address_bytes addr) then
    exists mask, parse_address (field :: fields) = Some (AddrMask addr mask, fields) /\
      forall conn, wf_address (raddr conn) ->
        address_matches conn (AddrMask addr mask)
          = same_family (raddr conn) addr &&
            (network_bits (address_bytes (raddr conn)) bits =? network_bits (address_bytes addr) bits)
  else parse_address (field :: fields) = None.
Proof.
  intros Hstr Hg Hwf Hb. cbv zeta. unfold parse_address. rewrite !no_keyword_with_slash by reflexivity. cbn [fst].
  rewrite span_slash, Hg by exact Hstr. unfold pg_sockaddr_cidr_mask.
  pose proof (strtol_format bits [] Hb I) as Hs. rewrite app_nil_r in Hs. rewrite Hs.
  destruct (format_d_digits bits ltac:(lia)) as [_ Hne]. destruct (format_d bits) as [|d ds]; [contradiction|].
  destruct addr as [|a|a|]; try contradiction; destruct Hwf as [Hla Hwa]; cbn [address_bytes]; unfold blen; rewrite Hla.
  - destruct (Z.leb_spec bits (8 * Z.of_nat 4)); replace ((bits <? 0) || (32 <? bits)) with (32 <? bits) by lia.
    + replace (32 <? bits) with false by lia. eexists. split; [reflexivity|]. intros conn Hc. cbn [address_matches].
      apply check_ip_network; [exact Hc|split; assumption|lia|split; [lia|reflexivity]].
    + replace (32 <? bits) with true by lia. reflexivity.
  - destruct (Z.leb_spec bits (8 * Z.of_nat 16)); replace ((bits <? 0) || (128 <? bits)) with (128 <? bits) by lia.
    + replace (128 <? bits) with false by lia. eexists. split; [reflexivity|]. intros conn Hc. cbn [address_matches].
      apply check_ip_network; [exact Hc|split; assumption|lia|split; [lia|reflexivity]].
    + replace (128 <? bits) with true by lia. reflexivity.
Qed.
End CidrLines.

Section LoadedLines.
  Context `{RX : Regex} `{NW : Network}.
  Variable pg_regcomp : bytes -> option regex_t.
  Variable built_with : UserAuth -> bool.
  Variable other : HbaLine -> bytes -> bytes -> bool.
  Variable method_checks : HbaLine -> bool.
  Variable AbsoluteConfigLocation : bytes -> string -> string.
  Variable GetConfFilesInDir : bytes -> string -> M env (option (list bytes)).
  Variable stale_enoent : bool.

Local Abbreviation load := (load_hba pg_regcomp built_with other method_checks AbsoluteConfigLocation GetConfFilesInDir stale_enoent).
Local Abbreviation tokenized := (tokenize_auth_file AbsoluteConfigLocation GetConfFilesInDir stale_enoent).

(** The line gives the entry. *)
Definition parses_to (l : TokenizedAuthLine) (e : HbaEntry) : Prop :=
  tl_error l = false /\ parse_hba_line pg_regcomp built_with other method_checks (tl_fields l) = Some e.

Lemma parse_lines_all lines : forall es,
  parse_lines pg_regcomp built_with other method_checks lines = (es, true) <-> Forall2 parses_to lines es.
Proof.
  induction lines as [|l lines IH]; intros es; cbn [parse_lines].
  - split; [intros E; injection E as <-; constructor|]. intros H. inversion H. reflexivity.
  - destruct (parse_lines _ _ _ _ lines) as [es' ok] eqn:Hp. unfold parses_to. split.
    + destruct (tl_error l) eqn:He; [discriminate|]. destruct (parse_hba_line _ _ _ _ _) as [x|] eqn:Hl; [|discriminate].
      intros E. injection E as <- ->. constructor; [auto|]. apply IH. reflexivity.
    + intros H. inversion H as [|? x ? es0 [He Hl] Hrest]; subst. rewrite He, Hl.
      apply IH in Hrest. injection Hrest as -> ->. reflexivity.
Qed.

(** C27: error.  Loading pg_hba.conf is all or nothing of what was read.  It
    always ends, and the lines in use afterwards are the new ones only when the
    file could be opened and the lines the tokenizer gave, those of included
    files among them, are at least one and all parse; then they are exactly the
    entries of these lines in their order.  Otherwise they are the old ones.
    Which lines the tokenizer gives when reading fails half way is not part of
    this: they are those before the failure. *)
Theorem load_hba_all_or_nothing HbaFileName old e :
  (forall d f, total (GetConfFilesInDir d f)) ->
  exists ok lines e', load HbaFileName old e = (Ok (ok, lines), e') /\
    if ok : bool then lines <> [] /\ exists toks, tokenized HbaFileName e = (Ok (Some toks), e') /\ Forall2 parses_to toks lines
    else lines = old /\ forall toks es, tokenized HbaFileName e = (Ok (Some toks), e') -> es <> [] -> ~ Forall2 parses_to toks es.
Proof.
  intros Ht. assert (Htot : total (tokenized HbaFileName)).
  { unfold tokenize_auth_file, fopen_read. tsteps. apply lines_loop_total; [exact Ht|]. intros b.
    apply include_at_total, Ht. }
  destruct (Htot e) as (r & e' & Hr). unfold load_hba. mrun Hr. destruct r as [toks|].
  - destruct (parse_lines _ _ _ _ toks) as [es ok] eqn:Hp.
    assert (Hbad : es = [] \/ ok = false -> forall toks' es', tokenized HbaFileName e = (Ok (Some toks'), e') ->
      es' <> [] -> ~ Forall2 parses_to toks' es').
    { intros Hc toks' es' E Hne HF. rewrite Hr in E. injection E as <-. apply parse_lines_all in HF.
      rewrite Hp in HF. injection HF as -> ->. destruct Hc as [->|]; [contradiction|discriminate]. }
    destruct es as [|x es]; [|destruct ok].
    + do 3 eexists. split; [reflexivity|]. cbv iota. auto.
    + do 3 eexists. split; [reflexivity|]. split; [discriminate|]. exists toks. split; [exact Hr|].
      apply parse_lines_all, Hp.
    + do 3 eexists. split; [reflexivity|]. cbv iota. auto.
  - do 3 eexists. split; [reflexivity|]. split; [reflexivity|]. intros toks es E. rewrite Hr in E. discriminate.
Qed.

End LoadedLines.

(** ** From the file to the login *)

Definition set_hba (l : HbaLine) (port : Port) : Port :=
  mkPort l (user_name port) (ssl_in_use port) (peer_cn port) (peer_dn port) (peer_cert_valid port) (peer port)
    (certificate_hash port).

Section Connections.
  Context `{CL : CryptoLaws} `{DL : DigestLaws} `{SP : Saslprep} `{RX : Regex} `{RO : Roles} `{OB : Objects} `{NW : Network}.
  Variable parsed_ident_lines : list IdentLine.
  Variable other_method : Port -> list (Z * bytes) -> M auth_state (Z * list auth_request).

(** The authentication of a connection by the lines in use. *)
Definition connect (parsed_hba_lines : list HbaEntry) (conn : Conn) (loaded : bool) (mock : bytes) (enc : PasswordType)
    (now : Z) (port : Port) (msgs : list (Z * bytes)) : M auth_state (list auth_request) :=
  match hba_getauthmethod conn port parsed_hba_lines with
  | Ok line => ClientAuthentication parsed_ident_lines other_method loaded mock enc now (set_hba line port) msgs
  | _ => fatal
  end.

Lemma find_first {A} (f : A -> bool) l x : List.find f l = Some x ->
  exists l1 l2, l = l1 ++ x :: l2 /\ Forall (fun y => f y = false) l1 /\ f x = true.
Proof.
  induction l as [|y l IH]; [discriminate|]. cbn. destruct (f y) eqn:Hy.
  - intros [= ->]. exists [], l. auto.
  - intros Hf. destruct (IH Hf) as (l1 & l2 & -> & H1 & H2). exists (y :: l1), l2. auto.
Qed.

(** C12: safety.  Whoever is let in was let in by a line of the file: the first
    one that matches the connection, which does not reject it.  Where that line
    asks for SCRAM, of either hash, the role has an unexpired SCRAM secret, the
    mechanism is one the line accepts, and the messages sent after it prove
    knowledge of the key stored in that secret over the nonce drawn for this
    exchange and the bytes exchanged.  A connection no line matches is refused. *)
Theorem login_needs_line lines conn loaded mock enc now port msgs e sent s' :
  connect lines conn loaded mock enc now port msgs (e, None) = (Ok sent, s') ->
  exists before line after, lines = before ++ line :: after /\
    Forall (fun l => matches conn port l = false) before /\ matches conn port line = true /\
    auth_method (e_line line) <> uaReject /\
    (auth_method (e_line line) = uaSCRAM \/ auth_method (e_line line) = uaPQCSCRAM ->
     snd s' = Some (user_name port, auth_method (e_line line)) /\
     exists secret parsed mech m1 m2,
       get_role_password now (user_name port) = Some secret /\ parse_scram_secret secret = Some parsed /\
       mech_accepted (set_hba (e_line line) port) mech /\ sends mech m1 m2 msgs /\
       proves (set_hba (e_line line) port) parsed (binds mech)
         (Base64.enc (RAND (draws e) SCRAM_RAW_NONCE_LEN)) m1 m2).
Proof.
  intros Hr. unfold connect, hba_getauthmethod in Hr.
  destruct (check_hba_run conn port lines _ (cache_empty _)) as [c' Hc]. rewrite Hc in Hr. cbn [fst] in Hr.
  destruct (List.find (matches conn port) lines) as [line|] eqn:Hf.
  2:{ unfold ClientAuthentication in Hr. cbn in Hr. discriminate. }
  destruct (find_first _ _ _ Hf) as (before & after & Hl & Hb & Hm). exists before, line, after.
  split; [exact Hl|]. split; [exact Hb|]. split; [exact Hm|]. split.
  - intros Hrej. unfold ClientAuthentication in Hr. cbn [hba set_hba] in Hr. rewrite Hrej in Hr.
    destruct (_ && _) in Hr; discriminate.
  - intros Hs. destruct (scram_let_in_inv _ _ _ _ _ _ (set_hba (e_line line) port) _ _ _ _ Hs Hr)
      as (sent0 & e1 & Hsasl & Hid). split; [exact Hid|].
    apply sasl_sound in Hsasl as (secret & parsed & mech & m1 & m2 & Hall).
    exists secret, parsed, mech, m1, m2. exact Hall.
Qed.
End Connections.

(** ** Witnesses *)

Import Toy ToyDigests.
#[local] Existing Instances no_regex one_role one_object.

(** The resolver knows one address, and the machine has no interfaces. *)
#[local] Instance one_network : Network := {|
  getaddrinfo_numeric s := if eqs s "10.0.0.0" then GaiAddress (AF_INET [10; 0; 0; 0]) else GaiNoName;
  getnameinfo _ := None;
  getaddrinfo _ := None;
  getifaddrs := None |}.

Lemma cidr_field_matches_witness :
  exists mask, parse_address [[(bytes_of_string "10.0.0.0/20", false)]] = Some (AddrMask (AF_INET [10; 0; 0; 0]) mask, []) /\
    forall conn, wf_address (raddr conn) ->
      address_matches conn (AddrMask (AF_INET [10; 0; 0; 0]) mask)
        = same_family (raddr conn) (AF_INET [10; 0; 0; 0]) &&
          (network_bits (address_bytes (raddr conn)) 20 =? network_bits [10; 0; 0; 0] 20).
Proof.
  apply (cidr_field_matches (bytes_of_string "10.0.0.0") (AF_INET [10; 0; 0; 0]) 20 false []);
    [reflexivity|reflexivity|split; reflexivity|lia].
Defined.

Definition hba_text : string :=
  String.append "host all bob all reject" (String (Ascii.ascii_of_nat 10) "host all alice 10.0.0.0/8 scram-sha-256").
Definition load_text (old : list HbaEntry) (text : string) : outcome (bool * list HbaEntry) * env :=
  load_hba (fun _ => None) (fun _ => true) (fun _ _ _ => false) (fun _ => true) absolute no_directory false
    "pg_hba.conf" old (file_env [("pg_hba.conf"%string, text)]).
Definition loaded_lines : list HbaEntry :=
  match fst (load_text [] hba_text) with Ok (_, lines) => lines | _ => [] end.

Lemma load_hba_all_or_nothing_witness :
  length loaded_lines = 2%nat /\
  exists ok lines e', load_text loaded_lines "host all all 10.0.0.0/33 trust" = (Ok (ok, lines), e') /\
    ok = false /\ lines = loaded_lines.
Proof.
  split; [reflexivity|].
  destruct (load_hba_all_or_nothing (fun _ => None) (fun _ => true) (fun _ _ _ => false) (fun _ => true) absolute
    no_directory false "pg_hba.conf" loaded_lines
    (file_env [("pg_hba.conf", "host all all 10.0.0.0/33 trust")]%string)) as (ok & lines & e' & H & Hok).
  { intros d f. apply total_ret. }
  exists ok, lines, e'. split; [exact H|]. vm_compute in H. injection H as <- <- <-. split; reflexivity.
Defined.



(** A connection over TLS from inside the network of the second line. *)
Definition inside : Conn := mkConn (AF_INET [10; 1; 2; 3]) (bytes_of_string "db") false false.

Lemma login_needs_line_witness :
  exists msgs sent s' before line after,
    connect [] no_method loaded_lines inside false [] PASSWORD_TYPE_SCRAM_SHA_256 0 (server_port uaReject true) msgs
      (quiet, None) = (Ok sent, s') /\
    loaded_lines = before ++ line :: after /\ length before = 1%nat /\ snd s' = Some (alice, uaSCRAM).
Proof.
  set (port := server_port uaSCRAM true).
  destruct (login_run [] port (client_conn "require" true) pw old_secret 2 [1; 2; 3; 4] quiet quiet
    tls_compatible old_secret_parses (or_introl old_secret_type))
    as (m1 & m2 & s1 & s2 & c1 & c2 & c3 & es & ec & _ & _ & _ & Q & _); [reflexivity|lia|reflexivity|reflexivity|].
  pose proof (scram_let_in [] no_method false [] PASSWORD_TYPE_SCRAM_SHA_256 0 port old_secret [m1; m2] _ quiet es
    (or_introl eq_refl) eq_refl eq_refl Q) as R.
  assert (R' : connect [] no_method loaded_lines inside false [] PASSWORD_TYPE_SCRAM_SHA_256 0
    (server_port uaReject true) [m1; m2] (quiet, None) = (Ok _, _)) by exact R.
  destruct (login_needs_line [] no_method loaded_lines inside false [] PASSWORD_TYPE_SCRAM_SHA_256 0
    (server_port uaReject true) [m1; m2] quiet _ _ R') as (before & line & after & Hl & Hb & Hm & _).
  eexists [m1; m2], _, (es, Some (alice, uaSCRAM)), before, line, after. split; [exact R'|]. split; [exact Hl|].
  split; [|reflexivity].
  assert (Hv : map (matches inside (server_port uaReject true)) loaded_lines = [false; true]) by (vm_compute; reflexivity).
  rewrite Hl, map_app in Hv. cbn [map] in Hv. rewrite Hm in Hv.
  destruct before as [|b1 [|b2 before]]; [discriminate Hv|reflexivity|].
  apply Forall_cons in Hb as [_ Hb]. apply Forall_cons in Hb as [Hb _]. cbn [map app] in Hv. rewrite Hb in Hv.
  discriminate Hv.
Defined.
