(* ===== verification/Archive.v ===== *)
(** * The custom archive format of pg_dump (src/bin/pg_dump)

    The integers, strings and offsets of an archive, its header with the fields
    for encryption and signatures, and its table of contents
    (pg_backup_archiver.c), over the file of the custom format
    (pg_backup_custom.c).  Every failure ends the program. *)
From Stdlib Require Import ZArith Lia Bool String List.
From stdpp Require Import base gmap list strings.
From S2P Require Import Prelude Env CString.
Import ListNotations.
Local Open Scope Z_scope.
Local Open Scope pg_scope.

(** ** The file *)

Record FILE := mkFILE {
  fh_env : env;
  fh_data : bytes;
  fh_pos : nat;
  fh_seekable : bool
}.

Definition fenvL : lens FILE env := Lens fh_env (fun e f => mkFILE e (fh_data f) (fh_pos f) (fh_seekable f)).

Definition advance (n : nat) (f : FILE) : FILE := mkFILE (fh_env f) (fh_data f) (fh_pos f + n) (fh_seekable f).

(** Bytes written over what is at the position. *)
Definition put_bytes (l : bytes) (f : FILE) : FILE :=
  mkFILE (fh_env f) (firstn (fh_pos f) (fh_data f) ++ l ++ skipn (fh_pos f + length l) (fh_data f))
    (fh_pos f + length l) (fh_seekable f).

Definition _WriteByte (i : Z) : M FILE unit :=
  let! ok := zoom fenvL attempt in
  if negb ok then fatal else modify (put_bytes [u8 i]).

Definition _WriteBuf (buf : bytes) : M FILE unit :=
  if (length buf =? 0)%nat then ret tt
  else
    let! ok := zoom fenvL attempt in
    if negb ok then fatal else modify (put_bytes buf).

(** [None] is EOF: the end of the file or an error. *)
Definition getc : M FILE (option Z) :=
  let! ok := zoom fenvL attempt in
  if negb ok then ret None
  else
    let! f := get in
    match nth_error (fh_data f) (fh_pos f) with
    | None => ret None
    | Some b => do! modify (advance 1) in ret (Some b)
    end.

Definition _ReadByte : M FILE Z :=
  let! c := getc in
  match c with
  | None => fatal
  | Some b => ret b
  end.

(** Into a buffer of [len] bytes, allocated before; neither a negative length
    nor one past the end of the file is survived. *)
Definition _ReadBuf (len : Z) : M FILE bytes :=
  if len =? 0 then ret []
  else
    let! ok := zoom fenvL attempt in
    let! f := get in
    if negb ok || (len <? 0) || (blen (fh_data f) - Z.of_nat (fh_pos f) <? len) then fatal
    else
      do! modify (advance (Z.to_nat len)) in
      ret (firstn (Z.to_nat len) (skipn (fh_pos f) (fh_data f))).

(** ** Versions *)

Definition MAKE_ARCHIVE_VERSION (major minor rev : Z) : Z := (major * 256 + minor) * 256 + rev.
Definition ARCHIVE_MAJOR (version : Z) : Z := Z.land (Z.shiftr version 16) 255.
Definition ARCHIVE_MINOR (version : Z) : Z := Z.land (Z.shiftr version 8) 255.
Definition ARCHIVE_REV (version : Z) : Z := Z.land version 255.

(** K_VERS_1_0 is [K_VERS 0], and so on. *)
Definition K_VERS (minor : Z) : Z := MAKE_ARCHIVE_VERSION 1 minor 0.
Definition K_VERS_SELF : Z := K_VERS 17.
Definition K_VERS_MAX : Z := MAKE_ARCHIVE_VERSION 1 17 255.

(** What the routines below read of the archive handle. *)
Record layout := mkLayout {
  ah_version : Z;
  intSize : nat;
  offSize : nat
}.

Definition self : layout := mkLayout K_VERS_SELF 4 8.

(** ** Integers, strings and offsets *)

Section Format.
  (** The value C leaves undefined: a shift by more than the width. *)
  Variable shl_undefined : Z -> Z -> Z.

(** [n] bytes of an integer, the lowest first. *)
Fixpoint write_le (n : nat) (i : Z) : M FILE unit :=
  match n with
  | O => ret tt
  | S n' => do! _WriteByte (Z.land i 0xFF) in write_le n' (Z.shiftr i 8)
  end.

Definition WriteInt (AH : layout) (i : Z) : M FILE unit :=
  if i <? 0 then do! _WriteByte 1 in write_le (intSize AH) (c_int (- i))
  else do! _WriteByte 0 in write_le (intSize AH) i.

Definition shl (bv bitShift : Z) : Z :=
  if bitShift <? 32 then c_int (Z.shiftl bv bitShift) else shl_undefined bv bitShift.

Fixpoint read_le (n : nat) (bitShift res : Z) : M FILE Z :=
  match n with
  | O => ret res
  | S n' =>
      let! b := _ReadByte in
      let bv := Z.land b 0xFF in
      read_le n' (bitShift + 8) (if bv =? 0 then res else c_int (res + shl bv bitShift))
  end.

Definition ReadInt (AH : layout) : M FILE Z :=
  let! sign := if K_VERS 0 <? ah_version AH then _ReadByte else ret 0 in
  let! res := read_le (intSize AH) 0 0 in
  ret (if sign =? 0 then res else c_int (- res)).

Definition WriteStr (AH : layout) (c : option bytes) : M FILE unit :=
  match c with
  | Some s => do! WriteInt AH (c_int (blen s)) in _WriteBuf s
  | None => WriteInt AH (-1)
  end.

Definition ReadStr (AH : layout) : M FILE (option bytes) :=
  let! l := ReadInt AH in
  if l <? 0 then ret None
  else let! buf := _ReadBuf l in ret (Some (cstring buf)).

Definition K_OFFSET_POS_NOT_SET : Z := 1.
Definition K_OFFSET_POS_SET : Z := 2.
Definition K_OFFSET_NO_DATA : Z := 3.

Definition WriteOffset (o wasSet : Z) : M FILE unit :=
  do! _WriteByte wasSet in write_le 8 o.

Fixpoint read_offset (n : nat) (off o : Z) : M FILE Z :=
  match n with
  | O => ret o
  | S n' =>
      let! b := _ReadByte in
      if off <? 8 then read_offset n' (off + 1) (Z.lor o (c_long (Z.shiftl b (off * 8))))
      else if b =? 0 then read_offset n' (off + 1) o
      else fatal
  end.

(** The flag and the offset. *)
Definition ReadOffset (AH : layout) : M FILE (Z * Z) :=
  if ah_version AH <? K_VERS 7 then
    let! i := ReadInt AH in
    ret (if i <? 0 then (K_OFFSET_POS_NOT_SET, 0)
         else if i =? 0 then (K_OFFSET_NO_DATA, 0)
         else (K_OFFSET_POS_SET, i))
  else
    let! b := _ReadByte in
    let offsetFlg := Z.land b 0xFF in
    if (offsetFlg =? K_OFFSET_POS_NOT_SET) || (offsetFlg =? K_OFFSET_NO_DATA) || (offsetFlg =? K_OFFSET_POS_SET)
    then let! o := read_offset (offSize AH) 0 0 in ret (offsetFlg, o)
    else fatal.

(** ** The header *)

Record tm := mkTm {
  tm_sec : Z; tm_min : Z; tm_hour : Z; tm_mday : Z; tm_mon : Z; tm_year : Z; tm_isdst : Z
}.

(** The fields for encryption and signatures of the archive handle, which is
    zero when it is allocated. *)
Record pqc_fields := mkPqcFields {
  pqc_encrypted : Z;
  pqc_kem_algorithm : option bytes;
  pqc_kem_ciphertext : option bytes;
  pqc_kem_ct_len : Z;
  pqc_aes_nonce : bytes;
  pqc_signed : Z;
  pqc_sig_algorithm : option bytes
}.

(** As allocated. *)
Definition no_pqc : pqc_fields := mkPqcFields 0 None None 0 (repeat 0 12) 0 None.

(** The handle as far as the header is concerned; the three names are the
    database and the versions of the server and of the program that dumped. *)
Record header := mkHeader {
  h_layout : layout;
  h_algorithm : Z;
  h_level : Z;
  createDate : Z;
  archdbname : option bytes;
  archiveRemoteVersion : option bytes;
  archiveDumpVersion : option bytes;
  h_pqc : pqc_fields
}.

  (** Whether the program was built with USE_PQC. *)
  Variable use_pqc : bool.
  Variable localtime : Z -> tm.
  (** -1 is a failure. *)
  Variable mktime : tm -> Z.

Definition archCustom : Z := 1.
Definition PG_COMPRESSION_GZIP : Z := 1.
Definition magic : bytes := bytes_of_string "PGDMP".

Definition WritePqc (AH : layout) (p : pqc_fields) : M FILE unit :=
  do! _WriteByte (pqc_encrypted p) in
  do! (if pqc_encrypted p =? 0 then ret tt
       else
         do! WriteStr AH (pqc_kem_algorithm p) in
         do! WriteInt AH (c_int (pqc_kem_ct_len p)) in
         do! match pqc_kem_ciphertext p with
             | Some ct => if 0 <? pqc_kem_ct_len p then _WriteBuf (firstn (Z.to_nat (pqc_kem_ct_len p)) ct) else ret tt
             | None => ret tt
             end in
         _WriteBuf (firstn 12 (pqc_aes_nonce p))) in
  do! _WriteByte (pqc_signed p) in
  if pqc_signed p =? 0 then ret tt else WriteStr AH (pqc_sig_algorithm p).

Definition WriteHead (h : header) : M FILE unit :=
  let AH := h_layout h in
  let crtm := localtime (createDate h) in
  do! _WriteBuf magic in
  do! _WriteByte (ARCHIVE_MAJOR (ah_version AH)) in
  do! _WriteByte (ARCHIVE_MINOR (ah_version AH)) in
  do! _WriteByte (ARCHIVE_REV (ah_version AH)) in
  do! _WriteByte (Z.of_nat (intSize AH)) in
  do! _WriteByte (Z.of_nat (offSize AH)) in
  do! _WriteByte archCustom in
  do! _WriteByte (h_algorithm h) in
  do! WriteInt AH (tm_sec crtm) in
  do! WriteInt AH (tm_min crtm) in
  do! WriteInt AH (tm_hour crtm) in
  do! WriteInt AH (tm_mday crtm) in
  do! WriteInt AH (tm_mon crtm) in
  do! WriteInt AH (tm_year crtm) in
  do! WriteInt AH (tm_isdst crtm) in
  do! WriteStr AH (archdbname h) in
  do! WriteStr AH (archiveRemoteVersion h) in
  do! WriteStr AH (archiveDumpVersion h) in
  if use_pqc then WritePqc AH (h_pqc h) else ret tt.

Definition ReadPqc (AH : layout) : M FILE pqc_fields :=
  let! encrypted := _ReadByte in
  let! (alg, ct, len, nonce) :=
    if encrypted =? 0 then ret (None, None, 0, repeat 0 12)
    else
      let! alg := ReadStr AH in
      let! len := ReadInt AH in
      let! ct := if len =? 0 then ret None else let! b := _ReadBuf len in ret (Some b) in
      let! nonce := _ReadBuf 12 in
      ret (alg, ct, len, nonce) in
  let! sgn := _ReadByte in
  let! sig := if sgn =? 0 then ret None else ReadStr AH in
  ret (mkPqcFields encrypted alg ct len nonce sgn sig).

(** The date of the header; a date that does not exist is tried again without
    its daylight saving flag. *)
Definition read_date (AH : layout) : M FILE Z :=
  let! sec := ReadInt AH in
  let! min := ReadInt AH in
  let! hour := ReadInt AH in
  let! mday := ReadInt AH in
  let! mon := ReadInt AH in
  let! year := ReadInt AH in
  let! isdst := ReadInt AH in
  let date := mktime (mkTm sec min hour mday mon year isdst) in
  ret (if date =? -1 then mktime (mkTm sec min hour mday mon year (-1)) else date).

(** The method and the level of compression; [algorithm] and [level] are those
    of the handle before. *)
Definition read_compression (AH : layout) (algorithm level : Z) : M FILE (Z * Z) :=
  if K_VERS 15 <=? ah_version AH then let! a := _ReadByte in ret (a, level)
  else if K_VERS 2 <=? ah_version AH then
    let! level := if ah_version AH <? K_VERS 4 then _ReadByte else ReadInt AH in
    ret (if level =? 0 then algorithm else PG_COMPRESSION_GZIP, level)
  else ret (PG_COMPRESSION_GZIP, level).

(** The versions read are of type [char]. *)
Definition read_version : M FILE Z :=
  let! maj := _ReadByte in
  let! min := _ReadByte in
  let vmaj := c_char maj in
  let vmin := c_char min in
  let! rev := if (1 <? vmaj) || ((vmaj =? 1) && (0 <? vmin)) then _ReadByte else ret 0 in
  ret (MAKE_ARCHIVE_VERSION vmaj vmin (c_char rev)).

(** [h0] is the handle before; [readHeader] says that the magic has been read
    already. *)
Definition ReadHead (readHeader : bool) (h0 : header) : M FILE header :=
  do! (if readHeader then ret tt
       else let! tmpMag := _ReadBuf 5 in if bytes_eqb tmpMag magic then ret tt else fatal) in
  let! v := read_version in
  if (v <? K_VERS 0) || (K_VERS_MAX <? v) then fatal
  else
    let! isz := _ReadByte in
    if 32 <? isz then fatal
    else
      let! osz := if K_VERS 7 <=? v then _ReadByte else ret isz in
      let AH := mkLayout v (Z.to_nat isz) (Z.to_nat osz) in
      let! fmt := _ReadByte in
      if negb (fmt =? archCustom) then fatal
      else
        let! (algorithm, level) := read_compression AH (h_algorithm h0) (h_level h0) in
        let! date := if K_VERS 4 <=? v then read_date AH else ret (createDate h0) in
        let! db := if K_VERS 4 <=? v then ReadStr AH else ret (archdbname h0) in
        let! remote := if K_VERS 10 <=? v then ReadStr AH else ret (archiveRemoteVersion h0) in
        let! dump := if K_VERS 10 <=? v then ReadStr AH else ret (archiveDumpVersion h0) in
        let! p := if use_pqc && (K_VERS 17 <=? v) then ReadPqc AH else ret (h_pqc h0) in
        ret (mkHeader AH algorithm level date db remote dump p).

(** ** The table of contents *)

(** What the routine that dumps the data of an entry calls. *)
Inductive dump_call :=
| WriteData (data : bytes)
| StartLO (loid : Z)
| EndLO (loid : Z).

(** An entry, with the state the custom format keeps of it. *)
Record TocEntry := mkTocEntry {
  dumpId : Z;
  hadDumper : bool;
  tableoid : Z;
  oid : Z;
  tag : option bytes;
  desc : option bytes;
  section : Z;
  defn : option bytes;
  dropStmt : option bytes;
  copyStmt : option bytes;
  namespace : option bytes;
  tablespace : option bytes;
  tableam : option bytes;
  relkind : Z;
  owner : option bytes;
  dependencies : list Z;
  dataState : Z;
  dataPos : Z;
  dataDumper : option (list dump_call);
  reqs : Z
}.

Definition REQ_SCHEMA : Z := 1.
Definition REQ_DATA : Z := 2.
Definition REQ_SPECIAL : Z := 4.

Definition is_dumped (te : TocEntry) : bool :=
  negb (Z.land (reqs te) (Z.lor REQ_SCHEMA (Z.lor REQ_DATA REQ_SPECIAL)) =? 0).

Fixpoint write_deps (AH : layout) (deps : list Z) : M FILE unit :=
  match deps with
  | [] => WriteStr AH None
  | d :: deps' => do! WriteStr AH (Some (format_d d)) in write_deps AH deps'
  end.

Definition write_entry (AH : layout) (te : TocEntry) : M FILE unit :=
  do! WriteInt AH (dumpId te) in
  do! WriteInt AH (match dataDumper te with Some _ => 1 | None => 0 end) in
  do! WriteStr AH (Some (format_d (tableoid te))) in
  do! WriteStr AH (Some (format_d (oid te))) in
  do! WriteStr AH (tag te) in
  do! WriteStr AH (desc te) in
  do! WriteInt AH (section te) in
  do! WriteStr AH (defn te) in
  do! WriteStr AH (dropStmt te) in
  do! WriteStr AH (copyStmt te) in
  do! WriteStr AH (namespace te) in
  do! WriteStr AH (tablespace te) in
  do! WriteStr AH (tableam te) in
  do! WriteInt AH (relkind te) in
  do! WriteStr AH (owner te) in
  do! WriteStr AH (Some (bytes_of_string "false")) in
  do! write_deps AH (dependencies te) in
  WriteOffset (dataPos te) (dataState te).

Fixpoint write_entries (AH : layout) (l : list TocEntry) : M FILE unit :=
  match l with
  | [] => ret tt
  | te :: l' => do! write_entry AH te in write_entries AH l'
  end.

Definition WriteToc (AH : layout) (toc : list TocEntry) : M FILE unit :=
  let dumped := List.filter is_dumped toc in
  do! WriteInt AH (c_int (Z.of_nat (length dumped))) in
  write_entries AH dumped.

(** [sscanf] with [%d] and [%u]: [None] where there is no number. *)
Definition scan_d (s : bytes) : option Z :=
  let '(v, rest, _) := strtol s in
  if (length rest =? length s)%nat then None else Some (c_int v).

Definition scan_u (s : bytes) : option Z :=
  let '(negative, s2) :=
    match snd (span isspace s) with
    | c :: r => if c =? 45 then (true, r) else if c =? 43 then (false, r) else (false, c :: r)
    | [] => (false, [])
    end in
  match fst (span isdigit s2) with
  | [] => None
  | digits =>
      let v := dec_val digits in
      Some (u32 (if 2 ^ 64 <=? v then 2 ^ 64 - 1 else if negative then - v else v))
  end.

(** An OID written as a string; a string that is missing is read through a NULL
    pointer, one that is no number leaves 0. *)
Definition read_oid (AH : layout) : M FILE Z :=
  let! tmp := ReadStr AH in
  match tmp with
  | None => fatal
  | Some s => ret (default 0 (scan_u s))
  end.

  (** What an element of a fresh array holds. *)
  Variable uninit : Z.

(** The loop over dependencies; [None]: it has not ended. *)
Fixpoint read_deps (fuel : nat) (AH : layout) (deps : list Z) : M FILE (option (list Z)) :=
  match fuel with
  | O => ret None
  | S fuel' =>
      let! tmp := ReadStr AH in
      match tmp with
      | None => ret (Some deps)
      | Some s => read_deps fuel' AH (deps ++ [default uninit (scan_d s)])
      end
  end.

Definition SECTION_NONE : Z := 1.
Definition SECTION_PRE_DATA : Z := 2.
Definition SECTION_DATA : Z := 3.
Definition SECTION_POST_DATA : Z := 4.

Definition is_any (s : bytes) (l : list string) : bool := existsb (fun x => bytes_eqb s (bytes_of_string x)) l.

(** The section of an entry of an old archive. *)
Definition old_section (d : bytes) : Z :=
  if is_any d ["COMMENT"; "ACL"; "ACL LANGUAGE"]%string then SECTION_NONE
  else if is_any d ["TABLE DATA"; "BLOBS"; "BLOB COMMENTS"]%string then SECTION_DATA
  else if is_any d ["CONSTRAINT"; "CHECK CONSTRAINT"; "FK CONSTRAINT"; "INDEX"; "RULE"; "TRIGGER"]%string
  then SECTION_POST_DATA
  else SECTION_PRE_DATA.

(** The dependencies of an entry; an archive ends before the loop has read one
    more string than it has bytes left. *)
Definition read_dependencies (AH : layout) : M FILE (list Z) :=
  if ah_version AH <? K_VERS 5 then ret []
  else
    let! f := get in
    let! deps := read_deps (S (length (fh_data f) - fh_pos f)) AH [] in
    match deps with
    | Some deps => ret deps
    | None => fatal
    end.

(** A field that archives have since a version. *)
Definition since {A} (AH : layout) (minor : Z) (m : M FILE A) (otherwise : A) : M FILE A :=
  if K_VERS minor <=? ah_version AH then m else ret otherwise.

Definition read_section (AH : layout) (d : option bytes) : M FILE Z :=
  if K_VERS 11 <=? ah_version AH then ReadInt AH
  else match d with
       | None => fatal
       | Some d => ret (old_section d)
       end.

(** The flag of tables with OIDs, of which the code only warns. *)
Definition read_with_oids (AH : layout) : M FILE unit :=
  if ah_version AH <? K_VERS 9 then ret tt
  else
    let! tmp := ReadStr AH in
    match tmp with
    | None => fatal
    | Some _ => ret tt
    end.

Definition read_extra_toc (AH : layout) : M FILE (Z * Z) :=
  let! r := ReadOffset AH in
  if ah_version AH <? K_VERS 7 then do! ReadInt AH in ret r else ret r.

Definition read_entry (AH : layout) : M FILE TocEntry :=
  let! id := ReadInt AH in
  if id <=? 0 then fatal
  else
    let! had := ReadInt AH in
    let! tboid := since AH 8 (read_oid AH) 0 in
    let! obj := read_oid AH in
    let! tg := ReadStr AH in
    let! d := ReadStr AH in
    let! sec := read_section AH d in
    let! def := ReadStr AH in
    let! drop := ReadStr AH in
    let! copy := since AH 3 (ReadStr AH) None in
    let! nsp := since AH 6 (ReadStr AH) None in
    let! tbs := since AH 10 (ReadStr AH) None in
    let! am := since AH 14 (ReadStr AH) None in
    let! rk := since AH 16 (ReadInt AH) 0 in
    let! own := ReadStr AH in
    do! read_with_oids AH in
    let! deps := read_dependencies AH in
    let! (st, pos) := read_extra_toc AH in
    ret (mkTocEntry id (negb (had =? 0)) tboid obj tg d sec def drop copy nsp tbs am (c_char rk) own deps st pos None 0).

(** *** Entries with a meaning for the reader *)

Record toc_settings := mkTocSettings {
  encoding : Z;
  std_strings : bool;
  searchpath : option bytes
}.

  Variable pg_char_to_encoding : bytes -> Z.

Definition strchr (c : Z) (s : bytes) : option bytes :=
  match snd (span (fun x => negb (x =? c)) s) with
  | [] => None
  | r => Some r
  end.

Definition APOSTROPHE : Z := 39.

(** [None] is the end of the program. *)
Definition processEncodingEntry (te : TocEntry) (p : toc_settings) : option toc_settings :=
  match defn te with
  | None => None
  | Some d =>
      match strchr APOSTROPHE d with
      | None => None
      | Some r =>
          match strchr APOSTROPHE (tl r) with
          | None => None
          | Some _ =>
              let enc := pg_char_to_encoding (fst (span (fun x => negb (x =? APOSTROPHE)) (tl r))) in
              if enc <? 0 then None else Some (mkTocSettings enc (std_strings p) (searchpath p))
          end
      end
  end.

Definition starts_with (pre s : bytes) : bool := bytes_eqb pre (firstn (length pre) s).

Definition processStdStringsEntry (te : TocEntry) (p : toc_settings) : option toc_settings :=
  match defn te with
  | None => None
  | Some d =>
      match strchr APOSTROPHE d with
      | None => None
      | Some r =>
          if starts_with (bytes_of_string "'on'") r then Some (mkTocSettings (encoding p) true (searchpath p))
          else if starts_with (bytes_of_string "'off'") r then Some (mkTocSettings (encoding p) false (searchpath p))
          else None
      end
  end.

Definition processSearchPathEntry (te : TocEntry) (p : toc_settings) : option toc_settings :=
  match defn te with
  | None => None
  | Some d => Some (mkTocSettings (encoding p) (std_strings p) (Some d))
  end.

Definition process_entry (te : TocEntry) (p : toc_settings) : option toc_settings :=
  match desc te with
  | None => None
  | Some d =>
      if is_any d ["ENCODING"]%string then processEncodingEntry te p
      else if is_any d ["STDSTRINGS"]%string then processStdStringsEntry te p
      else if is_any d ["SEARCHPATH"]%string then processSearchPathEntry te p
      else Some p
  end.

(** The entries in order, with the settings made on the way. *)
Fixpoint read_entries (count : nat) (AH : layout) (toc : list TocEntry) (p : toc_settings)
    : M FILE (list TocEntry * toc_settings) :=
  match count with
  | O => ret (toc, p)
  | S count' =>
      let! te := read_entry AH in
      match process_entry te p with
      | None => fatal
      | Some p => read_entries count' AH (toc ++ [te]) p
      end
  end.

Definition ReadToc (AH : layout) (p : toc_settings) : M FILE (list TocEntry * toc_settings) :=
  let! tocCount := ReadInt AH in
  read_entries (Z.to_nat tocCount) AH [] p.

Definition maxDumpId (toc : list TocEntry) : Z := fold_left (fun m te => Z.max m (dumpId te)) toc 0.
End Format.

(** ** Writing and reading *)

Definition on_file (f : FILE) : Prop := no_faults (fh_env f) /\ (fh_pos f <= length (fh_data f))%nat.

(** The program writes [l] at the position and returns [v], where nothing
    fails. *)
Definition yields {A} (m : M FILE A) (l : bytes) (v : A) : Prop :=
  forall f, on_file f -> m f = (Ok v, put_bytes l f).
Definition writes (m : M FILE unit) (l : bytes) : Prop := yields m l tt.

(** The program reads [l] at the position and returns [v], where nothing fails. *)
Definition reads {A} (m : M FILE A) (l : bytes) (v : A) : Prop :=
  forall f rest, no_faults (fh_env f) -> skipn (fh_pos f) (fh_data f) = l ++ rest ->
    m f = (Ok v, advance (length l) f).

Lemma put_bytes_nil f : on_file f -> put_bytes [] f = f.
Proof.
  intros [_ Hp]. destruct f as [e d p s]. unfold put_bytes. cbn in *. rewrite !Nat.add_0_r, firstn_skipn. reflexivity.
Qed.

Lemma put_bytes_app a b f : on_file f -> put_bytes b (put_bytes a f) = put_bytes (a ++ b) f.
Proof.
  intros [_ Hp]. destruct f as [e d p s]. unfold put_bytes. cbn in *.
  assert (Hl : length (firstn p d) = p) by (rewrite length_firstn; lia).
  f_equal; [|rewrite length_app; lia].
  rewrite (firstn_app (p + length a)), Hl, firstn_all2 by (rewrite Hl; lia).
  replace (p + length a - p)%nat with (length a + 0)%nat by lia.
  rewrite firstn_app_2, firstn_O, app_nil_r, <- !app_assoc. do 3 f_equal.
  rewrite skipn_app, Hl, skipn_all2 by (rewrite Hl; lia). cbn [app].
  rewrite skipn_app, skipn_all2 by lia. cbn [app]. rewrite skipn_skipn. f_equal. rewrite length_app. lia.
Qed.

Lemma put_bytes_on l f : on_file f -> on_file (put_bytes l f).
Proof.
  intros [Hn Hp]. split; [exact Hn|]. cbn. rewrite !length_app, length_firstn. lia.
Qed.

Lemma yields_bind {A B} (m : M FILE A) (k : A -> M FILE B) a b v w :
  yields m a v -> yields (k v) b w -> yields (bind m k) (a ++ b) w.
Proof.
  intros Hm Hk f Hf. mrun (Hm f Hf). rewrite (Hk _ (put_bytes_on a f Hf)), put_bytes_app by exact Hf. reflexivity.
Qed.

Lemma yields_ret {A} (v : A) : yields (ret v) [] v.
Proof. intros f Hf. rewrite put_bytes_nil by exact Hf. reflexivity. Qed.

Lemma writes_bind m k a b : writes m a -> writes k b -> writes (do! m in k) (a ++ b).
Proof. exact (yields_bind m (fun _ => k) a b tt tt). Qed.

Lemma writes_ret : writes (ret tt) [].
Proof. apply yields_ret. Qed.

Lemma writes_byte i : writes (_WriteByte i) [u8 i].
Proof.
  intros f [Hn _]. unfold _WriteByte, zoom, attempt, next_fault, bind. cbn. rewrite Hn. destruct f; reflexivity.
Qed.

Lemma writes_buf l : writes (_WriteBuf l) l.
Proof.
  intros f [Hn Hp]. unfold _WriteBuf. destruct (Nat.eqb_spec (length l) 0) as [E|_].
  - apply length_zero_iff_nil in E. subst. rewrite put_bytes_nil by (split; assumption). reflexivity.
  - unfold zoom, attempt, next_fault, bind. cbn. rewrite Hn. destruct f; reflexivity.
Qed.

Lemma advance_advance a b f : advance b (advance a f) = advance (a + b) f.
Proof. unfold advance. cbn. rewrite Nat.add_assoc. reflexivity. Qed.

Lemma skipn_advance (f : FILE) a rest : skipn (fh_pos f) (fh_data f) = a ++ rest ->
  skipn (fh_pos (advance (length a) f)) (fh_data (advance (length a) f)) = rest.
Proof.
  intros E. cbn. rewrite Nat.add_comm, <- skipn_skipn, E, skipn_app, skipn_all, Nat.sub_diag. reflexivity.
Qed.

Lemma reads_bind {A B} (m : M FILE A) (k : A -> M FILE B) a b v w :
  reads m a v -> reads (k v) b w -> reads (bind m k) (a ++ b) w.
Proof.
  intros Hm Hk f rest Hn E. rewrite <- app_assoc in E. mrun (Hm f _ Hn E).
  rewrite (Hk (advance (length a) f) rest Hn (skipn_advance f a _ E)), advance_advance, length_app. reflexivity.
Qed.

Lemma reads_ret {A} (v : A) : reads (ret v) [] v.
Proof. intros f rest Hn E. unfold advance. cbn. rewrite Nat.add_0_r. destruct f; reflexivity. Qed.

Lemma reads_eq {A} (m : M FILE A) a b v : reads m a v -> a = b -> reads m b v.
Proof. intros H <-. exact H. Qed.

Lemma reads_byte b : reads _ReadByte [b] b.
Proof.
  intros f rest Hn E. unfold _ReadByte, getc, zoom, attempt, next_fault, bind. cbn. rewrite Hn. cbn.
  assert (Hnth : nth_error (fh_data f) (fh_pos f) = Some b).
  { rewrite <- (Nat.add_0_r (fh_pos f)), <- nth_error_skipn, E. reflexivity. }
  destruct f. cbn in *. rewrite Hnth. reflexivity.
Qed.

Lemma reads_buf l : reads (_ReadBuf (blen l)) l l.
Proof.
  intros f rest Hn E. unfold _ReadBuf, blen. destruct (Z.eqb_spec (Z.of_nat (length l)) 0) as [El|Hl].
  - destruct l; [|cbn in El; lia]. apply (reads_ret (@nil Z) f rest Hn E).
  - unfold zoom, attempt, next_fault, bind. cbn. rewrite Hn. cbn.
    assert (Hlen : (length (fh_data f) - fh_pos f = length l + length rest)%nat)
      by (rewrite <- length_skipn, E, length_app; reflexivity).
    destruct f as [e d p s]. cbn in *.
    destruct (Z.ltb_spec (Z.of_nat (length l)) 0); [lia|].
    destruct (Z.ltb_spec (Z.of_nat (length d) - Z.of_nat p) (Z.of_nat (length l))); [lia|]. cbn.
    rewrite Nat2Z.id, E, firstn_app, firstn_all, Nat.sub_diag, firstn_O, app_nil_r. reflexivity.
Qed.

(** *** Integers *)

Lemma c_int_id i : - 2 ^ 31 <= i < 2 ^ 31 -> c_int i = i.
Proof. intros Hi. unfold c_int. rewrite Z.mod_small; lia. Qed.

Lemma c_int_range x : - 2 ^ 31 <= c_int x < 2 ^ 31.
Proof. unfold c_int. pose proof (Z.mod_pos_bound (x + 2 ^ 31) (2 ^ 32)). lia. Qed.

Lemma c_int_add a b : c_int (c_int a + b) = c_int (a + b).
Proof.
  unfold c_int. f_equal.
  replace ((a + 2 ^ 31) mod 2 ^ 32 - 2 ^ 31 + b + 2 ^ 31) with ((a + 2 ^ 31) mod 2 ^ 32 + b) by lia.
  rewrite Z.add_mod_idemp_l by lia. f_equal. lia.
Qed.

Lemma c_int_opp_opp i : - 2 ^ 31 <= i < 2 ^ 31 -> c_int (- c_int (- i)) = i.
Proof.
  intros Hi. destruct (Z.eq_dec i (- 2 ^ 31)) as [->|]; [reflexivity|]. rewrite (c_int_id (- i)) by lia.
  rewrite c_int_id; lia.
Qed.

Lemma writes_le n : forall i, writes (write_le n i) (le_bytes n i).
Proof.
  induction n as [|n IH]; intros i; [apply writes_ret|]. cbn [write_le le_bytes].
  change (i mod 256 :: le_bytes n (i / 256)) with ([i mod 256] ++ le_bytes n (i / 256)).
  apply writes_bind; [|rewrite Z.shiftr_div_pow2 by lia; apply IH].
  replace (i mod 256) with (u8 (Z.land i 0xFF)); [apply writes_byte|].
  change 0xFF with (Z.ones 8). rewrite Z.land_ones by lia. apply Z.mod_mod. lia.
Qed.

Section Ints.
  Variable shl_undefined : Z -> Z -> Z.

Lemma reads_le n : forall k x res, 0 <= k -> k + Z.of_nat n <= 4 -> - 2 ^ 31 <= res < 2 ^ 31 ->
  reads (read_le shl_undefined n (8 * k) res) (le_bytes n x)
    (c_int (res + x mod 256 ^ Z.of_nat n * 2 ^ (8 * k))).
Proof.
  induction n as [|n IH]; intros k x res Hk Hn Hres; cbn [read_le le_bytes].
  - rewrite Z.mod_1_r, Z.mul_0_l, Z.add_0_r, c_int_id by exact Hres. apply reads_ret.
  - change (x mod 256 :: le_bytes n (x / 256)) with ([x mod 256] ++ le_bytes n (x / 256)).
    eapply reads_bind; [apply reads_byte|]. cbv zeta.
    assert (Hb : Z.land (x mod 256) 0xFF = x mod 256).
    { change 0xFF with (Z.ones 8). rewrite Z.land_ones by lia. apply Z.mod_mod. lia. }
    rewrite Hb. replace (8 * k + 8) with (8 * (k + 1)) by lia.
    set (res' := if x mod 256 =? 0 then res else _).
    assert (Hr' : - 2 ^ 31 <= res' < 2 ^ 31 /\ forall y, c_int (res' + y) = c_int (res + x mod 256 * 2 ^ (8 * k) + y)).
    { subst res'. destruct (Z.eqb_spec (x mod 256) 0) as [->|_].
      - split; [exact Hres|]. intros y. f_equal. lia.
      - unfold shl. destruct (Z.ltb_spec (8 * k) 32); [|lia]. rewrite Z.shiftl_mul_pow2 by lia.
        split; [apply c_int_range|].
        intros y. rewrite c_int_add. rewrite (Z.add_comm res), <- Z.add_assoc, c_int_add. f_equal. lia. }
    destruct Hr' as [Hr' Heq]. specialize (IH (k + 1) (x / 256) res' ltac:(lia) ltac:(lia) Hr').
    rewrite Heq in IH. replace (Z.of_nat (S n)) with (Z.of_nat n + 1) by lia.
    replace (res + x mod 256 ^ (Z.of_nat n + 1) * 2 ^ (8 * k))
      with (res + x mod 256 * 2 ^ (8 * k) + (x / 256) mod 256 ^ Z.of_nat n * 2 ^ (8 * (k + 1))); [exact IH|].
    assert (Hx : x mod 256 ^ (Z.of_nat n + 1) = x mod 256 + 256 * ((x / 256) mod 256 ^ Z.of_nat n)).
    { rewrite Z.pow_add_r, Z.pow_1_r, (Z.mul_comm (256 ^ Z.of_nat n) 256) by lia. apply Z.rem_mul_r; lia. }
    rewrite Hx. replace (8 * (k + 1)) with (8 + 8 * k) by lia. rewrite Z.pow_add_r by lia. change (2 ^ 8) with 256. lia.
Qed.

(** The five bytes of an integer. *)
Definition enc_int (i : Z) : bytes :=
  (if i <? 0 then [1] else [0]) ++ le_bytes 4 (if i <? 0 then c_int (- i) else i).

Lemma writes_int i : writes (WriteInt self i) (enc_int i).
Proof.
  unfold WriteInt, enc_int. destruct (i <? 0); (apply writes_bind; [apply writes_byte|apply writes_le]).
Qed.

Lemma reads_int i : - 2 ^ 31 <= i < 2 ^ 31 -> reads (ReadInt shl_undefined self) (enc_int i) i.
Proof.
  intros Hi. unfold ReadInt, enc_int. change (K_VERS 0 <? ah_version self) with true. cbv iota.
  assert (Hl : forall x, c_int x = c_int (0 + x mod 256 ^ Z.of_nat 4 * 2 ^ (8 * 0))).
  { intros x. unfold c_int. f_equal. rewrite Z.add_0_l, Z.mul_1_r. change (256 ^ Z.of_nat 4) with (2 ^ 32).
    rewrite Z.add_mod_idemp_l by lia. reflexivity. }
  assert (Hr : forall x, reads (read_le shl_undefined 4 0 0) (le_bytes 4 x) (c_int x)).
  { intros x. rewrite Hl. apply (reads_le 4 0 x 0); lia. }
  destruct (Z.ltb_spec i 0); (eapply reads_bind; [apply reads_byte|]);
    rewrite <- (app_nil_r (le_bytes 4 _)); (eapply reads_bind; [apply Hr|]); cbn [Z.eqb].
  - replace i with (c_int (- c_int (c_int (- i)))) at 2; [apply reads_ret|].
    rewrite (c_int_id (c_int (- i))) by apply c_int_range.
    apply c_int_opp_opp, Hi.
  - rewrite c_int_id by exact Hi. apply reads_ret.
Qed.
End Ints.

(** *** Strings *)

(** A C string short enough for an [int]. *)
Definition is_string (s : bytes) : Prop := forallb (fun c => negb (c =? 0)) s = true /\ blen s < 2 ^ 31.
Definition is_string_or_null (c : option bytes) : Prop := match c with Some s => is_string s | None => True end.

Lemma cstring_id s : forallb (fun c => negb (c =? 0)) s = true -> cstring s = s.
Proof.
  induction s as [|c s IH]; [reflexivity|]. cbn. destruct (c =? 0); [discriminate|]. intros H. rewrite IH; auto.
Qed.

Definition enc_str (c : option bytes) : bytes :=
  match c with Some s => enc_int (c_int (blen s)) ++ s | None => enc_int (-1) end.

Lemma writes_str c : writes (WriteStr self c) (enc_str c).
Proof. destruct c as [s|]; [apply writes_bind; [apply writes_int|apply writes_buf]|apply writes_int]. Qed.

Section Strings.
  Variable shl_undefined : Z -> Z -> Z.

Lemma reads_str c : is_string_or_null c -> reads (ReadStr shl_undefined self) (enc_str c) c.
Proof.
  unfold ReadStr. destruct c as [s|]; cbn [enc_str is_string_or_null].
  - intros [Hs Hl]. assert (0 <= blen s) by (unfold blen; lia). rewrite c_int_id by lia.
    eapply reads_bind; [apply reads_int; lia|]. destruct (Z.ltb_spec (blen s) 0); [lia|].
    rewrite <- (app_nil_r s) at 2. eapply reads_bind; [apply reads_buf|]. rewrite cstring_id by exact Hs. apply reads_ret.
  - intros _. rewrite <- (app_nil_r (enc_int _)). eapply reads_bind; [apply reads_int; lia|]. apply reads_ret.
Qed.
End Strings.

(** *** Offsets *)

Lemma lor_disjoint a c k : 0 <= k -> 0 <= a < 2 ^ k -> Z.lor a (c * 2 ^ k) = a + c * 2 ^ k.
Proof.
  intros Hk Ha. assert (Hz : Z.land a (c * 2 ^ k) = 0).
  { apply Z.bits_inj'. intros i Hi. rewrite Z.land_spec, Z.bits_0. destruct (Z.lt_ge_cases i k).
    - rewrite Z.mul_pow2_bits_low by lia. apply andb_false_r.
    - destruct (Z.eq_dec a 0) as [->|]; [rewrite Z.bits_0; reflexivity|].
      rewrite (Z.bits_above_log2 a i); [reflexivity|lia|]. apply (Z.lt_le_trans _ k); [|lia].
      apply Z.log2_lt_pow2; lia. }
  rewrite <- Z.lxor_lor by exact Hz. symmetry. apply Z.add_nocarry_lxor, Hz.
Qed.

Lemma c_long_id i : - 2 ^ 63 <= i < 2 ^ 63 -> c_long i = i.
Proof. intros Hi. unfold c_long. rewrite Z.mod_small; lia. Qed.

(** What the loop holds after [k] of the eight bytes. *)
Definition offset_prefix (x k : Z) : Z := if k =? 8 then c_long x else x mod 2 ^ (8 * k).

Lemma offset_prefix_step x k : 0 <= k < 8 ->
  Z.lor (offset_prefix x k) (c_long (Z.shiftl ((x / 2 ^ (8 * k)) mod 256) (k * 8))) = offset_prefix x (k + 1).
Proof.
  intros Hk. unfold offset_prefix. destruct (Z.eqb_spec k 8); [lia|]. rewrite Z.shiftl_mul_pow2 by lia.
  set (b := (x / 2 ^ (8 * k)) mod 256). assert (Hb : 0 <= b < 256) by (apply Z.mod_pos_bound; lia).
  replace (k * 8) with (8 * k) by lia.
  assert (Hx : x mod 2 ^ (8 * (k + 1)) = x mod 2 ^ (8 * k) + b * 2 ^ (8 * k)).
  { replace (8 * (k + 1)) with (8 * k + 8) by lia. rewrite Z.pow_add_r by lia. rewrite Z.rem_mul_r by lia.
    change (2 ^ 8) with 256. fold b. lia. }
  assert (Hlow : 0 <= x mod 2 ^ (8 * k) < 2 ^ (8 * k)) by (apply Z.mod_pos_bound; lia).
  destruct (Z.eqb_spec (k + 1) 8) as [E|Hne].
  - assert (k = 7) by lia. subst k. change (8 * 7) with 56 in *. change (8 * (7 + 1)) with 64 in *.
    assert (Hc : exists q, c_long (b * 2 ^ 56) = q * 2 ^ 56 /\ x mod 2 ^ 56 + q * 2 ^ 56 = c_long x).
    { unfold c_long. pose proof (Z.div_mod x (2 ^ 64)). destruct (Z.lt_ge_cases b 128).
      - exists b. rewrite Z.mod_small by lia. split; [lia|].
        rewrite <- (Z.add_mod_idemp_l x), Hx by lia. rewrite (Z.mod_small (x mod 2 ^ 56 + b * 2 ^ 56 + 2 ^ 63)) by lia. lia.
      - exists (b - 256). rewrite <- (Z.mod_unique (b * 2 ^ 56 + 2 ^ 63) (2 ^ 64) 1 (b * 2 ^ 56 - 2 ^ 63)) by lia.
        split; [lia|]. rewrite <- (Z.add_mod_idemp_l x), Hx by lia.
        rewrite <- (Z.mod_unique (x mod 2 ^ 56 + b * 2 ^ 56 + 2 ^ 63) (2 ^ 64) 1
          (x mod 2 ^ 56 + b * 2 ^ 56 - 2 ^ 63)) by lia. lia. }
    destruct Hc as (q & -> & <-). apply lor_disjoint; lia.
  - assert (b * 2 ^ (8 * k) < 2 ^ 63).
    { apply (Z.lt_le_trans _ (256 * 2 ^ (8 * k))); [apply Z.mul_lt_mono_pos_r; lia|].
      change 256 with (2 ^ 8). rewrite <- Z.pow_add_r by lia. apply Z.pow_le_mono_r; lia. }
    rewrite c_long_id by lia. rewrite Hx. apply lor_disjoint; lia.
Qed.

Lemma reads_offset_loop x n : forall k, 0 <= k -> k + Z.of_nat n = 8 ->
  reads (read_offset n k (offset_prefix x k)) (le_bytes n (x / 2 ^ (8 * k))) (c_long x).
Proof.
  induction n as [|n IH]; intros k Hk Hn; cbn [read_offset le_bytes].
  - assert (k = 8) by lia. subst k. apply reads_ret.
  - set (y := x / 2 ^ (8 * k)). change (y mod 256 :: le_bytes n (y / 256)) with ([y mod 256] ++ le_bytes n (y / 256)).
    eapply reads_bind; [apply reads_byte|]. destruct (Z.ltb_spec k 8); [|lia].
    rewrite offset_prefix_step by lia. replace (y / 256) with (x / 2 ^ (8 * (k + 1))); [apply IH; lia|].
    unfold y. replace (8 * (k + 1)) with (8 * k + 8) by lia. rewrite Z.pow_add_r, Z.div_div by lia. reflexivity.
Qed.

Definition is_flag (st : Z) : Prop := st = K_OFFSET_POS_NOT_SET \/ st = K_OFFSET_POS_SET \/ st = K_OFFSET_NO_DATA.

Definition enc_offset (o st : Z) : bytes := [u8 st] ++ le_bytes 8 o.

Lemma writes_offset o st : writes (WriteOffset o st) (enc_offset o st).
Proof. apply writes_bind; [apply writes_byte|apply writes_le]. Qed.

Lemma reads_offset shl_undefined o st : is_flag st -> - 2 ^ 63 <= o < 2 ^ 63 ->
  reads (ReadOffset shl_undefined self) (enc_offset o st) (st, o).
Proof.
  intros Hst Ho. unfold ReadOffset, enc_offset. change (ah_version self <? K_VERS 7) with false. cbv iota.
  eapply reads_bind; [apply reads_byte|]. rewrite <- (app_nil_r (le_bytes 8 o)).
  assert (H : reads (read_offset 8 0 0) (le_bytes 8 o) o).
  { pose proof (reads_offset_loop o 8 0 ltac:(lia) eq_refl) as H. rewrite Z.div_1_r, c_long_id in H by exact Ho.
    replace (offset_prefix o 0) with 0 in H by (symmetry; apply Z.mod_1_r). exact H. }
  destruct Hst as [->|[->| ->]]; cbn -[read_offset le_bytes]; (eapply reads_bind; [exact H|apply reads_ret]).
Qed.

(** *** The header *)

Section Header.
  Variable shl_undefined : Z -> Z -> Z.
  Variable use_pqc : bool.
  Variable localtime : Z -> tm.
  Variable mktime : tm -> Z.

Definition kem_bytes (p : pqc_fields) : bytes :=
  match pqc_kem_ciphertext p with
  | Some ct => if 0 <? pqc_kem_ct_len p then firstn (Z.to_nat (pqc_kem_ct_len p)) ct else []
  | None => []
  end.

Definition enc_pqc (p : pqc_fields) : bytes :=
  [u8 (pqc_encrypted p)] ++
  (if pqc_encrypted p =? 0 then []
   else enc_str (pqc_kem_algorithm p) ++ enc_int (c_int (pqc_kem_ct_len p)) ++ kem_bytes p ++ firstn 12 (pqc_aes_nonce p)) ++
  [u8 (pqc_signed p)] ++
  (if pqc_signed p =? 0 then [] else enc_str (pqc_sig_algorithm p)).

Lemma writes_pqc p : writes (WritePqc self p) (enc_pqc p).
Proof.
  unfold WritePqc, enc_pqc, kem_bytes. apply writes_bind; [apply writes_byte|]. apply writes_bind.
  - destruct (pqc_encrypted p =? 0); [apply writes_ret|]. apply writes_bind; [apply writes_str|].
    apply writes_bind; [apply writes_int|]. apply writes_bind; [|apply writes_buf].
    destruct (pqc_kem_ciphertext p); [destruct (0 <? _); [apply writes_buf|apply writes_ret]|apply writes_ret].
  - apply writes_bind; [apply writes_byte|]. destruct (pqc_signed p =? 0); [apply writes_ret|apply writes_str].
Qed.

(** The fields a program can have set: a ciphertext of the length it says, and
    nothing where the archive is not encrypted or not signed. *)
Definition wf_pqc (p : pqc_fields) : Prop :=
  0 <= pqc_encrypted p < 256 /\ 0 <= pqc_signed p < 256 /\
  (if pqc_encrypted p =? 0
   then pqc_kem_algorithm p = None /\ pqc_kem_ciphertext p = None /\ pqc_kem_ct_len p = 0 /\ pqc_aes_nonce p = repeat 0 12
   else is_string_or_null (pqc_kem_algorithm p) /\ length (pqc_aes_nonce p) = 12%nat /\
        match pqc_kem_ciphertext p with
        | Some ct => pqc_kem_ct_len p = blen ct /\ 0 < blen ct < 2 ^ 31
        | None => pqc_kem_ct_len p = 0
        end) /\
  (if pqc_signed p =? 0 then pqc_sig_algorithm p = None else is_string_or_null (pqc_sig_algorithm p)).

Lemma reads_kem p : (pqc_encrypted p =? 0) = false -> wf_pqc p ->
  reads (let! alg := ReadStr shl_undefined self in
         let! len := ReadInt shl_undefined self in
         let! ct := if len =? 0 then ret None else let! b := _ReadBuf len in ret (Some b) in
         let! nonce := _ReadBuf 12 in
         ret (alg, ct, len, nonce))
    (enc_str (pqc_kem_algorithm p) ++ enc_int (c_int (pqc_kem_ct_len p)) ++ kem_bytes p ++ firstn 12 (pqc_aes_nonce p))
    (pqc_kem_algorithm p, pqc_kem_ciphertext p, pqc_kem_ct_len p, pqc_aes_nonce p).
Proof.
  intros He (_ & _ & Hk & _). rewrite He in Hk. destruct Hk as (Ha & Hn & Hct). unfold kem_bytes.
  assert (Hnonce : reads (_ReadBuf 12) (firstn 12 (pqc_aes_nonce p)) (pqc_aes_nonce p)).
  { rewrite firstn_all2 by lia. replace 12 with (blen (pqc_aes_nonce p)) by (unfold blen; lia). apply reads_buf. }
  eapply reads_bind; [apply reads_str, Ha|].
  destruct (pqc_kem_ciphertext p) as [ct|].
  - destruct Hct as [-> Hb]. rewrite c_int_id by lia. eapply reads_bind; [apply reads_int; lia|].
    destruct (Z.eqb_spec (blen ct) 0); [lia|]. destruct (Z.ltb_spec 0 (blen ct)); [|lia].
    rewrite (firstn_all2 ct) by (unfold blen; lia). eapply reads_bind.
    + rewrite <- (app_nil_r ct) at 2. eapply reads_bind; [apply reads_buf|apply reads_ret].
    + rewrite <- (app_nil_r (firstn 12 _)). eapply reads_bind; [exact Hnonce|apply reads_ret].
  - rewrite Hct. change (c_int 0) with 0. eapply reads_bind; [apply reads_int; lia|]. cbn [Z.eqb]. eapply reads_bind; [apply reads_ret|].
    rewrite <- (app_nil_r (firstn 12 _)). eapply reads_bind; [exact Hnonce|apply reads_ret].
Qed.

Lemma reads_pqc p : wf_pqc p -> reads (ReadPqc shl_undefined self) (enc_pqc p) p.
Proof.
  intros Hwf. pose proof Hwf as (He & Hs & Hk & Hsig). unfold ReadPqc, enc_pqc.
  unfold u8. rewrite !Z.mod_small by lia. eapply reads_bind; [apply reads_byte|].
  eapply reads_bind.
  - instantiate (1 := (pqc_kem_algorithm p, pqc_kem_ciphertext p, pqc_kem_ct_len p, pqc_aes_nonce p)).
    destruct (pqc_encrypted p =? 0) eqn:E; [|exact (reads_kem p E Hwf)].
    destruct Hk as (-> & -> & -> & ->). apply reads_ret.
  - cbv beta iota. eapply reads_bind; [apply reads_byte|].
    rewrite <- (app_nil_r (if pqc_signed p =? 0 then _ else _)). eapply reads_bind.
    + instantiate (1 := pqc_sig_algorithm p).
      destruct (pqc_signed p =? 0); [rewrite Hsig; apply reads_ret|apply reads_str, Hsig].
    + destruct p; apply reads_ret.
Qed.

Definition is_int (i : Z) : Prop := - 2 ^ 31 <= i < 2 ^ 31.
Definition is_tm (t : tm) : Prop :=
  is_int (tm_sec t) /\ is_int (tm_min t) /\ is_int (tm_hour t) /\ is_int (tm_mday t) /\ is_int (tm_mon t) /\
  is_int (tm_year t) /\ is_int (tm_isdst t).

Definition enc_date (t : tm) : bytes :=
  enc_int (tm_sec t) ++ enc_int (tm_min t) ++ enc_int (tm_hour t) ++ enc_int (tm_mday t) ++ enc_int (tm_mon t) ++
  enc_int (tm_year t) ++ enc_int (tm_isdst t).

Definition enc_head (h : header) : bytes :=
  magic ++ [1] ++ [17] ++ [0] ++ [4] ++ [8] ++ [1] ++ [u8 (h_algorithm h)] ++ enc_date (localtime (createDate h)) ++
  enc_str (archdbname h) ++ enc_str (archiveRemoteVersion h) ++ enc_str (archiveDumpVersion h) ++
  (if use_pqc then enc_pqc (h_pqc h) else []).

(** A header [WriteHead] is called with. *)
Definition wf_header (h : header) : Prop :=
  h_layout h = self /\ 0 <= h_algorithm h < 256 /\ is_tm (localtime (createDate h)) /\
  is_string_or_null (archdbname h) /\ is_string_or_null (archiveRemoteVersion h) /\
  is_string_or_null (archiveDumpVersion h) /\ wf_pqc (h_pqc h).

Lemma writes_head h : h_layout h = self -> writes (WriteHead use_pqc localtime h) (enc_head h).
Proof.
  intros Hl. unfold WriteHead, enc_head, enc_date. rewrite Hl. cbv zeta. rewrite <- !app_assoc.
  apply writes_bind; [apply writes_buf|].
  do 7 (apply writes_bind; [apply writes_byte|]). do 7 (apply writes_bind; [apply writes_int|]).
  do 3 (apply writes_bind; [apply writes_str|]). destruct use_pqc; [apply writes_pqc|apply writes_ret].
Qed.

(** [mktime] undoes [localtime] at the date. *)
Definition good_date (t : Z) : Prop := t <> -1 /\ mktime (localtime t) = t.

Lemma reads_date h : good_date (createDate h) -> is_tm (localtime (createDate h)) ->
  reads (read_date shl_undefined mktime self) (enc_date (localtime (createDate h))) (createDate h).
Proof.
  intros [Hne Hm] (H1 & H2 & H3 & H4 & H5 & H6 & H7). unfold read_date, enc_date.
  eapply reads_bind; [apply reads_int, H1|]. eapply reads_bind; [apply reads_int, H2|].
  eapply reads_bind; [apply reads_int, H3|]. eapply reads_bind; [apply reads_int, H4|].
  eapply reads_bind; [apply reads_int, H5|]. eapply reads_bind; [apply reads_int, H6|].
  rewrite <- (app_nil_r (enc_int (tm_isdst _))). eapply reads_bind; [apply reads_int, H7|]. cbv zeta.
  destruct (localtime (createDate h)). cbn in *. rewrite Hm.
  destruct (Z.eqb_spec (createDate h) (-1)); [contradiction|apply reads_ret].
Qed.

Lemma reads_head h h0 : wf_header h -> good_date (createDate h) -> h_level h = h_level h0 ->
  use_pqc = true \/ h_pqc h = h_pqc h0 ->
  reads (ReadHead shl_undefined use_pqc mktime false h0) (enc_head h) h.
Proof.
  intros (Hl & Ha & Ht & H1 & H2 & H3 & Hp) Hd Hlev Hpqc. unfold ReadHead, enc_head.
  eapply reads_bind.
  { rewrite <- (app_nil_r magic). eapply reads_bind; [apply (reads_buf magic)|apply reads_ret]. }
  eapply (reads_bind _ _ ([1] ++ [17] ++ [0] ++ [])).
  { eapply reads_bind; [apply reads_byte|]. eapply reads_bind; [apply reads_byte|]. cbv zeta.
    eapply reads_bind; [apply reads_byte|]. apply reads_ret. }
  change ((MAKE_ARCHIVE_VERSION (c_char 1) (c_char 17) (c_char 0) <? K_VERS 0) || _) with false. cbv iota.
  eapply reads_bind; [apply reads_byte|]. cbn [Z.ltb Z.compare Pos.compare Pos.compare_cont].
  change (MAKE_ARCHIVE_VERSION (c_char 1) (c_char 17) (c_char 0)) with K_VERS_SELF.
  change (K_VERS 7 <=? K_VERS_SELF) with true. cbv iota. eapply reads_bind; [apply reads_byte|]. cbv zeta.
  change (mkLayout K_VERS_SELF (Z.to_nat 4) (Z.to_nat 8)) with self.
  eapply reads_bind; [apply reads_byte|]. change (negb (1 =? archCustom)) with false. cbv iota.
  eapply (reads_bind _ _ ([u8 (h_algorithm h)] ++ [])).
  { eapply reads_bind; [apply reads_byte|apply reads_ret]. }
  cbv beta iota. change (K_VERS 4 <=? K_VERS_SELF) with true. change (K_VERS 10 <=? K_VERS_SELF) with true.
  change (K_VERS 17 <=? K_VERS_SELF) with true. cbv iota. rewrite andb_true_r.
  eapply reads_bind; [apply reads_date; assumption|].
  eapply reads_bind; [apply reads_str, H1|]. eapply reads_bind; [apply reads_str, H2|].
  eapply reads_bind; [apply reads_str, H3|]. rewrite <- (app_nil_r (if use_pqc then _ else _)). eapply reads_bind.
  - instantiate (1 := h_pqc h). destruct use_pqc; [apply reads_pqc, Hp|].
    destruct Hpqc as [|Hpqc]; [discriminate|]. rewrite Hpqc. apply reads_ret.
  - unfold u8. rewrite Z.mod_small, <- Hlev, <- Hl by lia. destruct h; apply reads_ret.
Qed.
End Header.

(** *** The table of contents *)

Lemma strtol_format_neg n : - 10 ^ 10 < n < 0 -> strtol (format_d n) = (n, [], false).
Proof.
  intros Hn. assert (Hf : format_d n = 45 :: format_d (- n)).
  { unfold format_d. destruct (Z.ltb_spec n 0); [|lia]. destruct (Z.ltb_spec (- n) 0); [lia|reflexivity]. }
  destruct (format_d_digits (- n) ltac:(lia)) as [Hd Hne]. pose proof (dec_val_format (- n) ltac:(lia)) as Hv.
  rewrite Hf. unfold strtol. change (span isspace (45 :: format_d (- n))) with ([] : bytes, 45 :: format_d (- n)).
  cbn [snd Z.eqb Pos.eqb]. rewrite <- (app_nil_r (format_d (- n))), (span_all isdigit _ [] Hd I).
  destruct (format_d (- n)) as [|c l]; [contradiction|]. cbv iota. rewrite Hv. unfold LONG_MAX, LONG_MIN.
  destruct (Z.ltb_spec (2 ^ 63 - 1) (- - n)); [lia|]. destruct (Z.ltb_spec (- - n) (- 2 ^ 63)); [lia|].
  rewrite Z.opp_involutive. reflexivity.
Qed.

Lemma format_d_nonempty n : format_d n <> [].
Proof. unfold format_d. destruct (n <? 0); [discriminate|]. apply dec_loop_nonempty. right. lia. Qed.

Lemma scan_d_format n : is_int n -> scan_d (format_d n) = Some n.
Proof.
  intros Hn. unfold is_int in Hn. unfold scan_d.
  assert (Hs : strtol (format_d n) = (n, [], false)).
  { destruct (Z.lt_ge_cases n 0); [apply strtol_format_neg; lia|].
    pose proof (strtol_format n [] ltac:(lia) I) as Hf. rewrite app_nil_r in Hf. exact Hf. }
  rewrite Hs. pose proof (format_d_nonempty n). destruct (format_d n); [contradiction|]. cbn.
  rewrite c_int_id by exact Hn. reflexivity.
Qed.

Lemma scan_u_format n : 0 <= n < 2 ^ 32 -> scan_u (format_d n) = Some n.
Proof.
  intros Hn. destruct (format_d_digits n ltac:(lia)) as [Hd Hne]. pose proof (dec_val_format n ltac:(lia)) as Hv.
  unfold scan_u. destruct (format_d n) as [|c l] eqn:Ef; [contradiction|].
  assert (Hc : isdigit c = true) by (cbn in Hd; apply andb_prop in Hd; tauto).
  assert (Hs : span isspace (c :: l) = ([], c :: l)).
  { cbn. replace (isspace c) with false by (unfold isdigit, isspace in *; lia). reflexivity. }
  rewrite Hs. cbn [snd]. unfold isdigit in Hc. destruct (Z.eqb_spec c 45); [lia|]. destruct (Z.eqb_spec c 43); [lia|].
  cbv beta iota. pose proof (span_all isdigit (c :: l) [] Hd I) as Hsp. rewrite app_nil_r in Hsp. rewrite Hsp. cbn [fst].
  cbv zeta. rewrite Hv. destruct (Z.leb_spec (2 ^ 64) n); [lia|]. unfold u32. rewrite Z.mod_small by lia. reflexivity.
Qed.

Lemma format_d_string n : is_string (format_d n).
Proof.
  assert (Hd : forall m, 0 <= m -> forallb (fun c => negb (c =? 0)) (dec_loop 10 m []) = true).
  { intros m Hm. apply forallb_forall. intros c Hc.
    pose proof (proj1 (forallb_forall _ _) (dec_loop_digits 10 m [] Hm eq_refl) c Hc) as Hi.
    unfold isdigit in Hi. lia. }
  unfold is_string, format_d, blen. pose proof (dec_loop_length 10 (- n) []). pose proof (dec_loop_length 10 n []).
  destruct (Z.ltb_spec n 0); cbn [forallb length app] in *; split; try lia; [|apply Hd; lia].
  cbn. apply Hd. lia.
Qed.

Definition as_read (te : TocEntry) : TocEntry :=
  mkTocEntry (dumpId te) (match dataDumper te with Some _ => true | None => false end) (tableoid te) (oid te) (tag te)
    (desc te) (section te) (defn te) (dropStmt te) (copyStmt te) (namespace te) (tablespace te) (tableam te)
    (relkind te) (owner te) (dependencies te) (dataState te) (dataPos te) None 0.

Fixpoint enc_deps (deps : list Z) : bytes :=
  match deps with
  | [] => enc_str None
  | d :: deps' => enc_str (Some (format_d d)) ++ enc_deps deps'
  end.

Definition enc_entry (te : TocEntry) : bytes :=
  enc_int (dumpId te) ++ enc_int (match dataDumper te with Some _ => 1 | None => 0 end) ++
  enc_str (Some (format_d (tableoid te))) ++ enc_str (Some (format_d (oid te))) ++ enc_str (tag te) ++
  enc_str (desc te) ++ enc_int (section te) ++ enc_str (defn te) ++ enc_str (dropStmt te) ++ enc_str (copyStmt te) ++
  enc_str (namespace te) ++ enc_str (tablespace te) ++ enc_str (tableam te) ++ enc_int (relkind te) ++
  enc_str (owner te) ++ enc_str (Some (bytes_of_string "false")) ++ enc_deps (dependencies te) ++
  enc_offset (dataPos te) (dataState te).

Lemma writes_deps deps : writes (write_deps self deps) (enc_deps deps).
Proof.
  induction deps as [|d deps IH]; [apply writes_str|]. cbn [write_deps enc_deps].
  apply writes_bind; [apply writes_str|exact IH].
Qed.

Lemma writes_entry te : writes (write_entry self te) (enc_entry te).
Proof.
  unfold write_entry, enc_entry. do 2 (apply writes_bind; [apply writes_int|]).
  do 4 (apply writes_bind; [apply writes_str|]). apply writes_bind; [apply writes_int|].
  do 6 (apply writes_bind; [apply writes_str|]). apply writes_bind; [apply writes_int|].
  do 2 (apply writes_bind; [apply writes_str|]). apply writes_bind; [apply writes_deps|apply writes_offset].
Qed.

Definition enc_toc (toc : list TocEntry) : bytes :=
  let dumped := List.filter is_dumped toc in
  enc_int (c_int (Z.of_nat (length dumped))) ++ mjoin (map enc_entry dumped).

Lemma writes_toc toc : writes (WriteToc self toc) (enc_toc toc).
Proof.
  unfold WriteToc, enc_toc. cbv zeta. apply writes_bind; [apply writes_int|].
  induction (List.filter is_dumped toc) as [|te l IH]; [apply writes_ret|].
  cbn [write_entries map mjoin list_join]. apply writes_bind; [apply writes_entry|exact IH].
Qed.

Section Toc.
  Variable shl_undefined : Z -> Z -> Z.
  Variable uninit : Z.
  Variable pg_char_to_encoding : bytes -> Z.

Lemma enc_int_length i : length (enc_int i) = 5%nat.
Proof. unfold enc_int. destruct (i <? 0); reflexivity. Qed.

Lemma enc_deps_length deps : (5 * S (length deps) <= length (enc_deps deps))%nat.
Proof.
  induction deps as [|d deps IH]; cbn [enc_deps enc_str length]; [rewrite enc_int_length; lia|].
  rewrite !length_app, enc_int_length. lia.
Qed.

Lemma reads_deps_loop deps : forall fuel acc, Forall is_int deps -> (length deps < fuel)%nat ->
  reads (read_deps shl_undefined uninit fuel self acc) (enc_deps deps) (Some (acc ++ deps)).
Proof.
  induction deps as [|d deps IH]; intros fuel acc Hd Hf; (destruct fuel as [|fuel]; [cbn in Hf; lia|]);
    cbn [read_deps enc_deps].
  - rewrite <- (app_nil_r (enc_str None)). eapply reads_bind; [apply reads_str; exact I|].
    rewrite app_nil_r. apply reads_ret.
  - apply Forall_cons in Hd as [Hd Hds]. eapply reads_bind; [apply reads_str, format_d_string|].
    cbv iota. rewrite scan_d_format by exact Hd. cbn [default].
    replace (acc ++ d :: deps) with ((acc ++ [d]) ++ deps) by (rewrite <- app_assoc; reflexivity).
    apply IH; [exact Hds|cbn in Hf; lia].
Qed.

Lemma reads_dependencies deps : Forall is_int deps ->
  reads (read_dependencies shl_undefined uninit self) (enc_deps deps) deps.
Proof.
  intros Hd f rest Hn E. unfold read_dependencies. change (ah_version self <? K_VERS 5) with false. cbv iota.
  rewrite (bind_step _ _ f f f) by reflexivity.
  assert (Hlen : (length deps < S (length (fh_data f) - fh_pos f))%nat).
  { rewrite <- length_skipn, E, length_app. pose proof (enc_deps_length deps). lia. }
  mrun (reads_deps_loop deps _ [] Hd Hlen f rest Hn E). reflexivity.
Qed.

Lemma reads_oid n : 0 <= n < 2 ^ 32 -> reads (read_oid shl_undefined self) (enc_str (Some (format_d n))) n.
Proof.
  intros Hn. unfold read_oid. rewrite <- (app_nil_r (enc_str _)).
  eapply reads_bind; [apply reads_str, format_d_string|]. cbv iota. rewrite scan_u_format by exact Hn. apply reads_ret.
Qed.

(** An entry [WriteToc] is called with. *)
Definition wf_entry (te : TocEntry) : Prop :=
  0 < dumpId te < 2 ^ 31 /\ 0 <= tableoid te < 2 ^ 32 /\ 0 <= oid te < 2 ^ 32 /\ is_int (section te) /\
  - 128 <= relkind te < 128 /\ Forall is_int (dependencies te) /\ is_flag (dataState te) /\
  - 2 ^ 63 <= dataPos te < 2 ^ 63 /\
  Forall is_string_or_null [tag te; desc te; defn te; dropStmt te; copyStmt te; namespace te; tablespace te; tableam te; owner te].

Lemma reads_entry te : wf_entry te -> reads (read_entry shl_undefined uninit self) (enc_entry te) (as_read te).
Proof.
  intros (Hid & Hto & Ho & Hsec & Hrk & Hdeps & Hst & Hpos & Hstr).
  repeat match goal with H : Forall _ (_ :: _) |- _ => apply Forall_cons in H as [? H] end.
  unfold read_entry, enc_entry. eapply reads_bind; [apply reads_int; lia|].
  destruct (Z.leb_spec (dumpId te) 0); [lia|].
  eapply reads_bind; [apply reads_int; destruct (dataDumper te); lia|].
  eapply reads_bind; [apply reads_oid; assumption|]. eapply reads_bind; [apply reads_oid; assumption|].
  do 2 (eapply reads_bind; [apply reads_str; assumption|]).
  eapply reads_bind; [apply (reads_int shl_undefined (section te)); exact Hsec|].
  do 6 (eapply reads_bind; [apply reads_str; assumption|]).
  eapply reads_bind; [apply (reads_int shl_undefined (relkind te)); lia|].
  eapply reads_bind; [apply reads_str; assumption|].
  eapply reads_bind.
  { instantiate (1 := tt). rewrite <- (app_nil_r (enc_str _)).
    eapply reads_bind; [apply reads_str; split; reflexivity|apply reads_ret]. }
  eapply reads_bind; [apply reads_dependencies; assumption|].
  rewrite <- (app_nil_r (enc_offset _ _)). eapply reads_bind.
  { rewrite <- (app_nil_r (enc_offset _ _)). eapply reads_bind; [apply reads_offset; assumption|apply reads_ret]. }
  cbv beta iota. unfold as_read. replace (c_char (relkind te)) with (relkind te)
    by (unfold c_char; rewrite Z.mod_small; lia).
  replace (negb ((match dataDumper te with Some _ => 1 | None => 0 end) =? 0))
    with (match dataDumper te with Some _ => true | None => false end) by (destruct (dataDumper te); reflexivity).
  apply reads_ret.
Qed.

(** The settings the entries make, in order. *)
Fixpoint process_entries (toc : list TocEntry) (p : toc_settings) : option toc_settings :=
  match toc with
  | [] => Some p
  | te :: toc' =>
      match process_entry pg_char_to_encoding te p with
      | None => None
      | Some p => process_entries toc' p
      end
  end.

Lemma reads_entries l : Forall wf_entry l -> forall acc p p', process_entries (map as_read l) p = Some p' ->
  reads (read_entries shl_undefined uninit pg_char_to_encoding (length l) self acc p) (mjoin (map enc_entry l))
    (acc ++ map as_read l, p').
Proof.
  induction l as [|te l IH]; intros Hwf acc p p' Hp; cbn [read_entries length map mjoin list_join process_entries] in *.
  - injection Hp as <-. rewrite app_nil_r. apply reads_ret.
  - apply Forall_cons in Hwf as [Hte Hl]. eapply reads_bind; [apply reads_entry, Hte|].
    destruct (process_entry _ (as_read te) p) as [p1|]; [|discriminate].
    replace (acc ++ as_read te :: map as_read l) with ((acc ++ [as_read te]) ++ map as_read l)
      by (rewrite <- app_assoc; reflexivity).
    apply IH; assumption.
Qed.

Lemma reads_toc toc p p' : Forall wf_entry toc -> Z.of_nat (length toc) < 2 ^ 31 ->
  let dumped := List.filter is_dumped toc in
  process_entries (map as_read dumped) p = Some p' ->
  reads (ReadToc shl_undefined uninit pg_char_to_encoding self p) (enc_toc toc) (map as_read dumped, p').
Proof.
  intros Hwf Hlen dumped Hp. unfold ReadToc, enc_toc. cbv zeta. fold dumped.
  assert (Hn : (length dumped <= length toc)%nat) by apply filter_length_le.
  rewrite c_int_id by lia. eapply reads_bind; [apply reads_int; lia|]. rewrite Nat2Z.id.
  apply (reads_entries dumped); [|exact Hp].
  apply (proj2 (Forall_forall _ _)). intros te Hte. apply list_elem_of_In, filter_In in Hte as [Hte _].
  apply (proj1 (Forall_forall _ _) Hwf), list_elem_of_In, Hte.
Qed.
End Toc.

(** ** The loop over dependencies ends *)

Section Reading.
  Variable shl_undefined : Z -> Z -> Z.
  Variable uninit : Z.

(** A program that reads on. *)
Definition onward {A} (m : M FILE A) : Prop :=
  forall f v f', m f = (Ok v, f') -> fh_data f' = fh_data f /\ (fh_pos f <= fh_pos f')%nat.

Lemma onward_ret {A} (v : A) : onward (ret v).
Proof. intros f v' f' H. injection H as _ <-. split; [reflexivity|lia]. Qed.

Lemma onward_bind {A B} (m : M FILE A) (k : A -> M FILE B) : onward m -> (forall v, onward (k v)) -> onward (bind m k).
Proof.
  intros Hm Hk f v f' H. minv H. destruct (Hm _ _ _ Hm0) as [D1 P1]. destruct (Hk _ _ _ _ H) as [D2 P2].
  split; [congruence|lia].
Qed.

Lemma attempt_keeps f ok f' : zoom fenvL attempt f = (Ok ok, f') -> fh_data f' = fh_data f /\ fh_pos f' = fh_pos f.
Proof.
  unfold zoom, attempt, next_fault, bind. cbn. destruct (faults (fh_env f)); intros H; injection H as _ <-; split; reflexivity.
Qed.

(** A byte is read only before the end of the file. *)
Lemma read_byte_moves f v f' : _ReadByte f = (Ok v, f') ->
  fh_data f' = fh_data f /\ fh_pos f' = S (fh_pos f) /\ (fh_pos f < length (fh_data f))%nat.
Proof.
  unfold _ReadByte, getc. intros H. minv H. minv Hm. destruct (attempt_keeps _ _ _ Hm0) as [D P].
  destruct a0; cbn [negb] in Hm; [|injection Hm as <- <-; discriminate H].
  unfold get, bind in Hm. rewrite D, P in Hm. destruct (nth_error (fh_data f) (fh_pos f)) as [b|] eqn:E;
    [|injection Hm as <- <-; discriminate H].
  injection Hm as <- <-. injection H as _ <-. cbn. rewrite D, P. split; [reflexivity|]. split; [lia|].
  apply nth_error_Some. congruence.
Qed.

Lemma onward_byte : onward _ReadByte.
Proof. intros f v f' H. destruct (read_byte_moves _ _ _ H) as (D & P & _). split; [exact D|lia]. Qed.

Lemma onward_buf len : onward (_ReadBuf len).
Proof.
  unfold _ReadBuf. destruct (len =? 0); [apply onward_ret|]. intros f v f' H. minv H.
  destruct (attempt_keeps _ _ _ Hm) as [D P]. unfold get, bind in H. destruct (_ || _); [discriminate H|].
  injection H as _ <-. cbn. rewrite D, P. split; [reflexivity|lia].
Qed.

Lemma onward_le n : forall bitShift res, onward (read_le shl_undefined n bitShift res).
Proof.
  induction n as [|n IH]; intros bitShift res; [apply onward_ret|]. cbn [read_le].
  apply onward_bind; [apply onward_byte|]. intros b. apply IH.
Qed.

(** Since 1.1 an integer has a sign of its own, so that reading a string
    consumes something. *)
Lemma read_str_moves AH f c f' : K_VERS 0 < ah_version AH -> ReadStr shl_undefined AH f = (Ok c, f') ->
  fh_data f' = fh_data f /\ (fh_pos f < fh_pos f')%nat /\ (fh_pos f < length (fh_data f))%nat.
Proof.
  intros Hv H. unfold ReadStr in H. minv H. unfold ReadInt in Hm. minv Hm.
  destruct (Z.ltb_spec (K_VERS 0) (ah_version AH)); [|lia]. destruct (read_byte_moves _ _ _ Hm0) as (D & P & L).
  minv Hm. destruct (onward_le _ _ _ _ _ _ Hm1) as [D1 P1]. injection Hm as _ <-.
  destruct (_ <? 0); [injection H as _ <-; repeat split; [congruence|lia|exact L]|].
  minv H. destruct (onward_buf _ _ _ _ Hm) as [D2 P2]. injection H as _ <-. repeat split; [congruence|lia|exact L].
Qed.

(** The loop of [read_dependencies] has always ended before its bound is
    reached, whatever the file holds. *)
Lemma read_deps_ends AH fuel : K_VERS 0 < ah_version AH -> forall deps f f',
  (length (fh_data f) - fh_pos f < fuel)%nat -> read_deps shl_undefined uninit fuel AH deps f <> (Ok None, f').
Proof.
  intros Hv. induction fuel as [|fuel IH]; intros deps f f' Hf H; [lia|]. cbn [read_deps] in H. minv H.
  destruct a as [t|]; [|discriminate H]. destruct (read_str_moves AH f _ _ Hv Hm) as (D & P & L).
  refine (IH _ _ _ _ H). rewrite D. lia.
Qed.
End Reading.
