(* ===== verification/ArchiveData.v ===== *)
(** * The data of an archive (src/bin/pg_dump/pg_backup_custom.c)

    Writing an archive of the custom format, with the data of its entries and
    the table of contents rewritten with their positions, and restoring an
    entry, by its position or by a search through the blocks.  A compressor is a
    record of operations; the one without compression is that of
    compress_none.c, others are a parameter. *)
From Stdlib Require Import ZArith Lia Bool String List.
From stdpp Require Import base gmap list strings.
From S2P Require Import Prelude Env CString Archive.
Import ListNotations.
Local Open Scope Z_scope.
Local Open Scope pg_scope.

(** ** Compressors *)

(** What a compressor hands to the function that writes a block, and what it
    makes of the blocks it is given until there are no more. *)
Record compressor := mkCompressor {
  cstate : Type;
  cs_init : cstate;
  cs_write : cstate -> bytes -> cstate * list bytes;
  cs_end : cstate -> list bytes;
  cs_read : list bytes -> option bytes
}.

Definition none_compressor : compressor :=
  mkCompressor unit tt (fun st data => (st, [data])) (fun _ => []) (fun blocks => Some (mjoin blocks)).

Definition PG_COMPRESSION_NONE : Z := 0.

(** ** Positions *)

(** -1 where the file has no position or it cannot be had. *)
Definition ftello : M FILE Z :=
  let! ok := zoom fenvL attempt in
  gets (fun f => if ok && fh_seekable f then Z.of_nat (fh_pos f) else -1).

Definition seek_to (p : nat) (f : FILE) : FILE := mkFILE (fh_env f) (fh_data f) p (fh_seekable f).

(** To a position counted from [base]. *)
Definition fseeko (base : FILE -> Z) (offset : Z) : M FILE bool :=
  let! ok := zoom fenvL attempt in
  let! f := get in
  let p := base f + offset in
  if ok && fh_seekable f && (0 <=? p) then do! modify (seek_to (Z.to_nat p)) in ret true
  else ret false.

Definition SEEK_SET (f : FILE) : Z := 0.
Definition SEEK_CUR (f : FILE) : Z := Z.of_nat (fh_pos f).

Definition _getFilePos (hasSeek : bool) : M FILE Z :=
  let! pos := ftello in
  if (pos <? 0) && hasSeek then fatal else ret pos.

Section Data.
  Variable shl_undefined : Z -> Z -> Z.
  Variable other_compressor : Z -> compressor.

Definition AllocateCompressor (algorithm : Z) : compressor :=
  if algorithm =? PG_COMPRESSION_NONE then none_compressor else other_compressor algorithm.

(** ** Writing *)

Definition BLK_DATA : Z := 1.
Definition BLK_BLOBS : Z := 3.

Definition _CustomWriteFunc (AH : layout) (buf : bytes) : M FILE unit :=
  if (length buf =? 0)%nat then ret tt
  else do! WriteInt AH (c_int (blen buf)) in _WriteBuf buf.

Fixpoint write_blocks (AH : layout) (blocks : list bytes) : M FILE unit :=
  match blocks with
  | [] => ret tt
  | b :: blocks' => do! _CustomWriteFunc AH b in write_blocks AH blocks'
  end.

(** The calls of the routine that dumps an entry, with the compressor in use;
    outside of one the routine works with memory that is not allocated. *)
Fixpoint run_calls (AH : layout) (c : compressor) (calls : list dump_call) (cs : option (cstate c))
    : M FILE (option (cstate c)) :=
  match calls with
  | [] => ret cs
  | WriteData data :: calls' =>
      if (length data =? 0)%nat then run_calls AH c calls' cs
      else match cs with
           | None => fatal
           | Some st =>
               let '(st, blocks) := cs_write c st data in
               do! write_blocks AH blocks in run_calls AH c calls' (Some st)
           end
  | StartLO loid :: calls' =>
      if loid =? 0 then fatal
      else do! WriteInt AH (c_int loid) in run_calls AH c calls' (Some (cs_init c))
  | EndLO _ :: calls' =>
      match cs with
      | None => fatal
      | Some st =>
          do! write_blocks AH (cs_end c st) in
          do! WriteInt AH 0 in run_calls AH c calls' None
      end
  end.

Definition set_data (st pos : Z) (te : TocEntry) : TocEntry :=
  mkTocEntry (dumpId te) (hadDumper te) (tableoid te) (oid te) (tag te) (desc te) (section te) (defn te) (dropStmt te)
    (copyStmt te) (namespace te) (tablespace te) (tableam te) (relkind te) (owner te) (dependencies te) st pos
    (dataDumper te) (reqs te).

(** The state of a new entry. *)
Definition _ArchiveEntry (te : TocEntry) : TocEntry :=
  set_data (match dataDumper te with Some _ => K_OFFSET_POS_NOT_SET | None => K_OFFSET_NO_DATA end) 0 te.

(** [_StartData] and [_StartLOs] up to the compressor: the entry with its
    position. *)
Definition start_block (hasSeek : bool) (AH : layout) (blk : Z) (te : TocEntry) : M FILE TocEntry :=
  let! pos := _getFilePos hasSeek in
  do! _WriteByte blk in
  do! WriteInt AH (dumpId te) in
  ret (set_data (if 0 <=? pos then K_OFFSET_POS_SET else dataState te) pos te).

Definition is_blobs (te : TocEntry) : option bool :=
  match desc te with Some d => Some (bytes_eqb d (bytes_of_string "BLOBS")) | None => None end.

Definition WriteDataChunksForTocEntry (hasSeek : bool) (AH : layout) (c : compressor) (calls : list dump_call)
    (te : TocEntry) : M FILE TocEntry :=
  match is_blobs te with
  | None => fatal
  | Some true =>
      let! te := start_block hasSeek AH BLK_BLOBS te in
      do! run_calls AH c calls None in
      do! WriteInt AH 0 in
      ret te
  | Some false =>
      let! te := start_block hasSeek AH BLK_DATA te in
      let! cs := run_calls AH c calls (Some (cs_init c)) in
      match cs with
      | None => fatal
      | Some st =>
          do! write_blocks AH (cs_end c st) in
          do! WriteInt AH 0 in
          ret te
      end
  end.

(** The routine that dumps an entry, where its data is wanted. *)
Definition data_calls (te : TocEntry) : option (list dump_call) :=
  if Z.land (reqs te) REQ_DATA =? 0 then None else dataDumper te.

(** Without workers. *)
Fixpoint WriteDataChunks (hasSeek : bool) (AH : layout) (c : compressor) (toc : list TocEntry) : M FILE (list TocEntry) :=
  match toc with
  | [] => ret []
  | te :: toc' =>
      let! te := match data_calls te with
                 | None => ret te
                 | Some calls => WriteDataChunksForTocEntry hasSeek AH c calls te
                 end in
      let! toc' := WriteDataChunks hasSeek AH c toc' in
      ret (te :: toc')
  end.

Definition _CloseArchive (use_pqc : bool) (localtime : Z -> tm) (hasSeek : bool) (h : header) (toc : list TocEntry)
    : M FILE unit :=
  let AH := h_layout h in
  do! WriteHead use_pqc localtime h in
  let! tpos := ftello in
  if (tpos <? 0) && hasSeek then fatal
  else
    do! WriteToc AH toc in
    let! toc := WriteDataChunks hasSeek AH (AllocateCompressor (h_algorithm h)) toc in
    do! (if hasSeek then
           let! ok := fseeko SEEK_SET tpos in
           if ok then WriteToc AH toc else ret tt
         else ret tt) in
    let! closed := zoom fenvL attempt in
    if negb closed then fatal else ret tt.

(** ** Restoring *)

(** What restoring an entry writes to the output. *)
Inductive restore_call :=
| RestoreData (data : bytes)
| StartRestoreLO (loid : Z)
| EndRestoreLO (loid : Z).

(** The type of the next block, [None] for EOF, and its entry. *)
Definition _readBlockHeader (AH : layout) : M FILE (option Z * Z) :=
  if ah_version AH <? K_VERS 3 then let! id := ReadInt shl_undefined AH in ret (Some BLK_DATA, id)
  else
    let! byt := getc in
    match byt with
    | None => ret (None, 0)
    | Some b => let! id := ReadInt shl_undefined AH in ret (Some b, id)
    end.

(** The loops below return [None] when they have not ended. *)

(** [_CustomReadFunc] until it returns 0. *)
Fixpoint read_blocks (fuel : nat) (AH : layout) (acc : list bytes) : M FILE (option (list bytes)) :=
  match fuel with
  | O => ret None
  | S fuel' =>
      let! blkLen := ReadInt shl_undefined AH in
      if blkLen =? 0 then ret (Some acc)
      else let! buf := _ReadBuf blkLen in read_blocks fuel' AH (acc ++ [buf])
  end.

Definition _PrintData (fuel : nat) (AH : layout) (c : compressor) : M FILE (option (list restore_call)) :=
  let! blocks := read_blocks fuel AH [] in
  match blocks with
  | None => ret None
  | Some blocks =>
      match cs_read c blocks with
      | None => fatal
      | Some data => ret (Some [RestoreData data])
      end
  end.

Fixpoint _LoadLOs (fuel : nat) (AH : layout) (c : compressor) (acc : list restore_call)
    : M FILE (option (list restore_call)) :=
  match fuel with
  | O => ret None
  | S fuel' =>
      let! i := ReadInt shl_undefined AH in
      let loid := u32 i in
      if loid =? 0 then ret (Some acc)
      else
        let! data := _PrintData fuel AH c in
        match data with
        | None => ret None
        | Some data => _LoadLOs fuel' AH c (acc ++ StartRestoreLO loid :: data ++ [EndRestoreLO loid])
        end
  end.

(** A length is a [size_t]: the offset of a seek is negative where the integer
    was, and so large a buffer is not to be had. *)
Fixpoint _skipData (fuel : nat) (hasSeek : bool) (AH : layout) : M FILE (option unit) :=
  match fuel with
  | O => ret None
  | S fuel' =>
      let! blkLen := ReadInt shl_undefined AH in
      if blkLen =? 0 then ret (Some tt)
      else if hasSeek then
        let! ok := fseeko SEEK_CUR blkLen in
        if negb ok then fatal else _skipData fuel' hasSeek AH
      else do! _ReadBuf blkLen in _skipData fuel' hasSeek AH
  end.

Fixpoint _skipLOs (fuel : nat) (hasSeek : bool) (AH : layout) : M FILE (option unit) :=
  match fuel with
  | O => ret None
  | S fuel' =>
      let! i := ReadInt shl_undefined AH in
      if u32 i =? 0 then ret (Some tt)
      else
        let! r := _skipData fuel hasSeek AH in
        match r with
        | None => ret None
        | Some _ => _skipLOs fuel' hasSeek AH
        end
  end.

(** [buildTocEntryArrays]: whether it survives its checks. *)
Definition toc_indexed (toc : list TocEntry) : bool :=
  forallb (fun te =>
    (0 <? dumpId te) && (dumpId te <=? maxDumpId toc) &&
    match desc te with
    | None => false
    | Some d =>
        if bytes_eqb d (bytes_of_string "TABLE DATA") then
          match dependencies te with
          | [] => true
          | tableId :: _ => (0 <? tableId) && (tableId <=? maxDumpId toc)
          end
        else true
    end) toc.

(** The position of the block of another entry is remembered; of entries with
    the same ID the last one is in the index. *)
Fixpoint note_position (id pos : Z) (toc : list TocEntry) : list TocEntry :=
  match toc with
  | [] => []
  | te :: toc' =>
      if (dumpId te =? id) && negb (existsb (fun x => dumpId x =? id) toc') then
        (if dataState te =? K_OFFSET_POS_NOT_SET then set_data K_OFFSET_POS_SET pos te else te) :: toc'
      else te :: note_position id pos toc'
  end.

Definition skip_block (fuel : nat) (hasSeek : bool) (AH : layout) (blkType : Z) : M FILE (option unit) :=
  if blkType =? BLK_DATA then _skipData fuel hasSeek AH
  else if blkType =? BLK_BLOBS then _skipLOs fuel hasSeek AH
  else fatal.

(** The search for the block of an entry: its type, its ID, and the table of
    contents with the positions seen on the way. *)
Fixpoint search (fuel : nat) (hasSeek : bool) (AH : layout) (wanted : Z) (toc : list TocEntry)
    : M FILE (option (option Z * Z * list TocEntry)) :=
  match fuel with
  | O => ret None
  | S fuel' =>
      let! thisBlkPos := _getFilePos hasSeek in
      let! (blkType, id) := _readBlockHeader AH in
      match blkType with
      | None => ret (Some (None, id, toc))
      | Some b =>
          if id =? wanted then ret (Some (Some b, id, toc))
          else
            let! toc := if 0 <=? thisBlkPos
                        then if toc_indexed toc then ret (note_position id thisBlkPos toc) else fatal
                        else ret toc in
            let! r := skip_block fuel hasSeek AH b in
            match r with
            | None => ret None
            | Some _ => search fuel' hasSeek AH wanted toc
            end
      end
  end.

(** What the format keeps between entries. *)
Record lclContext := mkContext {
  ctx_hasSeek : bool;
  lastFilePos : Z;
  ctx_toc : list TocEntry
}.

(** The block of the entry: found, at its end the position to search from. *)
Definition find_block (fuel : nat) (AH : layout) (ctx : lclContext) (te : TocEntry)
    : M FILE (option (option Z * Z * list TocEntry)) :=
  if negb (ctx_hasSeek ctx) || (dataState te =? K_OFFSET_POS_NOT_SET) then
    let! ok := if ctx_hasSeek ctx then fseeko SEEK_SET (lastFilePos ctx) else ret true in
    if negb ok then fatal else search fuel (ctx_hasSeek ctx) AH (dumpId te) (ctx_toc ctx)
  else
    let! ok := fseeko SEEK_SET (dataPos te) in
    if negb ok then fatal
    else let! (blkType, id) := _readBlockHeader AH in ret (Some (blkType, id, ctx_toc ctx)).

Definition _PrintTocData (fuel : nat) (AH : layout) (c : compressor) (te : TocEntry) (ctx : lclContext)
    : M FILE (option (list restore_call * lclContext)) :=
  if dataState te =? K_OFFSET_NO_DATA then ret (Some ([], ctx))
  else
    let! found := find_block fuel AH ctx te in
    match found with
    | None => ret None
    | Some (None, _, _) => fatal
    | Some (Some blkType, id, toc) =>
        if negb (id =? dumpId te) then fatal
        else
          let! out := if blkType =? BLK_DATA then _PrintData fuel AH c
                      else if blkType =? BLK_BLOBS then _LoadLOs fuel AH c []
                      else fatal in
          match out with
          | None => ret None
          | Some out =>
              let! last :=
                if ctx_hasSeek ctx && (dataState te =? K_OFFSET_POS_NOT_SET)
                then let! curPos := _getFilePos (ctx_hasSeek ctx) in ret (Z.max (lastFilePos ctx) curPos)
                else ret (lastFilePos ctx) in
              ret (Some (out, mkContext (ctx_hasSeek ctx) last toc))
          end
    end.

(** Opening an archive for reading: its header, its settings and the context,
    with the place of the first block. *)
Definition InitArchiveFmt_Custom (use_pqc : bool) (mktime : tm -> Z) (uninit : Z) (pg_char_to_encoding : bytes -> Z)
    (hasSeek : bool) (h0 : header) (p0 : toc_settings) : M FILE (header * toc_settings * lclContext) :=
  let! h := ReadHead shl_undefined use_pqc mktime false h0 in
  let! (toc, p) := ReadToc shl_undefined uninit pg_char_to_encoding (h_layout h) p0 in
  let! pos := _getFilePos hasSeek in
  ret (h, p, mkContext hasSeek pos toc).
End Data.

(** ** What is written *)

(** The data of an entry: that of a table, as it was given to [WriteData], or
    large objects with theirs. *)
Inductive entry_data :=
| TableData (chunks : list bytes)
| LargeObjects (los : list (Z * list bytes)).

Definition lo_calls (lo : Z * list bytes) : list dump_call :=
  StartLO (fst lo) :: map WriteData (snd lo) ++ [EndLO (fst lo)].

Definition calls_of (d : entry_data) : list dump_call :=
  match d with
  | TableData chunks => map WriteData chunks
  | LargeObjects los => mjoin (map lo_calls los)
  end.

Definition restored_of (d : entry_data) : list restore_call :=
  match d with
  | TableData chunks => [RestoreData (mjoin chunks)]
  | LargeObjects los =>
      mjoin (map (fun lo => [StartRestoreLO (fst lo); RestoreData (mjoin (snd lo)); EndRestoreLO (fst lo)]) los)
  end.

Section Encoding.
  Context (c : compressor).

(** The state after some data, and the blocks handed out on the way. *)
Fixpoint cs_steps (st : cstate c) (chunks : list bytes) : cstate c * list bytes :=
  match chunks with
  | [] => (st, [])
  | data :: chunks' =>
      if (length data =? 0)%nat then cs_steps st chunks'
      else
        let '(st, blocks) := cs_write c st data in
        let '(st, more) := cs_steps st chunks' in (st, blocks ++ more)
  end.

Definition cs_run (chunks : list bytes) : list bytes :=
  let '(st, blocks) := cs_steps (cs_init c) chunks in blocks ++ cs_end c st.

Definition nonempty (b : bytes) : bool := negb (length b =? 0)%nat.
Definition blocks_of (chunks : list bytes) : list bytes := List.filter nonempty (cs_run chunks).

(** A compressor gives back what it was given. *)
Definition lossless : Prop := forall chunks, cs_read c (blocks_of chunks) = Some (mjoin chunks).

Definition enc_blocks (blocks : list bytes) : bytes :=
  mjoin (map (fun b => enc_int (c_int (blen b)) ++ b) (List.filter nonempty blocks)).

Definition enc_data (chunks : list bytes) : bytes := enc_blocks (cs_run chunks) ++ enc_int 0.

Definition enc_lo (lo : Z * list bytes) : bytes := enc_int (c_int (fst lo)) ++ enc_data (snd lo).

Definition enc_block (id : Z) (d : entry_data) : bytes :=
  match d with
  | TableData chunks => [BLK_DATA] ++ enc_int id ++ enc_data chunks
  | LargeObjects los => [BLK_BLOBS] ++ enc_int id ++ mjoin (map enc_lo los) ++ enc_int 0
  end.

Lemma enc_blocks_cons b blocks :
  enc_blocks (b :: blocks) = (if (length b =? 0)%nat then [] else enc_int (c_int (blen b)) ++ b) ++ enc_blocks blocks.
Proof. unfold enc_blocks, nonempty. cbn. destruct (length b =? 0)%nat; reflexivity. Qed.

Lemma enc_blocks_app a b : enc_blocks (a ++ b) = enc_blocks a ++ enc_blocks b.
Proof.
  induction a as [|x a IH]; [reflexivity|]. cbn [app]. rewrite !enc_blocks_cons, IH, app_assoc. reflexivity.
Qed.

Lemma writes_blocks blocks : writes (write_blocks self blocks) (enc_blocks blocks).
Proof.
  induction blocks as [|b blocks IH]; [apply writes_ret|]. cbn [write_blocks]. rewrite enc_blocks_cons.
  apply writes_bind; [|exact IH]. unfold _CustomWriteFunc.
  destruct (length b =? 0)%nat; [apply writes_ret|]. apply writes_bind; [apply writes_int|apply writes_buf].
Qed.

(** The calls that write some data, and what follows them. *)
Lemma yields_chunks chunks : forall st rest l v,
  yields (run_calls self c rest (Some (fst (cs_steps st chunks)))) l v ->
  yields (run_calls self c (map WriteData chunks ++ rest) (Some st)) (enc_blocks (snd (cs_steps st chunks)) ++ l) v.
Proof.
  induction chunks as [|d chunks IH]; intros st rest l v Hr; cbn [map app run_calls cs_steps fst snd] in *; [exact Hr|].
  destruct (length d =? 0)%nat; [apply IH, Hr|]. destruct (cs_write c st d) as [st' blocks].
  specialize (IH st' rest l v). destruct (cs_steps st' chunks) as [st'' more]. cbn [fst snd] in *.
  rewrite enc_blocks_app, <- app_assoc. eapply yields_bind; [apply writes_blocks|]. apply IH, Hr.
Qed.

Lemma enc_data_split chunks :
  enc_data chunks = enc_blocks (snd (cs_steps (cs_init c) chunks)) ++
    enc_blocks (cs_end c (fst (cs_steps (cs_init c) chunks))) ++ enc_int 0.
Proof.
  unfold enc_data, cs_run. destruct (cs_steps (cs_init c) chunks) as [st blocks]. cbn [fst snd].
  rewrite enc_blocks_app, <- app_assoc. reflexivity.
Qed.

Definition is_loid (x : Z) : Prop := 0 < x < 2 ^ 32.

Lemma yields_los los : Forall (fun lo => is_loid (fst lo)) los -> forall cs, 
  exists cs', yields (run_calls self c (mjoin (map lo_calls los)) cs) (mjoin (map enc_lo los)) cs'.
Proof.
  induction los as [|[loid chunks] los IH]; intros Hl cs; [exists cs; apply yields_ret|].
  apply Forall_cons in Hl as [H0 Hl]. destruct (IH Hl None) as [cs' Hcs]. exists cs'. unfold is_loid in H0.
  cbn [map mjoin list_join lo_calls fst snd app run_calls] in *. destruct (Z.eqb_spec loid 0); [lia|].
  unfold enc_lo at 1. cbn [fst snd]. rewrite enc_data_split, <- !app_assoc.
  eapply yields_bind; [apply writes_int|]. apply yields_chunks. cbn [app run_calls].
  eapply yields_bind; [apply writes_blocks|]. eapply yields_bind; [apply writes_int|]. exact Hcs.
Qed.

(** The data fits the entry, and the lengths of its blocks an [int]. *)
Definition wf_chunks (chunks : list bytes) : Prop := Forall (fun b => blen b < 2 ^ 31) (blocks_of chunks).

Definition wf_data (te : TocEntry) (d : entry_data) : Prop :=
  match d with
  | TableData chunks => is_blobs te = Some false /\ wf_chunks chunks
  | LargeObjects los => is_blobs te = Some true /\ Forall (fun lo => is_loid (fst lo) /\ wf_chunks (snd lo)) los
  end.

(** The entry once its block is written at a position. *)
Definition placed (seek : bool) (pos : nat) (te : TocEntry) : TocEntry :=
  set_data (if seek then K_OFFSET_POS_SET else dataState te) (if seek then Z.of_nat pos else -1) te.

Lemma attempt_on f : no_faults (fh_env f) -> zoom fenvL attempt f = (Ok true, f).
Proof. intros Hn. unfold zoom, attempt, next_fault, bind. cbn. rewrite Hn. destruct f; reflexivity. Qed.

Lemma file_pos_run hasSeek f : no_faults (fh_env f) -> (hasSeek = true -> fh_seekable f = true) ->
  _getFilePos hasSeek f = (Ok (if fh_seekable f then Z.of_nat (fh_pos f) else -1), f).
Proof.
  intros Hn Hs. unfold _getFilePos, ftello. rewrite bind_assoc. mrun (attempt_on f Hn).
  rewrite (bind_step _ _ f (if fh_seekable f then Z.of_nat (fh_pos f) else -1) f) by reflexivity.
  destruct (fh_seekable f); [destruct (Z.ltb_spec (Z.of_nat (fh_pos f)) 0); [lia|reflexivity]|].
  destruct hasSeek; [discriminate Hs; reflexivity|reflexivity].
Qed.

Lemma start_block_run hasSeek blk te f : on_file f -> (hasSeek = true -> fh_seekable f = true) ->
  start_block hasSeek self blk te f
    = (Ok (placed (fh_seekable f) (fh_pos f) te), put_bytes ([u8 blk] ++ enc_int (dumpId te)) f).
Proof.
  intros Hf Hs. unfold start_block. mrun (file_pos_run hasSeek f (proj1 Hf) Hs).
  assert (Hy : forall x : TocEntry, yields (do! _WriteByte blk in do! WriteInt self (dumpId te) in ret x)
    ([u8 blk] ++ enc_int (dumpId te)) x).
  { intros x. eapply yields_bind; [apply writes_byte|]. rewrite <- (app_nil_r (enc_int _)).
    eapply yields_bind; [apply writes_int|apply yields_ret]. }
  rewrite (Hy _ f Hf). unfold placed.
  destruct (fh_seekable f); [|reflexivity]. destruct (Z.leb_spec 0 (Z.of_nat (fh_pos f))); [reflexivity|lia].
Qed.

Lemma write_chunks_run hasSeek te d f : on_file f -> (hasSeek = true -> fh_seekable f = true) -> wf_data te d ->
  WriteDataChunksForTocEntry hasSeek self c (calls_of d) te f
    = (Ok (placed (fh_seekable f) (fh_pos f) te), put_bytes (enc_block (dumpId te) d) f).
Proof.
  intros Hf Hs Hd. unfold WriteDataChunksForTocEntry.
  destruct d as [chunks|los]; destruct Hd as [-> Hd]; cbn [calls_of enc_block].
  - mrun (start_block_run hasSeek BLK_DATA te f Hf Hs).
    pose proof (put_bytes_on ([u8 BLK_DATA] ++ enc_int (dumpId te)) f Hf) as Hf1.
    assert (Hy : forall x : TocEntry, yields (let! cs := run_calls self c (map WriteData chunks) (Some (cs_init c)) in
      match cs with
      | None => fatal
      | Some st => do! write_blocks self (cs_end c st) in do! WriteInt self 0 in ret x
      end) (enc_data chunks) x).
    { intros x. rewrite enc_data_split. rewrite <- (app_nil_r (map WriteData chunks)).
      eapply yields_bind; [rewrite <- (app_nil_r (enc_blocks _)); apply yields_chunks, yields_ret|]. cbv iota.
      eapply yields_bind; [apply writes_blocks|]. rewrite <- (app_nil_r (enc_int 0)).
      eapply yields_bind; [apply writes_int|apply yields_ret]. }
    rewrite (Hy _ _ Hf1), put_bytes_app by exact Hf. rewrite <- app_assoc. reflexivity.
  - mrun (start_block_run hasSeek BLK_BLOBS te f Hf Hs).
    pose proof (put_bytes_on ([u8 BLK_BLOBS] ++ enc_int (dumpId te)) f Hf) as Hf2.
    assert (Hl : Forall (fun lo => is_loid (fst lo)) los) by (eapply Forall_impl; [exact Hd|]; intros lo [H _]; exact H).
    destruct (yields_los los Hl None) as [cs' Hy].
    assert (Hy' : forall x : TocEntry, yields (do! run_calls self c (mjoin (map lo_calls los)) None in
      do! WriteInt self 0 in ret x) (mjoin (map enc_lo los) ++ enc_int 0) x).
    { intros x. eapply yields_bind; [exact Hy|]. rewrite <- (app_nil_r (enc_int 0)).
      eapply yields_bind; [apply writes_int|apply yields_ret]. }
    rewrite (Hy' _ _ Hf2), put_bytes_app by exact Hf. rewrite <- app_assoc. reflexivity.
Qed.
End Encoding.

(** ** Reading it back *)

Section Decoding.
  Variable shl_undefined : Z -> Z -> Z.
  Context (c : compressor).

Lemma reads_blocks blocks : forall fuel acc, Forall (fun b => blen b < 2 ^ 31) (List.filter nonempty blocks) ->
  (length (enc_blocks blocks) < fuel)%nat ->
  reads (read_blocks shl_undefined fuel self acc) (enc_blocks blocks ++ enc_int 0)
    (Some (acc ++ List.filter nonempty blocks)).
Proof.
  induction blocks as [|b blocks IH]; intros fuel acc Hb Hf.
  - destruct fuel as [|fuel]; [lia|]. cbn [enc_blocks List.filter map mjoin list_join app read_blocks].
    rewrite app_nil_r, <- (app_nil_r (enc_int 0)). eapply reads_bind; [apply reads_int; lia|]. apply reads_ret.
  - rewrite enc_blocks_cons in *. cbn [List.filter] in *. unfold nonempty at 1 in Hb. unfold nonempty at 1.
    destruct (Nat.eqb_spec (length b) 0) as [E|E]; cbn [negb app] in *; [apply IH; assumption|].
    apply Forall_cons in Hb as [Hb Hbs]. destruct fuel as [|fuel]; [lia|].
    rewrite !length_app, enc_int_length in Hf. cbn [read_blocks]. rewrite <- !app_assoc.
    assert (0 < blen b) by (unfold blen; lia). rewrite c_int_id by lia.
    eapply reads_bind; [apply reads_int; lia|]. destruct (Z.eqb_spec (blen b) 0); [lia|].
    eapply reads_bind; [apply reads_buf|].
    replace (acc ++ b :: List.filter nonempty blocks) with ((acc ++ [b]) ++ List.filter nonempty blocks)
      by (rewrite <- app_assoc; reflexivity).
    apply IH; [exact Hbs|lia].
Qed.

(** Without positions a block is skipped by reading it. *)
Lemma reads_skip_data blocks : forall fuel, Forall (fun b => blen b < 2 ^ 31) (List.filter nonempty blocks) ->
  (length (enc_blocks blocks) < fuel)%nat ->
  reads (_skipData shl_undefined fuel false self) (enc_blocks blocks ++ enc_int 0) (Some tt).
Proof.
  induction blocks as [|b blocks IH]; intros fuel Hb Hf.
  - destruct fuel as [|fuel]; [lia|]. cbn [enc_blocks List.filter map mjoin list_join app _skipData].
    rewrite <- (app_nil_r (enc_int 0)). eapply reads_bind; [apply reads_int; lia|]. apply reads_ret.
  - rewrite enc_blocks_cons in *. cbn [List.filter] in *. unfold nonempty at 1 in Hb.
    destruct (Nat.eqb_spec (length b) 0) as [E|E]; cbn [negb app] in *; [apply IH; assumption|].
    apply Forall_cons in Hb as [Hb Hbs]. destruct fuel as [|fuel]; [lia|].
    rewrite !length_app, enc_int_length in Hf. cbn [_skipData]. rewrite <- !app_assoc.
    assert (0 < blen b) by (unfold blen; lia). rewrite c_int_id by lia.
    eapply reads_bind; [apply reads_int; lia|]. destruct (Z.eqb_spec (blen b) 0); [lia|].
    eapply reads_bind; [apply reads_buf|]. apply IH; [exact Hbs|lia].
Qed.

Hypothesis c_lossless : lossless c.

Lemma reads_data fuel chunks : wf_chunks c chunks -> (length (enc_data c chunks) < fuel)%nat ->
  reads (_PrintData shl_undefined fuel self c) (enc_data c chunks) (Some [RestoreData (mjoin chunks)]).
Proof.
  intros Hb Hf. unfold _PrintData, enc_data in *. rewrite length_app in Hf. rewrite <- (app_nil_r (_ ++ enc_int 0)).
  eapply reads_bind; [apply (reads_blocks _ fuel []); [exact Hb|lia]|]. cbn [app].
  fold (blocks_of c chunks). rewrite c_lossless. apply reads_ret.
Qed.

Lemma u32_c_int x : is_loid x -> u32 (c_int x) = x.
Proof.
  unfold is_loid, u32, c_int. intros Hx. destruct (Z.lt_ge_cases x (2 ^ 31)).
  - rewrite (Z.mod_small (x + 2 ^ 31)) by lia. rewrite Z.mod_small; lia.
  - rewrite <- (Z.mod_unique (x + 2 ^ 31) (2 ^ 32) 1 (x - 2 ^ 31)) by lia.
    symmetry. apply (Z.mod_unique _ _ (-1)); lia.
Qed.

Lemma reads_los los : forall fuel acc, Forall (fun lo => is_loid (fst lo) /\ wf_chunks c (snd lo)) los ->
  (length (mjoin (map (enc_lo c) los)) < fuel)%nat ->
  reads (_LoadLOs shl_undefined fuel self c acc) (mjoin (map (enc_lo c) los) ++ enc_int 0)
    (Some (acc ++ restored_of (LargeObjects los))).
Proof.
  induction los as [|[loid chunks] los IH]; intros fuel acc Hl Hf; (destruct fuel as [|fuel]; [lia|]).
  - cbn [map mjoin list_join app _LoadLOs restored_of]. rewrite app_nil_r, <- (app_nil_r (enc_int 0)).
    eapply reads_bind; [apply reads_int; lia|]. apply reads_ret.
  - apply Forall_cons in Hl as [[H0 Hc] Hl]. cbn [fst snd] in H0, Hc.
    cbn [map mjoin list_join] in *. unfold enc_lo at 1. unfold enc_lo at 1 in Hf. cbn [fst snd] in *.
    rewrite !length_app, enc_int_length in Hf. cbn [_LoadLOs]. rewrite <- !app_assoc.
    eapply reads_bind; [apply reads_int; unfold is_loid in H0; pose proof (c_int_range loid); lia|]. cbv zeta.
    rewrite u32_c_int by exact H0. destruct (Z.eqb_spec loid 0); [unfold is_loid in H0; lia|].
    eapply reads_bind; [apply reads_data; [exact Hc|lia]|]. cbv iota.
    replace (acc ++ restored_of (LargeObjects ((loid, chunks) :: los)))
      with ((acc ++ StartRestoreLO loid :: [RestoreData (mjoin chunks)] ++ [EndRestoreLO loid]) ++ restored_of (LargeObjects los))
      by (rewrite <- app_assoc; reflexivity).
    assert (Hq : forall n m k, (5 + m + n < S k)%nat -> (n < k)%nat) by lia.
    apply IH; [exact Hl|exact (Hq _ _ _ Hf)].
Qed.

Lemma reads_skip_los los : forall fuel, Forall (fun lo => is_loid (fst lo) /\ wf_chunks c (snd lo)) los ->
  (length (mjoin (map (enc_lo c) los)) < fuel)%nat ->
  reads (_skipLOs shl_undefined fuel false self) (mjoin (map (enc_lo c) los) ++ enc_int 0) (Some tt).
Proof.
  induction los as [|[loid chunks] los IH]; intros fuel Hl Hf; (destruct fuel as [|fuel]; [lia|]).
  - cbn [map mjoin list_join app _skipLOs]. rewrite <- (app_nil_r (enc_int 0)).
    eapply reads_bind; [apply reads_int; lia|]. apply reads_ret.
  - apply Forall_cons in Hl as [[H0 Hc] Hl]. cbn [fst snd] in H0, Hc.
    cbn [map mjoin list_join] in *. unfold enc_lo at 1, enc_data. unfold enc_lo at 1, enc_data in Hf. cbn [fst snd] in *.
    rewrite !length_app, !enc_int_length in Hf. cbn [_skipLOs]. rewrite <- app_assoc, <- (app_assoc (enc_int (c_int loid))).
    eapply reads_bind; [apply reads_int; pose proof (c_int_range loid); lia|].
    rewrite u32_c_int by exact H0. destruct (Z.eqb_spec loid 0); [unfold is_loid in H0; lia|].
    assert (Hq : forall n m k, (5 + (m + 5) + n < S k)%nat -> (m < S k)%nat /\ (n < k)%nat) by lia.
    destruct (Hq _ _ _ Hf) as [Hf1 Hf2].
    eapply reads_bind; [apply reads_skip_data; [exact Hc|exact Hf1]|]. apply IH; [exact Hl|exact Hf2].
Qed.

(** The block of an entry, from its header on. *)
Lemma reads_block_header blk id : u8 blk = blk -> - 2 ^ 31 <= id < 2 ^ 31 ->
  reads (_readBlockHeader shl_undefined self) ([blk] ++ enc_int id) (Some blk, id).
Proof.
  intros Hb Hid. unfold _readBlockHeader. change (ah_version self <? K_VERS 3) with false. cbv iota.
  eapply reads_bind.
  - intros f rest Hn E. pose proof (reads_byte blk f rest Hn E) as H. unfold _ReadByte in H.
    instantiate (1 := Some blk). unfold bind in H.
    destruct (getc f) as [[[b|]|e|] f']; cbn in H; try discriminate. injection H as -> ->. reflexivity.
  - cbv iota. rewrite <- (app_nil_r (enc_int id)). eapply reads_bind; [apply reads_int, Hid|apply reads_ret].
Qed.
End Decoding.

(** ** Whole archives *)

Section Archives.
  Variable shl_undefined : Z -> Z -> Z.
  Variable other_compressor : Z -> compressor.
  Variable use_pqc : bool.
  Variable localtime : Z -> tm.
  Context (c : compressor) (data : TocEntry -> entry_data).

(** The blocks of all entries with data. *)
Definition enc_entry_data (te : TocEntry) : bytes :=
  match data_calls te with None => [] | Some _ => enc_block c (dumpId te) (data te) end.
Definition enc_chunks (toc : list TocEntry) : bytes := mjoin (map enc_entry_data toc).

(** The entries once their blocks are written, from a position on. *)
Fixpoint placed_toc (seek : bool) (pos : nat) (toc : list TocEntry) : list TocEntry :=
  match toc with
  | [] => []
  | te :: toc' =>
      match data_calls te with None => te | Some _ => placed seek pos te end ::
      placed_toc seek (pos + length (enc_entry_data te)) toc'
  end.

(** The routines of the entries write the data. *)
Definition dumps (toc : list TocEntry) : Prop :=
  Forall (fun te => match data_calls te with
                    | None => True
                    | Some calls => calls = calls_of (data te) /\ wf_data c te (data te)
                    end) toc.

Lemma chunks_run hasSeek toc : dumps toc -> forall f, on_file f -> (hasSeek = true -> fh_seekable f = true) ->
  WriteDataChunks hasSeek self c toc f = (Ok (placed_toc (fh_seekable f) (fh_pos f) toc), put_bytes (enc_chunks toc) f).
Proof.
  induction toc as [|te toc IH]; intros Hd f Hf Hs; cbn [WriteDataChunks placed_toc].
  - unfold enc_chunks. cbn [map mjoin list_join]. rewrite put_bytes_nil by exact Hf. reflexivity.
  - apply Forall_cons in Hd as [Hte Hd]. change (enc_chunks (te :: toc)) with (enc_entry_data te ++ enc_chunks toc).
    unfold enc_entry_data at 1 2. destruct (data_calls te) as [calls|].
    + destruct Hte as [-> Hwf]. mrun (write_chunks_run c hasSeek te (data te) f Hf Hs Hwf).
      set (l := enc_block c (dumpId te) (data te)). pose proof (put_bytes_on l f Hf) as Hf1.
      mrun (IH Hd (put_bytes l f) Hf1 Hs). rewrite put_bytes_app by exact Hf. reflexivity.
    + rewrite (bind_step _ _ f te f) by reflexivity. mrun (IH Hd f Hf Hs). cbn [length]. rewrite Nat.add_0_r. reflexivity.
Qed.

(** *** The table of contents is rewritten in place *)

Lemma enc_entry_set_data te st pos : length (enc_entry (set_data st pos te)) = length (enc_entry te).
Proof. unfold enc_entry, enc_offset. rewrite !length_app, !length_le_bytes. reflexivity. Qed.

Lemma placed_dumped seek toc : forall pos,
  length (List.filter is_dumped (placed_toc seek pos toc)) = length (List.filter is_dumped toc) /\
  length (mjoin (map enc_entry (List.filter is_dumped (placed_toc seek pos toc))))
    = length (mjoin (map enc_entry (List.filter is_dumped toc))).
Proof.
  induction toc as [|te toc IH]; intros pos; [split; reflexivity|]. cbn [placed_toc List.filter].
  destruct (IH (pos + length (enc_entry_data te))%nat) as [H1 H2].
  assert (Hd : is_dumped (match data_calls te with None => te | Some _ => placed seek pos te end) = is_dumped te)
    by (destruct (data_calls te); reflexivity).
  rewrite Hd. destruct (is_dumped te); [|split; assumption]. cbn [length map].
  split; [rewrite H1; reflexivity|]. cbn [mjoin list_join]. rewrite !length_app. f_equal; [|exact H2].
  destruct (data_calls te); [apply enc_entry_set_data|reflexivity].
Qed.

Lemma enc_toc_placed seek pos toc : length (enc_toc (placed_toc seek pos toc)) = length (enc_toc toc).
Proof.
  destruct (placed_dumped seek toc pos) as [H1 H2]. unfold enc_toc. cbv zeta. rewrite !length_app, !enc_int_length, H2.
  reflexivity.
Qed.

Lemma put_bytes_over e a b b' d s : length b' = length b ->
  fh_data (put_bytes b' (mkFILE e (a ++ b ++ d) (length a) s)) = a ++ b' ++ d.
Proof.
  intros Hl. unfold put_bytes. cbn. rewrite firstn_app, Nat.sub_diag, firstn_all, firstn_O, app_nil_r. f_equal. f_equal.
  rewrite Hl, <- length_app, app_assoc, skipn_app, skipn_all, Nat.sub_diag. reflexivity.
Qed.

Lemma put_bytes_end e a l s : put_bytes l (mkFILE e a (length a) s) = mkFILE e (a ++ l) (length (a ++ l)) s.
Proof.
  unfold put_bytes. cbn. rewrite firstn_all, skipn_all2 by lia. rewrite app_nil_r, length_app. reflexivity.
Qed.

Lemma on_end e a s : no_faults e -> on_file (mkFILE e a (length a) s).
Proof. intros Hn. split; [exact Hn|reflexivity]. Qed.

Lemma fseeko_set_run p f : no_faults (fh_env f) -> fh_seekable f = true ->
  fseeko SEEK_SET (Z.of_nat p) f = (Ok true, seek_to p f).
Proof.
  intros Hn Hs. unfold fseeko. mrun (attempt_on f Hn). rewrite (bind_step _ _ f f f) by reflexivity. cbv zeta.
  unfold SEEK_SET. rewrite Hs, Z.add_0_l, Nat2Z.id. destruct (Z.leb_spec 0 (Z.of_nat p)); [reflexivity|lia].
Qed.

(** The bytes of an archive. *)
Definition enc_archive (seek : bool) (h : header) (toc : list TocEntry) : bytes :=
  let head := enc_head use_pqc localtime h in
  head ++ enc_toc (if seek then placed_toc true (length head + length (enc_toc toc)) toc else toc) ++ enc_chunks toc.

Lemma close_run e s h toc : no_faults e -> h_layout h = self -> dumps toc ->
  AllocateCompressor other_compressor (h_algorithm h) = c ->
  exists f, _CloseArchive other_compressor use_pqc localtime s h toc (mkFILE e [] 0 s) = (Ok tt, f) /\
    fh_data f = enc_archive s h toc.
Proof.
  intros Hn Hl Hd Hc. unfold _CloseArchive, enc_archive. rewrite Hl, Hc. cbv zeta.
  set (head := enc_head use_pqc localtime h). pose proof (on_end e [] s Hn) as H0.
  mrun (writes_head use_pqc localtime h Hl _ H0). fold head. rewrite (put_bytes_end e [] head s). cbn [app].
  pose proof (on_end e head s Hn) as H1. set (tp := if s then Z.of_nat (length head) else -1).
  rewrite (bind_step _ _ (mkFILE e head (length head) s) tp (mkFILE e head (length head) s)).
  2:{ unfold ftello. mrun (attempt_on (mkFILE e head (length head) s) Hn). reflexivity. }
  replace ((tp <? 0) && s) with false
    by (unfold tp; destruct s; [destruct (Z.ltb_spec (Z.of_nat (length head)) 0); [lia|reflexivity]|reflexivity]).
  mrun (writes_toc toc _ H1). rewrite put_bytes_end. pose proof (on_end e (head ++ enc_toc toc) s Hn) as H2.
  mrun (chunks_run s toc Hd _ H2 (fun E => E)). rewrite put_bytes_end. cbn [fh_seekable fh_pos].
  rewrite length_app. set (d := (head ++ enc_toc toc) ++ enc_chunks toc). destruct s.
  - pose proof (fseeko_set_run (length head) (mkFILE e d (length d) true) Hn eq_refl) as Hseek.
    rewrite bind_assoc. unfold tp. mrun Hseek.
    assert (H3 : on_file (seek_to (length head) (mkFILE e d (length d) true))).
    { split; [exact Hn|]. cbn. unfold d. rewrite !length_app. lia. }
    mrun (writes_toc (placed_toc true (length head + length (enc_toc toc)) toc) _ H3).
    match goal with |- context [bind (zoom fenvL attempt) _ ?f] => rewrite (bind_step _ _ f true f (attempt_on f Hn)) end.
    eexists. split; [reflexivity|]. unfold seek_to. cbn [fh_env fh_data fh_seekable]. unfold d. rewrite <- app_assoc.
    apply put_bytes_over, enc_toc_placed.
  - rewrite (bind_step _ _ _ tt (mkFILE e d (length d) false)) by reflexivity.
    rewrite (bind_step _ _ _ true _ (attempt_on (mkFILE e d (length d) false) Hn)). eexists.
    split; [reflexivity|]. cbn. unfold d. rewrite <- app_assoc. reflexivity.
Qed.

(** *** Where the blocks are *)

Lemma data_calls_dumped te calls : data_calls te = Some calls -> is_dumped te = true.
Proof.
  unfold data_calls, is_dumped, REQ_DATA, REQ_SCHEMA, REQ_SPECIAL. destruct (Z.eqb_spec (Z.land (reqs te) 2) 0) as [|Hne];
    [discriminate|]. intros _. apply negb_true_iff, Z.eqb_neq. intros E. apply Hne.
  change 2 with (Z.land (Z.lor 1 (Z.lor 2 4)) 2). rewrite Z.land_assoc, E. reflexivity.
Qed.

Lemma block_at toc : forall pos te calls, In te toc -> data_calls te = Some calls ->
  exists before after, enc_chunks toc = before ++ enc_block c (dumpId te) (data te) ++ after /\
    In (placed true (pos + length before) te) (placed_toc true pos toc).
Proof.
  induction toc as [|x toc IH]; intros pos te calls Hin Hd; [contradiction|].
  change (enc_chunks (x :: toc)) with (enc_entry_data x ++ enc_chunks toc). cbn [placed_toc].
  destruct Hin as [->|Hin].
  - exists [], (enc_chunks toc). unfold enc_entry_data. rewrite Hd. split; [reflexivity|]. left. cbn [length].
    rewrite Nat.add_0_r. reflexivity.
  - destruct (IH (pos + length (enc_entry_data x))%nat te calls Hin Hd) as (before & after & E & Hp).
    exists (enc_entry_data x ++ before), after. rewrite E, <- app_assoc. split; [reflexivity|]. right.
    rewrite length_app, Nat.add_assoc. exact Hp.
Qed.

Lemma placed_wf toc : Forall wf_entry toc -> forall pos,
  Z.of_nat (pos + length (enc_chunks toc)) < 2 ^ 63 -> Forall wf_entry (placed_toc true pos toc).
Proof.
  induction toc as [|te toc IH]; intros Hwf pos Hp; cbn [placed_toc]; [constructor|].
  apply Forall_cons in Hwf as [Hte Hwf].
  change (enc_chunks (te :: toc)) with (enc_entry_data te ++ enc_chunks toc) in Hp. rewrite length_app in Hp.
  constructor; [|apply IH; [exact Hwf|lia]].
  destruct (data_calls te); [|exact Hte]. destruct Hte as (H1 & H2 & H3 & H4 & H5 & H6 & _ & _ & H9).
  refine (conj H1 (conj H2 (conj H3 (conj H4 (conj H5 (conj H6 (conj _ (conj _ H9)))))))).
  - right. left. reflexivity.
  - cbn [placed set_data dataPos]. lia.
Qed.

Lemma process_placed pg_char_to_encoding seek toc : forall pos p,
  process_entries pg_char_to_encoding (map as_read (List.filter is_dumped (placed_toc seek pos toc))) p
    = process_entries pg_char_to_encoding (map as_read (List.filter is_dumped toc)) p.
Proof.
  induction toc as [|te toc IH]; intros pos p; [reflexivity|]. cbn [placed_toc List.filter].
  assert (Hd : is_dumped (match data_calls te with None => te | Some _ => placed seek pos te end) = is_dumped te)
    by (destruct (data_calls te); reflexivity).
  rewrite Hd. destruct (is_dumped te); [|apply IH]. cbn [map process_entries].
  assert (Hp : process_entry pg_char_to_encoding (as_read (match data_calls te with None => te | Some _ => placed seek pos te end)) p
    = process_entry pg_char_to_encoding (as_read te) p) by (destruct (data_calls te); reflexivity).
  rewrite Hp. destruct (process_entry _ (as_read te) p); [apply IH|reflexivity].
Qed.

(** *** Restoring one entry *)

Lemma reads_block fuel te d id : lossless c -> wf_data c te d -> - 2 ^ 31 <= id < 2 ^ 31 ->
  (length (enc_block c id d) < fuel)%nat ->
  exists blk body, enc_block c id d = ([blk] ++ enc_int id) ++ body /\
    reads (_readBlockHeader shl_undefined self) ([blk] ++ enc_int id) (Some blk, id) /\
    reads (if blk =? BLK_DATA then _PrintData shl_undefined fuel self c
           else if blk =? BLK_BLOBS then _LoadLOs shl_undefined fuel self c [] else fatal)
      body (Some (restored_of d)) /\
    reads (skip_block shl_undefined fuel false self blk) body (Some tt).
Proof.
  intros Hc Hd Hid Hf. destruct d as [chunks|los]; destruct Hd as [_ Hd]; cbn [enc_block] in *; rewrite !length_app in Hf.
  - exists BLK_DATA, (enc_data c chunks). split; [rewrite app_assoc; reflexivity|].
    split; [apply reads_block_header; [reflexivity|exact Hid]|]. split; [apply reads_data; [exact Hc|exact Hd|lia]|].
    apply reads_skip_data; [exact Hd|]. unfold enc_data in Hf. rewrite length_app in Hf. lia.
  - exists BLK_BLOBS, (mjoin (map (enc_lo c) los) ++ enc_int 0). split; [rewrite app_assoc; reflexivity|].
    split; [apply reads_block_header; [reflexivity|exact Hid]|].
    assert (Hq : forall x y z w k, (x + (y + (z + w)) < k)%nat -> (z < k)%nat) by lia.
    split; [exact (reads_los shl_undefined c Hc los fuel [] Hd (Hq _ _ _ _ _ Hf))|].
    exact (reads_skip_los shl_undefined c los fuel Hd (Hq _ _ _ _ _ Hf)).
Qed.

  Variable mktime : tm -> Z.
  Variable uninit : Z.
  Variable pg_char_to_encoding : bytes -> Z.

  Hypothesis c_lossless : lossless c.

(** What the program that writes has set up, and the one that reads has not
    touched; the archive is not larger than a position can be. *)
Definition archivable (seek : bool) (h h0 : header) (toc : list TocEntry) (p p' : toc_settings) : Prop :=
  wf_header localtime h /\ good_date localtime mktime (createDate h) /\ h_level h = h_level h0 /\ (use_pqc = true \/ h_pqc h = h_pqc h0) /\
  AllocateCompressor other_compressor (h_algorithm h) = c /\
  Forall wf_entry toc /\ Z.of_nat (length toc) < 2 ^ 31 /\ dumps toc /\
  process_entries pg_char_to_encoding (map as_read (List.filter is_dumped toc)) p = Some p' /\
  blen (enc_archive seek h toc) < 2 ^ 63.

Definition final_toc (seek : bool) (h : header) (toc : list TocEntry) : list TocEntry :=
  if seek then placed_toc true (length (enc_head use_pqc localtime h) + length (enc_toc toc)) toc else toc.

Lemma final_toc_length seek h toc : length (enc_toc (final_toc seek h toc)) = length (enc_toc toc).
Proof. unfold final_toc. destruct seek; [apply enc_toc_placed|reflexivity]. Qed.

Lemma open_run seek rseek e h h0 toc p p' : archivable seek h h0 toc p p' -> no_faults e ->
  exists pos, InitArchiveFmt_Custom shl_undefined use_pqc mktime uninit pg_char_to_encoding rseek h0 p
      (mkFILE e (enc_archive seek h toc) 0 rseek)
    = (Ok (h, p', mkContext rseek pos (map as_read (List.filter is_dumped (final_toc seek h toc)))),
       mkFILE e (enc_archive seek h toc) (length (enc_head use_pqc localtime h) + length (enc_toc toc)) rseek).
Proof.
  intros (Hh & Hdate & Hlev & Hpqc & Hc & Hwf & Hlen & Hd & Hp & Hsize) Hn. unfold InitArchiveFmt_Custom.
  set (arch := enc_archive seek h toc). set (head := enc_head use_pqc localtime h).
  assert (E : arch = head ++ enc_toc (final_toc seek h toc) ++ enc_chunks toc) by reflexivity.
  mrun (reads_head shl_undefined use_pqc localtime mktime h h0 Hh Hdate Hlev Hpqc
    (mkFILE e arch 0 rseek) _ Hn E). rewrite (proj1 Hh). fold head.
  set (f1 := advance (length head) (mkFILE e arch 0 rseek)).
  assert (E1 : skipn (fh_pos f1) (fh_data f1) = enc_toc (final_toc seek h toc) ++ enc_chunks toc)
    by exact (skipn_advance (mkFILE e arch 0 rseek) head _ E).
  assert (Hwf' : Forall wf_entry (final_toc seek h toc) /\ length (final_toc seek h toc) = length toc).
  { unfold final_toc. destruct seek; [|split; [exact Hwf|reflexivity]].
    split.
    - apply placed_wf; [exact Hwf|]. unfold enc_archive, blen in Hsize. cbv zeta in Hsize.
      rewrite !length_app, enc_toc_placed in Hsize. fold head in Hsize |- *. lia.
    - generalize (length (enc_head use_pqc localtime h) + length (enc_toc toc))%nat.
      clear. induction toc as [|te toc IH]; intros pos; cbn; [reflexivity|]. rewrite IH. reflexivity. }
  assert (Hp' : process_entries pg_char_to_encoding (map as_read (List.filter is_dumped (final_toc seek h toc))) p = Some p').
  { unfold final_toc. destruct seek; [rewrite process_placed|]; exact Hp. }
  mrun (reads_toc shl_undefined uninit pg_char_to_encoding (final_toc seek h toc) p p' (proj1 Hwf')
    ltac:(rewrite (proj2 Hwf'); exact Hlen) Hp' f1 _ Hn E1).
  set (f2 := advance (length (enc_toc (final_toc seek h toc))) f1).
  mrun (file_pos_run rseek f2 Hn (fun E => E)). eexists. cbn [ret]. unfold f2, f1, advance.
  cbn [fh_env fh_data fh_pos fh_seekable]. rewrite final_toc_length, Nat.add_0_l. reflexivity.
Qed.

(** The end of a block that has been found. *)
Lemma print_found fuel te te' ctx toc' f f1 blk body rest :
  dumpId te' = dumpId te -> dataState te' <> K_OFFSET_NO_DATA ->
  (ctx_hasSeek ctx = true -> dataState te' <> K_OFFSET_POS_NOT_SET) ->
  find_block shl_undefined fuel self ctx te' f = (Ok (Some (Some blk, dumpId te, toc')), f1) ->
  no_faults (fh_env f1) -> skipn (fh_pos f1) (fh_data f1) = body ++ rest ->
  reads (if blk =? BLK_DATA then _PrintData shl_undefined fuel self c
         else if blk =? BLK_BLOBS then _LoadLOs shl_undefined fuel self c [] else fatal)
    body (Some (restored_of (data te))) ->
  _PrintTocData shl_undefined fuel self c te' ctx f
    = (Ok (Some (restored_of (data te), mkContext (ctx_hasSeek ctx) (lastFilePos ctx) toc')), advance (length body) f1).
Proof.
  intros Hid Hdata Hset Hfind Hn E Hr. unfold _PrintTocData. destruct (Z.eqb_spec (dataState te') K_OFFSET_NO_DATA); [easy|].
  mrun Hfind. rewrite Hid, Z.eqb_refl. cbn [negb]. mrun (Hr f1 rest Hn E).
  replace (ctx_hasSeek ctx && (dataState te' =? K_OFFSET_POS_NOT_SET)) with false; [reflexivity|].
  destruct (ctx_hasSeek ctx); [|reflexivity]. symmetry. apply Z.eqb_neq, Hset. reflexivity.
Qed.

Lemma data_calls_wf toc te calls : Forall wf_entry toc -> dumps toc -> In te toc -> data_calls te = Some calls ->
  wf_data c te (data te) /\ - 2 ^ 31 <= dumpId te < 2 ^ 31.
Proof.
  intros Hwf Hd Hin Hc. unfold dumps in Hd. rewrite List.Forall_forall in Hwf, Hd.
  specialize (Hd te Hin). rewrite Hc in Hd. split; [apply Hd|]. destruct (Hwf te Hin) as [Hid _]. lia.
Qed.

(** An entry of the dump and the one read for it: the same in every field that
    is written, with the place of its block where it has one. *)
Definition read_for (te te' : TocEntry) : Prop :=
  exists pos, te' = as_read (match data_calls te with None => te | Some _ => placed true pos te end).

Lemma read_for_placed toc : forall pos,
  Forall2 read_for (List.filter is_dumped toc) (map as_read (List.filter is_dumped (placed_toc true pos toc))).
Proof.
  induction toc as [|te toc IH]; intros pos; [constructor|]. cbn [placed_toc List.filter].
  assert (Hd : is_dumped (match data_calls te with None => te | Some _ => placed true pos te end) = is_dumped te)
    by (destruct (data_calls te); reflexivity).
  rewrite Hd. destruct (is_dumped te); [|apply IH]. constructor; [|apply IH]. exists pos. reflexivity.
Qed.

(** C20: roundtrip.  An archive of the custom format written to a file that can
    be positioned is opened with the header and the settings of the dump and
    with its entries: those selected for the dump, in order, each the same in
    every field written, with the place of its block where it has data.
    Restoring such an entry, from wherever the file stands, finds its block by
    that place and gives back the data of the table, or the large objects with
    theirs, whole and in order.  This assumes that the compressor gives back
    what it was given (proved for the one that does not compress; the code
    around zlib, LZ4 and Zstandard is a parameter), that mktime undoes
    localtime at the date of the dump, that the reader starts with the level of
    compression of the dump, which the header does not hold, that both programs
    are built with USE_PQC, or both without it and the encryption fields of the
    dump are those the reader starts with, that numbers and strings fit the
    types of the format, that the entries with settings can be processed, and
    that no call fails. *)
Theorem archive_restored (e e' : env) (h h0 : header) (toc : list TocEntry) (p p' : toc_settings) :
  no_faults e -> no_faults e' -> archivable true h h0 toc p p' ->
  exists f ctx g,
    _CloseArchive other_compressor use_pqc localtime true h toc (mkFILE e [] 0 true) = (Ok tt, f) /\
    InitArchiveFmt_Custom shl_undefined use_pqc mktime uninit pg_char_to_encoding true h0 p
      (mkFILE e' (fh_data f) 0 true) = (Ok (h, p', ctx), g) /\
    Forall2 read_for (List.filter is_dumped toc) (ctx_toc ctx) /\
    forall te calls, In te toc -> data_calls te = Some calls ->
      exists te', In te' (ctx_toc ctx) /\ read_for te te' /\
        forall pos fuel, (length (fh_data f) < fuel)%nat ->
          fst (_PrintTocData shl_undefined fuel (h_layout h) (AllocateCompressor other_compressor (h_algorithm h)) te' ctx
            (seek_to pos g)) = Ok (Some (restored_of (data te), ctx)).
Proof.
  intros Hn Hn' Ha. destruct (open_run true true e' h h0 toc p p' Ha Hn') as [last Hopen].
  destruct Ha as (Hh & _ & _ & _ & Hc & Hwf & _ & Hd & _ & _).
  destruct (close_run e true h toc Hn (proj1 Hh) Hd Hc) as (f & Hclose & Hdata).
  set (start := (length (enc_head use_pqc localtime h) + length (enc_toc toc))%nat) in *.
  exists f. eexists. eexists. split; [exact Hclose|]. rewrite Hdata. split; [exact Hopen|].
  split; [apply read_for_placed|]. intros te calls Hin Hcalls. destruct (block_at toc start te calls Hin Hcalls) as (before & after & Eb & Hpl).
  exists (as_read (placed true (start + length before) te)). cbn [ctx_toc]. split.
  { apply in_map, filter_In. split; [exact Hpl|]. exact (data_calls_dumped te calls Hcalls). }
  split; [exists (start + length before)%nat; rewrite Hcalls; reflexivity|]. intros pos fuel Hf. rewrite Hc, (proj1 Hh).
  destruct (data_calls_wf toc te calls Hwf Hd Hin Hcalls) as [Hwd Hid].
  assert (Earch : enc_archive true h toc = (enc_head use_pqc localtime h ++ enc_toc (final_toc true h toc) ++ before) ++
    enc_block c (dumpId te) (data te) ++ after).
  { unfold enc_archive. cbv zeta. rewrite Eb, <- !app_assoc. reflexivity. }
  assert (Hpos : length (enc_head use_pqc localtime h ++ enc_toc (final_toc true h toc) ++ before)
    = (start + length before)%nat) by (rewrite !length_app, final_toc_length; unfold start; lia).
  destruct (reads_block fuel te (data te) (dumpId te) c_lossless Hwd Hid) as (blk & body & Eblk & Hhead & Hbody & _).
  { rewrite Earch, !length_app in Hf. lia. }
  set (g := seek_to (start + length before) (mkFILE e' (enc_archive true h toc) start true)).
  assert (E : skipn (fh_pos g) (fh_data g) = ([blk] ++ enc_int (dumpId te)) ++ body ++ after).
  { unfold g. cbn [seek_to fh_pos fh_data]. rewrite <- Hpos, Earch, skipn_app, skipn_all, Nat.sub_diag, Eblk, <- !app_assoc.
    reflexivity. }
  match goal with |- fst (_PrintTocData _ _ _ _ ?te' ?ctx ?f0) = _ =>
    rewrite (print_found fuel te te' ctx (ctx_toc ctx) f0 (advance (length ([blk] ++ enc_int (dumpId te))) g) blk body after)
  end; [reflexivity|reflexivity|discriminate|discriminate| |exact Hn'|exact (skipn_advance _ _ _ E)|exact Hbody].
  unfold find_block. cbn [ctx_hasSeek negb orb]. change (dataState _ =? K_OFFSET_POS_NOT_SET) with false. cbv iota.
  mrun (fseeko_set_run (start + length before) (seek_to pos (mkFILE e' (enc_archive true h toc) start true)) Hn' eq_refl).
  cbn [negb]. mrun (Hhead g _ Hn' E). reflexivity.
Qed.

(** *** Restoring in order, without positions *)

(** The blocks of other entries are passed over. *)
Lemma search_run toc : forall fuel wanted tctx blk rest f, Forall wf_entry toc -> dumps toc ->
  (forall x, In x toc -> dumpId x <> wanted) -> no_faults (fh_env f) -> fh_seekable f = false ->
  reads (_readBlockHeader shl_undefined self) ([blk] ++ enc_int wanted) (Some blk, wanted) ->
  skipn (fh_pos f) (fh_data f) = enc_chunks toc ++ ([blk] ++ enc_int wanted) ++ rest ->
  (length (enc_chunks toc) < fuel)%nat ->
  search shl_undefined fuel false self wanted tctx f
    = (Ok (Some (Some blk, wanted, tctx)), advance (length (enc_chunks toc ++ [blk] ++ enc_int wanted)) f).
Proof.
  induction toc as [|x toc IH]; intros fuel wanted tctx blk rest f Hwf Hd Hne Hn Hs Hhead E Hf; (destruct fuel as [|fuel]; [lia|]).
  - cbn [enc_chunks map mjoin list_join app] in E |- *. cbn [search].
    mrun (file_pos_run false f Hn (fun H => False_ind _ (Bool.diff_false_true H))). mrun (Hhead f rest Hn E).
    rewrite Z.eqb_refl. reflexivity.
  - apply Forall_cons in Hwf as [Hx Hwf]. apply Forall_cons in Hd as [Hdx Hd].
    change (enc_chunks (x :: toc)) with (enc_entry_data x ++ enc_chunks toc) in *. unfold enc_entry_data in *.
    assert (Hne' : forall y, In y toc -> dumpId y <> wanted) by (intros y Hy; apply Hne; right; exact Hy).
    destruct (data_calls x) as [calls|]; [|exact (IH (S fuel) wanted tctx blk rest f Hwf Hd Hne' Hn Hs Hhead E Hf)].
    destruct Hdx as [_ Hwd]. rewrite length_app in Hf.
    destruct (reads_block (S fuel) x (data x) (dumpId x) c_lossless Hwd ltac:(destruct Hx; lia) ltac:(lia))
      as (b & body & Eb & Hb & _ & Hskip).
    assert (E0 : skipn (fh_pos f) (fh_data f) = ([b] ++ enc_int (dumpId x)) ++ body ++ enc_chunks toc ++
      ([blk] ++ enc_int wanted) ++ rest) by (rewrite E, Eb, <- !app_assoc; reflexivity). cbn [search].
    mrun (file_pos_run false f Hn (fun H => False_ind _ (Bool.diff_false_true H))). rewrite Hs.
    mrun (Hb f _ Hn E0).
    destruct (Z.eqb_spec (dumpId x) wanted) as [Heq|_]; [destruct (Hne x (or_introl eq_refl) Heq)|].
    change (0 <=? -1) with false. cbv iota. pose proof (skipn_advance _ _ _ E0) as E1.
    set (f1 := advance (length ([b] ++ enc_int (dumpId x))) f) in *. rewrite (bind_step _ _ f1 tctx f1) by reflexivity.
    mrun (Hskip f1 _ Hn E1). pose proof (skipn_advance _ _ _ E1) as E2.
    rewrite (IH fuel wanted tctx blk rest (advance (length body) f1) Hwf Hd Hne' Hn Hs Hhead E2).
    + unfold f1. rewrite !advance_advance, <- !length_app, Eb, <- !app_assoc. reflexivity.
    + rewrite Eb, !length_app, enc_int_length in Hf. cbn [length] in Hf. lia.
Qed.

(** The data of some entries, one after the other. *)
Fixpoint restore_data (fuel : nat) (AH : layout) (tes : list TocEntry) (ctx : lclContext)
    : M FILE (option (list (list restore_call))) :=
  match tes with
  | [] => ret (Some [])
  | te :: tes' =>
      let! r := _PrintTocData shl_undefined fuel AH c te ctx in
      match r with
      | None => ret None
      | Some (out, ctx) =>
          let! rs := restore_data fuel AH tes' ctx in
          ret (match rs with Some outs => Some (out :: outs) | None => None end)
      end
  end.

Definition has_data (te : TocEntry) : Prop := data_calls te <> None.

Lemma has_data_wf te : has_data te ->
  match data_calls te with None => True | Some calls => calls = calls_of (data te) /\ wf_data c te (data te) end ->
  wf_data c te (data te).
Proof. unfold has_data. destruct (data_calls te); [intros _ [_ Hwd]; exact Hwd|contradiction]. Qed.

Lemma chunks_split toc1 te toc2 : has_data te ->
  enc_chunks (toc1 ++ te :: toc2) = enc_chunks toc1 ++ enc_block c (dumpId te) (data te) ++ enc_chunks toc2.
Proof.
  intros Hte. induction toc1 as [|x toc1 IH].
  - cbn [app]. unfold enc_chunks at 1. cbn [map mjoin list_join]. unfold enc_entry_data at 1. unfold has_data in Hte.
    destruct (data_calls te); [reflexivity|contradiction].
  - cbn [app]. change (enc_chunks (x :: toc1 ++ te :: toc2)) with (enc_entry_data x ++ enc_chunks (toc1 ++ te :: toc2)).
    change (enc_chunks (x :: toc1)) with (enc_entry_data x ++ enc_chunks toc1). rewrite <- app_assoc, <- IH. reflexivity.
Qed.

Lemma restore_run wanted : forall toc wanted' fuel ctx rest f, Forall wf_entry toc -> dumps toc ->
  NoDup (map dumpId toc) -> wanted `sublist_of` toc -> Forall has_data wanted ->
  Forall2 (fun te te' => dumpId te' = dumpId te /\ dataState te' <> K_OFFSET_NO_DATA) wanted wanted' ->
  ctx_hasSeek ctx = false -> no_faults (fh_env f) -> fh_seekable f = false ->
  skipn (fh_pos f) (fh_data f) = enc_chunks toc ++ rest -> (length (enc_chunks toc) < fuel)%nat ->
  fst (restore_data fuel self wanted' ctx f) = Ok (Some (map (fun te => restored_of (data te)) wanted)).
Proof.
  induction wanted as [|te wanted IH]; intros toc wanted' fuel ctx rest f Hwf Hd Hnd Hsub Hw H2 Hcs Hn Hs E Hf.
  { inversion H2; subst. reflexivity. }
  inversion H2 as [|? te' ? rs' [Hid Hst] H2']; subst. apply Forall_cons in Hw as [Hte Hw].
  apply sublist_cons_l in Hsub as (toc1 & toc2 & -> & Hsub). apply Forall_app in Hwf as [Hwf1 Hwf].
  apply Forall_cons in Hwf as [Hwt Hwf2]. apply Forall_app in Hd as [Hd1 Hd]. apply Forall_cons in Hd as [Hdt Hd2].
  rewrite map_app in Hnd. apply NoDup_app in Hnd as (_ & Hsep & Hnd). cbn [map] in Hsep, Hnd. apply NoDup_cons in Hnd as [_ Hnd].
  assert (Hne : forall x, In x toc1 -> dumpId x <> dumpId te).
  { intros x Hx Hq. apply (Hsep (dumpId x)); [apply list_elem_of_In, in_map, Hx|rewrite Hq; left]. }
  pose proof (chunks_split toc1 te toc2 Hte) as Ec. pose proof (has_data_wf te Hte Hdt) as Hwd.
  rewrite Ec, !length_app in Hf.
  destruct (reads_block fuel te (data te) (dumpId te) c_lossless Hwd ltac:(destruct Hwt; lia) ltac:(lia))
    as (blk & body & Eb & Hhead & Hbody & _).
  assert (E0 : skipn (fh_pos f) (fh_data f)
    = enc_chunks toc1 ++ ([blk] ++ enc_int (dumpId te)) ++ body ++ enc_chunks toc2 ++ rest)
    by (rewrite E, Ec, Eb, <- !app_assoc; reflexivity).
  pose proof (search_run toc1 fuel (dumpId te) (ctx_toc ctx) blk _ f Hwf1 Hd1 Hne Hn Hs Hhead E0 ltac:(lia)) as Hsearch.
  rewrite app_assoc in E0. pose proof (skipn_advance _ _ _ E0) as E1.
  set (f1 := advance (length (enc_chunks toc1 ++ [blk] ++ enc_int (dumpId te))) f) in *.
  assert (Hfind : find_block shl_undefined fuel self ctx te' f = (Ok (Some (Some blk, dumpId te, ctx_toc ctx)), f1)).
  { unfold find_block. rewrite Hcs, Hid. exact Hsearch. }
  cbn [restore_data]. mrun (print_found fuel te te' ctx (ctx_toc ctx) f f1 blk body (enc_chunks toc2 ++ rest) Hid Hst
    ltac:(rewrite Hcs; discriminate) Hfind Hn E1 Hbody).
  pose proof (IH toc2 rs' fuel (mkContext (ctx_hasSeek ctx) (lastFilePos ctx) (ctx_toc ctx)) rest (advance (length body) f1)
    Hwf2 Hd2 Hnd Hsub Hw H2' Hcs Hn Hs (skipn_advance _ _ _ E1) ltac:(lia)) as Hrest.
  unfold bind. destruct (restore_data fuel self rs' _ _) as [o f2]. cbn [fst] in Hrest. subst o. reflexivity.
Qed.

Lemma placed_toc_entry seek toc : forall pos te', In te' (placed_toc seek pos toc) ->
  exists te, In te toc /\ dumpId te' = dumpId te /\ (dataState te' = dataState te \/ dataState te' = K_OFFSET_POS_SET).
Proof.
  induction toc as [|x toc IH]; intros pos te' Hin; [contradiction|]. destruct Hin as [<-|Hin].
  - exists x. split; [left; reflexivity|]. destruct (data_calls x); [|auto]. destruct seek; auto.
  - destruct (IH _ _ Hin) as (te & H & Ht). exists te. split; [right; exact H|exact Ht].
Qed.

Lemma final_toc_entry seek h toc te' : In te' (map as_read (List.filter is_dumped (final_toc seek h toc))) ->
  exists te, In te toc /\ dumpId te' = dumpId te /\ (dataState te' = dataState te \/ dataState te' = K_OFFSET_POS_SET).
Proof.
  intros Hin. apply in_map_iff in Hin as (x & <- & Hx). apply filter_In in Hx as [Hx _]. unfold final_toc in Hx.
  destruct seek; [exact (placed_toc_entry true toc _ x Hx)|]. exists x. auto.
Qed.

Lemma NoDup_map_unique {A B} (f : A -> B) l x y : NoDup (map f l) -> In x l -> In y l -> f x = f y -> x = y.
Proof.
  induction l as [|z l IH]; intros Hnd Hx Hy E; [contradiction|]. cbn [map] in Hnd. apply NoDup_cons in Hnd as [Hz Hnd].
  destruct Hx as [->|Hx], Hy as [->|Hy]; [reflexivity| | |apply IH; assumption]; destruct Hz; apply list_elem_of_In.
  - rewrite E. apply in_map, Hy.
  - rewrite <- E. apply in_map, Hx.
Qed.

(** The entries of the table of contents read that stand for some of those
    written. *)
Lemma selected_entries seek h toc wanted wanted' : NoDup (map dumpId toc) ->
  Forall (fun te => has_data te -> dataState te <> K_OFFSET_NO_DATA) toc ->
  wanted `sublist_of` toc -> Forall has_data wanted -> map dumpId wanted' = map dumpId wanted ->
  Forall (fun te' => In te' (map as_read (List.filter is_dumped (final_toc seek h toc)))) wanted' ->
  Forall2 (fun te te' => dumpId te' = dumpId te /\ dataState te' <> K_OFFSET_NO_DATA) wanted wanted'.
Proof.
  intros Hnd Hst Hsub. assert (Hin : Forall (fun te => In te toc) wanted).
  { apply List.Forall_forall. intros te Hte. apply list_elem_of_In. eapply sublist_subseteq; [exact Hsub|].
    apply list_elem_of_In, Hte. }
  clear Hsub. revert wanted'. induction wanted as [|te wanted IH]; intros [|te' wanted'] Hd Hid Hr; try discriminate Hid;
    constructor; apply Forall_cons in Hin as [Hte Hin]; apply Forall_cons in Hd as [Hdt Hd];
    apply Forall_cons in Hr as [Hr Hrs]; injection Hid as Hid Hids; [|apply IH; assumption].
  split; [exact Hid|]. destruct (final_toc_entry seek h toc te' Hr) as (x & Hx & Hxid & Hs).
  assert (x = te).
  { apply (NoDup_map_unique dumpId toc); [exact Hnd|exact Hx|exact Hte|congruence]. }
  subst x. rewrite List.Forall_forall in Hst. destruct Hs as [->| ->]; [exact (Hst te Hte Hdt)|discriminate].
Qed.

(** An archive of the custom format, whether its positions could
    be filled in or not, is restored from an input that cannot be positioned,
    such as a pipe.  The data of any entries selected in the order of the
    table of contents is found by reading on from block to block, and comes
    back whole; the blocks between them are read over. *)
Theorem archive_restored_in_order (e e' : env) (seek : bool) (h h0 : header) (toc : list TocEntry) (p p' : toc_settings) :
  no_faults e -> no_faults e' -> archivable seek h h0 toc p p' -> NoDup (map dumpId toc) ->
  Forall (fun te => has_data te -> dataState te <> K_OFFSET_NO_DATA) toc ->
  exists f ctx g,
    _CloseArchive other_compressor use_pqc localtime seek h toc (mkFILE e [] 0 seek) = (Ok tt, f) /\
    InitArchiveFmt_Custom shl_undefined use_pqc mktime uninit pg_char_to_encoding false h0 p
      (mkFILE e' (fh_data f) 0 false) = (Ok (h, p', ctx), g) /\
    forall wanted wanted' fuel, wanted `sublist_of` toc -> Forall has_data wanted ->
      map dumpId wanted' = map dumpId wanted -> Forall (fun te' => In te' (ctx_toc ctx)) wanted' ->
      (length (fh_data f) < fuel)%nat ->
      fst (restore_data fuel (h_layout h) wanted' ctx g) = Ok (Some (map (fun te => restored_of (data te)) wanted)).
Proof.
  intros Hn Hn' Ha Hnd Hst. destruct (open_run seek false e' h h0 toc p p' Ha Hn') as [last Hopen].
  destruct Ha as (Hh & _ & _ & _ & Hc & Hwf & _ & Hd & _ & _).
  destruct (close_run e seek h toc Hn (proj1 Hh) Hd Hc) as (f & Hclose & Hdata).
  exists f. eexists. eexists. split; [exact Hclose|]. rewrite Hdata. split; [exact Hopen|].
  intros wanted wanted' fuel Hsub Hw Hids Hin Hf. cbn [ctx_toc] in Hin. rewrite (proj1 Hh).
  assert (Earch : enc_archive seek h toc
    = (enc_head use_pqc localtime h ++ enc_toc (final_toc seek h toc)) ++ enc_chunks toc).
  { unfold enc_archive. cbv zeta. rewrite <- app_assoc. reflexivity. }
  rewrite Earch, !length_app in Hf.
  apply (restore_run wanted toc wanted' fuel _ []); try assumption; try reflexivity; [|cbn [fh_pos fh_data]|lia].
  - exact (selected_entries seek h toc wanted wanted' Hnd Hst Hsub Hw Hids Hin).
  - rewrite <- (final_toc_length seek h toc), Earch, <- length_app, skipn_app, skipn_all, Nat.sub_diag, app_nil_r. reflexivity.
Qed.
End Archives.

(** ** Without compression *)

Lemma none_steps chunks : cs_steps none_compressor tt chunks = (tt, List.filter nonempty chunks).
Proof.
  induction chunks as [|b chunks IH]; [reflexivity|]. cbn [cs_steps List.filter]. unfold nonempty at 1.
  destruct (length b =? 0)%nat; [exact IH|]. cbn [none_compressor cs_write negb]. rewrite IH. reflexivity.
Qed.

Lemma join_nonempty chunks : mjoin (List.filter nonempty chunks) = mjoin chunks.
Proof.
  induction chunks as [|b chunks IH]; [reflexivity|]. cbn [List.filter]. unfold nonempty at 1.
  destruct b as [|x b]; [exact IH|]. exact (f_equal (app (x :: b)) IH).
Qed.

(** The compressor of compress_none.c. *)
Lemma none_lossless : lossless none_compressor.
Proof.
  intros chunks. unfold blocks_of, cs_run. change (cs_init none_compressor) with tt. rewrite none_steps.
  cbn [none_compressor cs_end cs_read]. rewrite app_nil_r. f_equal.
  exact (eq_trans (join_nonempty _) (join_nonempty _)).
Qed.

(** ** A dump of a database with one table and one large object *)

Module Sample.
Definition str (s : string) : option bytes := Some (bytes_of_string s).
Definition entry (id : Z) (d : string) (sec : Z) (def : option bytes) (dumper : option (list dump_call)) (reqs : Z) : TocEntry :=
  _ArchiveEntry (mkTocEntry id false 0 0 (str "t") (str d) sec def None None None None None 0 None [] 0 0 dumper reqs).

Definition data (te : TocEntry) : entry_data :=
  if dumpId te =? 2 then TableData [[49; 9; 50; 10]; []; [51; 9; 52; 10]] else LargeObjects [(16400, [[0; 255]])].

Definition toc : list TocEntry :=
  [entry 1 "ENCODING" SECTION_PRE_DATA (str "SET client_encoding = 'UTF8';") None REQ_SPECIAL;
   entry 2 "TABLE DATA" SECTION_DATA None (Some [WriteData [49; 9; 50; 10]; WriteData []; WriteData [51; 9; 52; 10]]) REQ_DATA;
   entry 3 "BLOBS" SECTION_DATA None (Some [StartLO 16400; WriteData [0; 255]; EndLO 16400]) REQ_DATA].

Definition head : header :=
  mkHeader self PG_COMPRESSION_NONE 0 1700000000 (str "db") (str "17.0") (str "17.0")
    (mkPqcFields 1 (str "ML-KEM-768") (Some [7; 8; 9]) 3 (repeat 5 12) 0 None).
Definition head0 : header := mkHeader self PG_COMPRESSION_GZIP 0 0 None None None no_pqc.

Definition env0 : env := mkEnv [] 0 ∅ ∅ ∅ ∅ [].
Definition localtime (t : Z) : tm := mkTm t 0 0 1 0 70 0.
Definition settings : toc_settings := mkTocSettings 0 false None.
Definition other (_ : Z) : compressor := none_compressor.

Lemma sample_archivable (seek : bool) :
  archivable other true localtime none_compressor data tm_sec (fun _ => 6) seek head head0 toc settings
    (mkTocSettings 6 false None).
Proof.
  repeat split; try reflexivity; try (left; reflexivity); try discriminate.
  - repeat constructor; vm_compute; intuition discriminate.
  - repeat constructor.
  - destruct seek; vm_compute; reflexivity.
Qed.
End Sample.

(** The header without fields for encryption, as every dump has it. *)
Definition plain_head : header :=
  mkHeader self PG_COMPRESSION_NONE 0 1700000000 (Sample.str "db") (Sample.str "17.0") (Sample.str "17.0") no_pqc.

Definition written_by (use_pqc : bool) (h : header) : bytes :=
  fh_data (snd (_CloseArchive Sample.other use_pqc Sample.localtime true h Sample.toc (mkFILE Sample.env0 [] 0 true))).

Definition opened_by (use_pqc : bool) (archive : bytes) : outcome (header * toc_settings * lclContext) :=
  fst (InitArchiveFmt_Custom (fun _ _ => 0) use_pqc tm_sec 0 (fun _ => 6) true Sample.head0 Sample.settings
    (mkFILE Sample.env0 archive 0 true)).

(** The version in the header is the same in all builds, the fields are not:
    a build with USE_PQC and one without do not read each other's archives.
    One whose header has encryption fields is read as an archive without
    entries by a build that does not know them. *)
Example builds_disagree :
  opened_by false (written_by true plain_head) = Fatal /\ opened_by true (written_by false plain_head) = Fatal /\
  exists h p last, opened_by false (written_by true Sample.head) = Ok (h, p, mkContext true last []).
Proof. split; [vm_compute; reflexivity|]. split; [vm_compute; reflexivity|]. vm_compute. eauto. Qed.

(** A length of -5 takes the file back to where it was read. *)
Lemma skip_never_ends shl_undefined fuel f rest : no_faults (fh_env f) -> fh_seekable f = true ->
  skipn (fh_pos f) (fh_data f) = enc_int (-5) ++ rest -> _skipData shl_undefined fuel true self f = (Ok None, f).
Proof.
  intros Hn Hs E. induction fuel as [|fuel IH]; [reflexivity|]. cbn [_skipData].
  mrun (reads_int shl_undefined (-5) ltac:(lia) f rest Hn E). change (-5 =? 0) with false. cbv iota.
  set (f1 := advance (length (enc_int (-5))) f).
  assert (Hseek : fseeko SEEK_CUR (-5) f1 = (Ok true, f)).
  { unfold fseeko. mrun (attempt_on f1 Hn). rewrite (bind_step _ _ f1 f1 f1) by reflexivity. cbv zeta.
    unfold SEEK_CUR, f1, advance. cbn [fh_seekable fh_pos]. rewrite Hs, enc_int_length.
    replace (Z.of_nat (fh_pos f + 5) + -5) with (Z.of_nat (fh_pos f)) by lia.
    destruct (Z.leb_spec 0 (Z.of_nat (fh_pos f))); [|lia]. cbn [andb]. rewrite Nat2Z.id.
    clear - Hs. destruct f. cbn in Hs. subst. reflexivity. }
  mrun Hseek. exact IH.
Qed.

Lemma archive_restored_witness : exists f ctx g te',
  _CloseArchive Sample.other true Sample.localtime true Sample.head Sample.toc (mkFILE Sample.env0 [] 0 true) = (Ok tt, f) /\
  InitArchiveFmt_Custom (fun _ _ => 0) true tm_sec 0 (fun _ => 6) true Sample.head0 Sample.settings
    (mkFILE Sample.env0 (fh_data f) 0 true) = (Ok (Sample.head, mkTocSettings 6 false None, ctx), g) /\
  Forall2 read_for Sample.toc (ctx_toc ctx) /\ In te' (ctx_toc ctx) /\ dumpId te' = 2 /\
  fst (_PrintTocData (fun _ _ => 0) (S (length (fh_data f))) self none_compressor te' ctx (seek_to 0 g))
    = Ok (Some ([RestoreData [49; 9; 50; 10; 51; 9; 52; 10]], ctx)).
Proof.
  destruct (archive_restored (fun _ _ => 0) Sample.other true Sample.localtime none_compressor Sample.data tm_sec 0
    (fun _ => 6) none_lossless Sample.env0 Sample.env0 Sample.head Sample.head0 Sample.toc Sample.settings
    (mkTocSettings 6 false None) eq_refl eq_refl (Sample.sample_archivable true)) as (f & ctx & g & Hw & Ho & Ht & Hr).
  destruct (Hr (nth 1 Sample.toc (Sample.entry 0 "" 0 None None 0)) _ (or_intror (or_introl eq_refl)) eq_refl)
    as (te' & Hin & [pos ->] & Hp).
  eexists f, ctx, g, _. split; [exact Hw|]. split; [exact Ho|]. split; [exact Ht|]. split; [exact Hin|].
  split; [reflexivity|].
  exact (Hp 0%nat _ (Nat.lt_succ_diag_r _)).
Defined.

Lemma archive_restored_in_order_witness : exists f ctx g,
  _CloseArchive Sample.other true Sample.localtime false Sample.head Sample.toc (mkFILE Sample.env0 [] 0 false) = (Ok tt, f) /\
  InitArchiveFmt_Custom (fun _ _ => 0) true tm_sec 0 (fun _ => 6) false Sample.head0 Sample.settings
    (mkFILE Sample.env0 (fh_data f) 0 false) = (Ok (Sample.head, mkTocSettings 6 false None, ctx), g) /\
  fst (restore_data (fun _ _ => 0) none_compressor (S (length (fh_data f))) self (skipn 2 (ctx_toc ctx)) ctx g)
    = Ok (Some [[StartRestoreLO 16400; RestoreData [0; 255]; EndRestoreLO 16400]]).
Proof.
  destruct (archive_restored_in_order (fun _ _ => 0) Sample.other true Sample.localtime none_compressor Sample.data tm_sec 0
    (fun _ => 6) none_lossless Sample.env0 Sample.env0 false Sample.head Sample.head0 Sample.toc Sample.settings
    (mkTocSettings 6 false None) eq_refl eq_refl (Sample.sample_archivable false)) as (f & ctx & g & Hw & Ho & Hr).
  - vm_compute. repeat constructor; rewrite ?list_elem_of_In; cbn; intuition discriminate.
  - apply List.Forall_forall. intros te [<-|[<-|[<-|[]]]] Hd; try discriminate. destruct (Hd eq_refl).
  - exists f, ctx, g. split; [exact Hw|]. split; [exact Ho|].
    assert (Hids : map dumpId (skipn 2 (ctx_toc ctx)) = [3]).
    { change (map dumpId (skipn 2 (match (Ok (Sample.head, mkTocSettings 6 false None, ctx), g) with
        | (Ok (_, _, ctx'), _) => ctx_toc ctx' | _ => [] end)) = [3]).
      rewrite <- Ho. change f with (snd (Ok tt, f)). rewrite <- Hw. vm_compute. reflexivity. }
    apply (Hr (skipn 2 Sample.toc)); [|repeat constructor; discriminate|exact Hids| |apply Nat.lt_succ_diag_r].
    + vm_compute. repeat constructor.
    + apply List.Forall_forall. intros te' Hte. rewrite <- (firstn_skipn 2 (ctx_toc ctx)). apply in_or_app. right. exact Hte.
Defined.
