(* ===== verification/Tls.v ===== *)
(** * The configuration of TLS (src/backend/libpq/be-secure-openssl.c)

    Setting up the context of the server at its start and on a reload
    ([be_tls_init], with be-secure-common.c and common/percentrepl.c), where the
    postmaster calls it, and the groups libpq offers
    (src/interfaces/libpq/fe-secure-openssl.c).  OpenSSL is a class: which files,
    names and lists it accepts.  The handshake is not modelled. *)
From Stdlib Require Import ZArith Lia Bool String Ascii List.
From stdpp Require Import base gmap list strings.
From S2P Require Import Prelude CryptoIface Env KeyProvider CString WalSign CryptoPolicy.
Import ListNotations.
Local Open Scope Z_scope.
Local Open Scope pg_scope.

(** ** OpenSSL *)

(** A file is given by its bytes, [codes] are those of [DH_check]; the flag of the
    lists of groups and of signature algorithms says whether oqs-provider is
    loaded. *)
Class OpenSSL := {
  read_chain : bytes -> bool;
  needs_passphrase : bytes -> bool;
  read_key : bytes -> bytes -> bool;
  typed_passphrase : bytes;
  check_private_key : bytes -> bytes -> bool;
  proto_version_ok : Z -> bool;
  read_dhparams : bytes -> bool;
  dh_check : bytes -> option Z;
  hardcoded_dh : option bytes;
  set_tmp_dh : bytes -> bool;
  OBJ_sn2nid : string -> Z;
  EC_KEY_new_by_curve_name : Z -> bool;
  oqsprovider_found : bool;
  set1_groups_list : bool -> string -> option (list string);
  set1_sigalgs_list : bool -> string -> bool;
  set_cipher_list : string -> bool;
  load_verify_locations : bytes -> bool;
  load_client_CA_file : bytes -> bool;
  load_crls : option bytes -> option string -> bool;
  st_uid : string -> Z;
  geteuid : Z
}.

(** ** Settings and state *)

Definition PQC_TLS_HYBRID : Z := 1.
Definition PQC_TLS_PQC_ONLY : Z := 2.

Definition PG_TLS_ANY : Z := 0.
Definition PG_TLS1_VERSION : Z := 1.
Definition PG_TLS1_1_VERSION : Z := 2.
Definition PG_TLS1_2_VERSION : Z := 3.
Definition PG_TLS1_3_VERSION : Z := 4.

Record settings := mkSettings {
  EnableSSL : bool;
  ssl_cert_file : string;
  ssl_key_file : string;
  ssl_ca_file : string;
  ssl_crl_file : string;
  ssl_crl_dir : string;
  ssl_dh_params_file : string;
  ssl_passphrase_command : string;
  ssl_passphrase_command_supports_reload : bool;
  SSLCipherSuites : string;
  SSLECDHCurve : string;
  SSLPreferServerCiphers : bool;
  ssl_min_protocol_version : Z;
  ssl_max_protocol_version : Z;
  ssl_pqc_mode : Z;
  ssl_pqc_groups_string : option string;
  ssl_pqc_sigalgs_string : option string
}.

Inductive passwd_cb := default_passwd_cb | ssl_external_passwd_cb | dummy_ssl_passwd_cb.

Inductive ssl_op :=
| SSL_OP_NO_TICKET | SSL_OP_NO_COMPRESSION | SSL_OP_NO_RENEGOTIATION | SSL_OP_SINGLE_DH_USE | SSL_OP_SINGLE_ECDH_USE
| SSL_OP_CIPHER_SERVER_PREFERENCE | SESSION_CACHE_OFF.

(** What is set in a context; a context is given by the calls that set it up, in
    their order. *)
Inductive ctx_call :=
| PasswdCb (cb : passwd_cb)
| UseChain (chain : bytes)
| UseKey (key : bytes)
| MinProto (v : Z)
| MaxProto (v : Z)
| Options (l : list ssl_op)
| TmpDh (dh : bytes)
| TmpEcdh (curve : string)
| Groups (l : list string)
| Sigalgs (l : string)
| Ciphers (l : string)
| ClientCA (ca : bytes)
| CrlCheck.

Abbreviation SSL_CTX := (list ctx_call).

(** The groups set in a context: those set last; a curve for ephemeral keys is
    the only group.  [None] where none were set and the library uses its own
    list. *)
Definition group_step (gs : option (list string)) (c : ctx_call) : option (list string) :=
  match c with
  | TmpEcdh curve => Some [curve]
  | Groups l => Some l
  | _ => gs
  end.

Definition groups_of (x : SSL_CTX) : option (list string) := fold_left group_step x None.

(** The static variables of the process. *)
Record tls := mkTls {
  t_env : env;
  SSL_context : option SSL_CTX;
  ssl_loaded_verify_locations : bool;
  oqs_provider : bool;
  LoadedSSL : bool
}.

Definition tenvL : lens tls env :=
  Lens t_env (fun e s => mkTls e (SSL_context s) (ssl_loaded_verify_locations s) (oqs_provider s) (LoadedSSL s)).

Definition is_set (s : string) : bool := negb (String.eqb s "").

(** A step that goes on with a context or, with [None], to the label [error]. *)
Definition try_step {A B} (m : M tls (option A)) (k : A -> M tls (option B)) : M tls (option B) :=
  let! o := m in
  match o with
  | None => ret None
  | Some a => k a
  end.

Declare Scope tls_scope.
Notation "'try!' x ':=' m 'in' k" := (try_step m (fun x => k)) (at level 10, x name, m at level 100, k at level 200) : tls_scope.
Local Open Scope tls_scope.

Section Init.
  Context `{OpenSSL}.
  Variable g : settings.

(** [ereport(isServerStart ? FATAL : LOG, ...)] and [goto error]. *)
Definition trouble {A} (isServerStart : bool) (msg : string) : M tls (option A) :=
  if isServerStart then fatal else do! zoom tenvL (elog LOG msg) in ret None.

(** A call of the library, which can also fail for want of memory. *)
Definition call (accepted : bool) : M tls bool :=
  let! ok := zoom tenvL attempt in ret (ok && accepted).

(** ** The private key *)

(** [None] is an error: a placeholder other than [%%] and the given one. *)
Fixpoint replace_percent_placeholders (instr : string) (letter : ascii) (val : string) : option string :=
  match instr with
  | EmptyString => Some EmptyString
  | String c rest =>
      if Ascii.eqb c "%" then
        match rest with
        | EmptyString => None
        | String d rest' =>
            if Ascii.eqb d "%" then String "%" <$> replace_percent_placeholders rest' letter val
            else if Ascii.eqb d letter then String.append val <$> replace_percent_placeholders rest' letter val
            else None
        end
      else String c <$> replace_percent_placeholders rest letter val
  end.

(** [fgets] into a buffer of [size] bytes, as a C string. *)
Definition first_line (size : nat) (stream : bytes) : bytes :=
  let head := firstn (size - 1) stream in
  let '(line, rest) := span (fun c => negb (c =? 10)) head in
  cstring (line ++ firstn 1 rest).

Definition pg_strip_crlf (str : bytes) : bytes := rev (snd (span (fun c => (c =? 10) || (c =? 13)) (rev str))).

Definition prompt : string := "Enter PEM pass phrase:".

(** The passphrase, empty where there is none. *)
Definition run_ssl_passphrase_command (is_server_start : bool) (size : nat) : M tls bytes :=
  let complain (msg : string) : M tls bytes :=
    if is_server_start then raise ERRCODE_FILE_ACCESS else do! zoom tenvL (elog LOG msg) in ret [] in
  match replace_percent_placeholders (ssl_passphrase_command g) "p" prompt with
  | None => raise ERRCODE_INVALID_PARAMETER_VALUE
  | Some command =>
      let! fh := zoom tenvL (popen command) in
      match fh with
      | None => complain "could not execute command"
      | Some (stream, pclose_rc) =>
          let! readable := zoom tenvL attempt in
          if negb readable then complain "could not read from command"
          else
            let! closed := zoom tenvL attempt in
            if negb closed then complain "could not close pipe to external command"
            else if negb (pclose_rc =? 0) then complain "command failed"
            else ret (pg_strip_crlf (first_line size stream))
      end
  end.

(** The size OpenSSL gives the callback a buffer of. *)
Definition PEM_BUFSIZE : nat := 1024.

Definition passphrase (cb : passwd_cb) (isServerStart : bool) : M tls bytes :=
  match cb with
  | default_passwd_cb => ret typed_passphrase
  | ssl_external_passwd_cb => run_ssl_passphrase_command isServerStart PEM_BUFSIZE
  | dummy_ssl_passwd_cb => ret []
  end.

Definition default_openssl_tls_init (isServerStart : bool) : passwd_cb :=
  if isServerStart then
    if is_set (ssl_passphrase_command g) then ssl_external_passwd_cb else default_passwd_cb
  else if is_set (ssl_passphrase_command g) && ssl_passphrase_command_supports_reload g then ssl_external_passwd_cb
  else dummy_ssl_passwd_cb.

(** The bits 0077 for a file of the user, 0037 for one of root. *)
Definition check_ssl_key_file_permissions (isServerStart : bool) : M tls (option unit) :=
  let! dir := zoom tenvL (stat_isdir (ssl_key_file g)) in
  match dir with
  | None => trouble isServerStart "could not access private key file"
  | Some true => trouble isServerStart "private key file is not a regular file"
  | Some false =>
      let! mode := gets (fun s => match files (t_env s) !! ssl_key_file g with Some f => f_mode f | None => 0 end) in
      let uid := st_uid (ssl_key_file g) in
      if negb (uid =? geteuid) && negb (uid =? 0)
      then trouble isServerStart "private key file must be owned by the database user or root"
      else if ((uid =? geteuid) && negb (Z.land mode 0x3F =? 0)) || ((uid =? 0) && negb (Z.land mode 0x1F =? 0))
      then trouble isServerStart "private key file has group or world access"
      else ret (Some tt)
  end.

Definition use_certificate_chain_file (isServerStart : bool) : M tls (option bytes) :=
  let! content := zoom tenvL (fopen_read (ssl_cert_file g)) in
  match content with
  | Some chain =>
      let! ok := call (read_chain chain) in
      if ok then ret (Some chain) else trouble isServerStart "could not load server certificate file"
  | None => trouble isServerStart "could not load server certificate file"
  end.

Definition use_PrivateKey_file (isServerStart : bool) (cb : passwd_cb) : M tls (option bytes) :=
  let! content := zoom tenvL (fopen_read (ssl_key_file g)) in
  match content with
  | Some key =>
      let! pass := if needs_passphrase key then passphrase cb isServerStart else ret [] in
      let! ok := call (read_key key pass) in
      if ok then ret (Some key) else trouble isServerStart "could not load private key file"
  | None => trouble isServerStart "could not load private key file"
  end.

(** The certificate, then its key. *)
Definition load_key_pair (isServerStart : bool) : M tls (option SSL_CTX) :=
  let cb := default_openssl_tls_init isServerStart in
  try! chain := use_certificate_chain_file isServerStart in
  try! u := check_ssl_key_file_permissions isServerStart in
  try! key := use_PrivateKey_file isServerStart cb in
  let! ok := call (check_private_key chain key) in
  if ok then ret (Some [PasswdCb cb; UseChain chain; UseKey key])
  else trouble isServerStart "check of private key failed".

(** ** Versions and ephemeral keys *)

Definition ssl_protocol_version_to_openssl (v : Z) : Z :=
  if v =? PG_TLS_ANY then 0
  else if v =? PG_TLS1_VERSION then 0x301
  else if v =? PG_TLS1_1_VERSION then 0x302
  else if v =? PG_TLS1_2_VERSION then 0x303
  else if v =? PG_TLS1_3_VERSION then 0x304
  else -1.

Definition protocol_version (isServerStart : bool) (set : Z -> ctx_call) (v : Z) : M tls (option SSL_CTX) :=
  if v =? 0 then ret (Some [])
  else
    let ver := ssl_protocol_version_to_openssl v in
    if ver =? -1 then trouble isServerStart "setting not supported by this build"
    else
      let! ok := call (proto_version_ok ver) in
      if ok then ret (Some [set ver]) else trouble isServerStart "could not set SSL protocol version".

Definition protocol_versions (isServerStart : bool) : M tls (option SSL_CTX) :=
  let vmin := ssl_min_protocol_version g in
  let vmax := ssl_max_protocol_version g in
  try! lo := protocol_version isServerStart MinProto vmin in
  try! hi := protocol_version isServerStart MaxProto vmax in
  if negb (vmin =? 0) && negb (vmax =? 0) &&
     (ssl_protocol_version_to_openssl vmax <? ssl_protocol_version_to_openssl vmin)
  then trouble isServerStart "could not set SSL protocol version range"
  else ret (Some (lo ++ hi)).

Definition load_dh_file (isServerStart : bool) : M tls (option bytes) :=
  let! content := zoom tenvL (fopen_read (ssl_dh_params_file g)) in
  match content with
  | None => trouble isServerStart "could not open DH parameters file"
  | Some dh =>
      let! ok := call (read_dhparams dh) in
      if negb ok then trouble isServerStart "could not load DH parameters file"
      else match dh_check dh with
           | None => trouble isServerStart "invalid DH parameters"
           | Some codes =>
               if negb (Z.land codes 0x01 =? 0) then trouble isServerStart "invalid DH parameters: p is not prime"
               else if negb (Z.land codes 0x08 =? 0) && negb (Z.land codes 0x02 =? 0)
               then trouble isServerStart "invalid DH parameters: neither suitable generator or safe prime"
               else ret (Some dh)
           end
  end.

Definition load_dh_buffer : M tls (option bytes) :=
  let! ok := call true in ret (if ok then hardcoded_dh else None).

Definition initialize_dh (isServerStart : bool) : M tls (option SSL_CTX) :=
  let! dh := if is_set (ssl_dh_params_file g) then load_dh_file isServerStart else ret None in
  let! dh := match dh with Some _ => ret dh | None => load_dh_buffer end in
  match dh with
  | None => trouble isServerStart "DH: could not load DH parameters"
  | Some dh =>
      let! ok := call (set_tmp_dh dh) in
      if ok then ret (Some [Options [SSL_OP_SINGLE_DH_USE]; TmpDh dh])
      else trouble isServerStart "DH: could not set DH parameters"
  end.

(** That the curve could not be set goes unnoticed. *)
Definition initialize_ecdh (isServerStart : bool) : M tls (option SSL_CTX) :=
  let nid := OBJ_sn2nid (SSLECDHCurve g) in
  if nid =? 0 then trouble isServerStart "ECDH: unrecognized curve name"
  else
    let! key := call (EC_KEY_new_by_curve_name nid) in
    if negb key then trouble isServerStart "ECDH: could not create key"
    else
      let! ok := call true in
      ret (Some (Options [SSL_OP_SINGLE_ECDH_USE] :: (if ok then [TmpEcdh (SSLECDHCurve g)] else []))).

(** ** Post-quantum groups and signatures *)

Definition pqc_on : bool := negb (ssl_pqc_mode g =? PQC_TLS_OFF).

Definition nonempty_string (s : option string) : option string :=
  match s with
  | Some l => if is_set l then Some l else None
  | None => None
  end.

Definition load_provider : M tls unit :=
  let! loaded := gets oqs_provider in
  if pqc_on && negb loaded then
    let! ok := call oqsprovider_found in
    do! modify (fun s => mkTls (t_env s) (SSL_context s) (ssl_loaded_verify_locations s) ok (LoadedSSL s)) in
    zoom tenvL (elog LOG (if ok then "FortressQL: loaded oqs-provider for PQC TLS support"
                          else "FortressQL: oqs-provider not available, relying on native OpenSSL PQC support")%string)
  else ret tt.

Definition pqc_groups (isServerStart : bool) : M tls (option SSL_CTX) :=
  match if pqc_on then nonempty_string (ssl_pqc_groups_string g) else None with
  | None => ret (Some [])
  | Some l =>
      let! provider := gets oqs_provider in
      let! ok := call (match set1_groups_list provider l with Some _ => true | None => false end) in
      if ok then
        do! zoom tenvL (elog LOG "FortressQL: PQC TLS groups configured") in
        ret (Some [Groups (default [] (set1_groups_list provider l))])
      else trouble isServerStart "could not set PQC key exchange groups"
  end.

(** After a failure the setup goes on, unless the server is starting. *)
Definition pqc_sigalgs (isServerStart : bool) : M tls (option SSL_CTX) :=
  match if pqc_on then nonempty_string (ssl_pqc_sigalgs_string g) else None with
  | None => ret (Some [])
  | Some l =>
      let! provider := gets oqs_provider in
      let! ok := call (set1_sigalgs_list provider l) in
      if ok then ret (Some [Sigalgs l])
      else let! (_ : option unit) := trouble isServerStart "could not set PQC signature algorithms" in ret (Some [])
  end.

(** ** Ciphers, authorities and revocations *)

Definition cipher_list (isServerStart : bool) : M tls (option SSL_CTX) :=
  let! ok := call (set_cipher_list (SSLCipherSuites g)) in
  if ok then
    ret (Some (Ciphers (SSLCipherSuites g) ::
               (if SSLPreferServerCiphers g then [Options [SSL_OP_CIPHER_SERVER_PREFERENCE]] else [])))
  else trouble isServerStart "could not set the cipher list (no valid ciphers available)".

Definition ca_store (isServerStart : bool) : M tls (option SSL_CTX) :=
  if negb (is_set (ssl_ca_file g)) then ret (Some [])
  else
    let! content := zoom tenvL (fopen_read (ssl_ca_file g)) in
    match content with
    | None => trouble isServerStart "could not load root certificate file"
    | Some ca =>
        let! ok := call (load_verify_locations ca) in
        if negb ok then trouble isServerStart "could not load root certificate file"
        else
          let! again := zoom tenvL (fopen_read (ssl_ca_file g)) in
          let! ok := call (match again with Some l => load_client_CA_file l | None => false end) in
          if ok then ret (Some [ClientCA ca]) else trouble isServerStart "could not load root certificate file"
    end.

(** The store of a context is always there. *)
Definition revocation_lists (isServerStart : bool) : M tls (option SSL_CTX) :=
  if negb (is_set (ssl_crl_file g)) && negb (is_set (ssl_crl_dir g)) then ret (Some [])
  else
    let! content := if is_set (ssl_crl_file g) then zoom tenvL (fopen_read (ssl_crl_file g)) else ret None in
    let readable := negb (is_set (ssl_crl_file g)) || (match content with Some _ => true | None => false end) in
    let dir := if is_set (ssl_crl_dir g) then Some (ssl_crl_dir g) else None in
    let! ok := call (readable && load_crls content dir) in
    if ok then ret (Some [CrlCheck]) else trouble isServerStart "could not load SSL certificate revocation list".

(** ** The context *)

(** Neither tickets nor a cache, compression or renegotiation. *)
Definition hardening : SSL_CTX :=
  [Options [SSL_OP_NO_TICKET]; Options [SESSION_CACHE_OFF]; Options [SSL_OP_NO_COMPRESSION]; Options [SSL_OP_NO_RENEGOTIATION]].

Definition new_context (isServerStart : bool) : M tls (option SSL_CTX) :=
  let! created := call true in
  if negb created then trouble isServerStart "could not create SSL context"
  else
    try! pair := load_key_pair isServerStart in
    try! versions := protocol_versions isServerStart in
    try! dh := initialize_dh isServerStart in
    try! ecdh := initialize_ecdh isServerStart in
    do! load_provider in
    try! groups := pqc_groups isServerStart in
    try! sigalgs := pqc_sigalgs isServerStart in
    try! ciphers := cipher_list isServerStart in
    try! ca := ca_store isServerStart in
    try! crl := revocation_lists isServerStart in
    ret (Some (pair ++ versions ++ hardening ++ dh ++ ecdh ++ groups ++ sigalgs ++ ciphers ++ ca ++ crl)).

Definition be_tls_init (isServerStart : bool) : M tls Z :=
  let! o := new_context isServerStart in
  match o with
  | None => ret (-1)
  | Some x =>
      do! modify (fun s => mkTls (t_env s) (Some x) (is_set (ssl_ca_file g)) (oqs_provider s) (LoadedSSL s)) in
      ret 0
  end.

Definition be_tls_destroy : M tls unit :=
  modify (fun s => mkTls (t_env s) None false (oqs_provider s) (LoadedSSL s)).

Definition set_LoadedSSL (b : bool) : M tls unit :=
  modify (fun s => mkTls (t_env s) (SSL_context s) (ssl_loaded_verify_locations s) (oqs_provider s) b).

(** ** The postmaster *)

Definition PostmasterMain_ssl : M tls unit :=
  if EnableSSL g then let! r := be_tls_init true in set_LoadedSSL true else ret tt.

Definition process_pm_reload_ssl : M tls unit :=
  if EnableSSL g then
    let! r := be_tls_init false in
    if r =? 0 then set_LoadedSSL true
    else zoom tenvL (elog LOG "SSL configuration was not reloaded")
  else do! be_tls_destroy in set_LoadedSSL false.
End Init.

(** ** The group of a connection *)

(** [negotiated] is the name OpenSSL has for the group of a connection, where there is
    TLS and a name. *)
Definition be_tls_get_pqc_group (negotiated : option (option string)) (len : nat) : string :=
  match negotiated with
  | Some (Some group_name) => String.substring 0 (len - 1) group_name
  | _ => ""
  end.

(** What [be_tls_open_server] logs of a new connection. *)
Definition log_group (ssl_pqc_mode : Z) (negotiated : option (option string)) : M env unit :=
  if ssl_pqc_mode =? PQC_TLS_OFF then ret tt
  else
    let pqc_group := be_tls_get_pqc_group negotiated 128 in
    if is_set pqc_group
    then elog LOG ("FortressQL: TLS connection established using PQC group " ++ pqc_group)%string
    else elog LOG "FortressQL: TLS connection established without PQC key exchange (classical groups only)".

(** Every group is reported as a post-quantum one, classical ones too. *)
Lemma classical_reported_as_pqc e :
  log_group PQC_TLS_HYBRID (Some (Some "X25519"%string)) e
    = elog LOG "FortressQL: TLS connection established using PQC group X25519" e.
Proof. reflexivity. Qed.

(** ** libpq *)



Section Client.
  Context `{OpenSSL}.

Definition DEFAULT_GROUPS : string := "X25519MLKEM768:X25519:prime256v1".


End Client.

(** ** What a setup guarantees *)

Section Guarantees.
  Context `{OpenSSL}.
  Variable g : settings.
  Variable start : bool.

(** The command for the passphrase has a placeholder that does not exist. *)
Definition bad_command : Prop := replace_percent_placeholders (ssl_passphrase_command g) "p" prompt = None.

(** A step from states [I] goes on with a value as in [R] to states [J]; or to the
    label [error], except when the server starts; or it ends the process, only
    when the server starts; or it raises an error. *)
Definition tries {A} (I : tls -> Prop) (m : M tls (option A)) (J : tls -> Prop) (R : A -> Prop) : Prop :=
  forall s, I s -> match m s with
                   | (Ok (Some a), s') => J s' /\ R a
                   | (Ok None, s') => J s' /\ start = false
                   | (Err _, s') => J s' /\ (start = true \/ bad_command)
                   | (Fatal, _) => start = true
                   end.

(** What the setup does not touch. *)
Definition frame (ctx : option SSL_CTX) (verify loaded : bool) (fs : gmap string file) (provider : bool) (s : tls) : Prop :=
  SSL_context s = ctx /\ ssl_loaded_verify_locations s = verify /\ LoadedSSL s = loaded /\ files (t_env s) = fs /\
  oqs_provider s = provider.

  Context (ctx : option SSL_CTX) (verify loaded : bool) (fs : gmap string file).

Local Abbreviation F := (frame ctx verify loaded fs).

Lemma tries_ret {A} I (a : A) (R : A -> Prop) : R a -> tries I (ret (Some a)) I R.
Proof. intros Hr s Hs. split; assumption. Qed.

Lemma tries_pure {A B} I (a : A) (k : A -> M tls (option B)) J R : tries I (k a) J R -> tries I (bind (ret a) k) J R.
Proof. intros Hk. exact Hk. Qed.

Lemma tries_trouble {A} p msg (R : A -> Prop) : tries (F p) (trouble start msg) (F p) R.
Proof. intros s Hs. unfold trouble. destruct start; [reflexivity|]. split; [exact Hs|reflexivity]. Qed.

Lemma tries_step {A B} I J K (m : M tls (option A)) (k : A -> M tls (option B)) (Q : A -> Prop) (R : B -> Prop) :
  tries I m J Q -> (forall a, Q a -> tries J (k a) K R) -> (forall s, J s -> K s) -> tries I (try_step m k) K R.
Proof.
  intros Hm Hk HJ s Hs. specialize (Hm s Hs). unfold try_step, bind.
  destruct (m s) as [[[a|]|e|] s']; [apply (Hk a (proj2 Hm)), Hm| | |exact Hm].
  - split; [apply HJ, Hm|apply Hm].
  - split; [apply HJ, Hm|apply Hm].
Qed.

(** Programs on the environment that return and keep the files. *)
Definition reading {A} (m : M env A) (Q : A -> Prop) : Prop :=
  forall e, files e = fs -> exists a e', m e = (Ok a, e') /\ files e' = fs /\ Q a.

Lemma tries_env {A B} p (m : M env A) (k : A -> M tls (option B)) Q J R :
  reading m Q -> (forall a, Q a -> tries (F p) (k a) J R) -> tries (F p) (bind (zoom tenvL m) k) J R.
Proof.
  intros Hm Hk s (H1 & H2 & H3 & H4 & H5). destruct (Hm _ H4) as (a & e' & E & Hf & Hq).
  unfold bind, zoom. cbn [view tenvL]. rewrite E. apply (Hk a Hq). repeat split; assumption.
Qed.

Lemma reading_attempt : reading attempt (fun _ => True).
Proof.
  intros e He. unfold attempt, next_fault, bind. destruct (faults e); eexists; eexists; split; [reflexivity| |reflexivity|];
    split; [exact He|exact I|exact He|exact I].
Qed.

Lemma reading_bind {A B} (m : M env A) (k : A -> M env B) Q R :
  reading m Q -> (forall a, Q a -> reading (k a) R) -> reading (bind m k) R.
Proof.
  intros Hm Hk e He. destruct (Hm e He) as (a & e1 & E & H1 & Hq). destruct (Hk a Hq e1 H1) as (b & e2 & E2 & H2 & Hr).
  exists b, e2. unfold bind. rewrite E. auto.
Qed.

Lemma reading_gets {A} (f : env -> A) (Q : A -> Prop) : (forall e, files e = fs -> Q (f e)) -> reading (gets f) Q.
Proof. intros Hq e He. exists (f e), e. auto. Qed.

Lemma reading_ret {A} (a : A) (Q : A -> Prop) : Q a -> reading (ret a) Q.
Proof. intros Hq e He. exists a, e. auto. Qed.

Lemma reading_elog l msg : reading (elog l msg) (fun _ => True).
Proof. intros e He. exists tt. eexists. split; [reflexivity|]. split; [exact He|exact I]. Qed.

Lemma reading_fopen path :
  reading (fopen_read path) (fun o => forall d, o = Some d -> exists f, fs !! path = Some f /\ d = f_data f).
Proof.
  eapply reading_bind; [apply reading_attempt|]. intros [] _; [|apply reading_ret; discriminate].
  apply reading_gets. intros e -> d Hd. destruct (fs !! path) as [f|]; [|discriminate Hd]. injection Hd as <-. eauto.
Qed.

Lemma reading_stat_isdir path : reading (stat_isdir path) (fun o => o = Some false -> is_Some (fs !! path)).
Proof.
  eapply reading_bind; [apply reading_attempt|]. intros [] _; [|apply reading_ret; discriminate].
  apply reading_gets. intros e ->. destruct (bool_decide _); [discriminate|].
  destruct (fs !! path); [intros _; eexists; reflexivity|discriminate].
Qed.

Lemma tries_call {B} p accepted (k : bool -> M tls (option B)) J R :
  (accepted = true -> tries (F p) (k true) J R) -> tries (F p) (k false) J R -> tries (F p) (bind (call accepted) k) J R.
Proof.
  intros Ht Hf. unfold call. intros s Hs. rewrite bind_assoc. revert s Hs. change (tries (F p)
    (bind (zoom tenvL attempt) (fun ok => bind (ret (ok && accepted)) k)) J R).
  eapply tries_env; [apply reading_attempt|]. intros ok _. destruct ok, accepted; cbn [andb]; auto.
Qed.

Lemma tries_gets {A B} (f : tls -> A) I (k : A -> M tls (option B)) J R :
  (forall a, (exists s, I s /\ f s = a) -> tries I (k a) J R) -> tries I (bind (gets f) k) J R.
Proof. intros Hk s Hs. apply (Hk (f s)); [exists s; auto|exact Hs]. Qed.

(** A program that returns a value and can raise an error. *)
Definition calmly {A} (I : tls -> Prop) (m : M tls A) : Prop :=
  forall s, I s -> match m s with
                   | (Ok _, s') => I s'
                   | (Err _, s') => I s' /\ (start = true \/ bad_command)
                   | (Fatal, _) => False
                   end.

Lemma tries_calmly {A B} I (m : M tls A) (k : A -> M tls (option B)) J R :
  calmly I m -> (forall s, I s -> J s) -> (forall a, tries I (k a) J R) -> tries I (bind m k) J R.
Proof.
  intros Hm HJ Hk s Hs. specialize (Hm s Hs). unfold bind. destruct (m s) as [[a|e|] s']; [apply Hk, Hm| |contradiction].
  split; [apply HJ, Hm|apply Hm].
Qed.

Lemma calmly_env {A B} p (m : M env A) (k : A -> M tls B) Q :
  reading m Q -> (forall a, calmly (F p) (k a)) -> calmly (F p) (bind (zoom tenvL m) k).
Proof.
  intros Hm Hk s (H1 & H2 & H3 & H4 & H5). destruct (Hm _ H4) as (a & e' & E & Hf & _).
  unfold bind, zoom. cbn [view tenvL]. rewrite E. apply (Hk a). repeat split; assumption.
Qed.

Lemma reading_popen command : reading (popen command) (fun _ => True).
Proof.
  eapply reading_bind; [apply reading_attempt|]. intros [] _; [apply reading_gets|apply reading_ret]; auto.
Qed.

Lemma calmly_command p size : calmly (F p) (run_ssl_passphrase_command g start size).
Proof.
  unfold run_ssl_passphrase_command. cbv zeta.
  assert (Hc : forall msg : string, calmly (F p) (if start then raise ERRCODE_FILE_ACCESS
    else do! zoom tenvL (elog LOG msg) in ret ([] : bytes))).
  { intros msg s Hs. destruct start; [split; [exact Hs|left; reflexivity]|exact Hs]. }
  destruct (replace_percent_placeholders _ _ _) as [cmd|] eqn:E; [|intros s Hs; split; [exact Hs|right; exact E]].
  eapply calmly_env; [apply reading_popen|]. intros [[stream rc]|]; [|apply Hc].
  eapply calmly_env; [apply reading_attempt|]. intros []; cbn [negb]; [|apply Hc].
  eapply calmly_env; [apply reading_attempt|]. intros []; cbn [negb]; [|apply Hc].
  destruct (rc =? 0); cbn [negb]; [|apply Hc]. intros s Hs. exact Hs.
Qed.

Lemma calmly_passphrase p cb : calmly (F p) (passphrase g cb start).
Proof. destruct cb; [intros s Hs; exact Hs|apply calmly_command|intros s Hs; exact Hs]. Qed.

(** *** The steps *)

(** One step of a setup. *)
Ltac tstep :=
  match goal with
  | |- tries _ (ret (Some _)) _ _ => apply tries_ret
  | |- tries _ (trouble _ _) _ _ => apply tries_trouble
  | |- tries _ (bind (call _) _) _ _ => apply tries_call; [intros ?|]
  | |- tries _ (bind (zoom tenvL (fopen_read _)) _) _ _ => eapply tries_env; [apply reading_fopen|intros ? ?]
  | |- tries _ (bind (zoom tenvL (elog _ _)) _) _ _ => eapply tries_env; [apply reading_elog|intros ? _]
  | |- tries _ (if negb true then _ else _) _ _ => cbn [negb]
  | |- tries _ (if negb false then _ else _) _ _ => cbn [negb]
  | |- tries _ (if true then _ else _) _ _ => cbv iota
  | |- tries _ (if false then _ else _) _ _ => cbv iota
  | |- tries _ (match ?o with Some _ => _ | None => _ end) _ _ => destruct o eqn:?
  | |- tries _ (if negb ?b then _ else _) _ _ => destruct b eqn:?; cbn [negb]
  | |- tries _ (if ?b then _ else _) _ _ => destruct b eqn:?
  end.
Ltac tsteps := repeat tstep.

(** The key file is readable by nobody else. *)
Definition private_mode (f : file) : Prop :=
  (st_uid (ssl_key_file g) = geteuid /\ Z.land (f_mode f) 0x3F = 0) \/ (st_uid (ssl_key_file g) = 0 /\ Z.land (f_mode f) 0x1F = 0).

Lemma tries_permissions p : tries (F p) (check_ssl_key_file_permissions g start) (F p)
  (fun _ => forall f, fs !! ssl_key_file g = Some f -> private_mode f).
Proof.
  eapply tries_env; [apply reading_stat_isdir|]. intros [[]|] Hst; try apply tries_trouble.
  apply tries_gets. intros mode (s & (_ & _ & _ & Hfs & _) & Hmode). rewrite Hfs in Hmode. cbv zeta.
  tsteps. intros f Hf. rewrite Hf in Hmode. subst mode. unfold private_mode. lia.
Qed.

(** A pair of a certificate and its key, from the files. *)
Definition key_pair (x : SSL_CTX) : Prop := exists fc fk,
  x = [PasswdCb (default_openssl_tls_init g start); UseChain (f_data fc); UseKey (f_data fk)] /\
  fs !! ssl_cert_file g = Some fc /\ fs !! ssl_key_file g = Some fk /\
  check_private_key (f_data fc) (f_data fk) = true /\ private_mode fk.

Lemma tries_key_pair p : tries (F p) (load_key_pair g start) (F p) key_pair.
Proof.
  unfold load_key_pair. cbv zeta.
  eapply (tries_step _ (F p) _ _ _ (fun d => exists f, fs !! ssl_cert_file g = Some f /\ d = f_data f)); [|intros chain (fc & Hfc & ->)|auto].
  { unfold use_certificate_chain_file. tsteps. subst. auto. }
  eapply tries_step; [apply tries_permissions|intros u Hperm|auto].
  eapply (tries_step _ (F p) _ _ _ (fun d => exists f, fs !! ssl_key_file g = Some f /\ d = f_data f)); [|intros key (fk & Hfk & ->)|auto].
  { unfold use_PrivateKey_file. tstep. tstep; [|apply tries_trouble]. subst.
    eapply tries_calmly; [destruct (needs_passphrase _); [apply calmly_passphrase|intros s Hs; exact Hs]|auto|].
    intros pass. tsteps. auto. }
  tsteps. exists fc, fk. repeat split; auto.
Qed.

Definition version_call (set : Z -> ctx_call) (v : Z) : SSL_CTX :=
  if v =? 0 then [] else [set (ssl_protocol_version_to_openssl v)].

Lemma tries_version p set v : tries (F p) (protocol_version start set v) (F p) (fun x => x = version_call set v).
Proof. unfold protocol_version, version_call. cbv zeta. tsteps; reflexivity. Qed.

Lemma tries_versions p : tries (F p) (protocol_versions g start) (F p) (fun x =>
  x = version_call MinProto (ssl_min_protocol_version g) ++ version_call MaxProto (ssl_max_protocol_version g)).
Proof.
  unfold protocol_versions. cbv zeta. eapply tries_step; [apply tries_version|intros lo ->|auto].
  eapply tries_step; [apply tries_version|intros hi ->|auto]. tsteps. reflexivity.
Qed.

Lemma tries_option {A B} p (m : M tls (option A)) (k : option A -> M tls (option B)) Q J R :
  tries (F p) m (F p) Q -> (forall s, F p s -> J s) -> (forall o, tries (F p) (k o) J R) -> tries (F p) (bind m k) J R.
Proof.
  intros Hm HJ Hk s Hs. specialize (Hm s Hs). unfold bind.
  destruct (m s) as [[[a|]|e|] s']; [apply Hk, Hm|apply Hk, Hm|split; [apply HJ, Hm|apply Hm]|exact Hm].
Qed.

Lemma tries_none {A} p (R : A -> Prop) : start = false -> tries (F p) (ret None) (F p) R.
Proof. intros E s Hs. split; assumption. Qed.

Lemma tries_dh_file p : tries (F p) (load_dh_file g start) (F p) (fun _ => True).
Proof. unfold load_dh_file. tsteps; exact I. Qed.

Lemma tries_dh p : tries (F p) (initialize_dh g start) (F p)
  (fun x => exists dh, x = [Options [SSL_OP_SINGLE_DH_USE]; TmpDh dh]).
Proof.
  unfold initialize_dh.
  assert (Hk : forall dh, tries (F p) (match dh with
    | None => trouble start "DH: could not load DH parameters"
    | Some dh => let! ok := call (set_tmp_dh dh) in
        if ok then ret (Some [Options [SSL_OP_SINGLE_DH_USE]; TmpDh dh])
        else trouble start "DH: could not set DH parameters" end) (F p)
    (fun x => exists dh, x = [Options [SSL_OP_SINGLE_DH_USE]; TmpDh dh])) by (intros dh; tsteps; eauto).
  assert (Hb : forall dh, tries (F p) (bind match dh with Some _ => ret dh | None => load_dh_buffer end (fun dh => match dh with
    | None => trouble start "DH: could not load DH parameters"
    | Some dh => let! ok := call (set_tmp_dh dh) in
        if ok then ret (Some [Options [SSL_OP_SINGLE_DH_USE]; TmpDh dh])
        else trouble start "DH: could not set DH parameters" end)) (F p)
    (fun x => exists dh, x = [Options [SSL_OP_SINGLE_DH_USE]; TmpDh dh])).
  { intros [dh|]; [exact (Hk (Some dh))|]. unfold load_dh_buffer. intros s Hs. rewrite bind_assoc. revert s Hs.
    apply tries_call; [intros _; exact (Hk hardcoded_dh)|exact (Hk None)]. }
  destruct (is_set _); [|exact (Hb None)]. eapply tries_option; [apply tries_dh_file|auto|exact Hb].
Qed.

Lemma tries_ecdh p : tries (F p) (initialize_ecdh g start) (F p) (fun x => exists ok : bool,
  x = Options [SSL_OP_SINGLE_ECDH_USE] :: (if ok then [TmpEcdh (SSLECDHCurve g)] else [])).
Proof.
  unfold initialize_ecdh. cbv zeta. tsteps; [exists true; reflexivity|exists false; reflexivity].
Qed.

Lemma provider_run p s : F p s -> exists p' s', load_provider g s = (Ok tt, s') /\ F p' s'.
Proof.
  intros (H1 & H2 & H3 & H4 & H5). unfold load_provider. rewrite (bind_step _ _ s (oqs_provider s) s) by reflexivity.
  destruct (pqc_on g && negb (oqs_provider s)); [|exists p, s; repeat split; assumption].
  destruct (reading_attempt _ H4) as (ok & e' & E & Hf & _).
  exists (ok && oqsprovider_found). eexists. split.
  - unfold call. rewrite bind_assoc. unfold bind, zoom. cbn [view tenvL]. rewrite E. reflexivity.
  - repeat split; assumption.
Qed.

(** The list of groups to be configured. *)
Definition wanted_groups : option string := if pqc_on g then nonempty_string (ssl_pqc_groups_string g) else None.

Lemma tries_groups p : tries (F p) (pqc_groups g start) (F p) (fun x =>
  match wanted_groups with
  | None => x = []
  | Some l => exists q gs, set1_groups_list q l = Some gs /\ x = [Groups gs]
  end).
Proof.
  unfold pqc_groups. fold wanted_groups. destruct wanted_groups as [l|]; [|apply tries_ret; reflexivity].
  apply tries_gets. intros q _. destruct (set1_groups_list q l) as [gs|] eqn:E; tsteps; try discriminate.
  exists q, gs. auto.
Qed.

Lemma tries_sigalgs p : tries (F p) (pqc_sigalgs g start) (F p) (fun x => x = [] \/ exists l, x = [Sigalgs l]).
Proof.
  unfold pqc_sigalgs. destruct (if pqc_on g then _ else _) as [l|]; [|apply tries_ret; auto].
  apply tries_gets. intros q _. tsteps; [eauto|].
  eapply (tries_option p _ _ (fun _ => True)); [apply tries_trouble|auto|]. intros o. apply tries_ret. auto.
Qed.

Lemma tries_ciphers p : tries (F p) (cipher_list g start) (F p) (fun x => x = Ciphers (SSLCipherSuites g) ::
  (if SSLPreferServerCiphers g then [Options [SSL_OP_CIPHER_SERVER_PREFERENCE]] else [])).
Proof. unfold cipher_list. tsteps. reflexivity. Qed.

Lemma tries_ca p : tries (F p) (ca_store g start) (F p) (fun x =>
  if is_set (ssl_ca_file g) then exists f, fs !! ssl_ca_file g = Some f /\ x = [ClientCA (f_data f)] else x = []).
Proof.
  unfold ca_store. destruct (is_set (ssl_ca_file g)); cbn [negb]; [|apply tries_ret; reflexivity].
  tsteps. subst. match goal with Hq : forall d, Some _ = Some d -> _ |- _ => destruct (Hq _ eq_refl) as (f & Hf & ->) end. eauto.
Qed.

Lemma tries_crl p : tries (F p) (revocation_lists g start) (F p) (fun x =>
  x = if is_set (ssl_crl_file g) || is_set (ssl_crl_dir g) then [CrlCheck] else []).
Proof.
  unfold revocation_lists. cbv zeta. rewrite <- negb_orb. destruct (is_set (ssl_crl_file g) || is_set (ssl_crl_dir g)); cbn [negb];
    [|apply tries_ret; reflexivity].
  destruct (is_set (ssl_crl_file g)); cbn [negb].
  - tsteps. reflexivity.
  - apply tries_pure. tsteps. reflexivity.
Qed.

(** *** The whole setup *)

(** A context that has what the settings ask for, but for signature algorithms,
    which a reload may leave out: the certificate with its key, which nobody
    else can read; the versions; no tickets, cache,
    compression or renegotiation; the groups, those of the post-quantum list
    where there is one; the ciphers; and certificates of clients are verified,
    or checked for revocation, exactly where this is configured. *)
Record configured (x : SSL_CTX) : Prop := {
  cf_pair : exists fc fk, In (UseChain (f_data fc)) x /\ In (UseKey (f_data fk)) x /\
    fs !! ssl_cert_file g = Some fc /\ fs !! ssl_key_file g = Some fk /\
    check_private_key (f_data fc) (f_data fk) = true /\ private_mode fk;
  cf_versions : incl (version_call MinProto (ssl_min_protocol_version g) ++ version_call MaxProto (ssl_max_protocol_version g)) x;
  cf_hardening : incl hardening x;
  cf_groups : match wanted_groups with
              | Some l => exists q gs, set1_groups_list q l = Some gs /\ groups_of x = Some gs
              | None => groups_of x = Some [SSLECDHCurve g] \/ groups_of x = None
              end;
  cf_ciphers : In (Ciphers (SSLCipherSuites g)) x;
  cf_ca : is_set (ssl_ca_file g) = true <-> exists ca, In (ClientCA ca) x;
  cf_ca_file : forall ca, In (ClientCA ca) x -> exists f, fs !! ssl_ca_file g = Some f /\ ca = f_data f;
  cf_crl : In CrlCheck x <-> is_set (ssl_crl_file g) || is_set (ssl_crl_dir g) = true
}.

(** The calls of a kind in a context are those of its parts. *)
Definition is_group_call (c : ctx_call) : bool := match c with TmpEcdh _ | Groups _ => true | _ => false end.
Definition is_ca_call (c : ctx_call) : bool := match c with ClientCA _ => true | _ => false end.
Definition is_crl_call (c : ctx_call) : bool := match c with CrlCheck => true | _ => false end.

Lemma groups_of_filter x : groups_of x = groups_of (List.filter is_group_call x).
Proof.
  unfold groups_of. generalize (@None (list string)). induction x as [|c x IH]; intros acc; [reflexivity|].
  destruct c; cbn [List.filter is_group_call fold_left]; apply IH.
Qed.

Lemma in_filtered (f : ctx_call -> bool) c x y : List.filter f x = y -> f c = true -> In c x <-> In c y.
Proof. intros <- Hf. rewrite filter_In. tauto. Qed.

Lemma filter_version f set v : (forall w, f (set w) = false) -> List.filter f (version_call set v) = [].
Proof. intros Hf. unfold version_call. destruct (v =? 0); [reflexivity|]. cbn. rewrite Hf. reflexivity. Qed.

Definition groups_part (x : SSL_CTX) : Prop :=
  match wanted_groups with
  | None => x = []
  | Some l => exists q gs, set1_groups_list q l = Some gs /\ x = [Groups gs]
  end.

Definition sigalgs_part (x : SSL_CTX) : Prop := x = [] \/ exists l, x = [Sigalgs l].

Definition ca_part (x : SSL_CTX) : Prop :=
  if is_set (ssl_ca_file g) then exists f, fs !! ssl_ca_file g = Some f /\ x = [ClientCA (f_data f)] else x = [].

Lemma filter_groups f x : groups_part x -> (forall l, f (Groups l) = false) -> List.filter f x = [].
Proof.
  unfold groups_part. intros Hg Hf. destruct wanted_groups; [destruct Hg as (q & gs & _ & ->)|subst]; cbn; rewrite ?Hf; reflexivity.
Qed.

Lemma filter_sigalgs f x : sigalgs_part x -> (forall l, f (Sigalgs l) = false) -> List.filter f x = [].
Proof. intros [->|[l ->]] Hf; cbn; rewrite ?Hf; reflexivity. Qed.

Lemma filter_ca f x : ca_part x -> (forall l, f (ClientCA l) = false) -> List.filter f x = [].
Proof.
  unfold ca_part. intros Hc Hf. destruct (is_set _); [destruct Hc as (f0 & _ & ->)|subst]; cbn; rewrite ?Hf; reflexivity.
Qed.

(** The parts in their order; [ok] says that the curve could be set. *)
Definition assembly (pair : SSL_CTX) (dh : bytes) (ok : bool) (groups sig ca : SSL_CTX) : SSL_CTX :=
  pair ++ (version_call MinProto (ssl_min_protocol_version g) ++ version_call MaxProto (ssl_max_protocol_version g)) ++
  hardening ++ [Options [SSL_OP_SINGLE_DH_USE]; TmpDh dh] ++
  (Options [SSL_OP_SINGLE_ECDH_USE] :: (if ok then [TmpEcdh (SSLECDHCurve g)] else [])) ++ groups ++ sig ++
  (Ciphers (SSLCipherSuites g) ::
   (if SSLPreferServerCiphers g then [Options [SSL_OP_CIPHER_SERVER_PREFERENCE]] else [])) ++ ca ++
  (if is_set (ssl_crl_file g) || is_set (ssl_crl_dir g) then [CrlCheck] else []).

Inductive assembled : SSL_CTX -> Prop :=
| assemble pair dh (ok : bool) groups sig ca :
    key_pair pair -> groups_part groups -> sigalgs_part sig -> ca_part ca ->
    assembled (assembly pair dh ok groups sig ca).

Lemma assembled_ca pair dh ok groups sig ca a : key_pair pair -> groups_part groups -> sigalgs_part sig -> ca_part ca ->
  In (ClientCA a) (assembly pair dh ok groups sig ca) <-> In (ClientCA a) ca.
Proof.
  intros (fc & fk & -> & _) Hg Hsig Hca. apply (in_filtered is_ca_call); [|reflexivity]. unfold assembly.
  rewrite !List.filter_app, !filter_version by reflexivity.
  rewrite (filter_sigalgs _ sig Hsig), (filter_groups _ groups Hg) by reflexivity.
  replace (List.filter is_ca_call ca) with ca
    by (unfold ca_part in Hca; destruct (is_set (ssl_ca_file g)); [destruct Hca as (f & _ & ->)|subst]; reflexivity).
  destruct ok, (SSLPreferServerCiphers g), (_ || _); cbn; rewrite ?app_nil_r; reflexivity.
Qed.

Lemma assembled_configured x : assembled x -> configured x.
Proof.
  intros [pair dh ok groups sig ca Hpair Hg Hsig Hca].
  pose proof (fun f => filter_sigalgs f sig Hsig) as Hs. pose proof (fun f => filter_groups f groups Hg) as Hgr.
  pose proof (fun f => filter_ca f ca Hca) as Hc.
  pose proof (fun a => assembled_ca _ dh ok groups sig ca a Hpair Hg Hsig Hca) as Hin.
  destruct Hpair as (fc & fk & -> & Hfc & Hfk & Hck & Hpm). split.
  - exists fc, fk. unfold assembly. cbn [app]. split; [right; left; reflexivity|]. split; [right; right; left; reflexivity|]. auto.
  - unfold assembly. apply incl_appr, incl_appl, incl_refl.
  - unfold assembly. do 2 apply incl_appr. apply incl_appl, incl_refl.
  - rewrite groups_of_filter. unfold assembly. rewrite !List.filter_app, !filter_version, Hs, Hc by reflexivity.
    replace (List.filter is_group_call groups) with groups
      by (unfold groups_part in Hg; destruct wanted_groups; [destruct Hg as (q & gs & _ & ->)|subst]; reflexivity).
    assert (Hp : List.filter is_group_call (Ciphers (SSLCipherSuites g) ::
      (if SSLPreferServerCiphers g then [Options [SSL_OP_CIPHER_SERVER_PREFERENCE]] else [])) = [])
      by (destruct (SSLPreferServerCiphers g); reflexivity).
    assert (Hr : List.filter is_group_call (if is_set (ssl_crl_file g) || is_set (ssl_crl_dir g) then [CrlCheck] else []) = [])
      by (destruct (_ || _); reflexivity).
    rewrite Hp, Hr, !app_nil_r. unfold groups_part in Hg.
    destruct wanted_groups as [l|]; [destruct Hg as (q & gs & Hq & ->); exists q, gs; split; [exact Hq|]|subst groups]; destruct ok; cbn.
    + reflexivity.
    + reflexivity.
    + left. reflexivity.
    + right. reflexivity.
  - unfold assembly. rewrite !in_app_iff. do 7 right. left. left. reflexivity.
  - setoid_rewrite Hin. unfold ca_part in Hca. destruct (is_set (ssl_ca_file g)); [destruct Hca as (f & Hf & ->)|subst ca].
    + split; [intros _; exists (f_data f); left; reflexivity|reflexivity].
    + split; [discriminate|intros [a []]].
  - intros a Ha. apply Hin in Ha. unfold ca_part in Hca. destruct (is_set (ssl_ca_file g)); [|subst ca; destruct Ha].
    destruct Hca as (f & Hf & ->). destruct Ha as [[= <-]|[]]. eauto.
  - unfold assembly. rewrite (in_filtered is_crl_call _ _ (if is_set (ssl_crl_file g) || is_set (ssl_crl_dir g) then [CrlCheck] else []));
      [|rewrite !List.filter_app, !filter_version, Hs, Hgr, Hc by reflexivity|reflexivity].
    + destruct (_ || _); split; [reflexivity|intros _; left; reflexivity|intros []|discriminate].
    + destruct ok, (SSLPreferServerCiphers g), (_ || _); reflexivity.
Qed.

Definition framed (s : tls) : Prop := exists p, F p s.

Lemma tries_context p : tries (F p) (new_context g start) framed assembled.
Proof.
  assert (Hw : forall q s, F q s -> framed s) by (intros q s Hq; exists q; exact Hq).
  assert (Ht : forall q msg, tries (F q) (trouble (A := SSL_CTX) start msg) framed assembled).
  { intros q msg s Hs. pose proof (tries_trouble q msg assembled s Hs) as Hm.
    destruct (trouble start msg s) as [[[a|]|e|] s']; destruct Hm; eauto. }
  unfold new_context. apply tries_call; [intros _|apply Ht]. cbn [negb].
  eapply tries_step; [apply tries_key_pair|intros pair Hpair|apply Hw].
  eapply tries_step; [apply tries_versions|intros vs ->|apply Hw].
  eapply tries_step; [apply tries_dh|intros dhs [dh ->]|apply Hw].
  eapply tries_step; [apply tries_ecdh|intros ec [ok ->]|apply Hw].
  intros s Hs. destruct (provider_run p s Hs) as (q & s1 & E & Hs1). rewrite (bind_step _ _ _ _ _ E).
  revert s1 E Hs1. intros s1 _ Hs1. revert s1 Hs1.
  match goal with |- forall s1, F q s1 -> match ?m s1 with _ => _ end => change (tries (F q) m framed assembled) end.
  eapply tries_step; [apply tries_groups|intros groups Hg|apply Hw].
  eapply tries_step; [apply tries_sigalgs|intros sig Hsig|apply Hw].
  eapply tries_step; [apply tries_ciphers|intros ciphers ->|apply Hw].
  eapply tries_step; [apply tries_ca|intros ca Hca|apply Hw].
  eapply tries_step; [apply tries_crl|intros crl ->|apply Hw].
  intros s2 Hs2. split; [exists q; exact Hs2|]. exact (assemble pair dh ok groups sig ca Hpair Hg Hsig Hca).
Qed.
End Guarantees.

(** ** The setup as a whole *)

Section Setup.
  Context `{OpenSSL}.

Lemma init_run g start s :
  match be_tls_init g start s with
  | (Ok r, s') =>
      files (t_env s') = files (t_env s) /\ LoadedSSL s' = LoadedSSL s /\
      ((r = 0 /\ ssl_loaded_verify_locations s' = is_set (ssl_ca_file g) /\
        exists x, SSL_context s' = Some x /\ configured g (files (t_env s)) x) \/
       (start = false /\ r = -1 /\ SSL_context s' = SSL_context s /\
        ssl_loaded_verify_locations s' = ssl_loaded_verify_locations s))
  | (Err _, s') =>
      (files (t_env s') = files (t_env s) /\ LoadedSSL s' = LoadedSSL s /\ SSL_context s' = SSL_context s /\
       ssl_loaded_verify_locations s' = ssl_loaded_verify_locations s) /\ (start = true \/ bad_command g)
  | (Fatal, _) => start = true
  end.
Proof.
  pose proof (tries_context g start (SSL_context s) (ssl_loaded_verify_locations s) (LoadedSSL s) (files (t_env s))
    (oqs_provider s) s ltac:(repeat split; reflexivity)) as Hc.
  unfold be_tls_init, bind. destruct (new_context g start s) as [[[x|]|e|] s1]; cbn.
  - destruct Hc as [(p & H1 & H2 & H3 & H4 & H5) Hx]. split; [exact H4|]. split; [exact H3|]. left. repeat split.
    exists x. split; [reflexivity|]. exact (assembled_configured _ _ _ _ Hx).
  - destruct Hc as [(p & H1 & H2 & H3 & H4 & H5) Hs]. split; [exact H4|]. split; [exact H3|]. right. auto.
  - destruct Hc as [(p & H1 & H2 & H3 & H4 & H5) Hs]. auto.
  - exact Hc.
Qed.

(** C24: error.  A reload of the TLS configuration either installs a context with the
    certificate, key, versions, groups, ciphers and checks of clients that the
    settings ask for, or leaves the one in use and what is
    known of it untouched, whichever files are missing, calls of OpenSSL fail
    or lists it refuses.  It never ends the postmaster, except by the error of
    a passphrase command with a placeholder that does not exist. *)
Theorem tls_reload_all_or_nothing (g : settings) (s : tls) :
  let '(o, s') := be_tls_init g false s in
  files (t_env s') = files (t_env s) /\ LoadedSSL s' = LoadedSSL s /\
  ((o = Ok 0 /\ ssl_loaded_verify_locations s' = is_set (ssl_ca_file g) /\
    exists x, SSL_context s' = Some x /\ configured g (files (t_env s)) x) \/
   ((o = Ok (-1) \/ (exists e, o = Err e) /\ bad_command g) /\
    SSL_context s' = SSL_context s /\ ssl_loaded_verify_locations s' = ssl_loaded_verify_locations s)).
Proof.
  pose proof (init_run g false s) as Hi. destruct (be_tls_init g false s) as [[r|e|] s'].
  - destruct Hi as (Hf & Hl & [(-> & Hv & Hx)|(_ & -> & Hc & Hv)]); auto 10.
  - destruct Hi as [(Hf & Hl & Hc & Hv) [Hs|Hb]]; [discriminate Hs|]. split; [exact Hf|]. split; [exact Hl|]. right.
    split; [right; split; [exists e; reflexivity|exact Hb]|auto].
  - discriminate Hi.
Qed.
End Setup.

(** ** The postmaster *)

(** The states of a postmaster, over any number of reloads; files and settings
    change between them, and so may what OpenSSL accepts. *)
Inductive postmaster : tls -> Prop :=
| pm_start {O : OpenSSL} g s s' :
    SSL_context s = None -> ssl_loaded_verify_locations s = false -> LoadedSSL s = false ->
    PostmasterMain_ssl g s = (Ok tt, s') -> postmaster s'
| pm_reload {O : OpenSSL} g e s s' :
    postmaster s -> process_pm_reload_ssl g (over tenvL e s) = (Ok tt, s') -> postmaster s'.

(** What is known of the context in use. *)
Definition context_known (s : tls) : Prop :=
  match SSL_context s with
  | None => LoadedSSL s = false /\ ssl_loaded_verify_locations s = false
  | Some x =>
      LoadedSSL s = true /\ (ssl_loaded_verify_locations s = true <-> exists ca, In (ClientCA ca) x) /\
      exists (O : OpenSSL) g fs, EnableSSL g = true /\ configured g fs x
  end.

Lemma init_known {O : OpenSSL} g start s s' : EnableSSL g = true -> be_tls_init g start s = (Ok 0, s') ->
  context_known (mkTls (t_env s') (SSL_context s') (ssl_loaded_verify_locations s') (oqs_provider s') true).
Proof.
  intros Hen E. pose proof (init_run g start s) as Hi. rewrite E in Hi.
  destruct Hi as (_ & _ & [(_ & Hv & x & Hx & Hc)|(_ & Hr & _)]); [|discriminate Hr].
  unfold context_known. cbn. rewrite Hx, Hv. split; [reflexivity|]. split; [apply (cf_ca _ _ _ Hc)|eauto].
Qed.

(** C25: invariant.  In every state a postmaster reaches, over any number of
    reloads with any settings and files, it offers TLS exactly if it has a
    context, the context was set up completely for settings that enable TLS,
    and the store of authorities is said to be loaded exactly if the context
    verifies the certificates of clients. *)
Theorem postmaster_context_known (s : tls) : postmaster s -> context_known s.
Proof.
  induction 1 as [O g s s' Hx Hv Hl E|O g e s s' Hs IH E].
  - unfold PostmasterMain_ssl in E. destruct (EnableSSL g) eqn:Hen.
    + minv E. pose proof (init_run g true s) as Hi. rewrite Hm in Hi. injection E as <-.
      destruct Hi as (_ & _ & [(-> & _)|(Hf & _)]); [|discriminate Hf].
      exact (init_known g true s s0 Hen Hm).
    + injection E as <-. unfold context_known. rewrite Hx. auto.
  - unfold process_pm_reload_ssl in E. destruct (EnableSSL g) eqn:Hen; [|injection E as <-; split; reflexivity].
    minv E. pose proof (init_run g false (over tenvL e s)) as Hi. rewrite Hm in Hi.
    destruct (Z.eqb_spec a 0) as [->|Hne].
    + injection E as <-. exact (init_known g false _ s0 Hen Hm).
    + destruct Hi as (_ & Hl & [(-> & _)|(_ & _ & Hc & Hv)]); [contradiction|]. injection E as <-.
      unfold context_known in *. cbn in *. rewrite Hc, Hv, Hl. exact IH.
Qed.

(** ** Groups of the server and of its clients *)

Definition with_mode (mode : Z) (g : settings) : settings :=
  mkSettings (EnableSSL g) (ssl_cert_file g) (ssl_key_file g) (ssl_ca_file g) (ssl_crl_file g) (ssl_crl_dir g)
    (ssl_dh_params_file g) (ssl_passphrase_command g) (ssl_passphrase_command_supports_reload g) (SSLCipherSuites g)
    (SSLECDHCurve g) (SSLPreferServerCiphers g) (ssl_min_protocol_version g) (ssl_max_protocol_version g) mode
    (ssl_pqc_groups_string g) (ssl_pqc_sigalgs_string g).

(** Nothing depends on which of the two modes is set: pqc-only excludes no
    classical group. *)
Lemma pqc_only_is_hybrid `{OpenSSL} g start s :
  be_tls_init (with_mode PQC_TLS_PQC_ONLY g) start s = be_tls_init (with_mode PQC_TLS_HYBRID g) start s.
Proof. reflexivity. Qed.



(** Names separated by colons. *)
Fixpoint split_colons (l : string) : list string :=
  match l with
  | EmptyString => [EmptyString]
  | String c l' =>
      if Ascii.eqb c ":" then EmptyString :: split_colons l'
      else match split_colons l' with
           | n :: ns => String c n :: ns
           | [] => [String c EmptyString]
           end
  end.

(** A list of nothing but names. *)
Definition isalnum (c : Z) : bool :=
  isdigit c || ((65 <=? c) && (c <=? 90)) || ((97 <=? c) && (c <=? 122)).

Fixpoint plain_list (l : string) : bool :=
  match l with
  | EmptyString => true
  | String c l' => (isalnum (Z.of_N (N_of_ascii c)) || Ascii.eqb c ":") && plain_list l'
  end.

(** The documented meaning of such a list. *)
Class PlainGroups `{OpenSSL} : Prop :=
  plain_groups : forall q l gs, plain_list l = true -> set1_groups_list q l = Some gs -> gs = split_colons l.

Section Policies.
  Context `{PlainGroups}.





End Policies.

(** ** A server on a library that accepts everything *)

Module Toy.
#[export] Instance openssl : OpenSSL := {
  read_chain _ := true;
  needs_passphrase _ := false;
  read_key _ _ := true;
  typed_passphrase := [];
  check_private_key chain key := bytes_eqb chain key;
  proto_version_ok _ := true;
  read_dhparams _ := true;
  dh_check _ := Some 0;
  hardcoded_dh := Some [1];
  set_tmp_dh _ := true;
  OBJ_sn2nid _ := 415;
  EC_KEY_new_by_curve_name _ := true;
  oqsprovider_found := false;
  set1_groups_list _ l := Some (split_colons l);
  set1_sigalgs_list _ _ := true;
  set_cipher_list _ := true;
  load_verify_locations _ := true;
  load_client_CA_file _ := true;
  load_crls _ _ := true;
  st_uid _ := 26;
  geteuid := 26
}.

#[export] Instance plain : PlainGroups.
Proof. intros q l gs _ E. injection E as <-. reflexivity. Qed.

Definition gucs0 : settings :=
  mkSettings true "server.crt" "server.key" "root.crt" "" "" "" "" false "HIGH" "prime256v1" true 3 0 PQC_TLS_HYBRID
    (Some DEFAULT_GROUPS) (Some ""%string).

Definition env0 : env :=
  mkEnv [] 0 {["server.crt" := mkFile [7] 0x1A4; "server.key" := mkFile [7] 0x180; "root.crt" := mkFile [8] 0x1A4]}%string
    ∅ ∅ ∅ [].

Definition state0 : tls := mkTls env0 None false false false.
End Toy.
Import Toy.

(** Started, and reloaded when the certificate is gone. *)
Lemma postmaster_context_known_witness : exists s s',
  PostmasterMain_ssl (H := Toy.openssl) Toy.gucs0 Toy.state0 = (Ok tt, s) /\
  process_pm_reload_ssl (H := Toy.openssl) Toy.gucs0 (over tenvL (set_files ∅ Toy.env0) s) = (Ok tt, s') /\
  context_known s'.
Proof.
  set (r := PostmasterMain_ssl Toy.gucs0 Toy.state0).
  set (r' := process_pm_reload_ssl Toy.gucs0 (over tenvL (set_files ∅ Toy.env0) (snd r))).
  assert (E : r = (Ok tt, snd r)) by (vm_compute; reflexivity).
  assert (E' : r' = (Ok tt, snd r')) by (vm_compute; reflexivity).
  exists (snd r), (snd r'). split; [exact E|]. split; [exact E'|]. apply postmaster_context_known.
  exact (pm_reload Toy.gucs0 _ _ _ (pm_start Toy.gucs0 Toy.state0 _ eq_refl eq_refl eq_refl E) E').
Defined.

