(* ===== verification/Tools.v ===== *)
(** * The keys in the client programs

    What the programs around the server do with its key files:
    src/bin/pg_upgrade (detection of an encrypted cluster in check.c and
    [migrate_tde_keys] of pg_upgrade.c), src/bin/pg_basebackup
    (pg_basebackup.c), and the options of src/bin/pg_dump/pg_dump.c for
    encryption.  A key file is never a directory, and paths that differ are
    different files.  The rest of these programs is not modelled. *)
From Stdlib Require Import ZArith Lia Bool String Ascii List.
From stdpp Require Import base gmap list strings.
From S2P Require Import Prelude CryptoIface Env KeyCache PqcRegistry Server KeyProvider MasterKeyFile KeyManage PqcCommonFe MasterKeyTool.
Import ListNotations.
Local Open Scope Z_scope.
Local Open Scope pg_scope.

Definition pg_fatal {A} (msg : string) : M env A := do! elog ERROR_REPORT msg in fatal.

Definition encryption_dir (pgdata : string) : string := path_buf (pgdata ++ "/global/pg_encryption").

Definition key_file (dir name : string) : string := path_buf (dir ++ "/" ++ name).

(** ** pg_upgrade *)

Definition key_files : list string := ["master.key"; "master.pub"]%string.

(** Whether the old cluster is encrypted. *)
Definition detect_tde (old_pgdata : string) : M env bool :=
  let! st := stat_isdir (encryption_dir old_pgdata) in
  match st with
  | Some true => do! elog LOG "FortressQL: TDE-encrypted cluster detected" in ret true
  | _ => ret false
  end.

(** [fread(buf, 1, 8192, fp)] and whether it set the error indicator: a fault
    ends the read early. *)
Definition fread_chunk (stream : bytes) : M env (bytes * bool) :=
  let! f := next_fault in
  let got := firstn (Z.to_nat 8192) stream in
  ret (match f with None => (got, false) | Some n => (firstn n got, true) end).

(** The loop that copies, with the error indicator of the source. *)
Fixpoint copy_loop (fuel : nat) (path : string) (stream : bytes) (ferror : bool) : M env bool :=
  match fuel with
  | O => fatal
  | S fuel' =>
      let! (got, err) := fread_chunk stream in
      if (length got =? 0)%nat then ret (ferror || err)
      else
        let! written := fwrite_bytes path got in
        if written then copy_loop fuel' path (skipn (length got) stream) (ferror || err)
        else pg_fatal "could not write TDE key file"
  end.

(** [fflush(fp)]: a failure may lose the end of what was written. *)
Definition fflush (path : string) : M env bool :=
  let! f := next_fault in
  match f with
  | None => ret true
  | Some n =>
      do! modify (fun e =>
            match files e !! path with
            | Some f => set_files (<[path := mkFile (firstn n (f_data f)) (f_mode f)]> (files e)) e
            | None => e
            end) in
      ret false
  end.

(** One round of the loop over [key_files]. *)
Definition copy_key_file (old_dir new_dir name : string) : M env unit :=
  let old_file := key_file old_dir name in
  let new_file := key_file new_dir name in
  let! st := stat old_file in
  match st with
  | None => elog WARNING "TDE key file not found in old cluster, skipping"
  | Some f =>
      if blen (f_data f) =? 0 then pg_fatal "TDE key file is empty"
      else if 1048576 <? blen (f_data f) then pg_fatal "TDE key file is unreasonably large"
      else
        let! src_fp := fopen_read old_file in
        match src_fp with
        | None => pg_fatal "could not open TDE key file"
        | Some stream =>
            let! fd := fopen_write new_file 0x180 in
            if negb fd then pg_fatal "could not create TDE key file"
            else
              let! dst_fp := attempt in
              if negb dst_fp then pg_fatal "could not fdopen TDE key file"
              else
                let! ferror := copy_loop (S (length stream)) new_file stream false in
                if ferror then pg_fatal "could not read TDE key file"
                else
                  let! flushed := fflush new_file in
                  let! synced := if flushed then attempt else ret false in
                  do! when (negb synced) (elog WARNING "could not fsync TDE key file") in
                  elog DEBUG1 "copied TDE key file"
        end
  end.

Fixpoint copy_key_files (old_dir new_dir : string) (names : list string) : M env unit :=
  match names with
  | [] => ret tt
  | name :: names' => do! copy_key_file old_dir new_dir name in copy_key_files old_dir new_dir names'
  end.

Definition migrate_tde_keys (old_pgdata new_pgdata : string) : M env unit :=
  let old_dir := encryption_dir old_pgdata in
  let new_dir := encryption_dir new_pgdata in
  do! elog LOG "Migrating TDE encryption keys" in
  let! st := stat_isdir new_dir in
  do! (match st with
       | Some _ => ret tt
       | None =>
           let! made := make_directory new_dir in
           if made then ret tt else pg_fatal "could not create TDE key directory"
       end) in
  do! copy_key_files old_dir new_dir key_files in
  let! st := stat (key_file new_dir "master.key") in
  match st with
  | None => pg_fatal "TDE master key migration failed: not found after copy"
  | Some _ => elog LOG "ok"
  end.

(** The order of [main]: [transfer] is what happens between the two, from the
    start of the new server to the transfer of the data files. *)
Definition upgrade (transfer : M env unit) (old_pgdata new_pgdata : string) : M env unit :=
  let! tde_enabled := detect_tde old_pgdata in
  do! transfer in
  when tde_enabled (migrate_tde_keys old_pgdata new_pgdata).

(** ** pg_basebackup *)

Definition unlink (path : string) : M env bool :=
  let! ok := attempt in
  let! present := gets (fun e => match files e !! path with Some _ => true | None => false end) in
  if ok && present then do! modify (fun e => set_files (delete path (files e)) e) in ret true
  else ret false.

(** The value of the option --tde-key-handling. *)
Definition tde_key_handling (optarg : string) : M env string :=
  if negb (String.eqb optarg "include") && negb (String.eqb optarg "exclude") && negb (String.eqb optarg "verify-only")
  then pg_fatal "invalid value for --tde-key-handling"
  else ret optarg.

(** The end of [BaseBackup]: whether keys were found. *)
Definition BaseBackup_keys (format : ascii) (basedir handling : option string) : M env bool :=
  match (if Ascii.eqb format "p" then basedir else None) with
  | None => ret false
  | Some dir =>
      let! st := stat (path_buf (dir ++ "/global/pg_encryption/master.key")) in
      match st with
      | Some _ =>
          do! (if match handling with Some h => String.eqb h "exclude" | None => false end then
                 let tde_dir := encryption_dir dir in
                 do! elog LOG "FortressQL: removing TDE key material from backup" in
                 do! unlink (key_file tde_dir "master.key") in
                 do! unlink (key_file tde_dir "master.pub") in
                 ret tt
               else
                 do! elog LOG "FortressQL: TDE encryption keys included in backup" in
                 elog LOG "IMPORTANT: This backup contains cryptographic key material.") in
          ret true
      | None =>
          let! st := stat_isdir (encryption_dir dir) in
          do! when (match st with Some true => true | _ => false end)
                (elog WARNING "FortressQL: TDE directory found but master.key is missing") in
          ret false
      end
  end.

(** ** The options of pg_dump *)

Record dump_options := mkDumpOptions {
  pqc_encrypt : bool;
  pqc_encrypt_key : option string;
  pqc_sign : bool;
  pqc_sign_key : option string
}.

Inductive ArchiveFormat := archUnknown | archCustom | archTar | archNull | archDirectory.

Definition parseArchiveFormat (format : string) : M env ArchiveFormat :=
  let named (name : string) : bool := pg_strcasecmp format name =? 0 in
  if named "a"%string || named "append"%string then ret archNull
  else if named "c"%string || named "custom"%string then ret archCustom
  else if named "d"%string || named "directory"%string then ret archDirectory
  else if named "p"%string || named "plain"%string then ret archNull
  else if named "t"%string || named "tar"%string then ret archTar
  else pg_fatal "invalid output format specified".

Definition check_pqc_options (o : dump_options) (plainText : bool) : M env dump_options :=
  let given (key : option string) : bool := match key with Some _ => true | None => false end in
  if pqc_encrypt o && negb (given (pqc_encrypt_key o)) then pg_fatal "option --pqc-encrypt requires --pqc-encrypt-key"
  else
    let encrypt := pqc_encrypt o || given (pqc_encrypt_key o) in
    if pqc_sign o && negb (given (pqc_sign_key o)) then pg_fatal "option --pqc-sign requires --pqc-sign-key"
    else
      let sign := pqc_sign o || given (pqc_sign_key o) in
      if encrypt && plainText then pg_fatal "PQC encryption is not supported with plain-text output format"
      else ret (mkDumpOptions encrypt (pqc_encrypt_key o) sign (pqc_sign_key o)).

(** The order of [main]: the check of the options, then the format, which alone
    says whether the output is plain text. *)
Definition dump_setup (o : dump_options) (format : string) : M env (dump_options * bool) :=
  let! o := check_pqc_options o false in
  let! f := parseArchiveFormat format in
  ret (o, match f with archNull => true | _ => false end).

(** So encryption is never refused for plain text, although there is a message
    for it. *)
Lemma plain_text_not_refused key e :
  dump_setup (mkDumpOptions true (Some key) false None) "plain" e = (Ok (mkDumpOptions true (Some key) false None, true), e).
Proof. reflexivity. Qed.

(** ** What a copy leaves *)

(** The warnings a program has given. *)
Definition warnings (e : env) : list string :=
  omap (fun '(l, msg) => match l with WARNING => Some msg | _ => None end) (log e).

(** Nothing but the file at [p] has changed, and [w] are new warnings. *)
Definition touches (p : string) (w : list string) (e e' : env) : Prop :=
  warnings e' = warnings e ++ w /\ forall q, q <> p -> files e' !! q = files e !! q.

(** Consuming faults is no change. *)
Lemma touches_faults p fs e : touches p [] e (set_faults fs e).
Proof. split; [rewrite app_nil_r|]; reflexivity. Qed.

Lemma touches_trans p w1 w2 e1 e2 e3 : touches p w1 e1 e2 -> touches p w2 e2 e3 -> touches p (w1 ++ w2) e1 e3.
Proof.
  intros [H1 F1] [H2 F2]. split; [rewrite H2, H1, app_assoc; reflexivity|].
  intros q Hq. rewrite F2, F1 by exact Hq. reflexivity.
Qed.

Lemma next_fault_run e : exists f fs, next_fault e = (Ok f, set_faults fs e).
Proof. destruct e as [[|f fs] d fi di v c lg]; cbn; [exists None, []|exists f, fs]; reflexivity. Qed.

Lemma fread_chunk_run stream e : exists got err fs, fread_chunk stream e = (Ok (got, err), set_faults fs e) /\
  (exists rest, stream = got ++ rest) /\ (err = false -> got = firstn (Z.to_nat 8192) stream).
Proof.
  destruct (next_fault_run e) as (f & fs & E). unfold fread_chunk. mrun E. destruct f as [n|]; do 3 eexists; (split; [reflexivity|]).
  - split; [|discriminate]. rewrite firstn_firstn. eexists. symmetry. apply firstn_skipn.
  - split; [|reflexivity]. eexists. symmetry. apply firstn_skipn.
Qed.

Lemma fwrite_bytes_run path data e f : files e !! path = Some f ->
  exists ok fs k, fwrite_bytes path data e =
    (Ok ok, set_faults fs (set_files (<[path := mkFile (f_data f ++ firstn k data) (f_mode f)]> (files e)) e)) /\
    (ok = true -> firstn k data = data).
Proof.
  intros Hf. unfold fwrite_bytes. destruct (next_fault_run e) as (o & fs & E). mrun E. destruct o as [n|].
  - exists false, fs, n. split; [|discriminate]. cbn. unfold append_file. cbn. rewrite Hf. reflexivity.
  - exists true, fs, (length data). rewrite firstn_all. split; [|reflexivity].
    cbn. unfold append_file. cbn. rewrite Hf. reflexivity.
Qed.

(** A loop that ends has written a prefix, and all of the source unless there
    was an error. *)
Lemma copy_loop_run fuel path stream err e f r e' :
  files e !! path = Some f -> copy_loop fuel path stream err e = (Ok r, e') ->
  touches path [] e e' /\
  exists w, files e' !! path = Some (mkFile (f_data f ++ w) (f_mode f)) /\ (r = false -> err = false /\ w = stream).
Proof.
  revert stream err e f. induction fuel as [|fuel IH]; intros stream err e f Hf E; [discriminate|].
  cbn [copy_loop] in E. destruct (fread_chunk_run stream e) as (got & er & fs & E1 & [rest Hr] & Hn).
  rewrite (bind_step _ _ _ _ _ E1) in E. cbv beta iota in E. destruct (Nat.eqb_spec (length got) 0) as [Hz|Hz].
  - injection E as <- <-. split; [apply touches_faults|]. exists []. rewrite app_nil_r. split; [destruct f; exact Hf|].
    intros Hrf. apply orb_false_iff in Hrf as [-> ->]. split; [reflexivity|].
    apply length_zero_iff_nil in Hz. specialize (Hn eq_refl). rewrite Hz in Hn. destruct stream; [reflexivity|discriminate Hn].
  - destruct (fwrite_bytes_run path got (set_faults fs e) f Hf) as (ok & fs' & k & E2 & Hk).
    rewrite (bind_step _ _ _ _ _ E2) in E. cbv beta iota in E. destruct ok; [|discriminate E].
    rewrite (Hk eq_refl) in E. apply (IH _ _ _ (mkFile (f_data f ++ got) (f_mode f))) in E; [|cbn; apply lookup_insert_eq].
    destruct E as [Ht (w & Hw & Hall)]. split.
    + apply (touches_trans _ [] [] _ _ _) with (2 := Ht). split; [cbn; rewrite app_nil_r; reflexivity|].
      intros q Hq. cbn. apply lookup_insert_ne. congruence.
    + exists (got ++ w). cbn [f_data f_mode] in Hw. rewrite app_assoc. split; [exact Hw|].
      intros Hrf. destruct (Hall Hrf) as [Ho ->]. apply orb_false_iff in Ho as [-> _]. split; [reflexivity|].
      rewrite Hr at 1. rewrite skipn_app, skipn_all, Nat.sub_diag. cbn. rewrite Hr. reflexivity.
Qed.

(** More rounds change nothing: every round takes a byte of the source. *)
Lemma copy_loop_fuel fuel path stream err e : (length stream < fuel)%nat ->
  copy_loop fuel path stream err e = copy_loop (S (length stream)) path stream err e.
Proof.
  revert stream err e. induction fuel as [fuel IH] using lt_wf_ind. intros stream err e Hf.
  destruct fuel as [|fuel]; [lia|]. cbn [copy_loop].
  destruct (fread_chunk_run stream e) as (got & er & fs & E1 & [rest Hr] & _).
  rewrite !(bind_step _ _ _ _ _ E1). cbv beta iota. destruct (Nat.eqb_spec (length got) 0) as [Hz|Hz]; [reflexivity|].
  unfold bind. destruct (fwrite_bytes path got _) as [[[|]|x|] s]; try reflexivity.
  assert (Hl : (length (skipn (length got) stream) < length stream)%nat)
    by (subst stream; rewrite length_skipn, length_app; lia).
  rewrite (IH fuel), (IH (length stream)) by lia. reflexivity.
Qed.

(** The access rights of the copy: a new file is private. *)
Definition copy_mode (e : env) (path : string) : Z :=
  match files e !! path with Some f => f_mode f | None => 0x180 end.

(** What it means that the key file [name] was copied. *)
Definition copied (old_dir new_dir name : string) (e e' : env) : Prop := exists f f',
  files e !! key_file old_dir name = Some f /\ 0 < blen (f_data f) <= 1048576 /\
  files e' !! key_file new_dir name = Some f' /\ f_data f' = f_data f /\ f_mode f' = copy_mode e (key_file new_dir name).

Lemma fflush_run path e f : files e !! path = Some f ->
  exists ok fs k, fflush path e =
    (Ok ok, set_faults fs (set_files (<[path := mkFile (firstn k (f_data f)) (f_mode f)]> (files e)) e)) /\
    (ok = true -> firstn k (f_data f) = f_data f).
Proof.
  intros Hf. unfold fflush. destruct (next_fault_run e) as (o & fs & E). mrun E. destruct o as [n|].
  - exists false, fs, n. split; [|discriminate]. cbn. rewrite Hf. reflexivity.
  - exists true, fs, (length (f_data f)). rewrite firstn_all. split; [|reflexivity].
    destruct f. rewrite insert_id by exact Hf. destruct e; reflexivity.
Qed.

Lemma touches_insert p f fs e : touches p [] e (set_faults fs (set_files (<[p := f]> (files e)) e)).
Proof.
  split; [cbn; rewrite app_nil_r; reflexivity|]. intros q Hq. cbn. apply lookup_insert_ne. congruence.
Qed.

Lemma fopen_write_run path mode e ok e' : fopen_write path mode e = (Ok ok, e') ->
  touches path [] e e' /\
  (ok = true -> files e' !! path = Some (mkFile [] (match files e !! path with Some f => f_mode f | None => mode end))).
Proof.
  unfold fopen_write. destruct (attempt_run e) as (b & fs & E). rewrite (bind_step _ _ _ _ _ E).
  destruct b; intros H; injection H as <- <-.
  - split; [exact (touches_insert path _ fs e)|]. intros _. cbn. apply lookup_insert_eq.
  - split; [apply touches_faults|discriminate].
Qed.

Lemma stat_run path e : exists o fs, Env.stat path e = (Ok o, set_faults fs e) /\ (forall f, o = Some f -> files e !! path = Some f).
Proof.
  unfold stat. destruct (attempt_run e) as (b & fs & E). mrun E. exists (if b then files e !! path else None), fs.
  destruct b; (split; [reflexivity|]); [auto|discriminate].
Qed.

Lemma fopen_read_run path e :
  exists o fs, fopen_read path e = (Ok o, set_faults fs e) /\ (forall l, o = Some l -> f_data <$> files e !! path = Some l).
Proof.
  unfold fopen_read. destruct (attempt_run e) as (b & fs & E). mrun E.
  exists (if b then f_data <$> files e !! path else None), fs. destruct b; (split; [reflexivity|]); [auto|discriminate].
Qed.

Lemma touches_warning p msg e : touches p [msg] e (set_log (log e ++ [(WARNING, msg)]) e).
Proof. split; [|reflexivity]. unfold warnings. cbn. rewrite omap_app. reflexivity. Qed.

Lemma touches_debug p msg e : touches p [] e (set_log (log e ++ [(DEBUG1, msg)]) e).
Proof. split; [|reflexivity]. unfold warnings. cbn. rewrite omap_app. reflexivity. Qed.

(** The end of a copy: what was written stays unless there is a warning. *)
Lemma finish_run path e f e' : files e !! path = Some f ->
  (let! flushed := fflush path in
   let! synced := if flushed then attempt else ret false in
   do! when (negb synced) (elog WARNING "could not fsync TDE key file") in
   elog DEBUG1 "copied TDE key file") e = (Ok tt, e') ->
  exists w, touches path w e e' /\ (w = [] -> files e' !! path = Some f).
Proof.
  intros Hf E. destruct (fflush_run path e f Hf) as (ok & fs & k & E1 & Hk). rewrite (bind_step _ _ _ _ _ E1) in E.
  set (e1 := set_faults fs _) in *. pose proof (touches_insert path (mkFile (firstn k (f_data f)) (f_mode f)) fs e) as T1.
  fold e1 in T1. minv E. assert (exists fs', s = set_faults fs' e1) as [fs' ->].
  { destruct ok; [|injection Hm as _ <-; exists (faults e1); reflexivity].
    destruct (attempt_run e1) as (b & fs' & E2). rewrite E2 in Hm. injection Hm as _ <-. eauto. }
  pose proof (touches_trans _ _ _ _ _ _ T1 (touches_faults path fs' e1)) as T2. destruct a.
  - exists []. destruct ok; [|discriminate Hm]. injection E as <-.
    split; [exact (touches_trans _ _ _ _ _ _ T2 (touches_debug path _ _))|]. intros _. cbn.
    rewrite (Hk eq_refl). destruct f. apply lookup_insert_eq.
  - exists ["could not fsync TDE key file"%string]. split; [|discriminate]. injection E as <-.
    exact (touches_trans _ _ _ _ _ _ T2
      (touches_trans _ _ _ _ _ _ (touches_warning path _ _) (touches_debug path _ _))).
Qed.

(** A round that does not end the program: without a new warning the file was
    copied. *)
Lemma copy_key_file_run old_dir new_dir name e e' :
  key_file old_dir name <> key_file new_dir name -> copy_key_file old_dir new_dir name e = (Ok tt, e') ->
  exists w, touches (key_file new_dir name) w e e' /\ (w = [] -> copied old_dir new_dir name e e').
Proof.
  intros Hne E. unfold copy_key_file in E. cbv zeta in E. set (new := key_file new_dir name) in *.
  destruct (stat_run (key_file old_dir name) e) as (o & fs & E1 & Ho). rewrite (bind_step _ _ _ _ _ E1) in E.
  pose proof (touches_faults new fs e) as T. destruct o as [f|].
  2: { injection E as <-. eexists. split; [exact (touches_trans _ _ _ _ _ _ T (touches_warning new _ _))|discriminate]. }
  specialize (Ho f eq_refl). destruct (Z.eqb_spec (blen (f_data f)) 0) as [|Hpos]; [discriminate E|].
  destruct (Z.ltb_spec 1048576 (blen (f_data f))) as [|Hmax]; [discriminate E|].
  destruct (fopen_read_run (key_file old_dir name) (set_faults fs e)) as (st & fs2 & E2 & Hst).
  rewrite (bind_step _ _ _ _ _ E2) in E. destruct st as [stream|]; [|discriminate E].
  specialize (Hst stream eq_refl). cbn [files set_faults] in Hst. rewrite Ho in Hst. injection Hst as <-.
  apply (fun t => touches_trans _ _ _ _ _ _ t (touches_faults new fs2 (set_faults fs e))) in T. minv E.
  apply fopen_write_run in Hm as [T3 Hf]. destruct a; [|discriminate E]. specialize (Hf eq_refl).
  pose proof (touches_trans _ _ _ _ _ _ T T3) as T4. cbn [negb] in E.
  destruct (attempt_run s) as (b & fs3 & E3). rewrite (bind_step _ _ _ _ _ E3) in E. destruct b; [|discriminate E].
  cbn [negb] in E. minv E. apply (copy_loop_run _ _ _ _ (set_faults fs3 s) _ _ _ Hf) in Hm as [T5 (w & Hw & Hall)].
  destruct a; [discriminate E|]. destruct (Hall eq_refl) as [_ ->].
  pose proof (touches_trans _ _ _ _ _ _ T4 (touches_trans _ _ _ _ _ _ (touches_faults new fs3 s) T5)) as T6.
  destruct (finish_run new s0 _ e' Hw E) as (w & T7 & Hkept).
  exists w. split; [exact (touches_trans _ _ _ _ _ _ T6 T7)|]. intros Hnil. eexists f, _.
  split; [exact Ho|]. split; [unfold blen in *; lia|]. split; [exact (Hkept Hnil)|]. split; reflexivity.
Qed.

(** *** Where nothing fails *)

(** Calls that neither fail nor warn. *)
Definition calmly (e e' : env) : Prop := no_faults e' /\ warnings e' = warnings e.

Lemma copy_loop_calm fuel path stream err e f : no_faults e -> files e !! path = Some f -> (length stream < fuel)%nat ->
  exists e', copy_loop fuel path stream err e = (Ok err, e') /\ calmly e e' /\ is_Some (files e' !! path).
Proof.
  revert stream e f. induction fuel as [|fuel IH]; intros stream e f Hn Hf Hl; [lia|]. cbn [copy_loop].
  assert (E1 : fread_chunk stream e = (Ok (firstn (Z.to_nat 8192) stream, false), e))
    by (unfold fread_chunk; cbn; rewrite Hn; reflexivity).
  mrun E1. rewrite orb_false_r. set (got := firstn _ stream). destruct (Nat.eqb_spec (length got) 0) as [Hz|Hz].
  { exists e. split; [reflexivity|]. split; [split; [exact Hn|reflexivity]|rewrite Hf; eauto]. }
  set (e1 := set_files (<[path := mkFile (f_data f ++ got) (f_mode f)]> (files e)) e).
  assert (E2 : fwrite_bytes path got e = (Ok true, e1))
    by (unfold fwrite_bytes; cbn; rewrite Hn; cbn; unfold append_file; rewrite Hf; reflexivity).
  mrun E2. apply (IH (skipn (length got) stream) e1 (mkFile (f_data f ++ got) (f_mode f)) Hn); [apply lookup_insert_eq|].
  rewrite length_skipn. unfold got in *. rewrite length_firstn in *. lia.
Qed.

Lemma copy_key_file_calm old_dir new_dir name e f :
  no_faults e -> files e !! key_file old_dir name = Some f -> 0 < blen (f_data f) <= 1048576 ->
  exists e', copy_key_file old_dir new_dir name e = (Ok tt, e') /\ calmly e e'.
Proof.
  intros Hn Hf Hl. unfold copy_key_file. cbv zeta. set (new := key_file new_dir name).
  mrun (stat_calm (key_file old_dir name) e Hn). rewrite Hf. destruct (Z.eqb_spec (blen (f_data f)) 0); [lia|].
  destruct (Z.ltb_spec 1048576 (blen (f_data f))); [lia|].
  assert (E1 : fopen_read (key_file old_dir name) e = (Ok (Some (f_data f)), e)) by (cbn; rewrite Hn; cbn; rewrite Hf; reflexivity).
  mrun E1. assert (E2 : exists e2, fopen_write new 0x180 e = (Ok true, e2) /\ calmly e e2 /\ is_Some (files e2 !! new)).
  { cbn. rewrite Hn. cbn. eexists. split; [reflexivity|]. split; [split; [exact Hn|reflexivity]|]. cbn. rewrite lookup_insert_eq. eauto. }
  destruct E2 as (e2 & E2 & [Hn2 W2] & [g Hg]). mrun E2. cbn [negb]. mrun (attempt_no_faults e2 Hn2). cbn [negb].
  destruct (copy_loop_calm (S (length (f_data f))) new (f_data f) false e2 g Hn2 Hg (Nat.lt_succ_diag_r _))
    as (e3 & E3 & [Hn3 W3] & _).
  mrun E3. assert (E4 : fflush new e3 = (Ok true, e3)) by (unfold fflush; cbn; rewrite Hn3; reflexivity).
  mrun E4. mrun (attempt_no_faults e3 Hn3). eexists. split; [reflexivity|]. split; [exact Hn3|].
  rewrite <- W2, <- W3. unfold warnings. cbn. rewrite omap_app. apply app_nil_r.
Qed.

(** ** Paths *)

Lemma key_file_eq pgdata name : (String.length pgdata <= 900)%nat -> In name key_files ->
  key_file (encryption_dir pgdata) name = (pgdata ++ "/global/pg_encryption/" ++ name)%string.
Proof.
  intros Hl Hn. unfold key_file, encryption_dir, path_buf.
  assert (Hk : String.length name = 10%nat) by (destruct Hn as [<-|[<-|[]]]; reflexivity).
  assert (Happ : forall a b c, ((a ++ b) ++ c = a ++ (b ++ c))%string).
  { induction a as [|x a IH]; intros b c; [reflexivity|]. exact (f_equal (String x) (IH b c)). }
  rewrite (substring_all 1023 (pgdata ++ _)) by (rewrite append_length; cbn; lia).
  rewrite substring_all by (rewrite !append_length; cbn; lia). rewrite Happ. reflexivity.
Qed.

(** Key files of different clusters, or of different names, are different. *)
Lemma key_file_inj a b n m : (String.length a <= 900)%nat -> (String.length b <= 900)%nat ->
  In n key_files -> In m key_files ->
  key_file (encryption_dir a) n = key_file (encryption_dir b) m -> a = b /\ n = m.
Proof.
  intros Ha Hb Hn Hm E. rewrite !key_file_eq in E by assumption.
  assert (Hk : String.length n = 10%nat /\ String.length m = 10%nat)
    by (destruct Hn as [<-|[<-|[]]], Hm as [<-|[<-|[]]]; split; reflexivity).
  pose proof (f_equal String.length E) as Hlen. rewrite !append_length in Hlen.
  apply append_inj in E as [-> E]; [|cbn in Hlen; lia]. split; [reflexivity|].
  apply append_inj in E as [_ E]; [exact E|reflexivity].
Qed.

(** The file of the server is the one the migration writes. *)
Lemma migrated_path g : (String.length (DataDir g) <= 900)%nat ->
  key_file (encryption_dir (DataDir g)) "master.key" = tde_master_key_path g.
Proof.
  intros Hl. rewrite key_file_eq by (cbn; auto). unfold tde_master_key_path, path_buf.
  rewrite substring_all by (rewrite !append_length; cbn; lia). reflexivity.
Qed.

(** ** The migration *)

Lemma stat_isdir_run path e :
  exists o fs, stat_isdir path e = (Ok o, set_faults fs e) /\ (no_faults e -> path ∈ dirs e -> o = Some true /\ fs = []).
Proof.
  unfold stat_isdir, no_faults. destruct e as [[|[n|] fs] d fi di v c lg]; cbn; do 2 eexists; (split; [reflexivity|]);
    try discriminate. intros _ Hd. rewrite bool_decide_true by exact Hd. auto.
Qed.

Lemma make_directory_run path e b e' : make_directory path e = (Ok b, e') -> exists fs ds, e' = set_dirs ds (set_faults fs e).
Proof.
  unfold make_directory. intros E. minv E. injection Hm as <- <-. destruct (attempt_run e) as (ok & fs & E1).
  rewrite (bind_step _ _ _ _ _ E1) in E. destruct (ok && negb _); injection E as <- <-; exists fs; eexists; [reflexivity|].
  destruct e; reflexivity.
Qed.

Section Migration.
  Variables old_pgdata new_pgdata : string.
  Hypothesis old_short : (String.length old_pgdata <= 900)%nat.
  Hypothesis new_short : (String.length new_pgdata <= 900)%nat.
  Hypothesis two_clusters : old_pgdata <> new_pgdata.

  Local Abbreviation old_dir := (encryption_dir old_pgdata).
  Local Abbreviation new_dir := (encryption_dir new_pgdata).
  Local Abbreviation new_key := (key_file new_dir "master.key").
  Local Abbreviation new_pub := (key_file new_dir "master.pub").

Lemma old_not_new n m : In n key_files -> In m key_files -> key_file old_dir n <> key_file new_dir m.
Proof. intros Hn Hm E. apply key_file_inj in E as [E _]; auto. Qed.

Lemma key_not_pub : new_key <> new_pub.
Proof. intros E. apply key_file_inj in E as [_ E]; [discriminate|assumption..|cbn; auto|cbn; auto]. Qed.

(** Both files, whatever fails. *)
Lemma copy_key_files_run e e' : copy_key_files old_dir new_dir key_files e = (Ok tt, e') ->
  exists w, warnings e' = warnings e ++ w /\
    (forall q, q <> new_key -> q <> new_pub -> files e' !! q = files e !! q) /\
    (w = [] -> Forall (fun name => copied old_dir new_dir name e e') key_files).
Proof.
  assert (Ik : In "master.key"%string key_files) by (cbn; auto).
  assert (Ip : In "master.pub"%string key_files) by (cbn; auto).
  intros E. cbn [copy_key_files key_files] in E. minv E. destruct a. minv E. destruct a. injection E as <-.
  apply copy_key_file_run in Hm as (w1 & [W1 F1] & C1); [|apply old_not_new; assumption].
  apply copy_key_file_run in Hm0 as (w2 & [W2 F2] & C2); [|apply old_not_new; assumption].
  exists (w1 ++ w2). split; [rewrite W2, W1, app_assoc; reflexivity|]. split.
  { intros q Hk Hp. rewrite F2, F1 by assumption. reflexivity. }
  intros Hw. apply app_nil in Hw as [Hw1 Hw2]. specialize (C1 Hw1). specialize (C2 Hw2). repeat constructor.
  - destruct C1 as (f & f' & H1 & H2 & H3 & H4). exists f, f'. split; [exact H1|]. split; [exact H2|].
    split; [rewrite F2 by exact key_not_pub; exact H3|exact H4].
  - destruct C2 as (f & f' & H1 & H2 & H3 & H4 & H5). exists f, f'.
    split; [rewrite F1 in H1 by (apply old_not_new; assumption); exact H1|].
    do 2 (split; [assumption|]). split; [exact H4|]. rewrite H5. unfold copy_mode.
    rewrite F1 by (intros E; apply key_not_pub; symmetry; exact E). reflexivity.
Qed.

Lemma migrate_run e e' : migrate_tde_keys old_pgdata new_pgdata e = (Ok tt, e') ->
  exists w, warnings e' = warnings e ++ w /\
    (forall q, q <> new_key -> q <> new_pub -> files e' !! q = files e !! q) /\
    (w = [] -> Forall (fun name => copied old_dir new_dir name e e') key_files).
Proof.
  intros E. unfold migrate_tde_keys in E. cbv zeta in E. minv E. injection Hm as <- <-. minv E. minv E. destruct a0.
  assert (Hs : files s0 = files e /\ warnings s0 = warnings e).
  { destruct (stat_isdir_run new_dir (set_log (log e ++ [(LOG, "Migrating TDE encryption keys"%string)]) e)) as (o & fs & E1 & _).
    rewrite E1 in Hm. injection Hm as <- <-. destruct o.
    - injection Hm0 as <-. split; [reflexivity|]. unfold warnings. cbn. rewrite omap_app. apply app_nil_r.
    - minv Hm0. destruct (make_directory_run new_dir _ _ _ Hm) as (fs' & ds & ->). destruct a; [|discriminate Hm0].
      injection Hm0 as <-. split; [reflexivity|]. unfold warnings. cbn. rewrite omap_app. apply app_nil_r. }
  destruct Hs as [Hf Hw]. minv E. destruct a0. apply copy_key_files_run in Hm1 as (w & W & F & C).
  minv E. destruct (stat_run new_key s1) as (o & fs & E2 & _). rewrite E2 in Hm1. injection Hm1 as <- <-.
  destruct o; [|discriminate E]. injection E as <-. exists w. split; [|split].
  - rewrite <- Hw, <- W. unfold warnings. cbn. rewrite omap_app. cbn. apply app_nil_r.
  - intros q Hk Hp. cbn. rewrite F, Hf by assumption. reflexivity.
  - intros Hn. specialize (C Hn). unfold copied, copy_mode in *. rewrite Hf in C. exact C.
Qed.

(** Where nothing fails and the old files are there, the migration ends without a
    warning. *)
Lemma migrate_calm e :
  no_faults e ->
  Forall (fun name => exists f, files e !! key_file old_dir name = Some f /\ 0 < blen (f_data f) <= 1048576) key_files ->
  exists e', migrate_tde_keys old_pgdata new_pgdata e = (Ok tt, e') /\ calmly e e'.
Proof.
  intros Hn Hk. apply Forall_cons in Hk as [(f & Hf & Hl) Hk]. apply Forall_cons in Hk as [(p & Hp & Hpl) _].
  unfold migrate_tde_keys. cbv zeta. set (e0 := set_log (log e ++ [(LOG, "Migrating TDE encryption keys"%string)]) e).
  assert (E0 : elog LOG "Migrating TDE encryption keys" e = (Ok tt, e0)) by reflexivity. mrun E0.
  assert (E1 : exists o e1, stat_isdir new_dir e0 = (Ok o, e0) /\
    (match o with
     | Some _ => ret tt
     | None => let! made := make_directory new_dir in if made then ret tt else pg_fatal "could not create TDE key directory"
     end) e0 = (Ok tt, e1) /\ files e1 = files e /\ calmly e e1).
  { assert (W0 : warnings e0 = warnings e) by (unfold warnings; cbn; rewrite omap_app; apply app_nil_r).
    unfold stat_isdir. rewrite (bind_step _ _ _ _ _ (attempt_no_faults e0 Hn)). unfold gets, make_directory.
    destruct (bool_decide (new_dir ∈ dirs e0)) eqn:Hd; [|destruct (files e0 !! new_dir) as [x|] eqn:Hx]; do 2 eexists;
      (split; [reflexivity|]).
    1,2: split; [reflexivity|]; split; [reflexivity|]; split; [exact Hn|exact W0].
    cbn in *. rewrite Hn, Hd, Hx. cbn. split; [reflexivity|]. split; [reflexivity|]. split; [exact Hn|exact W0]. }
  destruct E1 as (o & e1 & E1 & E2 & F1 & [Hn1 W1]). mrun E1. mrun E2. cbn [copy_key_files key_files].
  rewrite <- F1 in Hf, Hp. destruct (copy_key_file_calm old_dir new_dir "master.key" e1 f Hn1 Hf Hl) as (e2 & E3 & [Hn2 W2]).
  pose proof E3 as E3'. apply copy_key_file_run in E3' as (w & [_ F2] & _); [|apply old_not_new; cbn; auto].
  rewrite <- (F2 (key_file old_dir "master.pub")) in Hp by (apply old_not_new; cbn; auto).
  destruct (copy_key_file_calm old_dir new_dir "master.pub" e2 p Hn2 Hp Hpl) as (e3 & E4 & [Hn3 W3]).
  assert (E5 : copy_key_files old_dir new_dir key_files e1 = (Ok tt, e3))
    by (cbn [copy_key_files key_files]; mrun E3; mrun E4; reflexivity).
  apply copy_key_files_run in E5 as Hc. destruct Hc as (w' & W & _ & C).
  rewrite W3, W2 in W. rewrite <- (app_nil_r (warnings e1)) in W at 1. apply app_inv_head in W. specialize (C (eq_sym W)).
  apply Forall_cons in C as [(f1 & f2 & _ & _ & Hnew & _) _].
  rewrite (bind_step _ _ _ _ _ E5). mrun (stat_calm new_key e3 Hn3). rewrite Hnew. eexists. split; [reflexivity|].
  split; [exact Hn3|]. rewrite <- W1, <- W2, <- W3. unfold warnings. cbn. rewrite omap_app. apply app_nil_r.
Qed.
End Migration.

(** ** Properties of the migration *)

(** C22: safety.  Whatever calls fail, a migration of the keys that pg_upgrade
    lets pass has changed no file but the two key files of the new cluster,
    and unless it has printed a warning these are byte for byte those of the
    old cluster, of at most a megabyte and not empty, and as private as a file
    that was there before or else for the owner only. *)
Theorem migration_copies_or_warns old_pgdata new_pgdata e e' :
  (String.length old_pgdata <= 900)%nat -> (String.length new_pgdata <= 900)%nat -> old_pgdata <> new_pgdata ->
  migrate_tde_keys old_pgdata new_pgdata e = (Ok tt, e') ->
  (forall q, ~ In q (map (key_file (encryption_dir new_pgdata)) key_files) -> files e' !! q = files e !! q) /\
  exists w, warnings e' = warnings e ++ w /\
    (w = [] -> Forall (fun name => copied (encryption_dir old_pgdata) (encryption_dir new_pgdata) name e e') key_files).
Proof.
  intros Ho Hn Hne E. destruct (migrate_run old_pgdata new_pgdata Ho Hn Hne e e' E) as (w & W & F & C).
  split; [|exists w; auto]. intros q Hq. apply F; intros ->; apply Hq; cbn; auto.
Qed.

Section Upgrade.
  Context `{CL : CryptoLaws}.

(** C21: roundtrip.  Where no call fails, an upgrade of an encrypted cluster whose
    transfer of data leaves the old key files alone ends without an error, and
    a server of the new cluster unwraps the same master key as the old one with
    the same secret key. *)
Theorem upgraded_server_unlocks old_pgdata new_pgdata transfer e k sk raw f p :
  (String.length old_pgdata <= 900)%nat -> (String.length new_pgdata <= 900)%nat -> old_pgdata <> new_pgdata ->
  no_faults e -> encryption_dir old_pgdata ∈ dirs e ->
  files e !! key_file (encryption_dir old_pgdata) "master.key" = Some f ->
  files e !! key_file (encryption_dir old_pgdata) "master.pub" = Some p ->
  0 < blen (f_data f) <= 1048576 -> 0 < blen (f_data p) <= 1048576 ->
  OQS_KEM_new "ML-KEM-768" = Some k -> wraps k sk raw (f_data f) ->
  (forall e1, no_faults e1 -> exists e2, transfer e1 = (Ok tt, e2) /\ no_faults e2 /\
    forall name, In name key_files -> files e2 !! key_file (encryption_dir old_pgdata) name
                                    = files e1 !! key_file (encryption_dir old_pgdata) name) ->
  exists e', upgrade transfer old_pgdata new_pgdata e = (Ok tt, e') /\
    forall s es, ready s -> MasterKeyLoaded (sv_master s) = false -> DataDir (sv_guc s) = new_pgdata ->
      files (sv_env s) !! tde_master_key_path (sv_guc s) = files e' !! key_file (encryption_dir new_pgdata) "master.key" ->
      tde_key_provider_fetch (sv_guc s) (sv_env s) = (Ok (to_hex sk), es) -> logs (sv_env s) es ->
      exists s', tde_unwrap_master_key s = (Ok tt, s') /\ sv_master s' = mkMaster raw true true.
Proof.
  intros Ho Hn Hne Hc Hd Hf Hp Hfl Hpl Hk Hw Htr.
  destruct (stat_isdir_run (encryption_dir old_pgdata) e) as (o & fs & E1 & H1). destruct (H1 Hc Hd) as [-> ->].
  set (e1 := set_log (log e ++ [(LOG, "FortressQL: TDE-encrypted cluster detected"%string)]) (set_faults [] e)).
  assert (E2 : detect_tde old_pgdata e = (Ok true, e1)) by (unfold detect_tde; mrun E1; reflexivity).
  destruct (Htr e1 eq_refl) as (e2 & E3 & Hn2 & Hkeep).
  pose proof (Hkeep "master.key"%string ltac:(cbn; auto)) as Kf. pose proof (Hkeep "master.pub"%string ltac:(cbn; auto)) as Kp.
  change (files e1) with (files e) in Kf, Kp. rewrite Hf in Kf. rewrite Hp in Kp.
  destruct (migrate_calm old_pgdata new_pgdata Ho Hn Hne e2 Hn2) as (e' & E4 & [_ W]); [repeat constructor; eauto|].
  exists e'. split; [unfold upgrade; mrun E2; mrun E3; exact E4|].
  destruct (migrate_run old_pgdata new_pgdata Ho Hn Hne e2 e' E4) as (w & W' & _ & C). rewrite W in W'.
  rewrite <- (app_nil_r (warnings e2)) in W' at 1. apply app_inv_head in W'. specialize (C (eq_sym W')).
  apply Forall_cons in C as [(f1 & f' & H2 & _ & H3 & H4 & _) _]. rewrite Kf in H2. injection H2 as <-.
  intros s es Hs Hl Hdir Hsame Hfetch Hlogs. rewrite H3 in Hsame. rewrite <- H4 in Hw.
  destruct (unwrap_ok s k sk raw f' es Hs Hk Hl Hsame Hw Hfetch Hlogs) as (s' & Hu & Hm & _). eauto.
Qed.
End Upgrade.

(** What the last check of the migration does not see: where the old cluster
    has lost its key files but the new one has a key of its own, the migration
    succeeds and the new cluster keeps that key. *)
Theorem stale_key_accepted old_pgdata new_pgdata e g :
  no_faults e -> encryption_dir new_pgdata ∈ dirs e ->
  Forall (fun name => files e !! key_file (encryption_dir old_pgdata) name = None) key_files ->
  files e !! key_file (encryption_dir new_pgdata) "master.key" = Some g ->
  exists e', migrate_tde_keys old_pgdata new_pgdata e = (Ok tt, e') /\ files e' = files e.
Proof.
  intros Hn Hd Hold Hg. apply Forall_cons in Hold as [H1 Hold]. apply Forall_cons in Hold as [H2 _].
  destruct e as [fs d fi di v c lg]. unfold no_faults in Hn. cbn in Hn, Hd, H1, H2, Hg. subst fs.
  unfold migrate_tde_keys, stat_isdir, copy_key_files, key_files, copy_key_file. cbv zeta. eexists. split; [|shelve].
  cbn. rewrite bool_decide_true by exact Hd. cbn. rewrite H1. cbn. rewrite H2. cbn. rewrite Hg. reflexivity.
  Unshelve. reflexivity.
Qed.

(** ** Properties of the base backup *)

(** Without failures, exclusion removes the two key files of a plain backup and
    nothing else. *)
Theorem excluded_backup_has_no_keys dir e f :
  no_faults e -> (String.length dir <= 900)%nat ->
  files e !! key_file (encryption_dir dir) "master.key" = Some f ->
  exists e', BaseBackup_keys "p" (Some dir) (Some "exclude"%string) e = (Ok true, e') /\
    files e' = delete (key_file (encryption_dir dir) "master.pub")
                 (delete (key_file (encryption_dir dir) "master.key") (files e)).
Proof.
  intros Hn Hl Hf. assert (Hpath : path_buf (dir ++ "/global/pg_encryption/master.key") = key_file (encryption_dir dir) "master.key").
  { rewrite key_file_eq by (cbn; auto). unfold path_buf. apply substring_all. rewrite !append_length. cbn. lia. }
  unfold BaseBackup_keys. change (if Ascii.eqb "p" "p" then Some dir else None) with (Some dir). cbv iota. rewrite Hpath.
  mrun (stat_calm (key_file (encryption_dir dir) "master.key") e Hn).
  rewrite Hf. destruct e as [fs d fi di v c lg]. unfold no_faults in Hn. cbn in Hn, Hf. subst fs.
  unfold unlink. cbn. rewrite Hf. cbn. destruct (delete _ fi !! key_file _ "master.pub") as [p|] eqn:Hp; cbn;
    eexists; (split; [reflexivity|]); cbn; [reflexivity|]. symmetry. apply delete_id. exact Hp.
Qed.

(** Failures to remove them go unnoticed: the same answer, with the key still
    there. *)
Lemma failed_removal_unnoticed :
  let e := mkEnv [None; Some 0%nat; Some 0%nat] 0 {["/b/global/pg_encryption/master.key"%string := mkFile [1] 384]} ∅ ∅ ∅ [] in
  exists e', BaseBackup_keys "p" (Some "/b"%string) (Some "exclude"%string) e = (Ok true, e') /\ files e' = files e.
Proof. eexists. split; reflexivity. Qed.

(** A backup in tar format keeps its keys whatever was asked for, and verify-only
    does the same as include. *)
Lemma tar_keeps_keys dir handling e : BaseBackup_keys "t" dir handling e = (Ok false, e).
Proof. reflexivity. Qed.

Lemma verify_only_is_include format dir e :
  BaseBackup_keys format dir (Some "verify-only"%string) e = BaseBackup_keys format dir (Some "include"%string) e.
Proof. reflexivity. Qed.

(** ** Witnesses *)

Import Toy.

#[local] Instance upgrade_heap : Heap := {| uninit := zeros |}.

(** The old cluster has made its key with the tool. *)
Definition old_cluster : env := snd (cmd_init "/old" false (mkEnv [] 0 ∅ {["/old"%string]} ∅ ∅ [])).

Lemma migration_copies_or_warns_witness : exists e',
  migrate_tde_keys "/old" "/pgdata" old_cluster = (Ok tt, e') /\ warnings e' = warnings old_cluster /\
  Forall (fun name => copied (encryption_dir "/old") (encryption_dir "/pgdata") name old_cluster e') key_files.
Proof.
  set (r := migrate_tde_keys "/old" "/pgdata" old_cluster). assert (E : r = (Ok tt, snd r)) by (vm_compute; reflexivity).
  destruct (migration_copies_or_warns "/old" "/pgdata" old_cluster (snd r) ltac:(cbn; lia) ltac:(cbn; lia) ltac:(discriminate) E)
    as (_ & w & W & C).
  assert (W0 : warnings (snd r) = [] /\ warnings old_cluster = []) by (vm_compute; auto).
  exists (snd r). split; [exact E|]. destruct W0 as [W1 W2]. rewrite W1, W2 in *. split; [reflexivity|]. apply C. rewrite W. reflexivity.
Defined.

Lemma sized_file (o : option file) :
  match o with Some f => (0 <? blen (f_data f)) && (blen (f_data f) <=? 1048576) | None => false end = true ->
  exists f, o = Some f /\ 0 < blen (f_data f) <= 1048576.
Proof. destruct o as [f|]; [|discriminate]. intros H. exists f. split; [reflexivity|lia]. Qed.

(** Nothing is transferred. *)
Lemma upgraded_server_unlocks_witness : exists e' raw hex s',
  upgrade (ret tt) "/old" "/pgdata" old_cluster = (Ok tt, e') /\
  tde_unwrap_master_key
    (server_boot sample_guc (mkEnv [] 0 (files e') ∅ {["FORTRESSQL_KEM_SECRET_KEY"%string := hex]} ∅ []))
    = (Ok tt, s') /\ sv_master s' = mkMaster raw true true.
Proof.
  destruct (generate_and_write_ok "/old" (toy_kem 8 12 10) (mkEnv [] 0 ∅ {["/old"%string]} ∅ ∅ []))
    as (d & raw & f & e1 & Hr & Hf & Hw); [reflexivity|reflexivity|reflexivity|reflexivity|discriminate|].
  assert (He : e1 = old_cluster) by (change (e1 = snd (generate_and_write_master_key "/old"
    (mkEnv [] 0 ∅ {["/old"%string]} ∅ ∅ []))); rewrite Hr; reflexivity).
  subst e1. set (sk := snd (OQS_KEM_keypair (toy_kem 8 12 10) d)) in *.
  destruct (sized_file (files old_cluster !! key_file (encryption_dir "/old") "master.pub")) as (g & Hp & Hgl); [vm_compute; reflexivity|].
  destruct (sized_file (files old_cluster !! key_file (encryption_dir "/old") "master.key")) as (f' & Hf' & Hfl); [vm_compute; reflexivity|].
  assert (Hd : encryption_dir "/old" ∈ dirs old_cluster) by (apply (bool_decide_eq_true_1 _); vm_compute; reflexivity).
  assert (Hn : no_faults old_cluster) by (vm_compute; reflexivity).
  change (under "/old" PQC_TDE_MASTER_KEY_FILE) with (key_file (encryption_dir "/old") "master.key") in Hf.
  assert (f' = f) by congruence. subst f'.
  destruct (upgraded_server_unlocks "/old" "/pgdata" (ret tt) old_cluster (toy_kem 8 12 10) sk raw f g
    ltac:(cbn; lia) ltac:(cbn; lia) ltac:(discriminate) Hn Hd Hf Hp Hfl Hgl eq_refl Hw
    (fun e1 Hn1 => ex_intro _ e1 (conj eq_refl (conj Hn1 (fun _ _ => eq_refl))))) as (e' & Hu & Hs).
  exists e', raw, (to_hex sk). set (s := server_boot _ _). assert (L : kem_laws (toy_kem 8 12 10)) by (apply kem_sizes_of; reflexivity).
  destruct (Hs s (sv_env s)) as (s' & Hu' & Hm);
    [split; reflexivity|reflexivity|reflexivity|rewrite <- migrated_path by (cbn; lia); reflexivity| |apply logs_refl|eauto].
  apply fetch_env_ok; [reflexivity|reflexivity|]. intros E. apply (f_equal length) in E.
  unfold sk in E. rewrite length_to_hex, (kem_sk_length (toy_kem 8 12 10) L) in E. discriminate E.
Defined.
