(* ===== verification/PeerName.v ===== *)
(** * Names in certificates

    Whether the certificate of a server is for the host libpq connects to
    (src/interfaces/libpq/fe-secure-common.c and fe-secure-openssl.c), and the
    names the server takes from the certificate of a client
    ([be_tls_open_server] of src/backend/libpq/be-secure-openssl.c), which the
    certificate logins of [Auth] compare with the role.  The certificate is
    given by its names; the conversions of addresses are a class. *)
From Stdlib Require Import ZArith Lia Bool String List.
From stdpp Require Import base list.
From S2P Require Import Prelude CryptoIface Env CString ScramSecret Scram Auth.
Import ListNotations.
Local Open Scope Z_scope.
Local Open Scope pg_scope.

Definition STAR : Z := 42.
Definition DOT : Z := 46.

(** [inet_aton], [inet_pton] for IPv6 and [pg_inet_net_ntop]. *)
Class Inet := {
  inet_aton : bytes -> option bytes;
  inet_pton6 : bytes -> option bytes;
  pg_inet_net_ntop : bytes -> option bytes
}.

(** [pg_strcasecmp(a, b) == 0] *)
Definition same_name (a b : bytes) : bool := bytes_eqb (bytes_lower a) (bytes_lower b).

(** ** The host name *)

(** The first dot of [string] is found left of where the pattern starts to match
    if it is at an index below [lenstr - lenpat]. *)
Definition wildcard_certificate_match (pattern string : bytes) : bool :=
  let lenpat := length pattern in
  let lenstr := length string in
  if (lenpat <? 3)%nat || negb (nth 0 pattern 0 =? STAR) || negb (nth 1 pattern 0 =? DOT) then false
  else if (lenstr <? lenpat)%nat then false
  else if negb (same_name (skipn 1 pattern) (skipn (lenstr - lenpat + 1) string)) then false
  else
    let before := fst (span (fun c => negb (c =? DOT)) string) in
    negb (length before <? lenstr - lenpat)%nat.

Section Peer.
  Context `{Inet}.

(** The result and the name to report. *)
Definition pq_verify_peer_name_matches_certificate_name (host : option bytes) (namedata : bytes) : M env (Z * option bytes) :=
  match host with
  | None | Some [] => ret (-1, None)
  | Some host =>
      let! name := attempt in
      if negb name then ret (-1, None)
      else if negb (length namedata =? length (cstring namedata))%nat then ret (-1, None)
      else if same_name namedata host then ret (1, Some namedata)
      else if wildcard_certificate_match namedata host then ret (1, Some namedata)
      else ret (0, Some namedata)
  end.

Definition pq_verify_peer_name_matches_certificate_ip (host : option bytes) (ipdata : bytes) : M env (Z * option bytes) :=
  match host with
  | None | Some [] => ret (-1, None)
  | Some host =>
      let compare (addr : option bytes) : Z :=
        match addr with Some a => if bytes_eqb ipdata a then 1 else 0 | None => 0 end in
      let finish (rc : Z) : M env (Z * option bytes) :=
        match pg_inet_net_ntop ipdata with
        | None => ret (-1, None)
        | Some addrstr => let! copied := attempt in ret (rc, if copied then Some addrstr else None)
        end in
      if (length ipdata =? 4)%nat then finish (compare (inet_aton host))
      else if (length ipdata =? 16)%nat then finish (compare (inet_pton6 host))
      else ret (-1, None)
  end.

Inductive GENERAL_NAME :=
| GEN_DNS (dNSName : option bytes)
| GEN_IPADD (iPAddress : option bytes)
| GEN_OTHER.

(** The extension with alternative names, and the entry for the common name. *)
Record peer_certificate := mkPeer {
  subject_alt_name : option (list GENERAL_NAME);
  common_name : option (option bytes)
}.

Definition openssl_verify_peer_name_matches_certificate_name (host : option bytes) (name_entry : option bytes) : M env (Z * option bytes) :=
  match name_entry with
  | None => ret (-1, None)
  | Some namedata => pq_verify_peer_name_matches_certificate_name host namedata
  end.

Definition openssl_verify_peer_name_matches_certificate_ip (host : option bytes) (addr_entry : option bytes) : M env (Z * option bytes) :=
  match addr_entry with
  | None => ret (-1, None)
  | Some addrdata => pq_verify_peer_name_matches_certificate_ip host addrdata
  end.

Definition is_ip_address (host : bytes) : bool :=
  match inet_aton host, inet_pton6 host with None, None => false | _, _ => true end.

(** Whether a name is of the type of the host. *)
Definition of_host_type (host : bytes) (name : GENERAL_NAME) : bool :=
  match name with
  | GEN_DNS _ => negb (is_ip_address host)
  | GEN_IPADD _ => is_ip_address host
  | GEN_OTHER => false
  end.

(** What the loops pass on: names examined and the first of them. *)
Definition examined : Type := nat * option bytes.

Definition note_name (seen : examined) (alt_name : option bytes) : examined :=
  (S (fst seen), match snd seen with Some _ => snd seen | None => alt_name end).

(** The result, whether the common name is still to be checked, and the names. *)
Fixpoint san_loop (host : bytes) (names : list GENERAL_NAME) (check_cn : bool) (seen : examined) : M env (Z * bool * examined) :=
  match names with
  | [] => ret (0, check_cn, seen)
  | name :: names' =>
      let check_cn := check_cn && negb (of_host_type host name) in
      let go (r : Z * option bytes) : M env (Z * bool * examined) :=
        let seen := note_name seen (snd r) in
        if fst r =? 0 then san_loop host names' check_cn seen else ret (fst r, false, seen) in
      match name with
      | GEN_DNS dNSName => let! r := openssl_verify_peer_name_matches_certificate_name (Some host) dNSName in go r
      | GEN_IPADD iPAddress => let! r := openssl_verify_peer_name_matches_certificate_ip (Some host) iPAddress in go r
      | GEN_OTHER => san_loop host names' check_cn seen
      end
  end.

Definition pgtls_verify_peer_name_matches_certificate_guts (host : bytes) (peer : peer_certificate) : M env (Z * examined) :=
  let! (rc, check_cn, seen) :=
    match subject_alt_name peer with
    | Some names => san_loop host names true (0%nat, None)
    | None => ret (0, true, (0%nat, None))
    end in
  if check_cn then
    match common_name peer with
    | Some entry =>
        let! r := openssl_verify_peer_name_matches_certificate_name (Some host) entry in
        ret (fst r, note_name seen (snd r))
    | None => ret (rc, seen)
    end
  else ret (rc, seen).

Definition pq_verify_peer_name_matches_certificate (sslmode : string) (host : option bytes) (peer : peer_certificate) : M env bool :=
  if negb (String.eqb sslmode "verify-full") then ret true
  else
    match host with
    | None | Some [] => ret false
    | Some host =>
        let! (rc, seen) := pgtls_verify_peer_name_matches_certificate_guts host peer in
        ret (rc =? 1)
    end.
End Peer.

(** ** The certificate of a client *)

(** Its common name as it is in the certificate, and its subject in the format of
    RFC 2253, where it can be printed. *)
Record client_certificate := mkClientCert {
  subject_cn : option bytes;
  subject_dn : option bytes;
  cert_x509 : X509
}.

Definition set_peer (port : Port) (cert : option X509) (cn dn : option bytes) (valid : bool) : Port :=
  mkPort (hba port) (user_name port) (ssl_in_use port) cn dn valid cert (certificate_hash port).

(** The part of [be_tls_open_server] after the handshake. *)
Definition open_server_peer (port : Port) (cert : option client_certificate) : M env (Z * Port) :=
  let port_with cn dn valid := set_peer port (cert_x509 <$> cert) cn dn valid in
  match cert with
  | None => ret (0, port_with None None false)
  | Some c =>
      let failed : M env (Z * Port) := ret (-1, port_with None None false) in
      let subject (cn : option bytes) : M env (Z * Port) :=
        let! bio := attempt in
        if negb bio then failed
        else
          let! printed := attempt in
          match (if printed then subject_dn c else None) with
          | None => failed
          | Some dn =>
              if negb (length dn =? length (cstring dn))%nat then
                do! elog LOG "SSL certificate's distinguished name contains embedded null" in failed
              else ret (0, port_with cn (Some dn) true)
          end in
      match subject_cn c with
      | None => subject None
      | Some cn =>
          let! copied := attempt in
          if negb copied then failed
          else if negb (length cn =? length (cstring cn))%nat then
            do! elog LOG "SSL certificate's common name contains embedded null" in failed
          else subject (Some cn)
      end
  end.

(** ** What matching means *)

Lemma length_lower l : length (bytes_lower l) = length l.
Proof. apply length_map. Qed.

Lemma same_name_iff a b : same_name a b = true <-> bytes_lower a = bytes_lower b.
Proof. apply bytes_eqb_eq. Qed.

Lemma lower_dot c : (if (65 <=? c) && (c <=? 90) then c + 32 else c) = DOT <-> c = DOT.
Proof. unfold DOT. destruct ((65 <=? c) && (c <=? 90)) eqn:E; lia. Qed.

(** The part before the first dot is short exactly if there is a dot in the
    first [n] places. *)
Lemma dot_before n l : (n <= length l)%nat ->
  (length (fst (span (fun c => negb (c =? DOT)%Z) l)) <? n)%nat = true <-> In DOT (firstn n l).
Proof.
  revert n. induction l as [|c l IH]; intros [|n] Hn; cbn [length firstn] in *; try lia.
  - rewrite Nat.ltb_lt. split; [lia|intros []].
  - rewrite Nat.ltb_lt. split; [lia|intros []].
  - cbn [span]. destruct (Z.eqb_spec c DOT) as [->|Hc]; cbn [negb].
    + split; [left; reflexivity|reflexivity].
    + destruct (span _ l) as [a b] eqn:E. specialize (IH n ltac:(lia)). rewrite ?E in IH. cbn [fst length] in *.
      change (S (length a) <? S n)%nat with (length a <? n)%nat. rewrite IH. cbn [In]. split; [auto|]. intros [Hd|Hd]; [congruence|exact Hd].
Qed.

(** A name with a wildcard is for the hosts with one label in the place of the
    star.  What the code takes for a label is not empty, and may have a dot at
    its end but nowhere else. *)
Definition wildcard_for (pattern host : bytes) : Prop := exists suffix label tail,
  pattern = STAR :: DOT :: suffix /\ suffix <> [] /\ host = label ++ DOT :: tail /\ label <> [] /\
  bytes_lower tail = bytes_lower suffix /\ ~ In DOT (removelast label).

(** The comparison with a wildcard, done with lengths and pointers
    into the two strings, accepts exactly the host names that consist of a
    label and, without regard to case, what follows the star. *)
Lemma wildcard_match_iff (pattern host : bytes) :
  wildcard_certificate_match pattern host = true <-> wildcard_for pattern host.
Proof.
  unfold wildcard_certificate_match. cbv zeta. split.
  - destruct pattern as [|a [|b [|c suffix]]]; cbn [length nth]; try (intros E; discriminate E).
    change (S (S (S (length suffix))) <? 3)%nat with false.
    destruct (Z.eqb_spec a STAR) as [->|]; cbn [negb orb]; [|discriminate].
    destruct (Z.eqb_spec b DOT) as [->|]; cbn [negb orb]; [|discriminate]. set (n := (length host - S (S (S (length suffix))))%nat).
    destruct (Nat.ltb_spec (length host) (S (S (S (length suffix))))) as [|Hlen]; [discriminate|].
    destruct (same_name _ _) eqn:Hs; [|discriminate]. apply same_name_iff in Hs. intros Hd. apply negb_true_iff in Hd.
    cbn [skipn] in Hs. rewrite Nat.add_1_r in Hs. pose proof (firstn_skipn (S n) host) as Hh.
    destruct (skipn (S n) host) as [|x tail] eqn:Ht; [discriminate|]. injection Hs as Hx Htl.
    symmetry in Hx. apply (lower_dot x) in Hx. subst x. exists (c :: suffix), (firstn (S n) host), tail. split; [reflexivity|].
    split; [discriminate|]. split; [symmetry; exact Hh|]. split.
    { intros E. apply (f_equal length) in E. rewrite length_firstn in E. cbn [length] in E. lia. }
    split; [symmetry; exact Htl|]. rewrite removelast_firstn by lia.
    intros Hin. apply dot_before in Hin; [congruence|lia].
  - intros (suffix & label & tail & -> & Hs & -> & Hl & Ht & Hd).
    assert (Hlt : length tail = length suffix) by (rewrite <- (length_lower tail), Ht; apply length_lower).
    destruct suffix as [|c suffix]; [contradiction|]. destruct label as [|x label]; [contradiction|].
    rewrite length_app. cbn [length nth] in *. change ((S (S (S (length suffix))) <? 3)%nat || _ || _) with false. cbv iota.
    destruct (Nat.ltb_spec (S (length label) + S (length tail)) (S (S (S (length suffix))))); [lia|].
    replace (S (length label) + S (length tail) - S (S (S (length suffix))))%nat with (length label) by lia.
    rewrite Nat.add_1_r. replace (skipn (S (length label)) ((x :: label) ++ DOT :: tail)) with (DOT :: tail)
      by (cbn [app skipn]; rewrite skipn_app, skipn_all, Nat.sub_diag; reflexivity).
    cbn [skipn]. rewrite (proj2 (same_name_iff _ _)) by (cbn [bytes_lower map]; f_equal; symmetry; exact Ht). cbn [negb].
    apply negb_true_iff. apply not_true_iff_false. rewrite dot_before by (cbn; rewrite length_app; lia).
    rewrite firstn_app. replace (length label - length (x :: label))%nat with 0%nat by (cbn; lia). cbn [firstn].
    rewrite app_nil_r. rewrite <- (removelast_firstn (x :: label) (n := length label)) by (cbn; lia).
    rewrite firstn_all2 by (cbn; lia). exact Hd.
Qed.

Section Matching.
  Context `{Inet}.
  Variable host : bytes.
  Hypothesis host_given : host <> [].

(** A name of the certificate that is the host's, and one that is well-formed
    but another's. *)
Definition names_host (name : bytes) : Prop :=
  ~ In 0 name /\ (bytes_lower name = bytes_lower host \/ wildcard_for name host).

Definition is_address (addr : bytes) : Prop :=
  (length addr = 4%nat /\ inet_aton host = Some addr) \/ (length addr = 16%nat /\ inet_pton6 host = Some addr).

Definition printable (addr : bytes) : Prop := (length addr = 4%nat \/ length addr = 16%nat) /\ is_Some (pg_inet_net_ntop addr).

Definition accepts (name : GENERAL_NAME) : Prop :=
  match name with
  | GEN_DNS (Some n) => names_host n
  | GEN_IPADD (Some a) => printable a /\ is_address a
  | _ => False
  end.

Definition passes (name : GENERAL_NAME) : Prop :=
  match name with
  | GEN_DNS (Some n) => ~ In 0 n /\ ~ names_host n
  | GEN_IPADD (Some a) => printable a /\ ~ is_address a
  | GEN_OTHER => True
  | _ => False
  end.

(** A check that says 1 exactly for what is accepted and 0 for what is passed
    over, but for a lack of memory. *)
Definition decides (m : M env (Z * option bytes)) (yes no : Prop) : Prop := forall e,
  exists rc o e', m e = (Ok (rc, o), e') /\ (rc = 1 -> yes) /\ (rc = 0 -> no) /\
    (no_faults e -> no_faults e' /\ (yes -> rc = 1) /\ (no -> rc = 0)).

Lemma length_cstring l : length l = length (cstring l) <-> ~ In 0 l.
Proof.
  induction l as [|c l IH]; cbn; [tauto|]. destruct (Z.eqb_spec c 0) as [->|Hc]; cbn.
  - split; [discriminate|]. intros Hn. exfalso. apply Hn. auto.
  - split.
    + intros E [E1|E1]; [congruence|]. apply (proj1 IH); [lia|exact E1].
    + intros Hn. f_equal. apply IH. intros E1. apply Hn. auto.
Qed.

Lemma decides_name n : decides (pq_verify_peer_name_matches_certificate_name (Some host) n)
  (names_host n) (~ In 0 n /\ ~ names_host n).
Proof.
  intros e. unfold pq_verify_peer_name_matches_certificate_name. destruct host as [|c h] eqn:Hh; [contradiction|]. rewrite <- Hh in *.
  destruct (attempt_run e) as (b & fs & E). rewrite (bind_step _ _ _ _ _ E).
  destruct b; cbn [negb].
  2: { do 3 eexists. split; [reflexivity|]. split; [discriminate|]. split; [discriminate|]. intros Hn.
       rewrite attempt_no_faults in E by exact Hn. discriminate E. }
  assert (Hnf : no_faults e -> no_faults (set_faults fs e)).
  { intros Hn. rewrite attempt_no_faults in E by exact Hn. injection E as E. unfold no_faults in *. congruence. }
  destruct (Nat.eqb_spec (length n) (length (cstring n))) as [Hz|Hz]; rewrite length_cstring in Hz; cbn [negb].
  2: { do 3 eexists. split; [reflexivity|]. unfold names_host. split; [discriminate|]. split; [discriminate|]. tauto. }
  assert (Hiff : names_host n <-> same_name n host || wildcard_certificate_match n host = true).
  { unfold names_host. rewrite orb_true_iff, same_name_iff, wildcard_match_iff. tauto. }
  destruct (same_name n host), (wildcard_certificate_match n host); do 3 eexists; (split; [reflexivity|]);
    cbn [orb] in Hiff; intuition (congruence || discriminate).
Qed.

Lemma decides_ip a : decides (pq_verify_peer_name_matches_certificate_ip (Some host) a)
  (printable a /\ is_address a) (printable a /\ ~ is_address a).
Proof.
  intros e. unfold pq_verify_peer_name_matches_certificate_ip. destruct host as [|c h] eqn:Hh; [contradiction|].
  rewrite <- Hh. cbv zeta. unfold printable, is_address.
  assert (Hcmp : forall o : option bytes, match o with Some b => if bytes_eqb a b then 1 else 0 | None => 0 end = 1 /\ o = Some a \/
    match o with Some b => if bytes_eqb a b then 1 else 0 | None => 0 end = 0 /\ o <> Some a).
  { intros [b|]; [|right; split; [reflexivity|discriminate]]. destruct (bytes_eqb a b) eqn:E; [left|right]; (split; [reflexivity|]).
    - apply bytes_eqb_eq in E. congruence.
    - intros [= ->]. rewrite bytes_eqb_refl in E. discriminate E. }
  pose proof (Hcmp (inet_aton host)) as H4. pose proof (Hcmp (inet_pton6 host)) as H16. clear Hcmp.
  set (r4 := match inet_aton host with Some b => _ | None => _ end) in *.
  set (r16 := match inet_pton6 host with Some b => _ | None => _ end) in *. clearbody r4 r16.
  assert (Hs : forall b : bytes, is_Some (Some b)) by eauto. assert (Hns : ~ is_Some (@None bytes)) by (intros [? E]; discriminate E).
  destruct (attempt_run e) as (b & fs & E).
  assert (Hnf : no_faults e -> no_faults (set_faults fs e)).
  { intros Hn. rewrite attempt_no_faults in E by exact Hn. injection E as _ E. unfold no_faults in *. congruence. }
  destruct (Nat.eqb_spec (length a) 4) as [L4|L4]; [|destruct (Nat.eqb_spec (length a) 16) as [L16|L16]].
  3: { do 3 eexists. split; [reflexivity|]. intuition (try congruence; try lia). }
  all: destruct (pg_inet_net_ntop a) as [str|]; [rewrite (bind_step _ _ _ _ _ E); specialize (Hs str)|];
    do 3 eexists; (split; [reflexivity|]); intuition (try congruence; try lia).
Qed.

(** Some name is accepted, and the names before it are well-formed. *)
Definition accepted_in (names : list GENERAL_NAME) : Prop := exists before name after,
  names = before ++ name :: after /\ Forall passes before /\ accepts name.

Lemma accepted_in_cons name names : passes name -> ~ accepts name -> accepted_in (name :: names) <-> accepted_in names.
Proof.
  intros Hp Ha. split.
  - intros ([|n before] & m & after & E & Hb & Hm); injection E as -> ->; [contradiction|].
    apply Forall_cons in Hb as [_ Hb]. exists before, m, after. auto.
  - intros (before & m & after & -> & Hb & Hm). exists (name :: before), m, after. split; [reflexivity|]. auto.
Qed.

Lemma passes_not_accepts name : passes name -> ~ accepts name.
Proof. destruct name as [[n|]|[a|]|]; cbn; tauto. Qed.

Lemma decides_missing : decides (ret (-1, None)) False False.
Proof. intros e. do 3 eexists. split; [reflexivity|]. intuition discriminate. Qed.

Lemma decides_dns d : decides (openssl_verify_peer_name_matches_certificate_name (Some host) d) (accepts (GEN_DNS d)) (passes (GEN_DNS d)).
Proof. destruct d as [n|]; [apply decides_name|apply decides_missing]. Qed.

Lemma decides_ipadd a : decides (openssl_verify_peer_name_matches_certificate_ip (Some host) a) (accepts (GEN_IPADD a)) (passes (GEN_IPADD a)).
Proof. destruct a as [n|]; [apply decides_ip|apply decides_missing]. Qed.

(** What the loop over the alternative names answers. *)
Definition loop_result (names : list GENERAL_NAME) (check_cn : bool) (e : env) (r : Z * bool * examined) (e' : env) : Prop :=
  let '(rc, cn, _) := r in
  (rc = 1 -> accepted_in names) /\ (cn = true -> rc = 0) /\
  (rc = 0 -> Forall passes names /\ cn = check_cn && forallb (fun n => negb (of_host_type host n)) names) /\
  (no_faults e -> no_faults e' /\ (accepted_in names -> rc = 1) /\ (Forall passes names -> rc = 0)).

(** One name that was checked by [m]. *)
Lemma loop_step name names check_cn seen m e :
  decides m (accepts name) (passes name) ->
  (forall check_cn seen e, exists r e', san_loop host names check_cn seen e = (Ok r, e') /\ loop_result names check_cn e r e') ->
  exists r e',
    (let! r := m in
     let seen := note_name seen (snd r) in
     if fst r =? 0 then san_loop host names (check_cn && negb (of_host_type host name)) seen else ret (fst r, false, seen)) e
      = (Ok r, e') /\ loop_result (name :: names) check_cn e r e'.
Proof.
  intros Hm IH. destruct (Hm e) as (rc & o & e1 & E & Hy & Hn & Hc). rewrite (bind_step _ _ _ _ _ E). cbn [fst snd].
  destruct (Z.eqb_spec rc 0) as [->|Hz].
  - specialize (Hn eq_refl). pose proof (passes_not_accepts name Hn) as Hna.
    destruct (IH (check_cn && negb (of_host_type host name)) (note_name seen o) e1) as ([[rc cn] seen'] & e2 & E2 & H1 & H2 & H3 & H4).
    do 2 eexists. split; [exact E2|]. unfold loop_result. rewrite (accepted_in_cons name names Hn Hna).
    split; [exact H1|]. split; [exact H2|]. split.
    + intros Hr. destruct (H3 Hr) as [Hf ->]. split; [auto|]. cbn [forallb]. rewrite andb_assoc. reflexivity.
    + intros Hnf. destruct (Hc Hnf) as [Hnf1 _]. destruct (H4 Hnf1) as (Hnf2 & Ha & Hp). split; [exact Hnf2|]. split; [exact Ha|].
      intros Hf. apply Forall_cons in Hf as [_ Hf]. auto.
  - do 2 eexists. split; [reflexivity|]. split; [|split; [discriminate|split; [contradiction|]]].
    + intros Hr. exists [], name, names. split; [reflexivity|]. auto.
    + intros Hnf. destruct (Hc Hnf) as (Hnf1 & Ha & Hp). split; [exact Hnf1|]. split.
      * intros ([|n before] & m' & after & E' & Hb & Hm'); injection E' as -> ->; [auto|].
        apply Forall_cons in Hb as [Hb _]. exfalso. auto.
      * intros Hf. apply Forall_cons in Hf as [Hf _]. exfalso. auto.
Qed.

Lemma san_loop_run names check_cn seen e :
  exists r e', san_loop host names check_cn seen e = (Ok r, e') /\ loop_result names check_cn e r e'.
Proof.
  revert check_cn seen e. induction names as [|name names IH]; intros check_cn seen e.
  - do 2 eexists. split; [reflexivity|]. split; [discriminate|]. split; [reflexivity|].
    split; [rewrite andb_true_r; auto|]. intros Hn. split; [exact Hn|]. split; [|reflexivity].
    intros (before & n & after & E & _). destruct before; discriminate E.
  - cbn [san_loop]. cbv zeta. destruct name as [d|a|].
    + apply loop_step; [apply decides_dns|exact IH].
    + apply loop_step; [apply decides_ipadd|exact IH].
    + destruct (IH (check_cn && negb (of_host_type host GEN_OTHER)) seen e) as ([[rc cn] seen'] & e2 & E2 & H1 & H2 & H3 & H4).
      do 2 eexists. split; [exact E2|]. unfold loop_result. rewrite (accepted_in_cons GEN_OTHER names I (fun F => F)).
      split; [exact H1|]. split; [exact H2|]. split.
      * intros Hr. destruct (H3 Hr) as [Hf ->]. split; [constructor; [exact I|exact Hf]|]. cbn. rewrite andb_true_r. reflexivity.
      * intros Hn. destruct (H4 Hn) as (Hn2 & Ha & Hp). split; [exact Hn2|]. split; [exact Ha|].
        intros Hf. apply Forall_cons in Hf as [_ Hf]. auto.
Qed.

(** A certificate is for the host if one of its alternative names is, or, where
    none is of the type of the host, its common name. *)
Definition for_host (peer : peer_certificate) : Prop :=
  let names := default [] (subject_alt_name peer) in
  accepted_in names \/
  Forall passes names /\ Forall (fun n => of_host_type host n = false) names /\
  exists n, common_name peer = Some (Some n) /\ names_host n.

Lemma guts_run peer e : exists rc seen e',
  pgtls_verify_peer_name_matches_certificate_guts host peer e = (Ok (rc, seen), e') /\
  (rc = 1 -> for_host peer) /\ (no_faults e -> for_host peer -> rc = 1).
Proof.
  unfold pgtls_verify_peer_name_matches_certificate_guts, for_host. cbv zeta. set (names := default [] (subject_alt_name peer)).
  assert (Hl : exists r e', (match subject_alt_name peer with
    | Some names => san_loop host names true (0%nat, None) | None => ret (0, true, (0%nat, None)) end) e = (Ok r, e') /\
    loop_result names true e r e').
  { unfold names. destruct (subject_alt_name peer) as [l|]; cbn [default from_option]; [apply san_loop_run|].
    exact (san_loop_run [] true (0%nat, None) e). }
  destruct Hl as ([[rc cn] seen] & e1 & E & H1 & H2 & H3 & H4). rewrite (bind_step _ _ _ _ _ E). cbv beta iota.
  assert (Hall : rc = 0 -> cn = true <-> Forall (fun n => of_host_type host n = false) names).
  { intros Hr. destruct (H3 Hr) as [_ ->]. cbn [andb]. rewrite forallb_forall, List.Forall_forall.
    split; intros Hx n Hn; apply negb_true_iff; auto. }
  destruct cn.
  - specialize (H2 eq_refl). subst rc. destruct (H3 eq_refl) as [Hp _]. pose proof (proj1 (Hall eq_refl) eq_refl) as Hty.
    assert (Hno : no_faults e -> ~ accepted_in names) by (intros Hn Ha; destruct (H4 Hn) as (_ & Ha' & _); discriminate (Ha' Ha)).
    destruct (common_name peer) as [d|].
    + destruct (decides_dns d e1) as (rc & o & e2 & E2 & Hy & _ & Hc). rewrite (bind_step _ _ _ _ _ E2). do 3 eexists.
      split; [reflexivity|]. cbn [fst]. split.
      * intros Hr. right. split; [exact Hp|]. split; [exact Hty|]. destruct d as [n|]; [|destruct (Hy Hr)]. exists n. split; [reflexivity|apply Hy, Hr].
      * intros Hn [Ha|(_ & _ & n & [= ->] & Hh)]; [destruct (Hno Hn Ha)|]. destruct (H4 Hn) as [Hn1 _]. apply (Hc Hn1). exact Hh.
    + do 3 eexists. split; [reflexivity|]. split; [discriminate|]. intros Hn [Ha|(_ & _ & n & [=] & _)]. destruct (Hno Hn Ha).
  - do 3 eexists. split; [reflexivity|]. split; [auto|]. intros Hn [Ha|(Hp & Hty & _)]; destruct (H4 Hn) as (_ & Ha' & Hp'); [auto|].
    discriminate (proj2 (Hall (Hp' Hp)) Hty).
Qed.
End Matching.

(** C13: equivalence.  With sslmode=verify-full libpq goes on only with a server
    whose certificate is for the host it was asked to connect to: the first of
    its alternative names that is not another's is the name of the host, a
    wildcard for it, or its address, or else no alternative name is of the type
    of the host and the common name is its name.  No name with a NUL byte is
    accepted.  Unless memory runs out it goes on with every such server. *)
Theorem server_name_verified `{Inet} (host : option bytes) (peer : peer_certificate) (e : env) :
  exists b e', pq_verify_peer_name_matches_certificate "verify-full" host peer e = (Ok b, e') /\
    (b = true -> exists h, host = Some h /\ h <> [] /\ for_host h peer) /\
    (no_faults e -> forall h, host = Some h -> h <> [] -> for_host h peer -> b = true).
Proof.
  unfold pq_verify_peer_name_matches_certificate. change (negb (String.eqb "verify-full" "verify-full")) with false. cbv iota.
  destruct host as [[|c h]|].
  1,3: do 2 eexists; (split; [reflexivity|]); split; [discriminate|]; intros _ h' [= <-]; contradiction.
  destruct (guts_run (c :: h) ltac:(discriminate) peer e) as (rc & seen & e' & E & Hs & Hc).
  exists (rc =? 1), e'. split; [mrun E; reflexivity|]. split.
  - intros Hr. apply Z.eqb_eq in Hr. exists (c :: h). split; [reflexivity|]. split; [discriminate|auto].
  - intros Hn h' [= <-] _ Hf. apply Z.eqb_eq. auto.
Qed.

(** The label that a wildcard stands for may be followed by a second dot. *)
Lemma wildcard_takes_two_dots :
  wildcard_certificate_match (bytes_of_string "*.example.com") (bytes_of_string "www..example.com") = true.
Proof. reflexivity. Qed.

(** ** Logins with a certificate *)

Lemma open_server_peer_run port cert e port' e' : open_server_peer port cert e = (Ok (0, port'), e') ->
  port' = set_peer port (cert_x509 <$> cert) None None false /\ cert = None \/
  exists c dn, cert = Some c /\ port' = set_peer port (Some (cert_x509 c)) (subject_cn c) (Some dn) true /\ subject_dn c = Some dn /\
    ~ In 0 dn /\ forall cn, subject_cn c = Some cn -> ~ In 0 cn.
Proof.
  unfold open_server_peer. cbv zeta. destruct cert as [c|]; [|intros [= <- _]; auto]. intros E. right.
  assert (Hsub : forall cn s, (let! bio := attempt in
    if negb bio then ret (-1, set_peer port (Some (cert_x509 c)) None None false)
    else let! printed := attempt in
      match (if printed then subject_dn c else None) with
      | None => ret (-1, set_peer port (Some (cert_x509 c)) None None false)
      | Some dn => if negb (length dn =? length (cstring dn))%nat
                   then do! elog LOG "SSL certificate's distinguished name contains embedded null" in
                        ret (-1, set_peer port (Some (cert_x509 c)) None None false)
                   else ret (0, set_peer port (Some (cert_x509 c)) cn (Some dn) true)
      end) s = (Ok (0, port'), e') ->
    exists dn, port' = set_peer port (Some (cert_x509 c)) cn (Some dn) true /\ subject_dn c = Some dn /\ ~ In 0 dn).
  { intros cn s Es. minv Es. destruct a; [|discriminate Es]. cbn [negb] in Es. minv Es.
    destruct a, (subject_dn c) as [dn|]; try discriminate Es.
    destruct (Nat.eqb_spec (length dn) (length (cstring dn))) as [Hz|]; [|discriminate Es]. injection Es as <- _.
    exists dn. split; [reflexivity|]. split; [reflexivity|]. apply length_cstring. exact Hz. }
  destruct (subject_cn c) as [cn|] eqn:Hcn.
  - minv E. destruct a; [|discriminate E]. cbn [negb] in E.
    destruct (Nat.eqb_spec (length cn) (length (cstring cn))) as [Hz|]; [|discriminate E].
    destruct (Hsub _ _ E) as (dn & -> & Hd & Hn). exists c, dn. rewrite Hcn. repeat split; auto.
    intros cn' [= <-]. apply length_cstring. exact Hz.
  - destruct (Hsub _ _ E) as (dn & -> & Hd & Hn). exists c, dn. rewrite Hcn. repeat split; auto. discriminate.
Qed.

Section CertificateLogin.
  Context `{CL : CryptoLaws} `{DL : DigestLaws} `{SP : Saslprep} `{RX : Regex} `{RO : Roles} `{OB : Objects}.
  Variable parsed_ident_lines : list IdentLine.
  Variable other_method : Port -> list (Z * bytes) -> M auth_state (Z * list auth_request).

(** C14: safety.  From the handshake to the login: whoever is let in under a
    pqc-cert line has presented a certificate whose signature algorithm is on
    the post-quantum list and whose common name or subject, whichever the line
    selects, is the whole name of the role, without a NUL byte that could cut
    it short; and the identity on record is the subject of this certificate. *)
Theorem certificate_names_role opts checks ct fields loaded mock enc now port cert e port' e1 msgs sent s' :
  finish_hba_line opts checks ct uaPQCCert fields = Some (hba port) ->
  open_server_peer port cert e = (Ok (0, port'), e1) ->
  ClientAuthentication parsed_ident_lines other_method loaded mock enc now port' msgs (e1, None) = (Ok sent, s') ->
  exists c dn alg, cert = Some c /\ ssl_in_use port = true /\
    signature_algorithm (cert_x509 c) = Some alg /\ is_pqc_signature_algorithm alg = true /\
    match clientcertname (hba port) with clientCertCN => subject_cn c | clientCertDN => subject_dn c end = Some (user_name port) /\
    user_name port <> [] /\ ~ In 0 (user_name port) /\
    subject_dn c = Some dn /\ ~ In 0 dn /\ snd s' = Some (dn, uaPQCCert).
Proof.
  intros Hl Ho Ha.
  assert (Hp : hba port' = hba port /\ user_name port' = user_name port /\ ssl_in_use port' = ssl_in_use port).
  { apply open_server_peer_run in Ho as [[-> _]|(c & dn & _ & -> & _)]; repeat split. }
  destruct Hp as (Hh & Hu & Hs). rewrite <- Hh in Hl.
  apply (pqc_cert_login parsed_ident_lines other_method _ _ _ _ _ _ _ _ _ _ _ _ _ Hl) in Ha as (_ & _ & dn & [Htls Hv [Hne Hn] Hd (x & alg & Hx & Halg & Hq)] & ->).
  apply open_server_peer_run in Ho as [[-> _]|(c & dn' & -> & -> & Hdn & Hz & Hcn)]; [discriminate Hv|].
  cbn in Hd, Hx, Hn, Hne, Htls. injection Hd as ->. injection Hx as <-. exists c, dn, alg. unfold peer_username in Hn. cbn in Hn.
  assert (Hsel : match clientcertname (hba port) with clientCertCN => subject_cn c | clientCertDN => subject_dn c end = Some (user_name port))
    by (destruct (clientcertname (hba port)); [exact Hn|rewrite Hdn; exact Hn]).
  repeat split; auto. destruct (clientcertname (hba port)); [exact (Hcn _ Hsel)|]. rewrite Hdn in Hsel. injection Hsel as <-. exact Hz.
Qed.
End CertificateLogin.

(** ** Witnesses *)

Import Toy ToyDigests.
#[local] Existing Instances no_regex one_role one_object.

Definition cert_line : HbaLine := mkHba ctHostSSL uaPQCCert None clientCertFull clientCertCN.

Definition alice_certificate : client_certificate := mkClientCert (Some alice) (Some alice_dn) (mkX509 7 None).

Lemma certificate_names_role_witness : exists port',
  open_server_peer (mkPort cert_line alice true None None false None None) (Some alice_certificate) quiet = (Ok (0, port'), quiet) /\
  ClientAuthentication [] no_method true [] PASSWORD_TYPE_SCRAM_SHA_384 0 port' [] (quiet, None) =
    (Ok [AUTH_REQ_OK], (quiet, Some (alice_dn, uaPQCCert))) /\
  exists c dn alg, Some alice_certificate = Some c /\ signature_algorithm (cert_x509 c) = Some alg /\ subject_cn c = Some alice /\
    subject_dn c = Some dn.
Proof.
  eexists. split; [reflexivity|]. split; [vm_compute; reflexivity|].
  destruct (certificate_names_role [] no_method (fun _ _ _ => false) (fun _ => true) ctHostSSL
    [bytes_of_string "clientcert=verify-full"] true [] PASSWORD_TYPE_SCRAM_SHA_384 0
    (mkPort cert_line alice true None None false None None) (Some alice_certificate) quiet
    (set_peer (mkPort cert_line alice true None None false None None) (Some (mkX509 7 None)) (Some alice) (Some alice_dn) true)
    quiet [] [AUTH_REQ_OK] (quiet, Some (alice_dn, uaPQCCert)))
    as (c & dn & alg & Hc & _ & Ha & _ & Hn & _ & _ & Hd & _); [reflexivity|reflexivity|vm_compute; reflexivity|].
  exists c, dn, alg. auto.
Defined.
