(* ===== verification/FePassword.v ===== *)
(** * Passwords set by a client (src/interfaces/libpq/fe-auth.c, fe-auth-scram.c)

    [PQencryptPasswordConn], with which psql's \password and other clients turn a
    new password into the secret they send, and [pg_fe_scram_build_secret].  The
    query that asks the server for its setting is a parameter; the statement
    that changes the password is not modelled. *)
From Stdlib Require Import ZArith Lia Bool String List.
From stdpp Require Import base gmap list strings.
From S2P Require Import Prelude CryptoIface Env CString Base64 MasterKeyFile ScramSecret CryptoPolicy.
Import ListNotations.
Local Open Scope Z_scope.
Local Open Scope pg_scope.

(** The result of a query: rows of values, or another status. *)
Inductive PGresult :=
| PGRES_TUPLES_OK (rows : list (list bytes))
| PGRES_OTHER.

Definition MAX_ALGORITHM_NAME_LEN : Z := 50.

Section Client.
  Context `{Crypto} `{Digests} `{Saslprep}.
  Variable PQexec : string -> M env (option PGresult).

(** Where the server raises an error, the client returns NULL; the result is
    allocated once the keys are derived. *)
Definition fe_scram_build_secret (t : pg_cryptohash_type) (key_length : Z) (salt : bytes) (iterations : Z)
    (password : bytes) : M env (option bytes) :=
  let! secret :=
    pg_try (let! s := scram_build_secret t key_length salt iterations password in ret (Some s)) (fun _ => ret None) in
  match secret with
  | None => ret None
  | Some s => let! result := attempt in ret (if result then Some s else None)
  end.

Definition pg_fe_scram_build_secret (password : bytes) (iterations : Z) : M env (option bytes) :=
  let! saslprep := attempt in
  if negb saslprep then ret None
  else
    let password := prepared password in
    let! saltbuf := RAND_bytes SCRAM_DEFAULT_SALT_LEN in
    match saltbuf with
    | None => ret None
    | Some saltbuf => fe_scram_build_secret PG_SHA256 SCRAM_SHA_256_KEY_LEN saltbuf iterations password
    end.

(** What the server says of its parameter. *)
Definition ask_server : M env (option bytes) :=
  let! res := PQexec "show password_encryption" in
  match res with
  | None | Some PGRES_OTHER => ret None
  | Some (PGRES_TUPLES_OK [[val]]) => if MAX_ALGORITHM_NAME_LEN <? blen val then ret None else ret (Some val)
  | Some (PGRES_TUPLES_OK _) => ret None
  end.

Definition PQencryptPasswordConn (scram_sha_256_iterations : Z) (passwd user : bytes) (algorithm : option bytes)
    : M env (option bytes) :=
  let! algorithm := match algorithm with Some a => ret (Some a) | None => ask_server end in
  match algorithm with
  | None => ret None
  | Some algorithm =>
      let named (name : string) : bool := bytes_eqb algorithm (bytes_of_string name) in
      if named "scram-sha-256"%string then pg_fe_scram_build_secret passwd scram_sha_256_iterations
      else if named "on"%string || named "off"%string || named "md5"%string then
        let! crypt_pwd := attempt in
        if crypt_pwd then pg_md5_encrypt passwd user else ret None
      else ret None
  end.
End Client.

(** ** What the client computes the server accepts *)

Section Accepted.
  Context `{CL : CryptoLaws} `{DL : DigestLaws} `{SP : Saslprep}.
  Variable PQexec : string -> M env (option PGresult).

Lemma fe_secret_ok passwd iterations e : no_faults e ->
  let salt := RAND (draws e) SCRAM_DEFAULT_SALT_LEN in
  let S := Hi (prepared passwd) PG_SHA256 salt iterations in
  exists e', pg_fe_scram_build_secret passwd iterations e =
    (Ok (Some (secret_text PG_SHA256 iterations salt (StoredKey PG_SHA256 S) (ServerKey PG_SHA256 S))), e').
Proof.
  intros Hn salt S. unfold pg_fe_scram_build_secret. mrun (attempt_no_faults e Hn). cbn [negb]. cbv zeta.
  mrun (RAND_bytes_ok SCRAM_DEFAULT_SALT_LEN e Hn). fold salt. set (e1 := set_draws _ e).
  assert (Hn1 : no_faults e1) by exact Hn. unfold fe_scram_build_secret, pg_try.
  pose proof (build_ok PG_SHA256 salt iterations (prepared passwd) e1 ltac:(unfold supported; tauto) (RAND_bytes_wf _ _) Hn1) as Hb.
  change (digest_length PG_SHA256) with SCRAM_SHA_256_KEY_LEN in Hb.
  assert (Ht : (let! s := scram_build_secret PG_SHA256 SCRAM_SHA_256_KEY_LEN salt iterations (prepared passwd) in ret (Some s)) e1
    = (Ok (Some (secret_text PG_SHA256 iterations salt (StoredKey PG_SHA256 S) (ServerKey PG_SHA256 S))), e1))
    by (mrun Hb; reflexivity).
  eexists. unfold bind at 1. rewrite Ht. mrun (attempt_no_faults e1 Hn1). reflexivity.
Qed.

Lemma md5_ok passwd user e : no_faults e ->
  pg_md5_encrypt passwd user e = (Ok (Some (bytes_of_string "md5" ++ to_hex (DIGEST PG_MD5 (passwd ++ user)))), e).
Proof.
  intros Hn. unfold pg_md5_encrypt. mrun (attempt_no_faults e Hn). cbn [negb].
  mrun (cryptohash_ok PG_MD5 [passwd ++ user] 16 e Hn ltac:(cbn; lia)). cbn [concat]. rewrite app_nil_r. reflexivity.
Qed.

(** Where nothing fails, a client asked for scram-sha-256 or md5
    computes a secret that a server, whatever kind it is set to store, takes over
    as it is, and against which it verifies the password. *)
Theorem client_secret_accepted iterations passwd user algorithm e :
  no_faults e -> 1 <= iterations < 2 ^ 31 -> In algorithm (map bytes_of_string ["scram-sha-256"; "md5"; "on"; "off"]%string) ->
  exists secret e', PQencryptPasswordConn PQexec iterations passwd user (Some algorithm) e = (Ok (Some secret), e') /\
    (forall iterations' target s, encrypt_password iterations' target user secret s = (Ok secret, s)) /\
    forall s, no_faults s -> plain_crypt_verify user secret passwd s = (Ok true, s).
Proof.
  intros Hn Hit Hin.
  assert (Hkeep : forall secret, get_password_type secret <> PASSWORD_TYPE_PLAINTEXT ->
    forall iterations' target s, encrypt_password iterations' target user secret s = (Ok secret, s))
    by (intros secret Ht iterations' target s; unfold encrypt_password; destruct (get_password_type secret); [contradiction|reflexivity..]).
  destruct Hin as [<-|Hin].
  - set (salt := RAND (draws e) SCRAM_DEFAULT_SALT_LEN). set (S := Hi (prepared passwd) PG_SHA256 salt iterations).
    destruct (fe_secret_ok passwd iterations e Hn) as (e' & Hrun). fold salt in Hrun. fold S in Hrun.
    eexists _, e'. split; [exact Hrun|].
    assert (Hne : salt <> []) by (intros E; pose proof (RAND_length (draws e) SCRAM_DEFAULT_SALT_LEN) as El; fold salt in El; rewrite E in El; discriminate).
    pose proof (RAND_bytes_wf (draws e) SCRAM_DEFAULT_SALT_LEN : wf_bytes salt = true) as Hwf.
    assert (Hsup : supported PG_SHA256) by (unfold supported; tauto).
    assert (Ht : get_password_type (secret_text PG_SHA256 iterations salt (StoredKey PG_SHA256 S) (ServerKey PG_SHA256 S))
      = PASSWORD_TYPE_SCRAM_SHA_256)
      by (eapply type_of_secret; [exact Hsup|apply (parse_built PG_SHA256 salt iterations (prepared passwd)); auto; lia|reflexivity]).
    split; [apply Hkeep; rewrite Ht; discriminate|]. intros s Hs. unfold plain_crypt_verify. rewrite Ht.
    apply verify_secret; auto. lia.
  - assert (Hrun : PQencryptPasswordConn PQexec iterations passwd user (Some algorithm) e
      = (let! crypt_pwd := attempt in if crypt_pwd then pg_md5_encrypt passwd user else ret None) e)
      by (destruct Hin as [<-|[<-|[<-|[]]]]; reflexivity).
    eexists _, e. split; [rewrite Hrun; mrun (attempt_no_faults e Hn); apply md5_ok; exact Hn|].
    pose proof (type_of_md5 (DIGEST PG_MD5 (passwd ++ user)) (DIGEST_length _ _)) as Ht.
    split; [apply Hkeep; rewrite Ht; discriminate|]. intros s Hs. unfold plain_crypt_verify. rewrite Ht.
    mrun (md5_ok passwd user s Hs). unfold ret. rewrite bytes_eqb_refl. reflexivity.
Qed.
End Accepted.

(** ** Under a policy *)

Section Refused.
  Context `{CR : Crypto} `{DG : Digests} `{SP : Saslprep}.

(** A server that answers with the value of its parameter. *)
Definition answers (c : gucs) (PQexec : string -> M env (option PGresult)) : Prop := forall e,
  exists e', PQexec "show password_encryption"%string e =
    (Ok (Some (PGRES_TUPLES_OK [[default [] (bytes_of_string ∘ p_value <$> c !! "password_encryption"%string)]])), e').

(** C34: error.  Once the policy fips-pqc-level3 or fips-pqc-level5 is set, a client
    that leaves the choice to the server cannot compute a secret for any
    password: libpq does not know the kind of secret that the policy demands.
    This holds whatever the configuration file, the command line, databases,
    roles and the start of a connection set afterwards, as long as they do not
    name another policy than custom (after which the values of the policy stay)
    and the session itself does not set password_encryption, which would
    outrank the policy. *)
Theorem policy_refuses_client_passwords (c0 : gucs) policy context source ops :
  settled c0 -> In policy ["fips-pqc-level3"; "fips-pqc-level5"]%string -> may_set PGC_SIGHUP context = true ->
  (forall r, c0 !! "crypto_policy"%string = Some r -> p_source r <= source) -> source <= PGC_S_OVERRIDE ->
  Forall outranked ops ->
  exists c1 c2, set_config_option "crypto_policy" (Some policy) context source c0 = (Ok 1, c1) /\
    run_settings ops c1 = (Ok tt, c2) /\
    forall PQexec iterations passwd user e, answers c2 PQexec ->
      exists e', PQencryptPasswordConn PQexec iterations passwd user None e = (Ok None, e').
Proof.
  intros Hc Hp Hctx Hle Hmax Ho.
  assert (Hin : In policy crypto_policy_options) by (destruct Hp as [<-|[<-|[]]]; cbn; tauto).
  destruct (set_policy_run c0 policy context source Hc Hin Hctx Hle Hmax) as (c1 & H1 & Hc1 & Hh1).
  destruct (run_settings_hold policy ops c1 Hc1 Hh1 Ho) as (c2 & H2 & _ & Hh2).
  exists c1, c2. split; [exact H1|]. split; [exact H2|]. intros PQexec iterations passwd user e Hans.
  assert (Hv : exists r, c2 !! "password_encryption"%string = Some r /\ p_value r = "scram-sha-384"%string)
    by (destruct Hp as [<-|[<-|[]]]; cbn in Hh2; apply Forall_cons in Hh2 as [(r & Hr & Hv & _) _]; eauto).
  destruct Hv as (r & Hr & Hv). destruct (Hans e) as (e' & E). rewrite Hr in E. cbn [fmap option_fmap option_map default from_option compose] in E.
  rewrite Hv in E. exists e'. unfold PQencryptPasswordConn, ask_server. rewrite bind_assoc. mrun E. reflexivity.
Qed.
End Refused.

(** ** Witnesses *)

Import Toy ToyDigests.

Definition fips_server (s : string) : M env (option PGresult) := ret (Some (PGRES_TUPLES_OK [[bytes_of_string "scram-sha-384"]])).

Lemma client_secret_accepted_witness : exists secret e',
  PQencryptPasswordConn fips_server 3 [112; 119] [117] (Some (bytes_of_string "scram-sha-256")) quiet = (Ok (Some secret), e') /\
  plain_crypt_verify [117] secret [112; 119] quiet = (Ok true, quiet).
Proof.
  destruct (client_secret_accepted fips_server 3 [112; 119] [117] (bytes_of_string "scram-sha-256") quiet)
    as (secret & e' & Hr & _ & Hv); [reflexivity|lia|left; reflexivity|].
  exists secret, e'. split; [exact Hr|]. apply Hv. reflexivity.
Defined.

Lemma policy_refuses_client_passwords_witness : exists c1 c2 e',
  set_config_option "crypto_policy" (Some "fips-pqc-level5"%string) PGC_SIGHUP PGC_S_FILE boot_gucs = (Ok 1, c1) /\
  run_settings file_settings c1 = (Ok tt, c2) /\ answers c2 fips_server /\
  PQencryptPasswordConn fips_server 4096 [112; 119] [117] None quiet = (Ok None, e').
Proof.
  destruct (policy_refuses_client_passwords boot_gucs "fips-pqc-level5" PGC_SIGHUP PGC_S_FILE file_settings)
    as (c1 & c2 & H1 & H2 & Hd).
  - exact boot_settled.
  - right. left. reflexivity.
  - reflexivity.
  - intros r Hr. vm_compute in Hr. injection Hr as <-. discriminate.
  - discriminate.
  - repeat apply Forall_cons_2; try apply Forall_nil_2; (split; [reflexivity|]); try discriminate.
    intros _. eexists. split; reflexivity.
  - assert (Hans : answers c2 fips_server).
    { intros e. exists e. assert (Hc2 : c2 = snd (run_settings file_settings c1)) by (rewrite H2; reflexivity).
      assert (Hc1 : c1 = snd (set_config_option "crypto_policy" (Some "fips-pqc-level5"%string) PGC_SIGHUP PGC_S_FILE boot_gucs))
        by (rewrite H1; reflexivity).
      rewrite Hc2, Hc1. vm_compute. reflexivity. }
    destruct (Hd fips_server 4096 [112; 119] [117] quiet Hans) as (e' & He). exists c1, c2, e'. auto.
Defined.
